(* ===== verification/_CoqProject ===== *)
-Q . S2P
Prelude.v
Effects.v
Tasks.v
Errors.v
Paths.v
Text.v
Sys.v
Wire.v
Kernel.v
WireSpec.v
Workspace.v
Policy.v
Limits.v
Linux.v
Darwin.v
DarwinSpec.v
Executor.v
ExecutorSpec.v
ExecutorRun.v
Server.v
ServerSpec.v
Client.v
Pipeline.v
PipelineSpec.v
Images.v
ImagesSpec.v
Chaos.v
Controller.v
Handlers.v
Control.v
Arch.v
Overlay.v
Vm.v
Engines.v
Cli.v
PolicySpec.v
Daemon.v
Python.v
PythonSpec.v
Sdk.v
