(* ===== verification/Prelude.v ===== *)
(** * kuda-sandbox: a verification library

    kuda-sandbox runs commands of an agent in a sandbox: as a process with
    namespaces, cgroups, resource limits and a system-call filter, in a
    container with its own root, or in a small virtual machine.  A daemon
    offers the same over a Unix socket with a binary frame protocol.  This
    library models the Rust code under [src/crates] and proves what it
    promises.  [core/] below stands for [src/crates/kuda-sandbox-core/src].

    ** How the code is modelled

    The crate is straight-line code around calls to the operating system.  A
    function that makes calls is a tree of type [prog sys A] ([Effects],
    [Sys]): it returns, makes a call and goes on with the answer, or stops
    because its fuel is spent or because it panics.  [Result] and the [?]
    operator are the type [result] and the notation [x <-? p; k] (written with
    an arrow).  A theorem about such a function has the form [wp ok f Q]: for
    every answer of the system that [ok] admits, [Q] holds of the outcome and
    of the list of calls made.  [any_response] admits everything; [sys_ok]
    adds the documented bounds of [recvmsg], [sendmsg] and [read].  Witnesses
    run the functions against a concrete system with [run].

    Code outside [src] is a call of [sys] (kernel, standard library, HTTP, tar,
    libseccomp, nix) or a class that is a parameter: [Json] and [ControlJson]
    (serde), [PyJson] and [PyControl] (Python's json), [Base64], [ImageDeps]
    (SHA-256, HTTP status texts).  The platform the code is
    compiled for is the class [Target], so a theorem holds for every platform
    unless it says which.  Where several tasks share state, the tasks are a
    step relation: [Pipeline], [Handlers], and [Tasks] for the accept loops.
    The Python client that the crate generates is modelled in the same way,
    over the calls of the Python runtime.

    ** The files

    - [Prelude]: results, 64-bit integers, bytes and their little-endian form.
    - [Effects]: programs with calls, their runs, the [wp] rules, properties of
      single calls ([emits]), termination ([returns]), and properties of
      histories ([safe], [guards]).
    - [Tasks]: any number of tasks that run the same program, their calls
      interleaved in one log; what [wp] and [guards] give for each task.
    - [Errors], [Paths], [Text], [Sys]: [core/error.rs]; [std::path]; strings
      and UTF-8; the calls.
    - [Wire], [Kernel], [WireSpec]: the frames of [core/net/wire.rs]; a model
      of the socket between two peers; their theorems.
    - [Workspace]: [classify_workspace] of [wire.rs].
    - [Policy], [Limits]: [core/policy.rs]; [core/resource_limits.rs].
    - [Linux]: Modules [Cgroups], [Namespaces] and [Seccomp] for the files of
      [core/linux].
    - [Darwin], [DarwinSpec]: the text of the profile of
      [core/darwin/profile.rs]; a reader of such texts, and what the profile
      says when it is read.
    - [Executor], [ExecutorSpec], [ExecutorRun]: the process executor of
      [core/executor.rs]; the jail; the life of a child.
    - [Server], [ServerSpec], [Client]: [serve_connection], [handle_exec],
      [handle_file_get] and [BinaryClient] of [wire.rs].
    - [Pipeline]: the readers, the bounded channel and the forwarder of one
      execution, for every schedule; [PipelineSpec] shows that it forwards
      exactly what the sequential model of [Executor] and [Server] allows.
    - [Images], [ImagesSpec]: [core/rootfs/image_manager.rs].
    - [Overlay]: [core/rootfs/overlay_rootfs.rs] and [core/linux/overlay.rs].
    - [Engines]: [execute_container] of [executor.rs], which calls [Images],
      [Overlay] and [Executor].
    - [Vm]: the files of [core/vm] and [execute_microvm].
    - [Arch]: the files of [core/arch].
    - [Chaos]: [core/net/chaos.rs] and [core/net/topology.rs].
    - [Controller], [Handlers], [Control]: [core/net/controller.rs], one handler
      alone, all of them between their lock operations, and a connection.
    - [Cli]: the subcommands of [kuda-sandbox-daemon/src/main.rs].
    - [PolicySpec]: the memory limit that a remote request can ask for.
    - [Daemon]: the accept loops of [main.rs] and [controller.rs], and [main].
    - [Python], [PythonSpec]: the code of the client in [core/net/sdk.rs], with a
      model of its socket, and its theorems.
    - [Sdk]: the text of that client and [write_python_sdk].

    ** What is shown

    - The jail.  No program runs before all its limits, namespaces, container
      root and filter are in place, locally, for a client of the daemon and in
      a container, and each layer fails closed: [execution_jailed],
      [remote_commands_jailed], [container_isolated], [seccomp_fail_closed],
      [create_cgroup_fail_closed], [apply_setrlimit_spec],
      [environment_scrubbed], [profile_denials_last].  What memory a peer can
      get, up to the wrap-around, is [remote_memory_limit].  The jails and the
      command lines are written out in the statements, and not by the functions
      that make them.
    - The life of an execution: time limit, kill, the attempts to clean up and
      the reported result, in [execution_lifecycle], [container_isolated],
      [microvm_session] and [run_wraps_chaos].  A clean-up is a call whose
      failure the code ignores or reports: these theorems say that it is made,
      not that it succeeds.
    - The protocol.  A sender puts out the documented bytes or refuses
      ([send_frame_exact]); frames round-trip through any socket that delivers
      in order, whatever the pieces ([frames_roundtrip]); a receiver accepts
      nothing else, stays inside its buffer ([recv_frame_sound]) and always
      comes to an end ([recv_frame_terminates]); a whole session arrives as it
      was sent ([session_roundtrip], [exec_answer], [file_get_answer],
      [fetch_complete]).
    - The Python client: its frames are the daemon's
      ([python_framing_equivalent]), it understands the daemon's answer
      ([python_session_roundtrip]) and reports nothing else
      ([python_exec_sound]), its [fetch_file] cannot work
      ([python_fetch_never_succeeds]), and a socket path that is UTF-8 survives
      its way into the file ([sdk_socket_path_roundtrip]).
    - Confinement of the daemon's clients: [connection_confined], for all
      connections at once and while they run [daemon_connections_confined], and the
      guard on workspaces, on canonical paths ([classify_canonical_safe]) and
      on others ([classify_dotdot_accepts]).
    - Concurrency: output is complete and in order on every schedule
      ([streaming_complete], [pipeline_equals_sequential]); a failed forward blocks
      ([failed_forward_blocks]); the handlers of the controller are
      linearizable and finish ([handlers_linearizable], [handlers_finish]), and
      a connection answers line by line ([control_answers_lines]).
    - Images and layers: [unpack_archive_atomic], [alpine_verified_before_use],
      [cleanup_ignores_failed_unmounts].
    - The tools: [detect_architecture_spec], [guest_command_quoted].
    - Further contracts are lemmas beside their code:
      [classify_workspace_spec], [presets_baseline], [container_starts_at_root],
      [image_path_below_cache], [detect_spec], [spawn_container_fs_spec],
      [apply_chaos_exact], [listener_start_safe], [wrap_if_needed_spec],
      [control_connections_answered], [main_serves].

    ** Bounds

    Fuel appears where the code loops on input: reads of a frame, requests of
    a connection, frames of a session, entries of an archive, chunks of a
    body.  With no fuel left a program stops with [Running], which no theorem
    takes for a result.  [send_loop] has three rounds, which its theorem shows
    to be enough; [read_full] gets one round more than the bytes it asks for,
    likewise.  [frames_roundtrip] and [session_roundtrip] show that enough
    fuel exists for the exchange, and [recv_frame_terminates] how much a receive
    can need.  [_recv_exact] of the Python client gets as many rounds as bytes,
    which its lemma shows to be enough.  Sums and products of [u64] wrap around as in
    a release build.

    ** What is not modelled

    The re-exports of [core/lib.rs]; log messages of level [info]; the option
    parser; the unit tests inside the source files.  Strings are byte strings,
    paths included; [display_path] of [Text] is the lossy [Path::display], used
    wherever the code formats a path.  Lower case is that of ASCII.  The handle
    of a child is a value of [tokio]: [drop_child] of [Executor] is its
    documented end, which kills an unreaped child when the command has
    [kill_on_drop].  The execution and the forwarder of [handle_exec] are joined
    futures: [Server] runs them one after the other, [Pipeline] interleaved.
    [DrainPipes], the end of the two readers, always answers in [Executor]; that
    the readers can block for ever is shown in [Pipeline]. *)
From stdpp Require Export base tactics list strings pretty numbers decidable.
From Stdlib Require Export ZArith Lia Bool.
From Stdlib Require Import Strings.Byte.
From Stdlib Require Strings.String.
#[export] Set Warnings "-level-tolerance,-clear-no-such-hyp".

(** ** Results *)

Inductive result (A E : Type) : Type :=
| Ok (a : A)
| Err (e : E).
Arguments Ok {A E} a.
Arguments Err {A E} e.

Definition result_map {A B E} (f : A -> B) (r : result A E) : result B E :=
  match r with Ok a => Ok (f a) | Err e => Err e end.

Definition map_err {A E F} (f : E -> F) (r : result A E) : result A F :=
  match r with Ok a => Ok a | Err e => Err (f e) end.

Definition result_bind {A B E} (r : result A E) (k : A -> result B E) : result B E :=
  match r with Ok a => k a | Err e => Err e end.

Definition is_ok {A E} (r : result A E) : bool :=
  match r with Ok _ => true | Err _ => false end.
Definition is_err {A E} (r : result A E) : bool := negb (is_ok r).

Definition ok_option {A E} (r : result A E) : option A :=
  match r with Ok a => Some a | Err _ => None end.

(** ** Machine integers *)

Definition u64_max : Z := 18446744073709551615.
Definition wrap_u64 (z : Z) : Z := z mod 2 ^ 64.
Definition saturating_u64 (z : Z) : Z := Z.min z u64_max.
Definition in_u64 (z : Z) : Prop := (0 <= z <= u64_max)%Z.
Definition in_u32 (z : Z) : Prop := (0 <= z < 2 ^ 32)%Z.

Lemma wrap_u64_id z : in_u64 z -> wrap_u64 z = z.
Proof. unfold in_u64, u64_max, wrap_u64. intros. apply Z.mod_small. lia. Qed.

Lemma wrap_u64_in z : in_u64 (wrap_u64 z).
Proof.
  unfold in_u64, u64_max, wrap_u64.
  pose proof (Z.mod_pos_bound z (2 ^ 64) ltac:(lia)). lia.
Qed.

(** ** Bytes *)

Abbreviation byte := Corelib.Init.Byte.byte.
Abbreviation bytes := (list Corelib.Init.Byte.byte).

#[export] Instance byte_eq_decision : EqDecision byte := Byte.byte_eq_dec.

Definition Z_of_byte (b : byte) : Z := Z.of_N (Byte.to_N b).

Definition byte_of_Z (z : Z) : byte :=
  match Byte.of_N (Z.to_N (z mod 256)) with Some b => b | None => Byte.x00 end.

Lemma Z_of_byte_range b : (0 <= Z_of_byte b < 256)%Z.
Proof. unfold Z_of_byte. pose proof (Byte.to_N_bounded b). lia. Qed.

Lemma Z_of_byte_of_Z z : Z_of_byte (byte_of_Z z) = (z mod 256)%Z.
Proof.
  unfold Z_of_byte, byte_of_Z.
  pose proof (Z.mod_pos_bound z 256 ltac:(lia)) as Hb.
  destruct (Byte.of_N (Z.to_N (z mod 256))) as [b|] eqn:E.
  - apply Byte.to_of_N in E. rewrite E, Z2N.id by lia. done.
  - apply Byte.of_N_None_iff in E. lia.
Qed.

Lemma byte_of_Z_of_byte b : byte_of_Z (Z_of_byte b) = b.
Proof.
  unfold byte_of_Z. rewrite Z.mod_small by apply Z_of_byte_range.
  unfold Z_of_byte. rewrite N2Z.id, Byte.of_to_N. done.
Qed.

Lemma Z_of_byte_inj a b : Z_of_byte a = Z_of_byte b -> a = b.
Proof. intros H. rewrite <- (byte_of_Z_of_byte a), H. apply byte_of_Z_of_byte. Qed.

(** [to_le_bytes n z] is the [n]-byte little-endian form of [z], and
    [from_le_bytes] reads one back; [from_be_bytes] reads big-endian. *)
Fixpoint to_le_bytes (n : nat) (z : Z) : bytes :=
  match n with
  | O => []
  | S n => byte_of_Z z :: to_le_bytes n (z / 256)
  end.

Fixpoint from_le_bytes (l : bytes) : Z :=
  match l with
  | [] => 0
  | b :: l => Z_of_byte b + 256 * from_le_bytes l
  end%Z.

Definition from_be_bytes (l : bytes) : Z := from_le_bytes (reverse l).

Lemma length_to_le_bytes n z : length (to_le_bytes n z) = n.
Proof. revert z. induction n; intros; simpl; auto. Qed.

Lemma from_to_le_bytes n z :
  from_le_bytes (to_le_bytes n z) = (z mod 256 ^ Z.of_nat n)%Z.
Proof.
  revert z. induction n as [|n IH]; intros z.
  - simpl. by rewrite Z.mod_1_r.
  - cbn [to_le_bytes from_le_bytes]. rewrite IH, Z_of_byte_of_Z.
    rewrite Nat2Z.inj_succ, Z.pow_succ_r by lia.
    rewrite Z.rem_mul_r by lia. lia.
Qed.

Lemma from_le_bytes_range l : (0 <= from_le_bytes l < 256 ^ Z.of_nat (length l))%Z.
Proof.
  induction l as [|b l IH]; [simpl; lia|].
  cbn [from_le_bytes length]. rewrite Nat2Z.inj_succ, Z.pow_succ_r by lia.
  pose proof (Z_of_byte_range b). lia.
Qed.

Lemma to_from_le_bytes l : to_le_bytes (length l) (from_le_bytes l) = l.
Proof.
  induction l as [|b l IH]; [done|]. cbn [length from_le_bytes to_le_bytes].
  pose proof (Z_of_byte_range b). f_equal.
  - apply Z_of_byte_inj. rewrite Z_of_byte_of_Z, Z.mul_comm, Z_mod_plus_full.
    by apply Z.mod_small.
  - rewrite Z.mul_comm, Z.div_add, Z.div_small, Z.add_0_l by lia. done.
Qed.

Lemma u64_le_roundtrip z : in_u64 z -> from_le_bytes (to_le_bytes 8 z) = z.
Proof.
  intros H. rewrite from_to_le_bytes. apply Z.mod_small.
  unfold in_u64, u64_max in H. change (256 ^ Z.of_nat 8)%Z with (2 ^ 64)%Z. lia.
Qed.

(** ** Strings as byte sequences *)

Definition bytes_of_string (s : string) : bytes := String.list_byte_of_string s.
Definition string_of_bytes (l : bytes) : string := String.string_of_list_byte l.

Lemma string_of_bytes_of_string s : string_of_bytes (bytes_of_string s) = s.
Proof. apply String.string_of_list_byte_of_string. Qed.

Lemma bytes_of_string_of_bytes l : bytes_of_string (string_of_bytes l) = l.
Proof. apply String.list_byte_of_string_of_list_byte. Qed.

#[global] Arguments String.append : simpl nomatch.

Lemma append_assoc (a b c : string) : a +:+ (b +:+ c) = (a +:+ b) +:+ c.
Proof. induction a as [|x a IH]; simpl; [done|]. by rewrite IH. Qed.

Lemma append_nil_r (a : string) : a +:+ "" = a.
Proof. induction a as [|x a IH]; simpl; [done|]. by rewrite IH. Qed.
