(* ===== verification/Effects.v ===== *)
(** * Programs with effects

    The crate is mostly straight-line code around operating-system calls.  A
    piece of it is a tree of type [prog E A]: it returns, performs a call [e]
    of the signature [E] and continues with the response, or stops early
    because its fuel is spent ([Running]) or because it panicked or left the
    bounds of a buffer ([Panicked], [OutOfBounds]).

    Two readings of a program are used.  [run h p s] executes it against a
    handler [h], a function that answers each call in a state, so witnesses
    evaluate.  [wp ok p Q] says that [Q] holds of the outcome and of the list
    of calls performed, whatever the responses are, as long as each one is
    admissible for [ok]: theorems stated with it hold for every behaviour of
    the operating system. *)
From S2P Require Export Prelude.
From Stdlib Require Logic.Eqdep.

Inductive stop : Type :=
| Running
| Panicked
| OutOfBounds.

Inductive prog (E : Type -> Type) (A : Type) : Type :=
| Ret (a : A)
| Halt (s : stop)
| Vis (R : Type) (e : E R) (k : R -> prog E A).
Arguments Ret {E A} a.
Arguments Halt {E A} s.
Arguments Vis {E A R} e k.

Inductive outcome (A : Type) : Type :=
| Done (a : A)
| Stopped (s : stop).
Arguments Done {A} a.
Arguments Stopped {A} s.

Inductive event (E : Type -> Type) : Type :=
| Ev (R : Type) (e : E R) (r : R).
Arguments Ev {E R} e r.

(** Two records of the same call agree on its response. *)
Lemma Ev_inj {E : Type -> Type} {R} (e : E R) (r r' : R) : Ev e r = Ev e r' -> r = r'.
Proof. intros H. injection H as H. by apply Eqdep.EqdepTheory.inj_pair2 in H. Qed.

Abbreviation trace E := (list (event E)).

Fixpoint prog_bind {E A B} (k : A -> prog E B) (p : prog E A) : prog E B :=
  match p with
  | Ret a => k a
  | Halt s => Halt s
  | Vis e f => Vis e (fun r => prog_bind k (f r))
  end.

#[export] Instance prog_mret E : MRet (prog E) := fun A a => Ret a.
#[export] Instance prog_mbind E : MBind (prog E) := fun A B k p => prog_bind k p.

Definition call {E : Type -> Type} {R} (e : E R) : prog E R := Vis e Ret.

(** The [?] operator: go on with the value, or return the error. *)
Definition try_bind {E A B Er} (k : A -> prog E (result B Er))
    (p : prog E (result A Er)) : prog E (result B Er) :=
  prog_bind (fun r => match r with Ok a => k a | Err e => Ret (Err e) end) p.

Notation "x ←? y ; z" := (try_bind (fun x => z) y)
  (at level 20, y at level 100, z at level 200, only parsing) : stdpp_scope.
Notation "'ret?' e" := (Ret (Ok e)) (at level 10, only parsing).

(** [p.map_err(f)] *)
Definition map_err_p {E A Er Er'} (f : Er -> Er') (p : prog E (result A Er))
    : prog E (result A Er') :=
  prog_bind (fun r => Ret (map_err f r)) p.

(** [let _ = p;] *)
Definition ignore {E A B} (p : prog E A) (q : prog E B) : prog E B :=
  prog_bind (fun _ => q) p.
Notation "'let_' p ; q" := (ignore p q)
  (at level 20, p at level 100, q at level 200, only parsing) : stdpp_scope.

(** ** Running against a handler *)

Definition handler (E : Type -> Type) (S : Type) : Type :=
  forall R, E R -> S -> R * S.

Fixpoint run {E S A} (h : handler E S) (p : prog E A) (s : S)
    : outcome A * trace E * S :=
  match p with
  | Ret a => (Done a, [], s)
  | Halt x => (Stopped x, [], s)
  | Vis e k =>
      let (r, s) := h _ e s in
      let '(o, t, s) := run h (k r) s in
      (o, Ev e r :: t, s)
  end.

Definition run_out {E S A} (h : handler E S) (p : prog E A) (s : S) : outcome A :=
  (run h p s).1.1.
Definition run_trace {E S A} (h : handler E S) (p : prog E A) (s : S) : trace E :=
  (run h p s).1.2.
Definition run_state {E S A} (h : handler E S) (p : prog E A) (s : S) : S :=
  (run h p s).2.

(** ** Every behaviour of the environment *)

(** A contract says which responses to a call are possible. *)
Definition contract (E : Type -> Type) : Type := forall R, E R -> R -> Prop.
Definition any_response {E : Type -> Type} : contract E := fun _ _ _ => True.

Fixpoint wp {E A} (ok : contract E) (p : prog E A)
    (Q : outcome A -> trace E -> Prop) : Prop :=
  match p with
  | Ret a => Q (Done a) []
  | Halt s => Q (Stopped s) []
  | Vis e k => forall r, ok _ e r -> wp ok (k r) (fun o t => Q o (Ev e r :: t))
  end.

Section Rules.
Context {E : Type -> Type} (ok : contract E).

Lemma wp_mono {A} (p : prog E A) (Q Q' : outcome A -> trace E -> Prop) :
  wp ok p Q -> (forall o t, Q o t -> Q' o t) -> wp ok p Q'.
Proof.
  revert Q Q'. induction p as [a|s|R e k IH]; simpl; intros Q Q' H HQ; auto.
  intros r Hr. eapply IH; [apply H, Hr|]. auto.
Qed.

Lemma wp_and {A} (p : prog E A) (Q Q' : outcome A -> trace E -> Prop) :
  wp ok p Q -> wp ok p Q' -> wp ok p (fun o t => Q o t /\ Q' o t).
Proof.
  revert Q Q'. induction p as [a|s|R e k IH]; simpl; intros Q Q' H H'; auto.
Qed.

Lemma wp_true {A} (p : prog E A) (Q : outcome A -> trace E -> Prop) :
  (forall o t, Q o t) -> wp ok p Q.
Proof. revert Q. induction p; simpl; auto. Qed.

Lemma wp_bind {A B} (k : A -> prog E B) (p : prog E A) Q :
  wp ok p (fun o t => match o with
                      | Done a => wp ok (k a) (fun o' t' => Q o' (t ++ t'))
                      | Stopped s => Q (Stopped s) t
                      end) ->
  wp ok (prog_bind k p) Q.
Proof.
  revert Q. induction p as [a|s|R e f IH]; simpl; intros Q H; auto.
Qed.

(** A response of a handler that keeps the contract is one of those
    quantified over, so what [wp] says holds of the run. *)
Lemma wp_run {S A} (h : handler E S) (p : prog E A) (s : S) Q :
  (forall R (e : E R) s, ok R e (h R e s).1) ->
  wp ok p Q -> Q (run_out h p s) (run_trace h p s).
Proof.
  intros Hok. unfold run_out, run_trace. revert s Q.
  induction p as [a|x|R e k IH]; simpl; intros s Q H; auto.
  specialize (Hok R e s). destruct (h R e s) as [r s'] eqn:Eh. simpl in Hok.
  specialize (IH r s' _ (H r Hok)).
  destruct (run h (k r) s') as [[o t] s'']. simpl in *. exact IH.
Qed.
End Rules.

Lemma wp_weaken {E A} (ok ok' : contract E) (p : prog E A) Q :
  (forall R (e : E R) r, ok' R e r -> ok R e r) -> wp ok p Q -> wp ok' p Q.
Proof.
  intros Hok. revert Q. induction p as [a|s|R e k IH]; simpl; intros Q H; eauto.
Qed.

Lemma run_bind {E S A B} (h : handler E S) (k : A -> prog E B) (p : prog E A) s :
  run h (prog_bind k p) s =
  match run h p s with
  | (Done a, t, s') => let '(o, t', s'') := run h (k a) s' in (o, t ++ t', s'')
  | (Stopped x, t, s') => (Stopped x, t, s')
  end.
Proof.
  revert s. induction p as [a|x|R e f IH]; intros s; simpl; [|done|].
  - by destruct (run h (k a) s) as [[? ?] ?].
  - destruct (h R e s) as [r s']. rewrite IH.
    destruct (run h (f r) s') as [[[a|x] t] s'']; [|done].
    by destruct (run h (k a) s'') as [[? ?] ?].
Qed.

(** ** Properties of single calls

    [emits ok P p]: every call that [p] performs satisfies [P], on every
    behaviour and also when [p] stops early. *)
Definition emits {E A} (ok : contract E) (P : event E -> Prop) (p : prog E A) : Prop :=
  wp ok p (fun _ t => Forall P t).

Section Emits.
Context {E : Type -> Type} (ok : contract E) (P : event E -> Prop).

Lemma emits_ret {A} (a : A) : emits ok P (Ret a).
Proof. constructor. Qed.

Lemma emits_halt {A} s : emits ok P (@Halt E A s).
Proof. constructor. Qed.

Lemma emits_vis {A R} (e : E R) (k : R -> prog E A) :
  (forall r, ok R e r -> P (Ev e r)) -> (forall r, ok R e r -> emits ok P (k r)) ->
  emits ok P (Vis e k).
Proof.
  intros HP Hk r Hr. eapply wp_mono; [apply (Hk r Hr)|].
  intros ? t Ht. constructor; auto.
Qed.

Lemma emits_bind {A B} (k : A -> prog E B) (p : prog E A) :
  emits ok P p -> (forall a, emits ok P (k a)) -> emits ok P (prog_bind k p).
Proof.
  intros Hp Hk. apply wp_bind. eapply wp_mono; [exact Hp|].
  intros [a|s] t Ht; simpl in *; auto.
  eapply wp_mono; [apply Hk|]. intros ? t' Ht'. by apply Forall_app.
Qed.

(** As [emits_bind], with what is known of the result of the first part. *)
Lemma emits_bind_post {A B} (k : A -> prog E B) (p : prog E A) (R : A -> Prop) :
  wp ok p (fun o t => Forall P t /\ match o with Done a => R a | Stopped _ => True end) ->
  (forall a, R a -> emits ok P (k a)) -> emits ok P (prog_bind k p).
Proof.
  intros Hp Hk. apply wp_bind. eapply wp_mono; [exact Hp|].
  intros [a|s] t [Ht Ha]; simpl in *; auto.
  eapply wp_mono; [apply Hk, Ha|]. intros ? t' Ht'. by apply Forall_app.
Qed.

Lemma emits_mono (P' : event E -> Prop) {A} (p : prog E A) :
  (forall e, P e -> P' e) -> emits ok P p -> emits ok P' p.
Proof.
  intros HP H. eapply wp_mono; [exact H|]. intros ? t. apply Forall_impl. auto.
Qed.
End Emits.

Create HintDb emits discriminated.
#[export] Hint Resolve emits_ret emits_halt emits_bind : emits.

(** Unfold the notations for sequencing down to [prog_bind]. *)
Ltac prog_unfold :=
  unfold mbind, prog_mbind, mret, prog_mret, try_bind, ignore, map_err_p, call in *.

(** Symbolic execution of a [wp] goal: take the response of the next call. *)
Ltac wp_simpl := prog_unfold; cbn [prog_bind wp].
Tactic Notation "wp_call" "as" simple_intropattern(pat) :=
  wp_simpl; intros pat ?; wp_simpl.

Ltac emits_step :=
  lazymatch goal with
  | |- emits _ _ (Ret _) => apply emits_ret
  | |- emits _ _ (Halt _) => apply emits_halt
  | |- emits _ _ (Vis _ _) => apply emits_vis; [intros ? ?|intros ? ?]
  | |- emits _ _ (prog_bind _ _) => apply emits_bind; [|intros ?]
  | |- emits _ _ (match ?x with _ => _ end) => destruct x eqn:?
  end.

(** ** Programs that always return

    [returns ok p]: no behaviour of the environment makes [p] stop early. *)
Definition returns {E A} (ok : contract E) (p : prog E A) : Prop :=
  wp ok p (fun o _ => exists a, o = Done a).

Section Returns.
Context {E : Type -> Type} (ok : contract E).

Lemma returns_ret {A} (a : A) : returns ok (Ret a).
Proof. by exists a. Qed.

Lemma returns_vis {A R} (e : E R) (k : R -> prog E A) :
  (forall r, ok R e r -> returns ok (k r)) -> returns ok (Vis e k).
Proof. intros H r Hr. exact (H r Hr). Qed.

Lemma returns_bind {A B} (k : A -> prog E B) (p : prog E A) :
  returns ok p -> (forall a, returns ok (k a)) -> returns ok (prog_bind k p).
Proof.
  intros Hp Hk. apply wp_bind. eapply wp_mono; [exact Hp|].
  intros o t [a ->]. apply Hk.
Qed.
End Returns.

Ltac returns_step :=
  lazymatch goal with
  | |- returns _ (Ret _) => apply returns_ret
  | |- returns _ (Vis _ _) => apply returns_vis; intros ? ?
  | |- returns _ (prog_bind _ _) => apply returns_bind; [|intros ?]
  | |- returns _ (match ?x with _ => _ end) => destruct x eqn:?
  end.

(** ** Histories

    [safe P h t]: every call of [t] satisfies [P] with the calls before it, the
    earlier ones in [h] included.  [guards P h p] says so of all behaviours of
    a program started after [h]. *)
Definition safe {E} (P : trace E -> event E -> Prop) (h t : trace E) : Prop :=
  forall t1 e t2, t = t1 ++ e :: t2 -> P (h ++ t1) e.

Definition guards {E A} (ok : contract E) (P : trace E -> event E -> Prop) (h : trace E)
    (p : prog E A) : Prop :=
  wp ok p (fun _ t => safe P h t).

(** An element of a concatenation is in one of the parts. *)
Lemma app_split {A} (a b t1 t2 : list A) x :
  a ++ b = t1 ++ x :: t2 ->
  (exists m, a = t1 ++ x :: m) \/ (exists m, t1 = a ++ m /\ b = m ++ x :: t2).
Proof.
  revert t1. induction a as [|y a IH]; intros t1 H; [right; by exists t1|].
  destruct t1 as [|z t1]; cbn in H; injection H as -> H; [left; by exists a|].
  destruct (IH _ H) as [[m ->]|(m & -> & ->)]; [left; by exists m|right; by exists m].
Qed.

Section Histories.
Context {E : Type -> Type} (ok : contract E) (P : trace E -> event E -> Prop).

Lemma safe_nil h : safe P h [].
Proof. intros t1 e t2 H. by destruct t1. Qed.

Lemma safe_app h t t' : safe P h t -> safe P (h ++ t) t' -> safe P h (t ++ t').
Proof.
  intros Ht Ht' t1 e t2 H. apply app_split in H as [[m Hm]|(m & -> & Hm)].
  - by eapply Ht.
  - rewrite app_assoc. by eapply Ht'.
Qed.

Lemma safe_forall h t : Forall (fun e => forall h, P h e) t -> safe P h t.
Proof. intros H t1 e t2 ->. apply Forall_app in H as [_ H]. inversion H; subst. auto. Qed.

Lemma guards_emits {A} h (p : prog E A) :
  emits ok (fun e => forall h, P h e) p -> guards ok P h p.
Proof. intros H. eapply wp_mono; [exact H|]. intros ? t. apply safe_forall. Qed.

Lemma guards_ret {A} h (a : A) : guards ok P h (Ret a).
Proof. apply safe_nil. Qed.

Lemma guards_vis {A R} h (e : E R) (k : R -> prog E A) :
  (forall r, ok R e r -> P h (Ev e r) /\ guards ok P (h ++ [Ev e r]) (k r)) ->
  guards ok P h (Vis e k).
Proof.
  intros H r Hr. destruct (H r Hr) as [He Hk].
  eapply wp_mono; [exact Hk|]. intros ? t Ht. apply (safe_app h [_]); [|done].
  intros t1 e' t2 Heq. destruct t1 as [|x t1]; [|by destruct t1].
  injection Heq as <- _. by rewrite app_nil_r.
Qed.

(** What is known of the first part's result may speak of its calls. *)
Lemma guards_bind_post {A B} h (k : A -> prog E B) (p : prog E A) (Q : A -> trace E -> Prop) :
  guards ok P h p -> wp ok p (fun o t => forall a, o = Done a -> Q a t) ->
  (forall a t, Q a t -> guards ok P (h ++ t) (k a)) -> guards ok P h (prog_bind k p).
Proof.
  intros Hp HQ Hk. apply wp_bind. eapply wp_mono; [apply wp_and; [exact Hp|exact HQ]|].
  intros [a|s] t [Ht Ha]; [|done].
  eapply wp_mono; [apply (Hk a t), Ha; done|]. intros ? t' Ht'. by apply safe_app.
Qed.

Lemma guards_bind {A B} h (k : A -> prog E B) (p : prog E A) :
  guards ok P h p -> (forall a t, guards ok P (h ++ t) (k a)) -> guards ok P h (prog_bind k p).
Proof.
  intros Hp Hk. eapply (guards_bind_post _ _ _ (fun _ _ => True)); [done| |auto].
  apply wp_true. auto.
Qed.
End Histories.

(** ** Behaviours

    [behaves ok p o t]: [p] can end as [o] after the calls [t]. *)
Definition behaves {E A} (ok : contract E) (p : prog E A) (o : outcome A) (t : trace E) : Prop :=
  forall Q : outcome A -> trace E -> Prop, wp ok p Q -> Q o t.

Lemma wp_behaves {E A} (ok : contract E) (p : prog E A) :
  wp ok p (fun o t => behaves ok p o t).
Proof.
  induction p as [a|s|R e k IH]; [by intros Q|by intros Q|].
  intros r Hr. eapply wp_mono; [apply IH|]. intros o t H Q HQ.
  exact (H (fun o t => Q o (Ev e r :: t)) (HQ r Hr)).
Qed.

(** Decide which call of an explicit trace an event is. *)
Ltac ev_simpl := repeat
  match goal with
  | H : _ ∈ _ :: _ |- _ => apply elem_of_cons in H as [H|H]
  | H : _ ∈ [] |- _ => by apply elem_of_nil in H
  | H : Ev _ _ = Ev _ _ |- _ => discriminate H
  | H : Ev ?e _ = Ev ?e _ |- _ => apply Ev_inj in H
  | H : Ev (?c ?p) _ = Ev (?c ?q) _ |- _ =>
      assert (p = q) by (by injection H); subst
  | H : Ok _ = Ok _ |- _ => injection H as H; try subst
  | H : Ok _ = Err _ |- _ => discriminate H
  | H : Err _ = Ok _ |- _ => discriminate H
  | H : Done _ = Done _ |- _ => injection H as H; try subst
  | H : Some _ = None |- _ => discriminate H
  | H : true = false |- _ => discriminate H
  | H : false = true |- _ => discriminate H
  end.
