(* ===== verification/Tasks.v ===== *)
(** * Tasks that share a process

    An accept loop spawns one task for each peer.  A [pool] is the program each
    task has left to run, with one log of all the calls made so far, each under
    the number of the task that made it.  A step spawns a task or lets one task
    make its next call; the scheduler is arbitrary.

    What [wp] says of the program alone holds of each task's share of the log,
    because a response is only assumed admissible: the interference of the other
    tasks is one of the behaviours that [wp] quantifies over. *)
From S2P Require Export Effects.
From stdpp Require Import relations.

Section Tasks.
Context {E : Type -> Type} {A : Type} (ok : contract E).

Record pool : Type := mk_pool {
  running : list (prog E A);
  log : list (nat * event E)
}.

Definition empty_pool : pool := mk_pool [] [].

Definition spawn_task (p : prog E A) (s : pool) : pool := mk_pool (running s ++ [p]) (log s).

(** The calls of task [i], in their order. *)
Definition history (i : nat) (l : list (nat * event E)) : trace E :=
  omap (fun x => if decide (x.1 = i) then Some x.2 else None) l.
#[local] Arguments history : simpl never.

Inductive call_step : pool -> pool -> Prop :=
| call_made i R (e : E R) k r ts l :
    ts !! i = Some (Vis e k) -> ok R e r ->
    call_step (mk_pool ts l) (mk_pool (<[i := k r]> ts) (l ++ [(i, Ev e r)])).

Inductive pool_step (server : prog E A) : pool -> pool -> Prop :=
| step_spawn s : pool_step server s (spawn_task server s)
| step_call s s' : call_step s s' -> pool_step server s s'.

Definition reachable (server : prog E A) (s : pool) : Prop :=
  rtc (pool_step server) empty_pool s.

(** ** Histories *)

Lemma history_app i l l' : history i (l ++ l') = history i l ++ history i l'.
Proof. apply omap_app. Qed.

Lemma history_one i j e : history i [(j, e)] = if decide (j = i) then [e] else [].
Proof. unfold history. cbn. by destruct (decide (j = i)). Qed.

(** A place in the log of a call of [i] is a place in the history of [i]. *)
Lemma history_split i e l1 l2 :
  history i (l1 ++ (i, e) :: l2) = history i l1 ++ e :: history i l2.
Proof.
  rewrite history_app. f_equal. change ((i, e) :: l2) with ([(i, e)] ++ l2).
  by rewrite history_app, history_one, decide_True.
Qed.

(** ** What a pool keeps *)

(** What each task has done and has yet to do meets the promise of the server;
    there are no calls of a task that was not spawned. *)
Definition keeps (Q : outcome A -> trace E -> Prop) (s : pool) : Prop :=
  forall i, match running s !! i with
            | Some p => wp ok p (fun o t => Q o (history i (log s) ++ t))
            | None => history i (log s) = []
            end.

Lemma keeps_step server Q s s' :
  wp ok server Q -> pool_step server s s' -> keeps Q s -> keeps Q s'.
Proof.
  intros Hserver Hstep Hs. destruct Hstep as [s|? ? [i R e k r ts l Hi Hr]]; intros j; cbn.
  - specialize (Hs j). destruct (decide (j = length (running s))) as [->|Hj].
    + rewrite lookup_ge_None_2 in Hs by done.
      rewrite lookup_app_r by done. rewrite Nat.sub_diag. cbn. eapply wp_mono; [exact Hserver|].
      intros o t. by rewrite Hs.
    + destruct (running s !! j) as [p|] eqn:Hp.
      * by rewrite (lookup_app_l_Some _ _ _ _ Hp).
      * apply lookup_ge_None in Hp. by rewrite lookup_ge_None_2 by (rewrite length_app; cbn; lia).
  - rewrite history_app, history_one. specialize (Hs j). cbn in Hs.
    destruct (decide (i = j)) as [->|Hij].
    + rewrite list_lookup_insert_eq by (by eapply lookup_lt_Some).
      rewrite Hi in Hs. eapply wp_mono; [exact (Hs r Hr)|]. intros o t. by rewrite <- app_assoc.
    + rewrite app_nil_r, list_lookup_insert_ne by done. exact Hs.
Qed.

Lemma keeps_reachable server Q s : wp ok server Q -> reachable server s -> keeps Q s.
Proof.
  intros Hserver Hs. unfold reachable in Hs.
  assert (keeps Q empty_pool) as H0 by (intros i; done). revert H0.
  induction Hs as [s|s1 s2 s3 H12 _ IH]; [done|]. intros H1. by eapply IH, keeps_step.
Qed.

(** A task that has returned did so as the server promises. *)
Lemma returned_keeps Q s i a :
  keeps Q s -> running s !! i = Some (Ret a) -> Q (Done a) (history i (log s)).
Proof. intros Hs Hi. specialize (Hs i). rewrite Hi in Hs. cbn in Hs. by rewrite app_nil_r in Hs. Qed.

(** ** Tasks that are still running

    An environment that can answer every call lets each task come to an end,
    so a promise about every call of a task holds already while it runs. *)
Definition responsive : Prop := forall R (e : E R), exists r, ok R e r.

Lemma wp_satisfiable (p : prog E A) Q : responsive -> wp ok p Q -> exists o t, Q o t.
Proof.
  intros Hresp. revert Q. induction p as [a|s|R e k IH]; cbn; intros Q HQ; [eauto..|].
  destruct (Hresp R e) as [r Hr]. destruct (IH r _ (HQ r Hr)) as (o & t & H). eauto.
Qed.

Lemma pool_guarded server P s i e l1 l2 :
  responsive -> guards ok P [] server -> reachable server s ->
  log s = l1 ++ (i, e) :: l2 -> P (history i l1) e.
Proof.
  intros Hresp Hserver Hs Hlog. apply (keeps_reachable _ _ _ Hserver) in Hs. specialize (Hs i).
  assert (exists t, safe P [] (history i (log s) ++ t)) as [t Ht].
  { destruct (running s !! i) as [p|].
    - destruct (wp_satisfiable _ _ Hresp Hs) as (o & t & H). by exists t.
    - rewrite Hs. exists []. apply safe_nil. }
  rewrite Hlog, history_split, <- app_assoc in Ht. exact (Ht _ _ _ eq_refl).
Qed.

(** ** Executable schedules *)

Inductive move : Type :=
| Spawn
| Work (i : nat).

Definition do_move {S} (h : handler E S) (server : prog E A) (m : move) (x : pool * S) : pool * S :=
  let (s, w) := x in
  match m with
  | Spawn => (spawn_task server s, w)
  | Work i =>
      match running s !! i with
      | Some (Vis e k) =>
          let (r, w) := h _ e w in
          (mk_pool (<[i := k r]> (running s)) (log s ++ [(i, Ev e r)]), w)
      | _ => x
      end
  end.

Definition run_moves {S} (h : handler E S) (server : prog E A) (ms : list move) (w : S) : pool :=
  (fold_left (fun x m => do_move h server m x) ms (empty_pool, w)).1.

Lemma run_moves_reachable {S} (h : handler E S) server ms w :
  (forall R (e : E R) w, ok R e (h R e w).1) -> reachable server (run_moves h server ms w).
Proof.
  intros Hok. unfold run_moves, reachable.
  assert (forall x, rtc (pool_step server) x.1
    (fold_left (fun x m => do_move h server m x) ms x).1) as Hx; [|apply (Hx (empty_pool, w))].
  induction ms as [|m ms IH]; intros x; cbn; [done|].
  etrans; [|apply IH]. destruct x as [[ts l] w0], m as [|i]; cbn; [apply rtc_once, (step_spawn _ (mk_pool ts l))|].
  destruct (ts !! i) as [[a|s|R e k]|] eqn:Hi; cbn; try done.
  specialize (Hok R e w0). destruct (h R e w0) as [r w1]. cbn. apply rtc_once. by do 2 constructor.
Qed.
End Tasks.
Arguments mk_pool {E A} running log.
Arguments running {E A} p.
Arguments log {E A} p.
