(* ===== verification/Errors.v ===== *)
(** * Errors of the crate

    [SandboxError] of [error.rs] and its [Display] text, and the operating
    system's own errors.  A comment [(* @src file:first-last symbol *)] before
    a definition names the lines it models; [core/] abbreviates
    [src/crates/kuda-sandbox-core/src/] and [daemon/] the daemon's. *)
From S2P Require Export Effects.
Open Scope string_scope.
Open Scope list_scope.

(** [std::io::Error]: the kind, as far as the crate looks at it, and the text. *)
Inductive io_kind : Type :=
| NotFound
| PermissionDenied
| WouldBlock
| OtherKind.

Record io_error : Type := mk_io_error { ioe_kind : io_kind; ioe_text : string }.

(** [nix::Error] is an errno; only its text is ever used. *)
Abbreviation nix_error := string.

Abbreviation io_result A := (result A io_error).
Abbreviation nix_result A := (result A nix_error).

(* @src core/error.rs:3-37 SandboxError *)
Inductive SandboxError : Type :=
| Io (e : io_error)
| Nix (e : nix_error)
| Serialization (e : string)
| Reqwest (e : string)
| SecurityViolation (msg : string)
| ResourceLimitExceeded (msg : string)
| Timeout (secs : Z)
| ProcessKilled (msg : string)
| SetupFailed (msg : string)
| Unsupported (msg : string)
| General (msg : string).

(* @src core/error.rs:5-36 Display for SandboxError *)
Definition display_error (e : SandboxError) : string :=
  match e with
  | Io e => "I/O error: " +:+ ioe_text e
  | Nix e => "Nix error: " +:+ e
  | Serialization e => "Serialization error: " +:+ e
  | Reqwest e => "HTTP client error: " +:+ e
  | SecurityViolation m => "Security violation: " +:+ m
  | ResourceLimitExceeded m => "Resource limit exceeded: " +:+ m
  | Timeout s => "Execution timeout after " +:+ pretty s +:+ " seconds"
  | ProcessKilled m => "Process killed: " +:+ m
  | SetupFailed m => "Sandbox setup failed: " +:+ m
  | Unsupported m => "Platform unsupported or feature disabled: " +:+ m
  | General m => "General error: " +:+ m
  end.

Abbreviation Result A := (result A SandboxError).

(** [?] on an [io::Result] or a [nix::Result]: the [From] conversions. *)
Definition from_io {A} (r : io_result A) : Result A := map_err Io r.
Definition from_nix {A} (r : nix_result A) : Result A := map_err Nix r.

(** An error that the caller treats as a refusal on security grounds. *)
Definition is_security_violation {A} (r : Result A) : bool :=
  match r with Err (SecurityViolation _) => true | _ => false end.
