(* ===== verification/Paths.v ===== *)
(** * [std::path] as the crate uses it

    A path is its byte string.  [components] splits it the way
    [Path::components] does on Unix: repeated separators and [.] segments
    disappear, except a leading [.], and [..] is kept.  [starts_with] and the
    equality of paths compare components; [path_join] appends text. *)
From S2P Require Export Prelude.
From Stdlib Require Export Ascii.
Open Scope string_scope.
Open Scope list_scope.

Abbreviation path := string.

(** [str::split(c)]: the pieces between occurrences of [c], at least one. *)
Fixpoint split_on (c : ascii) (s : string) : list string :=
  match s with
  | EmptyString => [EmptyString]
  | String a s =>
      if decide (a = c) then EmptyString :: split_on c s
      else match split_on c s with
           | [] => [String a EmptyString]
           | p :: ps => String a p :: ps
           end
  end.

Inductive component : Type :=
| RootDir
| CurDir
| ParentDir
| Normal (name : string).
#[export] Instance component_eq_dec : EqDecision component.
Proof. solve_decision. Defined.

Definition is_absolute (p : path) : bool :=
  match p with String "/" _ => true | _ => false end.

Definition segment_component (s : string) : option component :=
  if decide (s = "") then None
  else if decide (s = ".") then None
  else if decide (s = "..") then Some ParentDir
  else Some (Normal s).

Definition components (p : path) : list component :=
  let segs := split_on "/" p in
  (if is_absolute p then [RootDir]
   else match segs with "." :: _ => [CurDir] | _ => [] end)
  ++ omap segment_component segs.

Definition has_parent_dir (p : path) : bool :=
  existsb (fun c => bool_decide (c = ParentDir)) (components p).

(** [Path::starts_with] and [Path == Path]. *)
Fixpoint component_prefix (base p : list component) : bool :=
  match base, p with
  | [], _ => true
  | b :: base, c :: p => bool_decide (b = c) && component_prefix base p
  | _ :: _, [] => false
  end.
Definition path_starts_with (p base : path) : bool :=
  component_prefix (components base) (components p).
Definition path_eqb (p q : path) : bool := bool_decide (components p = components q).

Fixpoint last_char (s : string) : option ascii :=
  match s with
  | EmptyString => None
  | String a EmptyString => Some a
  | String _ s => last_char s
  end.

(** [Path::join] *)
Definition path_join (p q : path) : path :=
  if is_absolute q then q
  else match last_char p with
       | None => q
       | Some c => if decide (c = "/"%char) then p +:+ q else p +:+ "/" +:+ q
       end.

(** ** Lemmas *)

Lemma component_prefix_spec base p :
  component_prefix base p = true <-> exists rest, p = base ++ rest.
Proof.
  revert p. induction base as [|b base IH]; intros p; simpl.
  - split; eauto.
  - destruct p as [|c p]; simpl.
    + split; [done|]. by intros [? ?].
    + rewrite andb_true_iff, IH, bool_decide_eq_true. split.
      * intros [-> [rest ->]]. by exists rest.
      * intros [rest [= -> ->]]. eauto.
Qed.

Lemma path_starts_with_spec p base :
  path_starts_with p base = true <-> exists rest, components p = components base ++ rest.
Proof. apply component_prefix_spec. Qed.

Lemma path_starts_with_refl p : path_starts_with p p = true.
Proof. apply path_starts_with_spec. exists []. by rewrite app_nil_r. Qed.

Lemma path_starts_with_trans p q r :
  path_starts_with p q = true -> path_starts_with q r = true ->
  path_starts_with p r = true.
Proof.
  rewrite !path_starts_with_spec. intros [x Hx] [y Hy].
  exists (y ++ x). by rewrite Hx, Hy, <- app_assoc.
Qed.

Lemma split_on_nonempty c s : split_on c s <> [].
Proof.
  destruct s as [|a s]; simpl; [done|].
  case_decide; [done|]. by destruct (split_on c s).
Qed.

(** Splitting after a separator: the pieces on both sides. *)
Lemma split_on_app c a b :
  split_on c (a +:+ String c b) = split_on c a ++ split_on c b.
Proof.
  induction a as [|x a IH]; simpl.
  - by rewrite decide_True by done.
  - rewrite IH. case_decide; [done|].
    pose proof (split_on_nonempty c a). by destruct (split_on c a).
Qed.

Lemma last_char_split s c :
  last_char s = Some c -> exists s', s = s' +:+ String c "".
Proof.
  revert c. induction s as [|a s IH]; intros c H; [done|].
  destruct s as [|b s].
  - injection H as ->. by exists "".
  - destruct (IH c H) as [s' Hs']. exists (String a s'). simpl. by rewrite Hs'.
Qed.

(** What a relative path contributes when it is joined to another one. *)
Definition tail_components (q : path) : list component :=
  omap segment_component (split_on "/" q).

Lemma tail_components_relative q :
  is_absolute q = false ->
  components q = tail_components q \/ components q = CurDir :: tail_components q.
Proof.
  intros H. unfold components, tail_components. rewrite H.
  repeat case_match; auto.
Qed.

Definition root_prefix (p : path) (segs : list string) : list component :=
  if is_absolute p then [RootDir]
  else match segs with "." :: _ => [CurDir] | _ => [] end.

Lemma root_prefix_app p r segs segs' :
  p <> "" -> segs <> [] -> root_prefix (p +:+ r) (segs ++ segs') = root_prefix p segs.
Proof. intros Hp Hs. unfold root_prefix. destruct p; [done|]. by destruct segs. Qed.

(** The first components of [s/q] are those of [s/]. *)
Lemma root_prefix_join s q :
  root_prefix ((s +:+ "/") +:+ q) (split_on "/" ((s +:+ "/") +:+ q))
  = root_prefix (s +:+ "/") (split_on "/" (s +:+ "/")).
Proof.
  rewrite <- append_assoc. change ("/" +:+ q) with (String "/" q).
  rewrite !split_on_app. pose proof (split_on_nonempty "/" s).
  destruct s as [|a s]; [done|].
  unfold root_prefix. cbn [String.append is_absolute].
  by destruct (split_on "/" (String a s)).
Qed.

Lemma components_alt p :
  components p = root_prefix p (split_on "/" p) ++ tail_components p.
Proof. done. Qed.

Lemma last_char_none p : last_char p = None -> p = "".
Proof.
  induction p as [|a p IH]; [done|]. simpl. destruct p; [done|].
  intros H. by specialize (IH H).
Qed.

(** Joining a relative path adds its components at the end. *)
Lemma components_join p q :
  is_absolute q = false -> p <> "" ->
  components (path_join p q) = components p ++ tail_components q.
Proof.
  intros Hq Hp. unfold path_join. rewrite Hq.
  destruct (last_char p) as [c|] eqn:El; [|by apply last_char_none in El].
  rewrite !components_alt. unfold tail_components. case_decide as Hc.
  - subst c. apply last_char_split in El as [s ->].
    pose proof (split_on_nonempty "/" s) as Hne.
    rewrite root_prefix_join by done.
    rewrite <- append_assoc. change (String "/" "" +:+ q) with (String "/" q).
    rewrite !split_on_app, !omap_app. simpl.
    by rewrite app_nil_r, app_assoc.
  - change ("/" +:+ q) with (String "/" q).
    rewrite split_on_app, omap_app, root_prefix_app by (done || apply split_on_nonempty).
    by rewrite app_assoc.
Qed.

Lemma join_starts_with p q :
  is_absolute q = false -> p <> "" -> path_starts_with (path_join p q) p = true.
Proof. intros Hq Hp. apply path_starts_with_spec. rewrite components_join; eauto. Qed.
