(* ===== verification/Text.v ===== *)
(** * [str] and [String] as the crate uses them

    UTF-8 validation and lossy decoding, trimming, searching.  A Rust string
    is its byte string; [from_utf8] accepts exactly the well-formed sequences
    of the Unicode standard's table 3-7, [from_utf8_lossy] replaces each
    maximal ill-formed part by U+FFFD. *)
From S2P Require Export Prelude.
From Stdlib Require Import Ascii.
Open Scope string_scope.
Open Scope list_scope.

Definition byte_in (lo hi : Z) (b : byte) : bool :=
  ((lo <=? Z_of_byte b) && (Z_of_byte b <=? hi))%Z.
Definition cont_byte : byte -> bool := byte_in 128 191.

(** The sequence at the head of a byte string: well formed and this long, or
    ill formed with a maximal part this long. *)
Inductive utf8_head : Type :=
| Good (n : nat)
| Bad (n : nat).

(** A multi-byte sequence: [first] constrains its second byte, [more] tells
    how many further continuation bytes follow. *)
Definition utf8_multi (first : byte -> bool) (more : nat) (l : bytes) : utf8_head :=
  match l with
  | b :: l =>
      if first b then
        match more, l with
        | O, _ => Good 2
        | S O, c :: _ => if cont_byte c then Good 3 else Bad 2
        | S (S _), c :: d :: _ =>
            if cont_byte c then (if cont_byte d then Good 4 else Bad 3) else Bad 2
        | S (S _), [c] => if cont_byte c then Bad 3 else Bad 2
        | _, [] => Bad 2
        end
      else Bad 1
  | [] => Bad 1
  end.

Definition utf8_step (b : byte) (l : bytes) : utf8_head :=
  if byte_in 0 127 b then Good 1
  else if byte_in 194 223 b then utf8_multi cont_byte 0 l
  else if byte_in 224 224 b then utf8_multi (byte_in 160 191) 1 l
  else if byte_in 237 237 b then utf8_multi (byte_in 128 159) 1 l
  else if byte_in 225 239 b then utf8_multi cont_byte 1 l
  else if byte_in 240 240 b then utf8_multi (byte_in 144 191) 2 l
  else if byte_in 241 243 b then utf8_multi cont_byte 2 l
  else if byte_in 244 244 b then utf8_multi (byte_in 128 143) 2 l
  else Bad 1.

Fixpoint utf8_valid_fuel (fuel : nat) (l : bytes) : bool :=
  match fuel, l with
  | _, [] => true
  | O, _ :: _ => false
  | S fuel, b :: l' =>
      match utf8_step b l' with
      | Good n => utf8_valid_fuel fuel (drop n l)
      | Bad _ => false
      end
  end.
Definition utf8_valid (l : bytes) : bool := utf8_valid_fuel (length l) l.

(** [String::from_utf8] *)
Definition from_utf8 (l : bytes) : option string :=
  if utf8_valid l then Some (string_of_bytes l) else None.

(** U+FFFD, the replacement character. *)
Definition replacement : bytes := [Byte.xef; Byte.xbf; Byte.xbd].

Fixpoint utf8_lossy_fuel (fuel : nat) (l : bytes) : bytes :=
  match fuel, l with
  | S fuel, b :: l' =>
      match utf8_step b l' with
      | Good n => take n l ++ utf8_lossy_fuel fuel (drop n l)
      | Bad n => replacement ++ utf8_lossy_fuel fuel (drop n l)
      end
  | _, _ => []
  end.

(** [String::from_utf8_lossy] *)
Definition from_utf8_lossy (l : bytes) : string :=
  string_of_bytes (utf8_lossy_fuel (length l) l).

(** ** Searching and trimming *)

Definition starts_with (s p : string) : bool := String.prefix p s.

(** [str::contains] *)
Fixpoint str_contains (s p : string) : bool :=
  starts_with s p || match s with EmptyString => false | String _ s => str_contains s p end.

(** The UTF-8 encodings of the characters with the White_Space property. *)
Definition white_space : list bytes :=
  [[Byte.x09]; [Byte.x0a]; [Byte.x0b]; [Byte.x0c]; [Byte.x0d]; [Byte.x20];
   [Byte.xc2; Byte.x85]; [Byte.xc2; Byte.xa0]; [Byte.xe1; Byte.x9a; Byte.x80];
   [Byte.xe2; Byte.x80; Byte.x80]; [Byte.xe2; Byte.x80; Byte.x81];
   [Byte.xe2; Byte.x80; Byte.x82]; [Byte.xe2; Byte.x80; Byte.x83];
   [Byte.xe2; Byte.x80; Byte.x84]; [Byte.xe2; Byte.x80; Byte.x85];
   [Byte.xe2; Byte.x80; Byte.x86]; [Byte.xe2; Byte.x80; Byte.x87];
   [Byte.xe2; Byte.x80; Byte.x88]; [Byte.xe2; Byte.x80; Byte.x89];
   [Byte.xe2; Byte.x80; Byte.x8a]; [Byte.xe2; Byte.x80; Byte.xa8];
   [Byte.xe2; Byte.x80; Byte.xa9]; [Byte.xe2; Byte.x80; Byte.xaf];
   [Byte.xe2; Byte.x81; Byte.x9f]; [Byte.xe3; Byte.x80; Byte.x80]].

(** How many bytes of white space [l] begins with, [0] when it does not. *)
Definition white_prefix (tokens : list bytes) (l : bytes) : nat :=
  match filter (fun t => take (length t) l = t) tokens with
  | t :: _ => length t
  | [] => 0
  end.

Fixpoint trim_tokens (fuel : nat) (tokens : list bytes) (l : bytes) : bytes :=
  match fuel with
  | O => l
  | S fuel =>
      match white_prefix tokens l with
      | O => l
      | n => trim_tokens fuel tokens (drop n l)
      end
  end.

(** [str::trim]: white space goes from both ends; the end is trimmed on the
    reversed bytes, with the encodings reversed too. *)
Definition trim_bytes (l : bytes) : bytes :=
  let l := trim_tokens (length l) white_space l in
  reverse (trim_tokens (length l) (map reverse white_space) (reverse l)).
Definition trim (s : string) : string := string_of_bytes (trim_bytes (bytes_of_string s)).

(** [to_lowercase], on the ASCII letters. *)
Definition ascii_lower (c : ascii) : ascii :=
  if ((65 <=? nat_of_ascii c) && (nat_of_ascii c <=? 90))%nat
  then ascii_of_nat (nat_of_ascii c + 32) else c.
Fixpoint to_lowercase (s : string) : string :=
  match s with
  | EmptyString => EmptyString
  | String c s => String (ascii_lower c) (to_lowercase s)
  end.

(** ** Paths as text

    A path need not be UTF-8.  [Path::display] and [Path::to_string_lossy] give
    its text with U+FFFD for each ill-formed part. *)
Definition display_path (p : string) : string := from_utf8_lossy (bytes_of_string p).

Lemma utf8_step_good b l n : utf8_step b l = Good n -> (0 < n)%nat.
Proof. unfold utf8_step, utf8_multi. intros H. repeat case_match; simplify_eq; lia. Qed.

Lemma utf8_step_bad b l n : utf8_step b l = Bad n -> (0 < n)%nat /\ (127 < Z_of_byte b)%Z.
Proof.
  unfold utf8_step. destruct (byte_in 0 127 b) eqn:Hb; [done|]. intros H. split.
  - unfold utf8_multi in H. repeat case_match; simplify_eq; lia.
  - pose proof (Z_of_byte_range b). unfold byte_in in Hb.
    apply andb_false_iff in Hb as [Hb|Hb]; apply Z.leb_gt in Hb; lia.
Qed.

(** A sequence that is replaced does not begin with the replacement. *)
Lemma utf8_bad_not_replacement b l n rest : utf8_step b l = Bad n -> b :: l <> replacement ++ rest.
Proof. intros H [= -> ->]. vm_compute in H. done. Qed.

Lemma utf8_lossy_good fuel b l n :
  utf8_step b l = Good n ->
  utf8_lossy_fuel (S fuel) (b :: l) = take n (b :: l) ++ utf8_lossy_fuel fuel (drop n (b :: l)).
Proof. intros H. cbn [utf8_lossy_fuel]. by rewrite H. Qed.

Lemma utf8_lossy_bad fuel b l n :
  utf8_step b l = Bad n ->
  utf8_lossy_fuel (S fuel) (b :: l) = replacement ++ utf8_lossy_fuel fuel (drop n (b :: l)).
Proof. intros H. cbn [utf8_lossy_fuel]. by rewrite H. Qed.

Lemma drop_shorter {A} n (x : A) l fuel :
  (0 < n)%nat -> (length (x :: l) <= S fuel)%nat -> (length (drop n (x :: l)) <= fuel)%nat.
Proof. rewrite length_drop. cbn. lia. Qed.

(** Decoding changes nothing exactly when the bytes are UTF-8. *)
Lemma utf8_lossy_fix fuel l :
  (length l <= fuel)%nat -> utf8_lossy_fuel fuel l = l <-> utf8_valid_fuel fuel l = true.
Proof.
  revert l. induction fuel as [|fuel IH]; intros [|b l] Hl; try done; try (cbn in Hl; lia).
  destruct (utf8_step b l) as [n|n] eqn:Hs.
  - rewrite (utf8_lossy_good _ _ _ _ Hs). cbn [utf8_valid_fuel]. rewrite Hs.
    pose proof (drop_shorter n b l fuel (utf8_step_good _ _ _ Hs) Hl) as Hd.
    rewrite <- IH by done. rewrite <- (take_drop n (b :: l)) at 3.
    split; [apply app_inv_head|by intros ->].
  - rewrite (utf8_lossy_bad _ _ _ _ Hs). cbn [utf8_valid_fuel]. rewrite Hs. split; [|done].
    intros H. symmetry in H. by apply utf8_bad_not_replacement with (n := n) in H.
Qed.

Lemma display_path_id p : display_path p = p <-> utf8_valid (bytes_of_string p) = true.
Proof.
  unfold display_path, from_utf8_lossy, utf8_valid. rewrite <- utf8_lossy_fix by lia. split.
  - intros H. apply (f_equal bytes_of_string) in H. by rewrite bytes_of_string_of_bytes in H.
  - intros ->. apply string_of_bytes_of_string.
Qed.

(** What holds of all bytes, and of the replacement's, holds afterwards. *)
Lemma utf8_lossy_forall (P : byte -> Prop) fuel l :
  Forall P replacement -> Forall P l -> Forall P (utf8_lossy_fuel fuel l).
Proof.
  intros Hr. revert l. induction fuel as [|fuel IH]; intros [|b l] Hl; try constructor.
  destruct (utf8_step b l) as [n|n] eqn:Hs.
  - rewrite (utf8_lossy_good _ _ _ _ Hs). apply Forall_app.
    split; [by apply Forall_take|apply IH; by apply Forall_drop].
  - rewrite (utf8_lossy_bad _ _ _ _ Hs). apply Forall_app.
    split; [done|apply IH; by apply Forall_drop].
Qed.

(** Text of ASCII characters comes from itself only. *)
Definition ascii_byte (b : byte) : Prop := (Z_of_byte b <= 127)%Z.

Lemma utf8_lossy_ascii fuel l :
  (length l <= fuel)%nat -> Forall ascii_byte (utf8_lossy_fuel fuel l) -> utf8_lossy_fuel fuel l = l.
Proof.
  revert l. induction fuel as [|fuel IH]; intros [|b l] Hl; try done; try (cbn in Hl; lia).
  destruct (utf8_step b l) as [n|n] eqn:Hs.
  - rewrite (utf8_lossy_good _ _ _ _ Hs). intros [_ H]%Forall_app.
    rewrite IH; [by rewrite take_drop|by apply drop_shorter; [eapply utf8_step_good|]|done].
  - rewrite (utf8_lossy_bad _ _ _ _ Hs). intros [H _]%Forall_app.
    inversion H as [|? ? Hx]. unfold ascii_byte in Hx. vm_compute in Hx. by destruct Hx.
Qed.

Lemma display_path_ascii p q :
  Forall ascii_byte (bytes_of_string q) -> display_path p = q -> p = q.
Proof.
  intros Hq <-. unfold display_path, from_utf8_lossy in *.
  rewrite bytes_of_string_of_bytes in Hq. rewrite utf8_lossy_ascii by done.
  by rewrite string_of_bytes_of_string.
Qed.

Lemma utf8_valid_ascii l : Forall ascii_byte l -> utf8_valid l = true.
Proof.
  unfold utf8_valid. intros H. assert (length l <= length l)%nat as Hl by lia. revert Hl.
  generalize (length l) at 2 3. intros fuel. revert l H.
  induction fuel as [|fuel IH]; intros [|b l] H Hl; try done; try (cbn in Hl; lia).
  apply Forall_cons_1 in H as [Hb H]. cbn [utf8_valid_fuel].
  assert (utf8_step b l = Good 1) as ->; [|apply IH; [done|cbn in Hl |- *; rewrite drop_0; lia]].
  unfold utf8_step, byte_in. pose proof (Z_of_byte_range b). unfold ascii_byte in Hb.
  rewrite (proj2 (Z.leb_le 0 _)), (proj2 (Z.leb_le _ 127)) by lia. done.
Qed.

Lemma display_path_of_ascii p : Forall ascii_byte (bytes_of_string p) -> display_path p = p.
Proof. intros H. by apply display_path_id, utf8_valid_ascii. Qed.

(** ** Characters of a string *)

Fixpoint str_all (f : ascii -> bool) (s : string) : bool :=
  match s with EmptyString => true | String c s => f c && str_all f s end.

Lemma str_all_app f a b : str_all f (a +:+ b) = str_all f a && str_all f b.
Proof. induction a as [|c a IH]; [done|]. cbn. by rewrite IH, andb_assoc. Qed.

Lemma str_all_mono (f g : ascii -> bool) s :
  (forall c, f c = true -> g c = true) -> str_all f s = true -> str_all g s = true.
Proof.
  intros Hfg. induction s as [|c s IH]; [done|]. cbn. intros [Hc Hs]%andb_true_iff.
  by rewrite (Hfg c Hc), IH.
Qed.

Lemma str_all_bytes f l :
  str_all f (string_of_bytes l) = true <-> Forall (fun b => f (ascii_of_byte b) = true) l.
Proof.
  induction l as [|b l IH]; [done|]. rewrite Forall_cons_iff. cbn. by rewrite andb_true_iff, IH.
Qed.

(** The text of a path has the path's characters and those of U+FFFD. *)
Lemma str_all_display f p :
  Forall (fun b => f (ascii_of_byte b) = true) replacement ->
  str_all f p = true -> str_all f (display_path p) = true.
Proof.
  intros Hr Hp. apply str_all_bytes, utf8_lossy_forall; [done|].
  apply str_all_bytes. by rewrite string_of_bytes_of_string.
Qed.

(** Decimal numbers are digits, after a minus sign perhaps. *)
Definition digit_char (c : ascii) : bool :=
  let n := nat_of_ascii c in ((48 <=? n) && (n <=? 57) || (n =? 45))%nat.

Lemma pretty_N_digits x s : str_all digit_char s = true -> str_all digit_char (pretty_N_go x s) = true.
Proof.
  revert s. induction (N.lt_wf_0 x) as [x _ IH]; intros s Hs.
  destruct (decide (x = 0%N)) as [->|Hx]; [by rewrite pretty_N_go_0|].
  rewrite pretty_N_go_step by lia. apply IH; [apply N.div_lt; lia|].
  cbn. rewrite Hs, andb_true_r. unfold pretty_N_char. by repeat case_match.
Qed.

Lemma pretty_digits (z : Z) : str_all digit_char (pretty z) = true.
Proof.
  assert (forall n : N, str_all digit_char (pretty n) = true) as Hn.
  { intros n. unfold pretty, pretty_N. case_decide; [done|]. by apply pretty_N_digits. }
  destruct z as [|p|p]; [done|apply (Hn (Npos p))|].
  change (pretty (Z.neg p)) with ("-" +:+ pretty (Npos p)). rewrite str_all_app. apply (Hn (Npos p)).
Qed.

Example display_ex :
  display_path (string_of_bytes [Byte.x2f; Byte.x61; Byte.xff; Byte.xc3; Byte.xa9])
  = string_of_bytes [Byte.x2f; Byte.x61; Byte.xef; Byte.xbf; Byte.xbd; Byte.xc3; Byte.xa9].
Proof. vm_compute. reflexivity. Qed.

Example trim_ex : trim "  a b 
" = "a b".
Proof. vm_compute. reflexivity. Qed.
