(* ===== verification/Sys.v ===== *)
(** * Calls to the operating system

    The signature [sys] lists the calls the crate makes to the kernel, the
    standard library's file, process and clock interfaces, and the services
    outside the crate (HTTP, libseccomp, archive readers).  What they answer
    is not modelled here: a theorem quantifies over it ([Effects.wp]), under
    the contract [sys_ok] where the documented behaviour of a call matters. *)
From S2P Require Export Errors Paths Text.
From stdpp Require Export gmap.

Abbreviation fd := Z.
Abbreviation pid := Z.

(** Ancillary messages of [recvmsg]. *)
Inductive cmsg : Type :=
| ScmRights (fds : list fd)
| OtherCmsg.

(** What [recvmsg] answers: the bytes read and the decoded ancillary messages
    ([None] when they cannot be decoded), or an error. *)
Inductive recv_reply : Type :=
| RecvOk (data : bytes) (cmsgs : option (list cmsg))
| RecvErr (e : io_error).

Record metadata : Type := mk_metadata {
  md_is_file : bool;
  md_is_socket : bool;
  md_uid : Z;
  md_len : Z
}.

(** [std::process::ExitStatus] on Unix: [code()] and [signal()]. *)
Inductive exit_status : Type :=
| Exited (code : Z)
| Signaled (sig : Z)
| OtherStatus.

Inductive wait_reply : Type :=
| WaitOk (st : exit_status)
| WaitErr (e : io_error)
| WaitTimedOut.

Record cmd_output : Type := mk_cmd_output {
  co_status : exit_status;
  co_stdout : bytes;
  co_stderr : bytes
}.

(** [wait_with_output] under a timeout: it waits and reads both pipes to their
    end, and an error can come before or after the child was [reaped]. *)
Inductive output_reply : Type :=
| OutputOk (out : cmd_output)
| OutputErr (reaped : bool) (e : io_error)
| OutputTimedOut.

(** The head of an HTTP response; [id] names it in later reads of its body. *)
Record http_response : Type := mk_http { http_id : Z; http_status : Z }.

Inductive rlimit : Type :=
| RLIMIT_CPU | RLIMIT_AS | RLIMIT_FSIZE | RLIMIT_NOFILE | RLIMIT_NPROC.
#[export] Instance rlimit_eq_dec : EqDecision rlimit.
Proof. solve_decision. Defined.

Inductive clone_flag : Type :=
| CLONE_NEWNS | CLONE_NEWPID | CLONE_NEWIPC | CLONE_NEWUTS | CLONE_NEWNET.
#[export] Instance clone_flag_eq_dec : EqDecision clone_flag.
Proof. solve_decision. Defined.

Inductive mount_flag : Type :=
| MS_REC | MS_PRIVATE | MS_BIND | MS_NOSUID | MS_NOEXEC | MS_NODEV.

Inductive stdio : Type :=
| Inherit
| Null
| Piped
| FromFd (f : fd).

(** A process to start: what [execve] and the standard streams get. *)
Record command : Type := mk_command {
  cmd_program : string;
  cmd_args : list string;
  cmd_cwd : option path;
  cmd_env_clear : bool;
  cmd_env : gmap string string;
  cmd_stdin : stdio;
  cmd_stdout : stdio;
  cmd_stderr : stdio;
  cmd_kill_on_drop : bool
}.

(** One completed read of a child's output pipe, [true] for stdout. *)
Definition pipe_read : Type := bool * io_result bytes.

Inductive sys : Type -> Type :=
(* environment, clock, identifiers *)
| EnvVar (k : string) : sys (option string)
| TempDir : sys path
| CurrentDir : sys (io_result path)
| NowMillis : sys Z
| NewUuid : sys string
| Warn (msg : string) : sys unit
(* stream sockets *)
| Connect (p : path) : sys (io_result unit)
| Readable : sys (io_result unit)
| RecvMsg (want : nat) : sys recv_reply
| WriteAll (data : bytes) : sys (io_result unit)
| SendMsgFd (data : bytes) (f : fd) : sys (nix_result nat)
(* files *)
| PathExists (p : path) : sys bool
| IsDir (p : path) : sys bool
| Canonicalize (p : path) : sys (io_result path)
| Metadata (p : path) : sys (io_result metadata)
| OpenFile (p : path) : sys (io_result fd)
| CreateFile (p : path) : sys (io_result fd)
| ReadFd (f : fd) (n : nat) : sys (io_result bytes)
| WriteFd (f : fd) (data : bytes) : sys (io_result unit)
| CopyFd (src dst : fd) : sys (io_result Z)
| CloseFd (f : fd) : sys unit
| CreateDirAll (p : path) : sys (io_result unit)
| WriteFile (p : path) (content : string) : sys (io_result unit)
| ReadToString (p : path) : sys (io_result string)
| RemoveFile (p : path) : sys (io_result unit)
| RemoveDirAll (p : path) : sys (io_result unit)
| Rename (src dst : path) : sys (io_result unit)
| SetPermissions (p : path) (mode : Z) : sys (io_result unit)
(* mounts and namespaces *)
| Unshare (flags : list clone_flag) : sys (nix_result unit)
| Mount (source : option path) (target : path) (fstype : option string)
    (flags : list mount_flag) (data : option string) : sys (nix_result unit)
| Umount2Detach (target : path) : sys (nix_result unit)
| SetHostname (name : string) : sys (nix_result unit)
| Chdir (p : path) : sys (nix_result unit)
| Mkdir (p : path) (mode : Z) : sys (nix_result unit)
| Rmdir (p : path) : sys (nix_result unit)
| PivotRoot (new_root put_old : path) : sys (io_result unit)
(* libseccomp *)
| SeccompNew : sys (result unit string)
| SeccompNativeArch : sys (result unit string)
| SeccompFromName (name : string) : sys (option Z)
| SeccompBlock (syscall : Z) : sys (result unit string)
| SeccompLoad : sys (result unit string)
(* processes *)
| Setpgid : sys (nix_result unit)
| Setrlimit (r : rlimit) (soft hard : Z) : sys (nix_result unit)
| Fork : sys (io_result unit)
| Exec (c : command) : sys (io_result (option pid))
| KillSig (target : Z) : sys (nix_result unit)
| WaitChild (timeout_secs : Z) : sys wait_reply
| DrainPipes : sys (list pipe_read)
| PeakRss : sys (option Z)
| RunCommand (c : command) : sys (io_result cmd_output)
| GetEuid : sys Z
| SysctlProcSize : sys (option Z)
| SysctlProcFill (capacity : Z) : sys (option Z)
| WaitOutput (timeout_secs : Z) : sys output_reply
(* host names, HTTP and archives *)
| ResolveHost (addr : string) : sys (io_result (list string))
| HttpGet (url : string) : sys (result http_response string)
| HttpText (id : Z) : sys (result string string)
| HttpChunk (id : Z) : sys (result (option bytes) string)
| FlushFd (f : fd) : sys (io_result unit)
| ArchiveOpen (f : fd) (decoder : string) : sys (io_result unit)
| ArchiveNext : sys (option (io_result unit))
| EntryPath : sys (io_result path)
| EntryUnpackIn (target : path) : sys (io_result bool)
(* the control socket *)
| BindListener (p : path) : sys (io_result unit)
(* the terminal *)
| Print (text : string) : sys unit
| Eprint (text : string) : sys unit
| FlushStdio : sys unit.

Definition sys_trace : Type := trace sys.

(** The documented behaviour the crate relies on: [recvmsg] and [read] fill at
    most the buffer they are given and [sendmsg] takes at most what it is
    offered. *)
Definition sys_ok : contract sys := fun R e =>
  match e in sys R return R -> Prop with
  | RecvMsg want => fun r =>
      match r with RecvOk d _ => (length d <= want)%nat | RecvErr _ => True end
  | SendMsgFd data _ => fun r =>
      match r with Ok n => (n <= length data)%nat | Err _ => True end
  | ReadFd _ want => fun r =>
      match r with Ok data => (length data <= want)%nat | Err _ => True end
  | _ => fun _ => True
  end.

Definition io_fail : io_error := mk_io_error OtherKind "unavailable".

(** A quiet environment, for evaluating programs: calls that can fail fail,
    nothing exists.  Handlers override the calls they give a meaning to. *)
Definition sys_default (R : Type) (e : sys R) : R :=
  match e with
  | EnvVar _ => None
  | TempDir => "/tmp"
  | CurrentDir => Ok "/"
  | NowMillis => 0%Z
  | NewUuid => "00000000-0000-4000-8000-000000000000"
  | Warn _ => tt
  | Connect _ => Err io_fail
  | Readable => Ok tt
  | RecvMsg _ => RecvOk [] (Some [])
  | WriteAll _ => Ok tt
  | SendMsgFd d _ => Ok (length d)
  | PathExists _ => false
  | IsDir _ => false
  | Canonicalize _ => Err io_fail
  | Metadata _ => Err io_fail
  | OpenFile _ => Err io_fail
  | CreateFile _ => Err io_fail
  | ReadFd _ _ => Err io_fail
  | WriteFd _ _ => Ok tt
  | CopyFd _ _ => Err io_fail
  | CloseFd _ => tt
  | CreateDirAll _ => Ok tt
  | WriteFile _ _ => Ok tt
  | ReadToString _ => Err io_fail
  | RemoveFile _ => Ok tt
  | RemoveDirAll _ => Ok tt
  | Rename _ _ => Ok tt
  | SetPermissions _ _ => Ok tt
  | Unshare _ => Ok tt
  | Mount _ _ _ _ _ => Ok tt
  | Umount2Detach _ => Ok tt
  | SetHostname _ => Ok tt
  | Chdir _ => Ok tt
  | Mkdir _ _ => Ok tt
  | Rmdir _ => Ok tt
  | PivotRoot _ _ => Ok tt
  | SeccompNew => Ok tt
  | SeccompNativeArch => Ok tt
  | SeccompFromName _ => None
  | SeccompBlock _ => Ok tt
  | SeccompLoad => Ok tt
  | Setpgid => Ok tt
  | Setrlimit _ _ _ => Ok tt
  | Fork => Ok tt
  | Exec _ => Ok (Some 100%Z)
  | KillSig _ => Ok tt
  | WaitChild _ => WaitOk (Exited 0)
  | DrainPipes => []
  | PeakRss => None
  | RunCommand _ => Err io_fail
  | GetEuid => 0%Z
  | SysctlProcSize => None
  | SysctlProcFill _ => None
  | WaitOutput _ => OutputErr true io_fail
  | ResolveHost _ => Err io_fail
  | HttpGet _ => Err "unavailable"
  | HttpText _ => Err "unavailable"
  | HttpChunk _ => Ok None
  | FlushFd _ => Ok tt
  | ArchiveOpen _ _ => Ok tt
  | ArchiveNext => None
  | EntryPath => Err io_fail
  | EntryUnpackIn _ => Ok true
  | BindListener _ => Ok tt
  | Print _ => tt
  | Eprint _ => tt
  | FlushStdio => tt
  end.

Lemma sys_default_ok R (e : sys R) : sys_ok R e (sys_default R e).
Proof. destruct e; simpl; auto with lia. Qed.
