(* ===== verification/Wire.v ===== *)
(** * The binary wire protocol: frames ([net/wire.rs], codec part)

    [encode_header], [send_frame] and [recv_frame] over the socket calls of
    [Sys].  The buffer of [recv_frame] is filled through a raw pointer, so its
    model also carries the capacity that [Vec] guarantees and stops with
    [OutOfBounds] where the Rust code would write outside of it. *)
From S2P Require Export Sys.

(* @src core/net/wire.rs:28-28 MAGIC *)
Definition MAGIC : bytes := bytes_of_string "KUDA".
(* @src core/net/wire.rs:29-29 HEADER_LEN *)
Definition HEADER_LEN : nat := 13.
(* @src core/net/wire.rs:30-32 MAX_FRAME_LEN *)
Definition MAX_FRAME_LEN : Z := 16 * 1024 * 1024.

(* @src core/net/wire.rs:34-49 MsgType *)
Inductive MsgType : Type :=
| ExecRequestT
| StdoutChunk
| StderrChunk
| Exit
| ErrorT
| FileGetRequest
| FileEof.
#[export] Instance MsgType_eq_dec : EqDecision MsgType.
Proof. solve_decision. Defined.

(* @src core/net/wire.rs:36-48 MsgType as u8 *)
Definition msg_type_u8 (t : MsgType) : Z :=
  match t with
  | ExecRequestT => 1
  | StdoutChunk => 2
  | StderrChunk => 3
  | Exit => 4
  | ErrorT => 5
  | FileGetRequest => 6
  | FileEof => 7
  end.

(* @src core/net/wire.rs:52-63 MsgType::from_u8 *)
Definition from_u8 (v : Z) : option MsgType :=
  match v with
  | 1 => Some ExecRequestT
  | 2 => Some StdoutChunk
  | 3 => Some StderrChunk
  | 4 => Some Exit
  | 5 => Some ErrorT
  | 6 => Some FileGetRequest
  | 7 => Some FileEof
  | _ => None
  end%Z.

(* @src core/net/wire.rs:83-89 Frame *)
Record Frame : Type := mk_frame {
  msg_type : MsgType;
  payload : bytes;
  frame_fd : option fd
}.

(* @src core/net/wire.rs:95-101 encode_header *)
Definition encode_header (t : MsgType) (len : nat) : bytes :=
  MAGIC ++ [byte_of_Z (msg_type_u8 t)] ++ to_le_bytes 8 (wrap_u64 (Z.of_nat len)).

(** ** Sending *)

Definition wire_write_failed (e : io_error) : SandboxError :=
  General ("wire write failed: " +:+ ioe_text e).

(* @src core/net/wire.rs:91-93 write_all *)
Definition write_all (buf : bytes) : prog sys (Result unit) :=
  map_err_p wire_write_failed (call (WriteAll buf)).

(* @src core/net/wire.rs:138-160 send_frame (loop over the bytes that carry the descriptor) *)
Fixpoint send_loop (fuel : nat) (full : bytes) (f : fd) (sent : nat) (first : bool)
    : prog sys (Result unit) :=
  match fuel with
  | O => Halt Running
  | S fuel =>
      if (sent <? length full)%nat then
        n ←? (if first then
                map_err_p (fun e => General ("sendmsg with SCM_RIGHTS failed: " +:+ e))
                  (call (SendMsgFd (drop sent full) f))
              else
                (_ ←? map_err_p wire_write_failed (call (WriteAll (drop sent full)));
                 Ret (Ok (length full - sent)%nat)));
        if (n =? 0)%nat then Ret (Err (General "wire write returned 0"))
        else send_loop fuel full f (sent + n) false
      else Ret (Ok tt)
  end.

(** One [sendmsg], one [write_all] and the exit test: three rounds. *)
Definition SEND_FUEL : nat := 3.

(* @src core/net/wire.rs:105-162 send_frame *)
Definition send_frame (t : MsgType) (payload : bytes) (f : option fd)
    : prog sys (Result unit) :=
  if (MAX_FRAME_LEN <? Z.of_nat (length payload))%Z then
    Ret (Err (General ("frame payload " +:+ pretty (Z.of_nat (length payload))
                       +:+ " exceeds MAX_FRAME_LEN " +:+ pretty MAX_FRAME_LEN)))
  else
    let full := encode_header t (length payload) ++ payload in
    match f with
    | None => (_ ←? write_all full; Ret (Ok tt))
    | Some f => send_loop SEND_FUEL full f 0 true
    end.

(** ** Receiving *)

(** [{:?}] of a byte slice and [{:02x}] of a byte. *)
Definition debug_bytes (l : bytes) : string :=
  "[" +:+ String.concat ", " (map (fun b => pretty (Z_of_byte b)) l) +:+ "]".
Definition hex_digit (d : Z) : string :=
  default "" (["0";"1";"2";"3";"4";"5";"6";"7";"8";"9";"a";"b";"c";"d";"e";"f"]
              !! Z.to_nat d).
Definition hex_byte (b : byte) : string :=
  hex_digit (Z_of_byte b / 16) +:+ hex_digit (Z_of_byte b mod 16).

(** The first descriptor of the last [ScmRights] message that has one. *)
(* @src core/net/wire.rs:211-217 recv_frame (scan of the ancillary messages) *)
Fixpoint scan_cmsgs (acc : option fd) (l : list cmsg) : option fd :=
  match l with
  | [] => acc
  | ScmRights (f :: _) :: l => scan_cmsgs (Some f) l
  | _ :: l => scan_cmsgs acc l
  end.

(* @src core/net/wire.rs:209-219 recv_frame (attached_fd) *)
Definition attach_fd (attached : option fd) (cmsgs : option (list cmsg)) : option fd :=
  match attached with
  | Some f => Some f
  | None => match cmsgs with Some l => scan_cmsgs None l | None => None end
  end.

(* @src core/net/wire.rs:228-248 recv_frame (header checks) *)
Definition parse_header (buf : bytes) : Result nat :=
  if decide (take 4 buf <> MAGIC) then
    Err (SecurityViolation ("Bad wire magic " +:+ debug_bytes (take 4 buf)
         +:+ " — not a kuda binary protocol stream"))
  else
    let type_byte := nth 4 buf Byte.x00 in
    match from_u8 (Z_of_byte type_byte) with
    | None => Err (SecurityViolation ("Unknown wire message type 0x" +:+ hex_byte type_byte))
    | Some _ =>
        let len := from_le_bytes (take 8 (drop 5 buf)) in
        if (MAX_FRAME_LEN <? len)%Z then
          Err (SecurityViolation ("Frame length " +:+ pretty len
               +:+ " exceeds protocol cap " +:+ pretty MAX_FRAME_LEN))
        else Ok (HEADER_LEN + Z.to_nat len)%nat
    end.

(** A completed buffer as a frame; the [unwrap] cannot fail after the checks. *)
(* @src core/net/wire.rs:252-256 recv_frame (completed frame) *)
Definition finish_frame (buf : bytes) (attached : option fd) : prog sys (Result Frame) :=
  match from_u8 (Z_of_byte (nth 4 buf Byte.x00)) with
  | None => Halt Panicked
  | Some t => Ret (Ok (mk_frame t (drop HEADER_LEN buf) attached))
  end.

(** What follows a read: the header is parsed as soon as it is complete, a
    complete frame is returned, and otherwise the loop goes round [again]. *)
(* @src core/net/wire.rs:227-256 recv_frame (after a read) *)
Definition recv_step (again : bytes -> nat -> nat -> option fd -> prog sys (Result Frame))
    (buf : bytes) (cap need : nat) (attached : option fd) : prog sys (Result Frame) :=
  if ((HEADER_LEN <=? length buf) && (need =? HEADER_LEN))%nat then
    match parse_header buf with
    | Err e => Ret (Err e)
    | Ok need =>
        if (need <? length buf)%nat then Halt OutOfBounds else
        let cap := Nat.max cap need in
        if ((need <=? length buf) && (HEADER_LEN <=? length buf))%nat
        then finish_frame buf attached
        else again buf cap need attached
    end
  else
    if ((need <=? length buf) && (HEADER_LEN <=? length buf))%nat
    then finish_frame buf attached
    else again buf cap need attached.

(* @src core/net/wire.rs:179-257 recv_frame (loop) *)
Fixpoint recv_loop (fuel : nat) (buf : bytes) (cap need : nat) (attached : option fd)
    : prog sys (Result Frame) :=
  match fuel with
  | O => Halt Running
  | S fuel =>
      _ ←? map_err_p (fun e => General ("readiness failed: " +:+ ioe_text e)) (call Readable);
      if (need <? length buf)%nat then Halt OutOfBounds else
      let want := (need - length buf)%nat in
      if (cap <? length buf + want)%nat then Halt OutOfBounds else
      r ← call (RecvMsg want);
      match r with
      | RecvErr e =>
          match ioe_kind e with
          | WouldBlock => recv_loop fuel buf cap need attached
          | _ => Ret (Err (General ("recvmsg failed: " +:+ ioe_text e)))
          end
      | RecvOk data cmsgs =>
          if (length data =? 0)%nat then
            Ret (Err (General "wire stream closed mid-frame"))
          else
          let attached := attach_fd attached cmsgs in
          if (cap <? length buf + length data)%nat then Halt OutOfBounds else
          recv_step (recv_loop fuel) (buf ++ data) cap need attached
      end
  end.

(* @src core/net/wire.rs:171-258 recv_frame *)
Definition recv_frame (fuel : nat) : prog sys (Result Frame) :=
  recv_loop fuel [] (HEADER_LEN + 256) HEADER_LEN None.

(** ** Lemmas *)

Lemma length_encode_header t n : length (encode_header t n) = HEADER_LEN.
Proof.
  unfold encode_header. rewrite !length_app, length_to_le_bytes. done.
Qed.

Lemma from_u8_msg_type_u8 t : from_u8 (msg_type_u8 t) = Some t.
Proof. by destruct t. Qed.

Lemma from_u8_Some v t : from_u8 v = Some t -> v = msg_type_u8 t.
Proof. unfold from_u8. intros H. repeat case_match; by simplify_eq. Qed.

Lemma Z_of_byte_msg_type t : Z_of_byte (byte_of_Z (msg_type_u8 t)) = msg_type_u8 t.
Proof. by destruct t. Qed.

(** A buffer of at least a header, cut into its fields. *)
Lemma header_fields (buf : bytes) :
  (HEADER_LEN <= length buf)%nat ->
  buf = take 4 buf ++ [nth 4 buf Byte.x00] ++ take 8 (drop 5 buf) ++ drop HEADER_LEN buf.
Proof.
  unfold HEADER_LEN. intros H.
  do 13 (destruct buf as [|? buf]; [simpl in H; lia|]). done.
Qed.

Lemma parse_header_app buf more :
  (HEADER_LEN <= length buf)%nat -> parse_header (buf ++ more) = parse_header buf.
Proof.
  unfold HEADER_LEN. intros H.
  do 13 (destruct buf as [|? buf]; [simpl in H; lia|]). done.
Qed.

Lemma parse_header_encode t n :
  (Z.of_nat n <= MAX_FRAME_LEN)%Z -> parse_header (encode_header t n) = Ok (HEADER_LEN + n)%nat.
Proof.
  intros H. unfold parse_header, encode_header.
  assert (in_u64 (Z.of_nat n)) as Hn by (unfold in_u64, u64_max, MAX_FRAME_LEN in *; lia).
  rewrite decide_False by (intros Hne; by apply Hne).
  change (nth 4 (MAGIC ++ [byte_of_Z (msg_type_u8 t)] ++ to_le_bytes 8 (wrap_u64 (Z.of_nat n))) Byte.x00)
    with (byte_of_Z (msg_type_u8 t)).
  rewrite Z_of_byte_msg_type, from_u8_msg_type_u8, wrap_u64_id by done.
  change (drop 5 _) with (to_le_bytes 8 (Z.of_nat n)).
  rewrite take_ge by (rewrite length_to_le_bytes; lia).
  rewrite u64_le_roundtrip by done.
  destruct (Z.ltb_spec MAX_FRAME_LEN (Z.of_nat n)); [lia|]. by rewrite Nat2Z.id.
Qed.

Lemma parse_header_bounds buf need :
  parse_header buf = Ok need ->
  (HEADER_LEN <= need)%nat /\ (Z.of_nat need <= 13 + MAX_FRAME_LEN)%Z.
Proof.
  unfold parse_header, HEADER_LEN. intros H.
  pose proof (from_le_bytes_range (take 8 (drop 5 buf))).
  repeat case_match; simplify_eq. unfold MAX_FRAME_LEN in *. lia.
Qed.

(** Only refusals on security grounds come out of the header checks. *)
Lemma parse_header_err buf e :
  parse_header buf = Err e -> exists m, e = SecurityViolation m.
Proof. unfold parse_header. intros H. repeat case_match; simplify_eq; eauto. Qed.

(** A buffer whose header announces its own length is the encoding of a frame. *)
Lemma parse_header_inv buf :
  (HEADER_LEN <= length buf)%nat -> parse_header buf = Ok (length buf) ->
  exists t, from_u8 (Z_of_byte (nth 4 buf Byte.x00)) = Some t /\
    buf = encode_header t (length (drop HEADER_LEN buf)) ++ drop HEADER_LEN buf /\
    (Z.of_nat (length (drop HEADER_LEN buf)) <= MAX_FRAME_LEN)%Z.
Proof.
  intros Hlen H. pose proof (header_fields buf Hlen) as Hf.
  unfold parse_header in H. repeat case_match; simplify_eq.
  exists m. split; [done|].
  pose proof (from_le_bytes_range (take 8 (drop 5 buf))) as Hr.
  assert (length (take 8 (drop 5 buf)) = 8%nat) as H8.
  { rewrite length_take, length_drop. unfold HEADER_LEN in *. lia. }
  assert (Z.of_nat (length (drop HEADER_LEN buf)) = from_le_bytes (take 8 (drop 5 buf))) as Hl.
  { rewrite length_drop. unfold HEADER_LEN in *. lia. }
  split; [|lia].
  rewrite Hf at 1. unfold encode_header. rewrite Hl.
  rewrite wrap_u64_id by (unfold in_u64, u64_max, MAX_FRAME_LEN in *; lia).
  rewrite <- H8 at 2. rewrite to_from_le_bytes.
  match goal with H : from_u8 _ = Some _ |- _ => apply from_u8_Some in H as Ht end.
  rewrite <- Ht, byte_of_Z_of_byte.
  assert (take 4 buf = MAGIC) as -> by (by apply dec_stable).
  by rewrite <- !app_assoc.
Qed.

(** ** What a receive saw

    The bytes that the calls in a trace delivered, and the descriptor that the
    ancillary messages of those calls leave attached. *)
Definition event_data (e : event sys) : bytes :=
  match e with
  | @Ev _ R e r =>
      match e in sys R return R -> bytes with
      | RecvMsg _ => fun r => match r with RecvOk d _ => d | RecvErr _ => [] end
      | _ => fun _ => []
      end r
  end.

Definition event_attach (acc : option fd) (e : event sys) : option fd :=
  match e with
  | @Ev _ R e r =>
      match e in sys R return R -> option fd with
      | RecvMsg _ => fun r => match r with RecvOk _ c => attach_fd acc c | RecvErr _ => acc end
      | _ => fun _ => acc
      end r
  end.

Definition received (t : sys_trace) : bytes := concat (map event_data t).
Lemma received_app t t' : received (t ++ t') = received t ++ received t'.
Proof. unfold received. by rewrite map_app, concat_app. Qed.
Definition attached_by (acc : option fd) (t : sys_trace) : option fd :=
  fold_left event_attach t acc.

(** The bytes that the calls in a trace put on the socket. *)
Definition event_sent (e : event sys) : bytes :=
  match e with
  | @Ev _ R e r =>
      match e in sys R return R -> bytes with
      | WriteAll d => fun r => match r with Ok _ => d | Err _ => [] end
      | SendMsgFd d _ => fun r => match r with Ok n => take n d | Err _ => [] end
      | _ => fun _ => []
      end r
  end.
Definition sent_bytes (t : sys_trace) : bytes := concat (map event_sent t).

(** The state of the buffer between two rounds of [recv_loop]. *)
Definition rx_inv (buf : bytes) (cap need : nat) : Prop :=
  (length buf < need <= cap)%nat /\
  (length buf < HEADER_LEN /\ need = HEADER_LEN \/
   HEADER_LEN <= length buf /\ parse_header buf = Ok need)%nat.

(** What may come of a receive that started with [buf] in the buffer. *)
Definition rx_post (buf : bytes) (attached : option fd) (o : outcome (Result Frame))
    (t : sys_trace) : Prop :=
  (Z.of_nat (length (buf ++ received t)) <= 13 + MAX_FRAME_LEN)%Z /\
  match o with
  | Done (Ok fr) =>
      buf ++ received t = encode_header (msg_type fr) (length (payload fr)) ++ payload fr /\
      (Z.of_nat (length (payload fr)) <= MAX_FRAME_LEN)%Z /\
      frame_fd fr = attached_by attached t
  | Done (Err (SecurityViolation m)) =>
      length (buf ++ received t) = HEADER_LEN /\
      parse_header (buf ++ received t) = Err (SecurityViolation m)
  | Done (Err (General _)) | Stopped Running => True
  | Done (Err _) | Stopped _ => False
  end.

Lemma rx_inv_bound buf cap need :
  rx_inv buf cap need -> (Z.of_nat (length buf) <= 13 + MAX_FRAME_LEN)%Z.
Proof.
  unfold rx_inv, MAX_FRAME_LEN, HEADER_LEN. intros [Hl [[? ?]|[? Hp]]]; [lia|].
  apply parse_header_bounds in Hp. unfold MAX_FRAME_LEN in Hp. lia.
Qed.

(** A step that delivers [data] leaves the rest of the receive to the
    extended buffer. *)
Lemma rx_post_cons buf attached want data cmsgs o t :
  rx_post (buf ++ data) (attach_fd attached cmsgs) o t ->
  rx_post buf attached o (Ev Readable (Ok tt) :: Ev (RecvMsg want) (RecvOk data cmsgs) :: t).
Proof. unfold rx_post, received. cbn. by rewrite app_assoc. Qed.

Lemma finish_frame_spec buf attached :
  (HEADER_LEN <= length buf)%nat -> parse_header buf = Ok (length buf) ->
  wp sys_ok (finish_frame buf attached) (rx_post buf attached).
Proof.
  intros Hl Hp. destruct (parse_header_inv buf Hl Hp) as (t & Ht & Hb & Hm).
  unfold finish_frame. rewrite Ht. unfold rx_post, received. cbn. rewrite app_nil_r.
  repeat split; auto.
  apply parse_header_bounds in Hp. lia.
Qed.

Lemma rx_post_buf buf cap need attached o t :
  rx_inv buf cap need -> received t = [] ->
  match o with Done (Err (General _)) | Stopped Running => True | _ => False end ->
  rx_post buf attached o t.
Proof.
  intros Hi Ht Ho. unfold rx_post. rewrite Ht, app_nil_r.
  split; [by eapply rx_inv_bound|]. by repeat case_match.
Qed.

Lemma recv_step_spec again cap need buf attached :
  (forall buf cap need attached, rx_inv buf cap need ->
     wp sys_ok (again buf cap need attached) (rx_post buf attached)) ->
  (length buf <= need <= cap)%nat ->
  (need = HEADER_LEN \/ (HEADER_LEN <= length buf)%nat /\ HEADER_LEN <> need /\
                        parse_header buf = Ok need) ->
  wp sys_ok (recv_step again buf cap need attached) (rx_post buf attached).
Proof.
  intros IH Hl Hneed. unfold recv_step. cbv zeta.
  destruct (Nat.leb_spec HEADER_LEN (length buf)) as [Hh|Hh];
    [destruct (Nat.eqb_spec need HEADER_LEN) as [->|Hn]|]; cbn [andb].
  - assert (length buf = HEADER_LEN) as He by lia.
    destruct (parse_header buf) as [need|e] eqn:Hp.
    + pose proof (parse_header_bounds _ _ Hp).
      destruct (Nat.ltb_spec need (length buf)); [lia|].
      rewrite andb_true_r. destruct (Nat.leb_spec need (length buf)).
      * apply finish_frame_spec; [lia|]. by rewrite Hp; f_equal; lia.
      * apply IH. split; [lia|]. auto.
    + destruct (parse_header_err _ _ Hp) as [m ->].
      cbn. unfold rx_post, received. cbn. rewrite app_nil_r.
      split; [rewrite He; unfold HEADER_LEN, MAX_FRAME_LEN; lia|]. auto.
  - destruct Hneed as [|(_ & _ & Hp)]; [done|]. rewrite andb_true_r.
    destruct (Nat.leb_spec need (length buf)).
    + apply finish_frame_spec; [done|]. by rewrite Hp; f_equal; lia.
    + apply IH. split; [lia|]. auto.
  - rewrite andb_false_r. apply IH. destruct Hneed as [->|[? _]]; [|lia].
    split; [lia|]. left. done.
Qed.

Lemma recv_loop_spec fuel : forall buf cap need attached,
  rx_inv buf cap need ->
  wp sys_ok (recv_loop fuel buf cap need attached) (rx_post buf attached).
Proof.
  induction fuel as [|fuel IH]; intros buf cap need attached Hinv;
    [by eapply rx_post_buf|].
  cbn [recv_loop]. wp_simpl. intros [[]|e] _; wp_simpl; [|by eapply rx_post_buf].
  pose proof Hinv as [Hl Hneed].
  destruct (Nat.ltb_spec need (length buf)); [lia|]. cbv zeta.
  destruct (Nat.ltb_spec cap (length buf + (need - length buf))); [lia|].
  wp_simpl. intros [data cmsgs|e] Hok; cbn in Hok.
  2: { destruct (ioe_kind e); try (by eapply rx_post_buf).
       eapply wp_mono; [by apply IH|]. done. }
  destruct (Nat.eqb_spec (length data) 0).
  { destruct data; [|done]. by eapply rx_post_buf. }
  destruct (Nat.ltb_spec cap (length buf + length data)); [lia|].
  eapply wp_mono; [|intros o t; apply rx_post_cons].
  apply recv_step_spec; [done|rewrite length_app; lia|].
  destruct Hneed as [[_ ->]|[Hb Hp]]; [by left|right].
  rewrite length_app, parse_header_app by done. repeat split; [lia|lia|done].
Qed.
