(* ===== verification/Kernel.v ===== *)
(** * A Unix stream socket, executable

    A handler for [Sys.sys] that keeps the byte queues of one connected stream
    socket, with the descriptors attached to bytes the way [SCM_RIGHTS] works
    on [SOCK_STREAM]: they ride on the first byte of the [sendmsg] that
    carried them.  How reads are split is decided by [k_ticks], an arbitrary
    list of "not ready" and "at most n bytes" ticks, so a theorem about all
    tick lists covers every way the kernel can fragment the stream. *)
From S2P Require Export Wire.

Inductive tick : Type :=
| NotReady
| Chunk (n : nat).

(** A byte in flight and the descriptors attached to it. *)
Abbreviation flight := (list (byte * list fd)).

Record kernel : Type := mk_kernel {
  k_rx : flight;
  k_closed : bool;
  k_ticks : list tick;
  k_tx : flight
}.

Definition would_block : io_error := mk_io_error WouldBlock "Resource temporarily unavailable".

Definition plain (d : bytes) : flight := map (fun b => (b, [])) d.
Definition with_fd (d : bytes) (f : option fd) : flight :=
  match d, f with
  | b :: d, Some f => (b, [f]) :: plain d
  | d, _ => plain d
  end.

(** One control message, or a truncated (undecodable) list of them: the
    receiver's buffer has room for a single descriptor. *)
Definition cmsgs_of (l : flight) : option (list cmsg) :=
  match concat (map snd l) with
  | [] => Some []
  | [f] => Some [ScmRights [f]]
  | _ => None
  end.

Definition set_rx (l : flight) (ts : list tick) (k : kernel) : kernel :=
  mk_kernel l (k_closed k) ts (k_tx k).

Definition deliver (n : nat) (ts : list tick) (k : kernel) : recv_reply * kernel :=
  match k_rx k with
  | [] => (if k_closed k then RecvOk [] (Some []) else RecvErr would_block, set_rx [] ts k)
  | l => (RecvOk (map fst (take n l)) (cmsgs_of (take n l)), set_rx (drop n l) ts k)
  end.

Definition kernel_recv (want : nat) (k : kernel) : recv_reply * kernel :=
  match k_ticks k with
  | NotReady :: ts => (RecvErr would_block, set_rx (k_rx k) ts k)
  | Chunk n :: ts => deliver (Nat.min want (S n)) ts k
  | [] => deliver want [] k
  end.

Definition kernel_send (d : bytes) (f : option fd) (k : kernel) : kernel :=
  mk_kernel (k_rx k) (k_closed k) (k_ticks k) (k_tx k ++ with_fd d f).

(** How many bytes a [sendmsg] takes: all of them, or up to a tick's limit. *)
Definition kernel_sendmsg (d : bytes) (f : fd) (k : kernel) : nix_result nat * kernel :=
  let n := match k_ticks k with
           | Chunk n :: _ => Nat.min (length d) (S n)
           | _ => length d
           end in
  (Ok n, kernel_send (take n d) (Some f) k).

Definition kernel_handler : handler sys kernel := fun R e =>
  match e in sys R return kernel -> R * kernel with
  | RecvMsg want => kernel_recv want
  | WriteAll d => fun k => (Ok tt, kernel_send d None k)
  | SendMsgFd d f => kernel_sendmsg d f
  | e => fun k => (sys_default _ e, k)
  end.

(** A connected pair: what one end has sent is what the other receives. *)
Definition peer_of (k : kernel) (ticks : list tick) : kernel :=
  mk_kernel (k_tx k) false ticks [].

Definition fresh_kernel (ticks : list tick) : kernel := mk_kernel [] false ticks [].

(** The bytes of a frame on the wire. *)
Definition frame_bytes (t : MsgType) (p : bytes) : bytes := encode_header t (length p) ++ p.
Definition frame_flight (t : MsgType) (p : bytes) (f : option fd) : flight :=
  with_fd (frame_bytes t p) f.

(** ** Lemmas *)

Lemma map_fst_plain d : map fst (plain d) = d.
Proof. unfold plain. rewrite map_map. apply map_id. Qed.

Lemma map_fst_with_fd d f : map fst (with_fd d f) = d.
Proof. destruct d, f; simpl; by rewrite ?map_fst_plain. Qed.

Lemma length_with_fd d f : length (with_fd d f) = length d.
Proof. rewrite <- (map_fst_with_fd d f) at 2. by rewrite length_map. Qed.

Lemma concat_snd_plain d : concat (map snd (plain d)) = @nil fd.
Proof. induction d; auto. Qed.

Lemma take_plain n d : take n (plain d) = plain (take n d).
Proof. unfold plain. apply firstn_map. Qed.
Lemma drop_plain n d : drop n (plain d) = plain (drop n d).
Proof. unfold plain. apply skipn_map. Qed.

Lemma drop_with_fd n d f : (0 < n)%nat -> drop n (with_fd d f) = plain (drop n d).
Proof.
  intros Hn. destruct n as [|n]; [lia|]. destruct d as [|b d], f; simpl; auto using drop_plain.
Qed.

(** Descriptors that a read of [m] bytes, [n] bytes into a frame, brings. *)
Lemma cmsgs_with_fd n m d f :
  (0 < m)%nat ->
  cmsgs_of (take m (drop n (with_fd d f))) =
  Some (match n, d, f with O, _ :: _, Some f => [ScmRights [f]] | _, _, _ => [] end).
Proof.
  intros Hm. unfold cmsgs_of. destruct n as [|n].
  - destruct m as [|m]; [lia|].
    destruct d as [|b d], f; cbn [drop with_fd plain map take fmap];
      rewrite ?take_nil; cbn [map concat snd app]; auto.
    + rewrite take_plain, concat_snd_plain. done.
    + fold (plain d). rewrite take_plain, concat_snd_plain. done.
  - rewrite drop_with_fd by lia. rewrite take_plain, concat_snd_plain.
    by destruct d, f.
Qed.

(** ** A whole frame arrives, whatever the fragmentation *)

Lemma frame_bytes_length t p : length (frame_bytes t p) = (HEADER_LEN + length p)%nat.
Proof. unfold frame_bytes. by rewrite length_app, length_encode_header. Qed.

Lemma parse_frame_prefix t p n :
  (Z.of_nat (length p) <= MAX_FRAME_LEN)%Z -> (HEADER_LEN <= n)%nat ->
  parse_header (take n (frame_bytes t p)) = Ok (length (frame_bytes t p)).
Proof.
  intros Hp Hn. unfold frame_bytes at 1.
  rewrite take_app, take_ge by (rewrite length_encode_header; lia).
  rewrite parse_header_app by (by rewrite length_encode_header).
  rewrite parse_header_encode by done. by rewrite frame_bytes_length.
Qed.

Lemma finish_frame_complete t p f :
  finish_frame (frame_bytes t p) f = Ret (Ok (mk_frame t p f)).
Proof.
  unfold finish_frame, frame_bytes, encode_header.
  change (nth 4 _ _) with (byte_of_Z (msg_type_u8 t)).
  by rewrite Z_of_byte_msg_type, from_u8_msg_type_u8.
Qed.

(** The receiver's variables when the first [n] bytes of a frame have come. *)
Definition need_at (n : nat) (d : bytes) : nat :=
  if (n <? HEADER_LEN)%nat then HEADER_LEN else length d.
Definition attached_at (n : nat) (f : option fd) : option fd :=
  match n with O => None | S _ => f end.

Lemma attach_progress n m d f :
  (0 < m)%nat -> (n < length d)%nat ->
  attach_fd (attached_at n f) (cmsgs_of (take m (drop n (with_fd d f)))) = f.
Proof.
  intros Hm Hn. rewrite cmsgs_with_fd by done.
  destruct n; simpl; [destruct d; simpl in *; [lia|]|]; by destruct f.
Qed.

Lemma need_at_lt n d : (n < HEADER_LEN)%nat -> need_at n d = HEADER_LEN.
Proof. intros. unfold need_at. by destruct (Nat.ltb_spec n HEADER_LEN); [|lia]. Qed.
Lemma need_at_ge n d : (HEADER_LEN <= n)%nat -> need_at n d = length d.
Proof. intros. unfold need_at. by destruct (Nat.ltb_spec n HEADER_LEN); [lia|]. Qed.

(** The step after a read of [c] bytes, given what going round again does. *)
Lemma recv_step_complete again t p f n c cap (P : prog sys (Result Frame) -> Prop) :
  let d := frame_bytes t p in
  (Z.of_nat (length p) <= MAX_FRAME_LEN)%Z -> (n < length d)%nat ->
  (0 < c)%nat -> (n + c <= need_at n d <= cap)%nat ->
  ((n + c)%nat = length d -> P (Ret (Ok (mk_frame t p f)))) ->
  (forall cap', (n + c < length d)%nat -> (need_at (n + c) d <= cap')%nat ->
     P (again (take (n + c) d) cap' (need_at (n + c) d) f)) ->
  P (recv_step again (take (n + c) d) cap (need_at n d) f).
Proof.
  intros d Hp Hn Hc Hneed HRet Hagain.
  pose proof (frame_bytes_length t p) as Hlen. fold d in Hlen.
  assert (length (take (n + c) d) = Nat.min (n + c) (length d)) as Ht by apply length_take.
  assert (parse_header d = Ok (length d)) as Hd.
  { rewrite <- (take_ge d (length d)) at 1 by lia. apply parse_frame_prefix; [done|lia]. }
  unfold recv_step. rewrite !Ht. cbv zeta.
  destruct (Nat.lt_ge_cases n HEADER_LEN) as [Hh|Hh].
  - rewrite need_at_lt in Hneed |- * by done.
    rewrite Nat.min_l, Nat.eqb_refl, andb_true_r by lia.
    destruct (Nat.leb_spec HEADER_LEN (n + c)) as [Hh'|Hh'].
    + assert (n + c = HEADER_LEN)%nat as Hnc by lia. rewrite Hnc in *.
      unfold d at 1. rewrite parse_frame_prefix by done. fold d.
      destruct (Nat.ltb_spec (length d) HEADER_LEN); [lia|].
      rewrite andb_true_r. destruct (Nat.leb_spec (length d) HEADER_LEN).
      * rewrite (take_ge d) by lia. unfold d. rewrite finish_frame_complete. apply HRet. lia.
      * rewrite need_at_ge in Hagain by done. apply Hagain; lia.
    + cbn [andb].
      rewrite need_at_lt in Hagain by done. apply Hagain; lia.
  - rewrite need_at_ge in Hneed |- * by done.
    rewrite need_at_ge in Hagain by lia. rewrite Nat.min_l by lia.
    destruct (Nat.leb_spec HEADER_LEN (n + c)) as [Hh'|Hh']; [|lia].
    rewrite andb_true_r.
    destruct (Nat.eqb_spec (length d) HEADER_LEN); [lia|]. cbn [andb].
    destruct (Nat.leb_spec (length d) (n + c)).
    + rewrite (take_ge d) by lia. unfold d. rewrite finish_frame_complete. apply HRet. lia.
    + apply Hagain; lia.
Qed.

Lemma deliver_nonempty n ts k :
  k_rx k <> [] ->
  deliver n ts k =
  (RecvOk (map fst (take n (k_rx k))) (cmsgs_of (take n (k_rx k))),
   set_rx (drop n (k_rx k)) ts k).
Proof. unfold deliver. by destruct (k_rx k). Qed.

(** What a read of the kernel model brings while a frame is in flight. *)
Lemma kernel_recv_frame want n d f rest k :
  (0 < want <= length d - n)%nat -> k_rx k = drop n (with_fd d f) ++ rest ->
  (exists ts, length (k_ticks k) = S (length ts) /\
     kernel_recv want k = (RecvErr would_block, set_rx (k_rx k) ts k)) \/
  (exists c ts, (0 < c <= want)%nat /\ (length ts <= length (k_ticks k))%nat /\
     kernel_recv want k =
       (RecvOk (take c (drop n d)) (cmsgs_of (take c (drop n (with_fd d f)))),
        set_rx (drop (n + c) (with_fd d f) ++ rest) ts k)).
Proof.
  intros Hw Hrx.
  assert (forall c ts, (0 < c <= want)%nat -> deliver c ts k =
    (RecvOk (take c (drop n d)) (cmsgs_of (take c (drop n (with_fd d f)))),
     set_rx (drop (n + c) (with_fd d f) ++ rest) ts k)) as Hdel.
  { intros c ts Hc.
    assert (c <= length (drop n (with_fd d f)))%nat as Hl
      by (rewrite length_drop, length_with_fd; lia).
    rewrite deliver_nonempty.
    - rewrite Hrx, take_app_le, drop_app_le, drop_drop by done.
      by rewrite <- firstn_map, <- skipn_map, map_fst_with_fd.
    - intros E. rewrite E in Hrx. apply (f_equal length) in Hrx.
      rewrite length_app in Hrx. simpl in Hrx. lia. }
  unfold kernel_recv. destruct (k_ticks k) as [|[|m] ts].
  - right. exists want, []. repeat split; [lia|lia|done|]. apply Hdel. lia.
  - left. by exists ts.
  - right. exists (Nat.min want (S m)), ts. repeat split; [lia|lia|simpl; lia|].
    apply Hdel. lia.
Qed.

Definition received_frame (k : kernel) (rest : flight) (fr : Frame)
    (r : outcome (Result Frame) * sys_trace * kernel) : Prop :=
  exists tr ts, (length ts <= length (k_ticks k))%nat /\
    r = (Done (Ok fr), tr, mk_kernel rest (k_closed k) ts (k_tx k)).

Lemma recv_loop_complete fuel : forall t p f rest k n cap,
  let d := frame_bytes t p in
  (Z.of_nat (length p) <= MAX_FRAME_LEN)%Z -> (n < length d)%nat ->
  (need_at n d <= cap)%nat -> k_rx k = drop n (with_fd d f) ++ rest ->
  (length (k_ticks k) + (length d - n) < fuel)%nat ->
  received_frame k rest (mk_frame t p f)
    (run kernel_handler (recv_loop fuel (take n d) cap (need_at n d) (attached_at n f)) k).
Proof.
  induction fuel as [|fuel IH]; intros t p f rest k n cap d Hp Hn Hcap Hrx Hfuel; [lia|].
  pose proof (frame_bytes_length t p) as Hlen. fold d in Hlen.
  assert (length (take n d) = n) as Ht by (rewrite length_take; lia).
  assert (n < need_at n d <= length d)%nat as Hna.
  { destruct (Nat.lt_ge_cases n HEADER_LEN);
      rewrite ?need_at_lt, ?need_at_ge by done; unfold HEADER_LEN in *; lia. }
  cbn [recv_loop]. prog_unfold. cbn [prog_bind run kernel_handler sys_default map_err].
  rewrite Ht.
  destruct (Nat.ltb_spec (need_at n d) n); [lia|]. cbv zeta.
  destruct (Nat.ltb_spec cap (n + (need_at n d - n))); [lia|].
  cbn [prog_bind run kernel_handler].
  destruct (kernel_recv_frame (need_at n d - n) n d f rest k) as
    [(ts & Hts & ->)|(c & ts & Hc & Hts & ->)]; [lia|done| |].
  - cbn [ioe_kind would_block].
    edestruct (IH t p f rest (set_rx (k_rx k) ts k) n cap) as (tr & ts' & Hts' & Hr);
      [done|done|done|done|cbn [set_rx k_ticks]; fold d; lia|].
    fold d in Hr. rewrite Hr. cbn [set_rx k_ticks] in Hts'. eexists _, ts'. split; [lia|done].
  - assert (length (take c (drop n d)) = c) as Hlc by (rewrite length_take, length_drop; lia).
    rewrite Hlc. destruct (Nat.eqb_spec c 0); [lia|].
    destruct (Nat.ltb_spec cap (n + c)); [lia|].
    rewrite attach_progress, take_take_drop by (done || lia).
    set (k' := set_rx _ ts k).
    assert (received_frame k' rest (mk_frame t p f)
      (run kernel_handler (recv_step (recv_loop fuel) (take (n + c) d) cap (need_at n d) f) k'))
      as (tr & ts' & Hts' & ->);
      [|eexists _, ts'; split; [cbn [k' set_rx k_ticks] in Hts'; lia|done]].
    apply (recv_step_complete _ t p f n c cap
      (fun q => received_frame k' rest (mk_frame t p f) (run kernel_handler q k'))); fold d;
      [done|done|lia|lia| |].
    + intros Hnc. exists [], ts. split; [done|]. cbn. unfold k', set_rx.
      by rewrite drop_ge by (rewrite length_with_fd; lia).
    + intros cap' Hc' Hcap'.
      replace f with (attached_at (n + c) f) at 2 by (destruct n, c; done || lia).
      apply (IH t p f rest k' (n + c)%nat cap'); [done|done|done|done|].
      unfold k'. cbn [set_rx k_ticks]. fold d. lia.
Qed.
