(* ===== verification/WireSpec.v ===== *)
(** * What the wire codec promises

    Theorems about [Wire.send_frame] and [Wire.recv_frame]: against every
    kernel ([wp]) and end to end over the socket model of [Kernel]. *)
From S2P Require Export Kernel.

(** ** Lemmas *)

(** The descriptors handed to [sendmsg] in a trace. *)
Definition event_fd_sent (e : event sys) : list fd :=
  match e with
  | @Ev _ R e r =>
      match e in sys R return R -> list fd with
      | SendMsgFd _ f => fun r => match r with Ok _ => [f] | Err _ => [] end
      | _ => fun _ => []
      end r
  end.
Definition fds_sent (t : sys_trace) : list fd := concat (map event_fd_sent t).

(** What may come of sending the frame [(t, p, f)]. *)
Definition tx_post (t : MsgType) (p : bytes) (f : option fd) (o : outcome (Result unit))
    (tr : sys_trace) : Prop :=
  match o with
  | Done (Ok _) => sent_bytes tr = frame_bytes t p /\ fds_sent tr = option_list f
  | Done (Err _) => sent_bytes tr `prefix_of` frame_bytes t p
  | Stopped _ => False
  end.

Lemma send_rest_spec fuel full f sent :
  (2 <= fuel)%nat -> (sent <= length full)%nat ->
  wp sys_ok (send_loop fuel full f sent false)
    (fun o tr => match o with
                 | Done (Ok _) => sent_bytes tr = drop sent full /\ fds_sent tr = []
                 | Done (Err _) => sent_bytes tr = []
                 | Stopped _ => False
                 end).
Proof.
  intros Hf Hs. destruct fuel as [|[|fuel]]; [lia|lia|]. cbn [send_loop].
  destruct (Nat.ltb_spec sent (length full)).
  2: { cbn. split; [by rewrite drop_ge by lia|done]. }
  wp_simpl. intros [[]|e] _; cbn [map_err prog_bind wp]; [|done].
  destruct (Nat.eqb_spec (length full - sent) 0); [lia|].
  destruct (Nat.ltb_spec (sent + (length full - sent)) (length full)); [lia|].
  cbn. by rewrite app_nil_r.
Qed.

Lemma send_loop_spec fuel full f t p :
  (3 <= fuel)%nat -> full = frame_bytes t p ->
  wp sys_ok (send_loop fuel full f 0 true) (tx_post t p (Some f)).
Proof.
  intros Hf Hfull. unfold tx_post. rewrite <- Hfull.
  assert (0 < length full)%nat as Hl by (subst; rewrite frame_bytes_length; unfold HEADER_LEN; lia).
  destruct fuel as [|fuel]; [lia|]. cbn [send_loop]. rewrite drop_0.
  destruct (Nat.ltb_spec 0 (length full)); [|lia].
  wp_simpl. intros [n|e] Hn; cbn [map_err prog_bind wp]; [|by apply prefix_nil].
  cbn in Hn. destruct (Nat.eqb_spec n 0) as [->|Hn0].
  { cbn. apply prefix_nil. }
  rewrite Nat.add_0_l. eapply wp_mono; [by apply send_rest_spec; lia|].
  intros [[[]|e]|s] tr; simpl; [|..|done].
  - intros [Hs Hfd]. unfold sent_bytes, fds_sent in *. cbn. rewrite Hs, Hfd.
    by rewrite take_drop.
  - intros Hs. unfold sent_bytes in *. cbn. rewrite Hs, app_nil_r. apply prefix_take.
Qed.

(** ** Sending against any kernel *)

(** A frame as the protocol documents it: the magic, the number of the type, the
    length of the payload in eight little-endian bytes, and the payload. *)
Definition wire_image (t : MsgType) (p : bytes) : bytes :=
  bytes_of_string "KUDA" ++
  [byte_of_Z match t with
             | ExecRequestT => 1 | StdoutChunk => 2 | StderrChunk => 3 | Exit => 4
             | ErrorT => 5 | FileGetRequest => 6 | FileEof => 7
             end] ++
  to_le_bytes 8 (Z.of_nat (length p)) ++ p.

Lemma frame_wire_image t p :
  (Z.of_nat (length p) <= MAX_FRAME_LEN)%Z -> frame_bytes t p = wire_image t p.
Proof.
  intros Hp. unfold frame_bytes, encode_header, wire_image.
  rewrite wrap_u64_id by (unfold in_u64, u64_max, MAX_FRAME_LEN in *; lia).
  rewrite <- !app_assoc. by destruct t.
Qed.

(** C24. Sending a frame.  A payload of more than 16 MiB is refused without
    touching the socket.  Otherwise the call ends, and when it reports success
    exactly the documented frame went out, the magic, the type, the length in
    eight little-endian bytes and the payload, and the descriptor, if one was
    given, was attached exactly once; when it reports an error the bytes the
    kernel has acknowledged are an initial part of that frame.  This holds for
    every way the kernel splits or fails the writes, and the fuel of the loop is
    never the reason to stop. *)
Theorem send_frame_exact (t : MsgType) (p : bytes) (f : option fd) :
  wp sys_ok (send_frame t p f) (fun o tr =>
    if (16 * 2 ^ 20 <? Z.of_nat (length p))%Z
    then tr = [] /\ exists e, o = Done (Err (General e))
    else match o with
         | Done (Ok _) => sent_bytes tr = wire_image t p /\ fds_sent tr = option_list f
         | Done (Err _) => sent_bytes tr `prefix_of` wire_image t p
         | Stopped _ => False
         end).
Proof.
  change (16 * 2 ^ 20)%Z with MAX_FRAME_LEN. unfold send_frame.
  destruct (Z.ltb_spec MAX_FRAME_LEN (Z.of_nat (length p))) as [|Hp]; [cbn; eauto|].
  rewrite <- (frame_wire_image t p Hp). destruct f as [f|].
  - eapply wp_mono; [by apply (send_loop_spec _ _ f t p); [unfold SEND_FUEL; lia|]|]. done.
  - unfold write_all. wp_simpl. intros [[]|e] _; cbn.
    + split; [by rewrite app_nil_r|done].
    + apply prefix_nil.
Qed.

(** ** Receiving from any peer *)

(** C10. Whatever a peer sends and however the kernel fragments it,
    [recv_frame] never leaves the capacity of its buffer and never panics, it
    never takes more than 13 bytes plus [MAX_FRAME_LEN] off the socket, a frame
    it returns is exactly the encoding of the bytes it took (magic, known type,
    length field equal to the payload's length) with the first descriptor that
    came along, and a refusal on security grounds is taken on the 13 header
    bytes alone. *)
Theorem recv_frame_sound (fuel : nat) :
  wp sys_ok (recv_frame fuel)
    (fun o tr =>
       (Z.of_nat (length (received tr)) <= 13 + MAX_FRAME_LEN)%Z /\
       match o with
       | Done (Ok fr) =>
           received tr = frame_bytes (msg_type fr) (payload fr) /\
           (Z.of_nat (length (payload fr)) <= MAX_FRAME_LEN)%Z /\
           frame_fd fr = attached_by None tr
       | Done (Err (SecurityViolation m)) =>
           length (received tr) = HEADER_LEN /\
           parse_header (received tr) = Err (SecurityViolation m)
       | Done (Err e) => exists m, e = General m
       | Stopped s => s = Running
       end).
Proof.
  eapply wp_mono.
  - apply recv_loop_spec. unfold rx_inv, HEADER_LEN. simpl. split; [lia|]. auto with lia.
  - intros o tr [Hb Ho]. split; [exact Hb|].
    destruct o as [[fr|e]|s]; [exact Ho| |by destruct s].
    destruct e; try done; eauto.
Qed.

(** What a receive took off the socket. *)
Lemma recv_ok fuel :
  wp sys_ok (recv_frame fuel) (fun o t => forall fr, o = Done (Ok fr) ->
    received t = frame_bytes (msg_type fr) (payload fr) /\ frame_fd fr = attached_by None t).
Proof.
  eapply wp_mono.
  - apply recv_loop_spec. unfold rx_inv, HEADER_LEN. simpl. split; [lia|]. auto with lia.
  - intros o t [_ Ho] fr ->. destruct Ho as (H1 & _ & H2). by split.
Qed.

(** ** A receive comes to an end *)

(** The reads that the kernel answered with "not ready". *)
Definition event_retry (e : event sys) : nat :=
  match e with
  | @Ev _ R e r =>
      match e in sys R return R -> nat with
      | RecvMsg _ => fun r =>
          match r with
          | RecvErr x => match ioe_kind x with WouldBlock => 1 | _ => 0 end
          | RecvOk _ _ => 0
          end
      | _ => fun _ => 0
      end r
  end%nat.
Definition retries (t : sys_trace) : nat := list_sum (map event_retry t).

Lemma retries_cons e t : retries (e :: t) = (event_retry e + retries t)%nat.
Proof. done. Qed.

(** Every round takes a byte or a retry. *)
Lemma recv_loop_rounds fuel : forall buf cap need attached,
  wp sys_ok (recv_loop fuel buf cap need attached) (fun o t =>
    o = Stopped Running -> (fuel <= retries t + length (received t))%nat).
Proof.
  induction fuel as [|fuel IH]; intros buf cap need attached; [cbn; lia|].
  cbn [recv_loop]. wp_simpl. intros [[]|e] _; cbn [map_err prog_bind wp]; [|done].
  destruct (need <? length buf)%nat; [done|]. cbv zeta.
  destruct (cap <? _)%nat; [done|]. cbn [prog_bind wp].
  intros [data cmsgs|e] _.
  - destruct (Nat.eqb_spec (length data) 0) as [|Hd]; [done|].
    assert (forall (o : outcome (Result Frame)) (e1 e2 : event sys) t,
      event_retry e1 = 0%nat -> event_retry e2 = 0%nat ->
      event_data e1 = [] -> event_data e2 = data ->
      (o = Stopped Running -> (fuel <= retries t + length (received t))%nat) ->
      o = Stopped Running ->
      (S fuel <= retries (e1 :: e2 :: t) + length (received (e1 :: e2 :: t)))%nat) as Hstep.
    { intros o e1 e2 t H1 H2 H3 H4 Ht Ho. specialize (Ht Ho).
      rewrite !retries_cons, H1, H2. unfold received in *. cbn [map concat].
      rewrite H3, H4. cbn [app]. rewrite length_app. lia. }
    unfold recv_step, finish_frame. repeat case_match; try done.
    all: by eapply wp_mono; [apply IH|]; intros o t Ht; apply Hstep.
  - destruct (ioe_kind e) eqn:Ek; try done.
    eapply wp_mono; [apply IH|]. intros o t Ht Ho. specialize (Ht Ho).
    rewrite !retries_cons. unfold received in *. cbn [event_retry map concat event_data app].
    rewrite Ek. lia.
Qed.

(** C11. A receive always comes to an end.  Its loop gives up a round only for
    bytes it took or for a read that the kernel had reported ready and then
    refused: [n] rounds suffice unless the peer's bytes and these retries
    together reach [n].  As a frame has at most 13 bytes and [MAX_FRAME_LEN],
    any more rounds than that and the retries lead to a frame or an error,
    whatever the peer sends and however slowly. *)
Theorem recv_frame_terminates (fuel : nat) :
  wp sys_ok (recv_frame fuel) (fun o t =>
    (o = Stopped Running -> (fuel <= retries t + length (received t))%nat) /\
    ((Z.of_nat (retries t) + 13 + MAX_FRAME_LEN < Z.of_nat fuel)%Z -> exists r, o = Done r)).
Proof.
  eapply wp_mono.
  - apply wp_and; [apply recv_loop_rounds|apply recv_loop_spec].
    unfold rx_inv, HEADER_LEN. simpl. split; [lia|]. auto with lia.
  - intros o t [Hr [Hb Ho]]. split; [exact Hr|]. intros Hf. rewrite app_nil_l in Hb.
    destruct o as [r|[| |]]; [by exists r| |done..]. specialize (Hr eq_refl). lia.
Qed.

(** ** End to end over the socket model *)

Lemma with_fd_split d n f :
  (0 < n)%nat -> with_fd (take n d) (Some f) ++ plain (drop n d) = with_fd d (Some f).
Proof.
  intros Hn. destruct d as [|b d]; [by destruct n|]. destruct n as [|n]; [lia|].
  cbn. f_equal. unfold plain. rewrite <- map_app, take_drop. done.
Qed.

Lemma kernel_send_split d n f k :
  (0 < n)%nat ->
  kernel_send (drop n d) None (kernel_send (take n d) (Some f) k) = kernel_send d (Some f) k.
Proof.
  intros Hn. unfold kernel_send. cbn. f_equal. rewrite <- app_assoc. f_equal.
  destruct (drop n d) eqn:E; rewrite <- E; cbn [with_fd]; rewrite ?E; rewrite <- ?E;
    rewrite <- (with_fd_split d n f) by done; by rewrite ?E.
Qed.

Lemma send_frame_run t p f k :
  (Z.of_nat (length p) <= MAX_FRAME_LEN)%Z ->
  exists tr, run kernel_handler (send_frame t p f) k =
             (Done (Ok tt), tr, kernel_send (frame_bytes t p) f k).
Proof.
  intros Hp. unfold send_frame. destruct (Z.ltb_spec MAX_FRAME_LEN (Z.of_nat (length p))); [lia|].
  destruct f as [f|]; [|unfold write_all; prog_unfold; cbn; eauto].
  fold (frame_bytes t p). unfold SEND_FUEL. cbn [send_loop].
  pose proof (frame_bytes_length t p) as Hl. unfold HEADER_LEN in Hl.
  destruct (Nat.ltb_spec 0 (length (frame_bytes t p))); [|lia].
  prog_unfold. change (drop 0 ?l) with l. cbn [prog_bind run kernel_handler].
  unfold kernel_sendmsg.
  set (n := match k_ticks k with Chunk n :: _ => _ | _ => _ end).
  assert (0 < n <= length (frame_bytes t p))%nat as Hn by (unfold n; repeat case_match; lia).
  cbn [map_err prog_bind]. destruct (Nat.eqb_spec n 0); [lia|]. rewrite Nat.add_0_l.
  destruct (Nat.ltb_spec n (length (frame_bytes t p))).
  - cbn [prog_bind run kernel_handler map_err].
    destruct (Nat.eqb_spec (length (frame_bytes t p) - n) 0); [lia|].
    destruct (Nat.ltb_spec (n + (length (frame_bytes t p) - n)) (length (frame_bytes t p)));
      [lia|].
    cbn [run]. rewrite kernel_send_split by lia. eauto.
  - cbn [run]. rewrite take_ge by lia. eauto.
Qed.

(** A list of frames sent one after the other, and as many received. *)
Definition outgoing : Type := MsgType * bytes * option fd.
Definition frame_of (x : outgoing) : Frame := mk_frame x.1.1 x.1.2 x.2.

Fixpoint send_all (l : list outgoing) : prog sys (Result unit) :=
  match l with
  | [] => ret? tt
  | (t, p, f) :: l => _ ←? send_frame t p f; send_all l
  end.

Fixpoint recv_all (fuel n : nat) : prog sys (Result (list Frame)) :=
  match n with
  | O => ret? []
  | S n => fr ←? recv_frame fuel; frs ←? recv_all fuel n; ret? (fr :: frs)
  end.

Definition fits (l : list outgoing) : Prop :=
  Forall (fun x => Z.of_nat (length x.1.2) <= MAX_FRAME_LEN)%Z l.
Definition flights (l : list outgoing) : flight :=
  concat (map (fun x => frame_flight x.1.1 x.1.2 x.2) l).

Lemma run_try {S A B} (h : handler sys S) (k : A -> prog sys (Result B))
    (p : prog sys (Result A)) s a t s' :
  run h p s = (Done (Ok a), t, s') ->
  run h (try_bind k p) s = let '(o, t', s'') := run h (k a) s' in (o, t ++ t', s'').
Proof. intros H. unfold try_bind. by rewrite run_bind, H. Qed.

Lemma send_all_run l k :
  fits l -> exists tr, run kernel_handler (send_all l) k =
    (Done (Ok tt), tr, mk_kernel (k_rx k) (k_closed k) (k_ticks k) (k_tx k ++ flights l)).
Proof.
  intros Hl. revert k. induction Hl as [|[[t p] f] l Hp _ IH]; intros k.
  - exists []. cbn. rewrite app_nil_r. by destruct k.
  - destruct (send_frame_run t p f k Hp) as [tr Hr]. cbn [send_all].
    rewrite (run_try _ _ _ _ _ _ _ Hr).
    destruct (IH (kernel_send (frame_bytes t p) f k)) as [tr' ->].
    cbn [kernel_send k_rx k_closed k_ticks k_tx]. rewrite <- app_assoc. eauto.
Qed.

Lemma recv_frame_run fuel t p f rest k :
  (Z.of_nat (length p) <= MAX_FRAME_LEN)%Z ->
  k_rx k = frame_flight t p f ++ rest ->
  (length (k_ticks k) + (HEADER_LEN + length p) < fuel)%nat ->
  exists tr ts, (length ts <= length (k_ticks k))%nat /\
    run kernel_handler (recv_frame fuel) k =
    (Done (Ok (mk_frame t p f)), tr, mk_kernel rest (k_closed k) ts (k_tx k)).
Proof.
  intros Hp Hrx Hf.
  destruct (recv_loop_complete fuel t p f rest k 0 (HEADER_LEN + 256)) as (tr & ts & Hts & Hr);
    [done|rewrite frame_bytes_length; unfold HEADER_LEN; lia| |done| |].
  - unfold need_at, HEADER_LEN. simpl. lia.
  - rewrite frame_bytes_length. lia.
  - exists tr, ts. split; [done|]. exact Hr.
Qed.

Lemma recv_all_run fuel l : forall k rest,
  fits l -> k_rx k = flights l ++ rest ->
  Forall (fun x => length (k_ticks k) + (HEADER_LEN + length x.1.2) < fuel)%nat l ->
  exists tr ts, run kernel_handler (recv_all fuel (length l)) k =
    (Done (Ok (map frame_of l)), tr, mk_kernel rest (k_closed k) ts (k_tx k)).
Proof.
  induction l as [|[[t p] f] l IH]; intros k rest Hfits Hrx Hfuel.
  - cbn in Hrx. exists [], (k_ticks k). cbn. rewrite <- Hrx. by destruct k.
  - inversion_clear Hfits. inversion_clear Hfuel.
    unfold flights in Hrx. cbn in Hrx. rewrite <- app_assoc in Hrx.
    destruct (recv_frame_run fuel t p f _ k ltac:(done) Hrx ltac:(done)) as (tr & ts & Hts & Hr).
    cbn [length recv_all]. rewrite (run_try _ _ _ _ _ _ _ Hr).
    edestruct (IH (mk_kernel (flights l ++ rest) (k_closed k) ts (k_tx k)) rest)
      as (tr' & ts' & Hr'); [done|done| |].
    { eapply Forall_impl; [done|]. cbn. lia. }
    fold (flights l). rewrite (run_try _ _ _ _ _ _ _ Hr').
    eexists _, ts'. cbn. done.
Qed.

(** C9. Frames sent one after the other over a Unix stream socket are received
    one by one, in order, unchanged and each with its own descriptor, however
    the kernel fragments the stream and however often it reports "not ready":
    a receive never reads past the end of its frame, and it returns as soon as
    its fuel exceeds the number of reads the fragmentation calls for. *)
Theorem frames_roundtrip (l : list outgoing) (send_ticks recv_ticks : list tick) (fuel : nat)
    (Hfits : fits l)
    (Hfuel : Forall (fun x => length recv_ticks + (HEADER_LEN + length x.1.2) < fuel)%nat l) :
  let k := run_state kernel_handler (send_all l) (fresh_kernel send_ticks) in
  run_out kernel_handler (send_all l) (fresh_kernel send_ticks) = Done (Ok tt) /\
  run_out kernel_handler (recv_all fuel (length l)) (peer_of k recv_ticks)
  = Done (Ok (map frame_of l)) /\
  k_rx (run_state kernel_handler (recv_all fuel (length l)) (peer_of k recv_ticks)) = [].
Proof.
  unfold run_out, run_state.
  destruct (send_all_run l (fresh_kernel send_ticks) Hfits) as [tr ->]. cbn.
  destruct (recv_all_run fuel l (mk_kernel (flights l) false recv_ticks []) [])
    as (tr' & ts' & Hr); [done|by rewrite app_nil_r|done|].
  unfold peer_of. cbn. by rewrite Hr.
Qed.

Definition sample_frames : list outgoing :=
  [(ExecRequestT, bytes_of_string "{}", Some 7%Z); (StdoutChunk, bytes_of_string "hello", None);
   (FileEof, [], None)].
Definition sample_ticks : list tick := [NotReady; Chunk 0; Chunk 3; NotReady; Chunk 20; Chunk 2].

Lemma frames_roundtrip_witness :
  fits sample_frames /\
  run_out kernel_handler (recv_all 40 3)
    (peer_of (run_state kernel_handler (send_all sample_frames) (fresh_kernel [Chunk 4]))
       sample_ticks)
  = Done (Ok (map frame_of sample_frames)).
Proof.
  assert (fits sample_frames) as Hf.
  { unfold fits, sample_frames. repeat constructor; vm_compute; discriminate. }
  split; [exact Hf|].
  refine (proj1 (proj2 (frames_roundtrip sample_frames [Chunk 4] sample_ticks 40 Hf _))).
  unfold sample_frames. repeat constructor; vm_compute; repeat constructor.
Defined.
