(* ===== verification/Workspace.v ===== *)
(** * The workspace guard ([classify_workspace] of [net/wire.rs])

    The check shared by the daemon and the command line: which directories may
    be used as a workspace.  It looks at the text of the path and at its
    components; callers are expected to canonicalize first. *)
From S2P Require Export Sys.

(* @src core/net/wire.rs:436-441 classify_workspace (PROTECTED_ROOTS) *)
Definition PROTECTED_ROOTS : list string :=
  ["/"; "/private"; "/etc"; "/private/etc"; "/var"; "/private/var";
   "/usr"; "/bin"; "/sbin"; "/System"; "/Library"; "/opt";
   "/opt/homebrew"; "/Volumes"; "/Users"; "/home"; "/boot"; "/dev";
   "/proc"; "/sys"; "/private/tmp"; "/tmp"].

(* @src core/net/wire.rs:446-454 classify_workspace (protected_prefixes) *)
Definition system_prefixes : list path :=
  ["/etc"; "/private/etc"; "/usr"; "/bin"; "/sbin"; "/System"; "/private/var/root"].

(* @src core/net/wire.rs:457-459 classify_workspace (secrets) *)
Definition secret_dirs : list string :=
  [".ssh"; ".gnupg"; ".aws"; ".config/gcloud"; ".kuda_keys"].

(* @src core/net/wire.rs:446-459 classify_workspace (protected_prefixes with the home's) *)
Definition protected_prefixes (home : string) : list path :=
  system_prefixes ++ (if decide (home = "") then [] else map (path_join home) secret_dirs).

Definition root_refusal (canon : path) : string :=
  "Path '" +:+ display_path canon +:+ "' is a protected system/root directory and cannot be mounted as a workspace.".
Definition home_refusal (canon : path) : string :=
  "Path '" +:+ display_path canon +:+ "' is the user home root and cannot be mounted as a workspace.".
Definition prefix_refusal (canon p : path) : string :=
  "Path '" +:+ display_path canon +:+ "' is inside a protected subtree (" +:+ display_path p +:+ ").".

(* @src core/net/wire.rs:464-468 classify_workspace (prefix loop) *)
Fixpoint check_prefixes (canon : path) (l : list path) : result path string :=
  match l with
  | [] => Ok canon
  | p :: l =>
      if path_starts_with canon p then Err (prefix_refusal canon p)
      else check_prefixes canon l
  end.

(** The guard for a given value of [$HOME], empty when it is unset. *)
(* @src core/net/wire.rs:431-471 classify_workspace *)
Definition classify_workspace_in (home : string) (canon : path) : result path string :=
  if existsb (fun r => bool_decide (display_path canon = r)) PROTECTED_ROOTS then Err (root_refusal canon)
  else if bool_decide (home <> "") && path_eqb canon home then Err (home_refusal canon)
  else check_prefixes canon (protected_prefixes home).

(* @src core/net/wire.rs:432-434 classify_workspace (HOME) *)
Definition classify_workspace (canon : path) : prog sys (result path string) :=
  home ← call (EnvVar "HOME");
  Ret (classify_workspace_in (default "" home) canon).

(** ** What the guard accepts *)

(** The paths it lets through. *)
Definition allowed (home : string) (p : path) : Prop :=
  p ∉ PROTECTED_ROOTS /\
  (home <> "" -> components p <> components home) /\
  forall q, q ∈ protected_prefixes home -> path_starts_with p q = false.

Lemma check_prefixes_ok canon l p :
  check_prefixes canon l = Ok p <->
  p = canon /\ forall q, q ∈ l -> path_starts_with canon q = false.
Proof.
  induction l as [|x l IH]; simpl.
  - split; [|by intros [-> _]]. intros [= ->]. split; [done|]. intros q Hq. by apply elem_of_nil in Hq.
  - destruct (path_starts_with canon x) eqn:E.
    + split; [done|]. intros [_ H]. specialize (H x ltac:(left)). congruence.
    + rewrite IH. split; intros [-> H]; (split; [done|]); intros q Hq.
      * apply elem_of_cons in Hq as [->|Hq]; auto.
      * apply H. by right.
Qed.

(** The roots are ASCII, so a path that reads as one is that one. *)
Lemma protected_roots_ascii : Forall (fun r => Forall ascii_byte (bytes_of_string r)) PROTECTED_ROOTS.
Proof. repeat constructor; vm_compute; discriminate. Qed.

Lemma existsb_root (p : path) :
  existsb (fun r => bool_decide (display_path p = r)) PROTECTED_ROOTS = true <-> p ∈ PROTECTED_ROOTS.
Proof.
  pose proof protected_roots_ascii as Hall. rewrite Forall_forall in Hall.
  rewrite existsb_exists, list_elem_of_In. split.
  - intros (r & Hin & Hr%bool_decide_eq_true). by rewrite (display_path_ascii p r (Hall r (proj2 (list_elem_of_In _ _) Hin)) Hr).
  - intros Hin. exists p. split; [done|]. apply bool_decide_eq_true.
    by apply display_path_of_ascii, Hall, list_elem_of_In.
Qed.

Lemma classify_ok_iff (home : string) (p q : path) :
  classify_workspace_in home p = Ok q <-> q = p /\ allowed home p.
Proof.
  unfold classify_workspace_in, allowed.
  destruct (existsb _ PROTECTED_ROOTS) eqn:Er.
  { split; [done|]. intros (_ & H & _). by apply existsb_root in Er. }
  assert (p ∉ PROTECTED_ROOTS) as Hr.
  { intros H. apply existsb_root in H. congruence. }
  destruct (bool_decide_reflect (home <> "")) as [Hh|Hh]; cbn [andb].
  - unfold path_eqb. destruct (bool_decide_reflect (components p = components home)).
    { split; [done|]. intros (_ & _ & H & _). by apply H in Hh. }
    rewrite check_prefixes_ok.
    split; [intros [-> H]; repeat split; auto; by intros|intros (-> & _ & _ & H); auto].
  - rewrite check_prefixes_ok.
    split; [intros [-> H]; repeat split; auto; by intros|intros (-> & _ & _ & H); auto].
Qed.

(** The guard decides its specification: it returns the path unchanged when
    the path is none of the protected roots, is not the home directory and has
    none of the protected directories (the system's, and the user's key and
    credential directories) among its ancestors component by component, and in
    every other case it returns a refusal. *)
Lemma classify_workspace_spec (home : string) (p q : path) :
  classify_workspace_in home p = Ok q <-> q = p /\ allowed home p.
Proof. apply classify_ok_iff. Qed.

Lemma classify_ok home p q : classify_workspace_in home p = Ok q -> q = p /\ allowed home p.
Proof. apply classify_ok_iff. Qed.

(** ** Canonical paths *)

(** The text that [realpath] would print for these names below the root. *)
Definition render (names : list string) : path :=
  match names with [] => "/" | _ => String.concat "" (map (fun n => "/" +:+ n) names) end.
Definition plain_name (n : string) : Prop :=
  n <> "" /\ n <> "." /\ n <> ".." /\ split_on "/" n = [n].
Definition canonical (p : path) (names : list string) : Prop :=
  p = render names /\ Forall plain_name names.

Lemma split_render n names :
  Forall plain_name (n :: names) ->
  split_on "/" (String.concat "" (map (fun n => "/" +:+ n) (n :: names))) = "" :: n :: names.
Proof.
  revert n. induction names as [|m names IH]; intros n H.
  - apply Forall_cons in H as [(_ & _ & _ & H) _]. cbn. by rewrite H.
  - apply Forall_cons in H as [(_ & _ & _ & Hn) H].
    change (String.concat "" (map (fun n => "/" +:+ n) (n :: m :: names)))
      with (("/" +:+ n) +:+ ("" +:+ String.concat "" (map (fun n => "/" +:+ n) (m :: names)))).
    set (r := String.concat _ _) in *.
    assert (exists s, r = String "/" s) as [s Hr].
    { unfold r. cbn. destruct names; eexists; reflexivity. }
    specialize (IH m H). fold r in IH. rewrite Hr in IH |- *. cbn [String.append].
    change (String "/" (n +:+ String "/" s)) with ("" +:+ String "/" (n +:+ String "/" s)).
    rewrite split_on_app, split_on_app, Hn.
    change (String "/" s) with ("" +:+ String "/" s) in IH.
    rewrite split_on_app in IH. cbn in IH |- *. congruence.
Qed.

Lemma segment_component_plain n : plain_name n -> segment_component n = Some (Normal n).
Proof.
  intros (H1 & H2 & H3 & _). unfold segment_component.
  by rewrite !decide_False by done.
Qed.

Lemma omap_plain names :
  Forall plain_name names -> omap segment_component names = map Normal names.
Proof.
  induction 1 as [|x l Hx _ IH]; [done|].
  change (omap segment_component (x :: l)) with
    (match segment_component x with
     | Some y => y :: omap segment_component l
     | None => omap segment_component l
     end).
  by rewrite segment_component_plain, IH.
Qed.

Lemma components_render names :
  Forall plain_name names -> components (render names) = RootDir :: map Normal names.
Proof.
  destruct names as [|n names]; intros H; [done|].
  unfold components, render. rewrite split_render by done.
  assert (is_absolute (String.concat "" (map (fun n => "/" +:+ n) (n :: names))) = true) as ->
    by (destruct names; reflexivity).
  change (omap segment_component ("" :: n :: names))
    with (omap segment_component (n :: names)).
  by rewrite omap_plain.
Qed.

Lemma normal_inj l l' : map Normal l = map Normal l' -> l = l'.
Proof.
  revert l'. induction l as [|x l IH]; intros [|y l'] H; simplify_eq/=; [done|].
  f_equal. auto.
Qed.

(** On canonical paths the text decides: equal components, equal paths. *)
Lemma canonical_components p q l l' :
  canonical p l -> canonical q l' -> components p = components q -> p = q.
Proof.
  intros [-> Hl] [-> Hl'] H. rewrite !components_render in H by done.
  injection H as H. by apply normal_inj in H as ->.
Qed.

Lemma protected_roots_canonical : Forall (fun r => exists l, canonical r l) PROTECTED_ROOTS.
Proof.
  unfold PROTECTED_ROOTS.
  repeat (apply Forall_cons_2 || apply Forall_nil_2);
    lazymatch goal with
    | |- exists l, canonical ?r l =>
        let l := eval vm_compute in
          (omap (fun c => match c with Normal n => Some n | _ => None end) (components r)) in
        exists l; split;
          [reflexivity
          |repeat (apply Forall_cons_2 || apply Forall_nil_2);
             repeat split; try discriminate; vm_compute; reflexivity]
    end.
Qed.

(** C22. On a canonical path (absolute, without [.], [..], doubled or trailing
    separators, as [realpath] returns it) the guard cannot be talked around: an
    accepted path is no spelling of a protected root or of the home directory,
    and lies in none of the protected directories. *)
Theorem classify_canonical_safe (home p q : path) (names : list string)
    (Hcanon : canonical p names) (Hok : classify_workspace_in home p = Ok q) :
  (forall r, r ∈ PROTECTED_ROOTS -> components p <> components r) /\
  (home <> "" -> components p <> components home) /\
  (forall d, d ∈ protected_prefixes home -> ~ exists rest, components p = components d ++ rest).
Proof.
  apply classify_ok_iff in Hok as [_ (Hroot & Hhome & Hpre)].
  split; [|split; [done|]].
  - intros r Hr Hc. pose proof protected_roots_canonical as Hall.
    rewrite Forall_forall in Hall. destruct (Hall r Hr) as [l Hl].
    apply Hroot. by rewrite (canonical_components p r names l).
  - intros d Hd Hex. apply path_starts_with_spec in Hex. rewrite Hpre in Hex; done.
Qed.

Lemma classify_canonical_safe_witness :
  classify_workspace_in "/home/u" "/home/u/project" = Ok "/home/u/project" /\
  components "/home/u/project" <> components "/home".
Proof.
  assert (canonical "/home/u/project" ["home"; "u"; "project"]) as Hc.
  { split; [reflexivity|].
    repeat (apply Forall_cons_2 || apply Forall_nil_2);
      (repeat split; try discriminate; vm_compute; reflexivity). }
  split; [vm_compute; reflexivity|].
  refine (proj1 (classify_canonical_safe "/home/u" "/home/u/project" "/home/u/project"
            ["home"; "u"; "project"] Hc _) "/home" _).
  - vm_compute; reflexivity.
  - apply list_elem_of_In. vm_compute. tauto.
Defined.

(** ** Paths that are not canonical *)

Lemma dotdot_prefix h x t rest :
  x <> "tmp" ->
  component_prefix (h ++ Normal x :: t) (RootDir :: Normal "tmp" :: ParentDir :: rest) = true ->
  ParentDir ∈ h.
Proof.
  intros Hx H. apply component_prefix_spec in H as [r H]. rewrite <- app_assoc in H.
  destruct h as [|a [|b [|c h]]]; simplify_eq/=. set_solver.
Qed.

Lemma has_parent_dir_spec p : has_parent_dir p = true <-> ParentDir ∈ components p.
Proof.
  unfold has_parent_dir. rewrite existsb_exists, list_elem_of_In. split.
  - intros (x & Hin & ->%bool_decide_eq_true). done.
  - intros H. exists ParentDir. by rewrite bool_decide_eq_true.
Qed.

Lemma dotdot_components p :
  is_absolute p = true ->
  components ("/tmp/.." +:+ p) = [RootDir; Normal "tmp"; ParentDir] ++ tail_components p.
Proof.
  destruct p as [|c p]; [done|]. intros Hp.
  assert (c = "/"%char) as ->.
  { cbn in Hp. destruct c as [[] [] [] [] [] [] [] []]; done. }
  unfold components, tail_components. rewrite split_on_app, omap_app.
  change (split_on "/" (String "/" p)) with ("" :: split_on "/" p). reflexivity.
Qed.

(** No secret directory of a home without [..] is an ancestor of such a path. *)
Lemma secrets_not_prefix home s p rest :
  has_parent_dir home = false -> home <> "" -> s ∈ secret_dirs ->
  components p = RootDir :: Normal "tmp" :: ParentDir :: rest ->
  path_starts_with p (path_join home s) = false.
Proof.
  intros Hh Hne Hs Hp.
  assert (exists x t, is_absolute s = false /\ tail_components s = Normal x :: t /\ x <> "tmp")
    as (x & t & Ha & Ht & Hx).
  { apply list_elem_of_In in Hs. cbn in Hs.
    repeat (destruct Hs as [<-|Hs]; [do 2 eexists; split; [reflexivity|split; [reflexivity|done]]|]).
    done. }
  unfold path_starts_with. rewrite components_join, Ht, Hp by done.
  apply not_true_is_false. intros H. apply dotdot_prefix in H; [|done].
  apply has_parent_dir_spec in H. congruence.
Qed.

(** C40. The guard reads text and does not resolve [..].  When [$HOME] has no
    [..] component itself, every absolute path is accepted behind the prefix
    [/tmp/..], which the system resolves to that path (where [/tmp] is a plain
    directory): a protected root, a directory below one, the home directory, a
    key directory and everything in it.  The components that the guard compares
    begin with [/], [tmp] and [..], whatever follows. *)
Theorem classify_dotdot_accepts (home p : path)
    (Habs : is_absolute p = true) (Hhome : has_parent_dir home = false) :
  classify_workspace_in home ("/tmp/.." +:+ p) = Ok ("/tmp/.." +:+ p) /\
  components ("/tmp/.." +:+ p) = [RootDir; Normal "tmp"; ParentDir] ++ tail_components p.
Proof.
  assert (components ("/tmp/.." +:+ p) = [RootDir; Normal "tmp"; ParentDir] ++ tail_components p)
    as Hc by by apply dotdot_components.
  split; [|exact Hc]. apply classify_ok_iff. split; [done|]. split; [|split].
  - intros Hin. apply list_elem_of_In in Hin. cbn in Hin.
    repeat (destruct Hin as [[=]|Hin]; try done).
  - intros _ H. assert (has_parent_dir home = true); [|congruence].
    apply has_parent_dir_spec. rewrite <- H, Hc. apply list_elem_of_In. simpl. auto.
  - intros d Hd. unfold protected_prefixes in Hd. apply elem_of_app in Hd as [Hd|Hd].
    + unfold path_starts_with. rewrite Hc. apply list_elem_of_In in Hd. cbn in Hd.
      repeat (destruct Hd as [<-|Hd]; [vm_compute; reflexivity|]). done.
    + case_decide as Hne; [by apply elem_of_nil in Hd|].
      apply list_elem_of_In, in_map_iff in Hd as (s & <- & Hs).
      eapply secrets_not_prefix; [done|done|by apply list_elem_of_In|exact Hc].
Qed.

Lemma classify_dotdot_accepts_witness :
  has_parent_dir "/home/u" = false /\
  classify_workspace_in "/home/u" "/tmp/../home/u/.ssh" = Ok "/tmp/../home/u/.ssh" /\
  classify_workspace_in "/home/u" "/home/u/.ssh" <> Ok "/home/u/.ssh".
Proof.
  split; [vm_compute; reflexivity|]. split; [|vm_compute; discriminate].
  apply (classify_dotdot_accepts "/home/u" "/home/u/.ssh"); vm_compute; reflexivity.
Defined.
