(* ===== verification/Policy.v ===== *)
(** * Sandbox policies ([policy.rs]) and the target platform

    The policy records with the three presets.  The code is compiled for an
    operating system and a processor ([cfg(target_os)], [cfg(target_arch)]);
    the class [Target] carries that choice, so every theorem holds for each of
    them unless it says otherwise. *)
From S2P Require Export Sys.

Inductive target_os : Type := Linux | MacOS | OtherOs.
Inductive target_arch : Type := ArchX86_64 | ArchAarch64 | ArchRiscv64 | OtherArch.
#[export] Instance target_os_eq_dec : EqDecision target_os.
Proof. solve_decision. Defined.
#[export] Instance target_arch_eq_dec : EqDecision target_arch.
Proof. solve_decision. Defined.

Class Target : Type := { os : target_os; arch : target_arch; seccomp_feature : bool }.

Definition is_linux `{Target} : bool := bool_decide (os = Linux).
Definition is_macos `{Target} : bool := bool_decide (os = MacOS).
Definition is_unix `{Target} : bool := is_linux || is_macos.

Definition linux_x86 : Target := {| os := Linux; arch := ArchX86_64; seccomp_feature := true |}.
Definition macos_arm : Target := {| os := MacOS; arch := ArchAarch64; seccomp_feature := true |}.

(* @src core/policy.rs:56-61 NetProtocol *)
Inductive NetProtocol : Type := Tcp | Udp | AnyProtocol.

(* @src core/policy.rs:49-54 NetworkTarget *)
Record NetworkTarget : Type := mk_target {
  nt_host : string;
  nt_port : Z;
  nt_protocol : NetProtocol
}.

(* @src core/policy.rs:39-47 NetworkPolicy *)
Inductive NetworkPolicy : Type :=
| Deny
| AllowList (targets : list NetworkTarget)
| AllowAll.
#[export] Instance NetProtocol_eq_dec : EqDecision NetProtocol.
Proof. solve_decision. Defined.
#[export] Instance NetworkTarget_eq_dec : EqDecision NetworkTarget.
Proof. solve_decision. Defined.
#[export] Instance NetworkPolicy_eq_dec : EqDecision NetworkPolicy.
Proof. solve_decision. Defined.

(* @src core/policy.rs:21-37 FsPolicy *)
Record FsPolicy : Type := mk_fs {
  rw_paths : list path;
  ro_paths : list path;
  deny_paths : list path;
  tmp_dir : option path;
  use_overlay : bool;
  container_root : option path
}.

(* @src core/policy.rs:63-77 ResourcePolicy *)
Record ResourcePolicy : Type := mk_resources {
  memory_limit_bytes : Z;
  cpu_time_limit_secs : Z;
  wall_time_limit_secs : Z;
  max_pids : Z;
  max_file_size_bytes : Z;
  max_open_files : Z
}.

(* @src core/policy.rs:79-85 BlockedOps *)
Record BlockedOps : Type := mk_blocked {
  blocked_syscalls : list string;
  darwin_deny_rules : list string
}.

(* @src core/policy.rs:4-19 SandboxPolicy *)
Record SandboxPolicy : Type := mk_policy {
  fs : FsPolicy;
  network : NetworkPolicy;
  resources : ResourcePolicy;
  blocked_ops : BlockedOps;
  env_allowlist : list string;
  env_inject : list (string * string)
}.

(** Field updates. *)
Definition with_fs (f : FsPolicy) (p : SandboxPolicy) : SandboxPolicy :=
  mk_policy f (network p) (resources p) (blocked_ops p) (env_allowlist p) (env_inject p).
Definition with_network (n : NetworkPolicy) (p : SandboxPolicy) : SandboxPolicy :=
  mk_policy (fs p) n (resources p) (blocked_ops p) (env_allowlist p) (env_inject p).
Definition with_resources (r : ResourcePolicy) (p : SandboxPolicy) : SandboxPolicy :=
  mk_policy (fs p) (network p) r (blocked_ops p) (env_allowlist p) (env_inject p).
Definition set_rw (l : list path) (f : FsPolicy) : FsPolicy :=
  mk_fs l (ro_paths f) (deny_paths f) (tmp_dir f) (use_overlay f) (container_root f).
Definition set_ro (l : list path) (f : FsPolicy) : FsPolicy :=
  mk_fs (rw_paths f) l (deny_paths f) (tmp_dir f) (use_overlay f) (container_root f).
Definition set_container_root (r : option path) (f : FsPolicy) : FsPolicy :=
  mk_fs (rw_paths f) (ro_paths f) (deny_paths f) (tmp_dir f) (use_overlay f) r.
Definition set_memory (m : Z) (r : ResourcePolicy) : ResourcePolicy :=
  mk_resources m (cpu_time_limit_secs r) (wall_time_limit_secs r) (max_pids r)
    (max_file_size_bytes r) (max_open_files r).
Definition set_wall_time (w : Z) (r : ResourcePolicy) : ResourcePolicy :=
  mk_resources (memory_limit_bytes r) (cpu_time_limit_secs r) w (max_pids r)
    (max_file_size_bytes r) (max_open_files r).
Definition set_cpu_time (c : Z) (r : ResourcePolicy) : ResourcePolicy :=
  mk_resources (memory_limit_bytes r) c (wall_time_limit_secs r) (max_pids r)
    (max_file_size_bytes r) (max_open_files r).

(* @src core/policy.rs:87-98 ResourcePolicy::default *)
Definition default_resources : ResourcePolicy :=
  mk_resources (512 * 1024 * 1024) 30 60 64 (100 * 1024 * 1024) 256.

(* @src core/policy.rs:107-115 SandboxPolicy::agent_default (deny_paths) *)
Definition secret_paths (home : option string) : list path :=
  match home with
  | Some home =>
      [path_join home ".ssh"; path_join home ".gnupg"; path_join home ".aws";
       path_join home ".config/gcloud"; path_join home ".kuda_keys"]
  | None => []
  end.

(* @src core/policy.rs:106-170 SandboxPolicy::agent_default *)
Definition agent_default_in (home : option string) (workspace : path) : SandboxPolicy :=
  {| fs := {|
       rw_paths := [workspace];
       ro_paths := ["/usr"; "/bin"; "/sbin"; "/lib"; "/lib64"; "/etc/ssl"; "/etc/resolv.conf"];
       deny_paths := secret_paths home;
       tmp_dir := None;
       use_overlay := false;
       container_root := None |};
     network := Deny;
     resources := default_resources;
     blocked_ops := {|
       blocked_syscalls :=
         ["reboot"; "kexec_load"; "init_module"; "delete_module"; "mount"; "umount2";
          "swapon"; "swapoff"; "ptrace"; "process_vm_readv"; "process_vm_writev"; "keyctl"];
       darwin_deny_rules := ["(deny sysctl-write)"; "(deny system-privilege)"] |};
     env_allowlist := ["PATH"; "HOME"; "LANG"; "LC_ALL"; "TERM"; "USER"; "SHELL"];
     env_inject := [("KUDA_SANDBOX", "1"); ("PYTHONUNBUFFERED", "1")] |}.

(* @src core/policy.rs:106-108 SandboxPolicy::agent_default (HOME) *)
Definition agent_default (workspace : path) : prog sys SandboxPolicy :=
  home ← call (EnvVar "HOME"); Ret (agent_default_in home workspace).

(* @src core/policy.rs:176-182 SandboxPolicy::rlm_kernel *)
Definition rlm_kernel (workspace kuda_dir : path) : prog sys SandboxPolicy :=
  policy ← agent_default workspace;
  let f := set_rw [kuda_dir] (fs policy) in
  let f := set_ro (ro_paths f ++ [workspace]) f in
  Ret (with_network Deny (with_fs f policy)).

(* @src core/policy.rs:187-194 SandboxPolicy::build_mode *)
Definition build_mode (workspace : path) : prog sys SandboxPolicy :=
  policy ← agent_default workspace;
  let r := set_memory (1024 * 1024 * 1024) (resources policy) in
  let r := set_wall_time 180 r in
  let r := set_cpu_time 120 r in
  Ret (with_resources r (with_network AllowAll policy)).

(** ** What the presets guarantee *)

(** The fields that no preset weakens. *)
Definition baseline (home : option string) (p : SandboxPolicy) : Prop :=
  deny_paths (fs p) = secret_paths home /\
  container_root (fs p) = None /\
  length (rw_paths (fs p)) = 1%nat /\
  (0 < memory_limit_bytes (resources p))%Z /\ (0 < cpu_time_limit_secs (resources p))%Z /\
  (0 < wall_time_limit_secs (resources p))%Z /\ (0 < max_pids (resources p))%Z /\
  (0 < max_file_size_bytes (resources p))%Z /\ (0 < max_open_files (resources p))%Z /\
  "mount" ∈ blocked_syscalls (blocked_ops p) /\ "ptrace" ∈ blocked_syscalls (blocked_ops p).

Definition policy_post (Q : option string -> SandboxPolicy -> Prop) (o : outcome SandboxPolicy)
    (t : sys_trace) : Prop :=
  exists home p, o = Done p /\ t = [Ev (EnvVar "HOME") home] /\ Q home p.

Lemma baseline_default home ws : baseline home (agent_default_in home ws).
Proof.
  unfold baseline. cbn. repeat split; try lia; apply list_elem_of_In; simpl; tauto.
Qed.

(** The three presets share their safety baseline for every home directory
    and workspace: the key and credential directories of the user are denied,
    exactly one path is writable, every resource limit is in force (none is
    the 0 that switches a limit off) and [mount] and [ptrace] are blocked.  They differ as documented: [agent_default] and
    [rlm_kernel] have no network, [rlm_kernel] makes only the [.kuda] directory
    writable and the workspace readable, [build_mode] opens the network and
    raises memory, CPU and wall time to 1 GiB, 120 s and 180 s. *)
Lemma presets_baseline (ws kuda : path) :
  wp any_response (agent_default ws) (policy_post (fun home p =>
    baseline home p /\ network p = Deny /\ rw_paths (fs p) = [ws])) /\
  wp any_response (rlm_kernel ws kuda) (policy_post (fun home p =>
    baseline home p /\ network p = Deny /\ rw_paths (fs p) = [kuda] /\
    ws ∈ ro_paths (fs p))) /\
  wp any_response (build_mode ws) (policy_post (fun home p =>
    baseline home p /\ network p = AllowAll /\ rw_paths (fs p) = [ws] /\
    memory_limit_bytes (resources p) = (2 ^ 30)%Z /\
    cpu_time_limit_secs (resources p) = 120%Z /\ wall_time_limit_secs (resources p) = 180%Z)).
Proof.
  split; [|split]; wp_simpl; intros home _;
    (eexists home, _; split; [reflexivity|split; [reflexivity|]];
     pose proof (baseline_default home ws) as Hb; unfold baseline in *; cbn in *).
  - tauto.
  - intuition (try lia). apply list_elem_of_In. simpl. tauto.
  - intuition lia.
Qed.
