(* ===== verification/Limits.v ===== *)
(** * POSIX resource limits ([resource_limits.rs])

    [apply_setrlimit] runs in the child between [fork] and [execve].  Integers
    are [u64]; the hard CPU limit is the soft one plus five seconds and wraps
    around at [2^64] as the release build does. *)
From S2P Require Export Policy.

(** [setrlimit(resource, soft, hard)?] *)
Definition setrlimit (r : rlimit) (soft hard : Z) : prog sys (Result unit) :=
  map_err_p Nix (call (Setrlimit r soft hard)).

(** [if limit > 0 { ... }] *)
Definition when_positive (limit : Z) (p : prog sys (Result unit)) : prog sys (Result unit) :=
  if (0 <? limit)%Z then p else ret? tt.

(* @src core/resource_limits.rs:85-85 KINFO_PROC_SIZE *)
Definition KINFO_PROC_SIZE : Z := 648.

(** The number of processes of all users, 0 when [sysctl] fails; the second
    call gets room for 64 more entries than the first one counted. *)
(* @src core/resource_limits.rs:80-106 user_process_count *)
Definition user_process_count : prog sys Z :=
  size ← call SysctlProcSize;
  match size with
  | None => Ret 0%Z
  | Some size =>
      let cap := (size / KINFO_PROC_SIZE + 64)%Z in
      filled ← call (SysctlProcFill (cap * KINFO_PROC_SIZE)%Z);
      match filled with
      | None => Ret 0%Z
      | Some size => Ret (size / KINFO_PROC_SIZE)%Z
      end
  end.

(* @src core/resource_limits.rs:74-78 macos_effective_nproc *)
Definition macos_effective_nproc (max_pids : Z) : prog sys Z :=
  current ← user_process_count;
  Ret (Z.max (saturating_u64 (current + max_pids)) 64)%Z.

(* @src core/resource_limits.rs:51-62 apply_setrlimit (macOS RLIMIT_NPROC) *)
Definition macos_nproc_limit (max_pids : Z) : prog sys (Result unit) :=
  effective ← macos_effective_nproc max_pids;
  map_err_p (fun _ => SetupFailed "Failed to set RLIMIT_NPROC on macOS")
    (call (Setrlimit RLIMIT_NPROC effective effective)).

(* @src core/resource_limits.rs:9-70 apply_setrlimit *)
Definition apply_setrlimit `{Target} (policy : ResourcePolicy) : prog sys (Result unit) :=
  if is_unix then
    _ ←? when_positive (cpu_time_limit_secs policy)
           (setrlimit RLIMIT_CPU (cpu_time_limit_secs policy)
              (wrap_u64 (cpu_time_limit_secs policy + 5)));
    _ ←? (if is_linux then
            when_positive (memory_limit_bytes policy)
              (setrlimit RLIMIT_AS (memory_limit_bytes policy) (memory_limit_bytes policy))
          else ret? tt);
    _ ←? when_positive (max_file_size_bytes policy)
           (setrlimit RLIMIT_FSIZE (max_file_size_bytes policy) (max_file_size_bytes policy));
    _ ←? when_positive (max_open_files policy)
           (setrlimit RLIMIT_NOFILE (max_open_files policy) (max_open_files policy));
    _ ←? (if is_linux then
            when_positive (max_pids policy)
              (setrlimit RLIMIT_NPROC (max_pids policy) (max_pids policy))
          else ret? tt);
    _ ←? (if is_macos then
            when_positive (max_pids policy) (macos_nproc_limit (max_pids policy))
          else ret? tt);
    Ret (Ok tt)
  else Ret (Err (Unsupported "POSIX setrlimit is not supported on this platform")).

(** ** The limits in force afterwards *)

(** The limits a policy asks for on Linux, in the order they are set. *)
Definition limit_spec (r : rlimit) (soft hard : Z) : list (rlimit * Z * Z) :=
  if (0 <? soft)%Z then [(r, soft, hard)] else [].
Definition wanted_limits (p : ResourcePolicy) : list (rlimit * Z * Z) :=
  limit_spec RLIMIT_CPU (cpu_time_limit_secs p) (wrap_u64 (cpu_time_limit_secs p + 5)) ++
  limit_spec RLIMIT_AS (memory_limit_bytes p) (memory_limit_bytes p) ++
  limit_spec RLIMIT_FSIZE (max_file_size_bytes p) (max_file_size_bytes p) ++
  limit_spec RLIMIT_NOFILE (max_open_files p) (max_open_files p) ++
  limit_spec RLIMIT_NPROC (max_pids p) (max_pids p).

Fixpoint set_all (l : list (rlimit * Z * Z)) : prog sys (Result unit) :=
  match l with
  | [] => ret? tt
  | (r, s, h) :: l => _ ←? setrlimit r s h; set_all l
  end.

(** A successful and a failed [setrlimit] as they appear in a trace. *)
Definition set_ok (x : rlimit * Z * Z) : event sys := Ev (Setrlimit x.1.1 x.1.2 x.2) (Ok tt).
Definition set_failed (x : rlimit * Z * Z) (e : nix_error) : event sys :=
  Ev (Setrlimit x.1.1 x.1.2 x.2) (Err e).

Lemma set_all_spec l :
  wp any_response (set_all l) (fun o t =>
    match o with
    | Done (Ok _) => t = map set_ok l
    | Done (Err e) => exists l1 x l2 err, l = l1 ++ x :: l2 /\
                        t = map set_ok l1 ++ [set_failed x err] /\ e = Nix err
    | Stopped _ => False
    end).
Proof.
  induction l as [|[[r s] h] l IH]; [done|]. cbn [set_all]. unfold setrlimit.
  wp_simpl. intros [[]|e] _; cbn [map_err prog_bind wp].
  - eapply wp_mono; [exact IH|]. intros [[[]|e]|s'] t; cbn; [by intros ->| |done].
    intros (l1 & x & l2 & err & -> & -> & ->). by exists ((r, s, h) :: l1), x, l2, err.
  - by exists [], (r, s, h), l, e.
Qed.

(** On Linux the chain of conditionals is the loop over the wanted limits. *)
Lemma apply_setrlimit_linux `{Target} p :
  os = Linux -> apply_setrlimit p = set_all (wanted_limits p).
Proof.
  intros Hos. unfold apply_setrlimit, is_unix, is_linux, is_macos. rewrite Hos.
  rewrite bool_decide_true, bool_decide_false by done. cbn [orb].
  unfold wanted_limits, when_positive, limit_spec.
  repeat (case_match; cbn [app set_all]); reflexivity.
Qed.

(** C23. On Linux the limits are applied completely and fail-closed: success
    means that exactly the limits the policy asks for, CPU, address space, file
    size, open files and processes, were set, in this order and with the
    policy's values (a limit of 0 is skipped, the hard CPU limit is, modulo [2^64], five
    seconds above the soft one); the first one that cannot be set ends the
    call with that error and nothing is tried after it. *)
Theorem apply_setrlimit_spec `{Target} (p : ResourcePolicy) (Hos : os = Linux) :
  wp any_response (apply_setrlimit p) (fun o t =>
    match o with
    | Done (Ok _) => t = map set_ok (wanted_limits p)
    | Done (Err e) => exists l1 x l2 err, wanted_limits p = l1 ++ x :: l2 /\
                        t = map set_ok l1 ++ [set_failed x err] /\ e = Nix err
    | Stopped _ => False
    end).
Proof. rewrite apply_setrlimit_linux by done. apply set_all_spec. Qed.

Lemma apply_setrlimit_spec_witness :
  wanted_limits default_resources =
    [(RLIMIT_CPU, 30, 35); (RLIMIT_AS, 536870912, 536870912);
     (RLIMIT_FSIZE, 104857600, 104857600); (RLIMIT_NOFILE, 256, 256); (RLIMIT_NPROC, 64, 64)]%Z
  /\ wp any_response (@apply_setrlimit linux_x86 default_resources) (fun o t =>
       match o with
       | Done (Ok _) => t = map set_ok (wanted_limits default_resources)
       | Done (Err e) => exists l1 x l2 err, wanted_limits default_resources = l1 ++ x :: l2 /\
                        t = map set_ok l1 ++ [set_failed x err] /\ e = Nix err
       | Stopped _ => False
       end).
Proof.
  split; [vm_compute; reflexivity|].
  apply (@apply_setrlimit_spec linux_x86 default_resources). reflexivity.
Defined.
