(* ===== verification/Linux.v ===== *)
(** * Linux isolation ([linux/cgroups.rs], [linux/namespaces.rs], [linux/seccomp.rs])

    One module per file.  Namespaces and the seccomp filter are set up in the
    child before [execve]; the cgroup is managed by the parent. *)
From S2P Require Export Policy.

(** A trace in which a call went well. *)
Definition done_ok {A Er} (e : sys (result A Er)) (a : A) (t : sys_trace) : Prop :=
  Ev e (Ok a) ∈ t.

Module Cgroups.

(* @src core/linux/cgroups.rs:7-9 CgroupManager *)
Record CgroupManager : Type := mk_manager { base_path : path }.

(* @src core/linux/cgroups.rs:18-22 CgroupManager::new *)
Definition new_manager : CgroupManager := mk_manager "/sys/fs/cgroup/kuda_sandbox".

(* @src core/linux/cgroups.rs:25-27 CgroupManager::is_available *)
Definition is_available : prog sys bool := call (PathExists "/sys/fs/cgroup/cgroup.controllers").

(** [fs::write(file, text).map_err(SetupFailed)] *)
Definition write_limit (file text what : string) : prog sys (Result unit) :=
  map_err_p (fun e => SetupFailed ("Failed to set cgroup " +:+ what +:+ ": " +:+ ioe_text e))
    (call (WriteFile file text)).

(* @src core/linux/cgroups.rs:30-60 CgroupManager::create_sandbox_cgroup *)
Definition create_sandbox_cgroup (self : CgroupManager) (id : string) (policy : ResourcePolicy)
    : prog sys (Result path) :=
  let cg_path := path_join (base_path self) id in
  _ ←? map_err_p (fun e => SetupFailed ("Failed to create cgroup dir " +:+ display_path cg_path +:+ ": "
                                        +:+ ioe_text e))
         (call (CreateDirAll cg_path));
  _ ←? (if (0 <? memory_limit_bytes policy)%Z then
          write_limit (path_join cg_path "memory.max") (pretty (memory_limit_bytes policy))
            "memory.max"
        else ret? tt);
  _ ←? (if (0 <? max_pids policy)%Z then
          write_limit (path_join cg_path "pids.max") (pretty (max_pids policy)) "pids.max"
        else ret? tt);
  _ ←? write_limit (path_join cg_path "cpu.max") "100000 100000" "cpu.max";
  Ret (Ok cg_path).

(* @src core/linux/cgroups.rs:63-69 CgroupManager::assign_pid *)
Definition assign_pid (cg_path : path) (p : pid) : prog sys (Result unit) :=
  map_err_p (fun e => SetupFailed ("Failed to write PID to cgroup.procs: " +:+ ioe_text e))
    (call (WriteFile (path_join cg_path "cgroup.procs") (pretty p))).

(* @src core/linux/cgroups.rs:72-82 CgroupManager::cleanup_cgroup *)
Definition cleanup_cgroup (cg_path : path) : prog sys (Result unit) :=
  exists_ ← call (PathExists cg_path);
  if exists_ : bool then
    let kill_file := path_join cg_path "cgroup.kill" in
    kill_exists ← call (PathExists kill_file);
    let_ (if kill_exists : bool then call (WriteFile kill_file "1") else Ret (Ok tt));
    let_ call (RemoveDirAll cg_path);
    ret? tt
  else ret? tt.

(** The limit files a policy asks for. *)
Definition wanted_files (cg : path) (policy : ResourcePolicy) : list (path * string) :=
  (if (0 <? memory_limit_bytes policy)%Z
   then [(path_join cg "memory.max", pretty (memory_limit_bytes policy))] else []) ++
  (if (0 <? max_pids policy)%Z
   then [(path_join cg "pids.max", pretty (max_pids policy))] else []) ++
  [(path_join cg "cpu.max", "100000 100000")].

(** C26. Creating a cgroup is fail-closed: it succeeds only when its directory
    was made and every limit of the policy (memory, processes, and one CPU) was
    written with the policy's value, in one pass and with no call besides; any
    failure on the way is reported as an error. *)
Theorem create_cgroup_fail_closed (self : CgroupManager) (id : string) (policy : ResourcePolicy) :
  let cg := path_join (base_path self) id in
  wp any_response (create_sandbox_cgroup self id policy) (fun o t =>
    match o with
    | Done (Ok p) => p = cg /\
        t = Ev (CreateDirAll cg) (Ok tt)
            :: map (fun f => Ev (WriteFile f.1 f.2) (Ok tt)) (wanted_files cg policy)
    | Done (Err e) => exists m, e = SetupFailed m
    | Stopped _ => False
    end).
Proof.
  intros cg. unfold create_sandbox_cgroup, write_limit, wanted_files. fold cg.
  wp_simpl. intros [[]|e] _; cbn [map_err prog_bind wp]; [|eauto].
  destruct (0 <? memory_limit_bytes policy)%Z; cbn [prog_bind wp];
    [intros [[]|e] _; cbn [map_err prog_bind wp]; [|eauto]|];
    (destruct (0 <? max_pids policy)%Z; cbn [prog_bind wp];
      [intros [[]|e] _; cbn [map_err prog_bind wp]; [|eauto]|]);
    (intros [[]|e] _; cbn [map_err prog_bind wp]; [|eauto]); done.
Qed.

End Cgroups.

Module Namespaces.

(* @src core/linux/namespaces.rs:15-23 setup_child_namespaces (flags) *)
Definition namespace_flags (policy : SandboxPolicy) : list clone_flag :=
  [CLONE_NEWNS; CLONE_NEWPID; CLONE_NEWIPC; CLONE_NEWUTS] ++
  (if decide (network policy = Deny) then [CLONE_NEWNET] else []).

(* @src core/linux/namespaces.rs:10-51 NamespaceManager::setup_child_namespaces *)
Definition setup_child_namespaces `{Target} (policy : SandboxPolicy) : prog sys (Result unit) :=
  if is_linux then
    _ ←? map_err_p (fun e => SetupFailed ("Failed to unshare Linux namespaces: " +:+ e))
           (call (Unshare (namespace_flags policy)));
    let_ call (Mount None "/" None [MS_REC; MS_PRIVATE] None);
    let_ call (SetHostname "kuda-sandbox");
    ret? tt
  else ret? tt.

(** A NUL byte cannot be passed to the kernel. *)
Fixpoint nul_position (s : string) : option nat :=
  match s with
  | EmptyString => None
  | String c s => if decide (c = Ascii.zero) then Some O else S <$> nul_position s
  end.

(* @src core/linux/namespaces.rs:112-116 path_to_cstring *)
Definition path_to_cstring (p : path) : Result string :=
  match nul_position p with
  | None => Ok p
  | Some n => Err (SetupFailed ("Invalid path '" +:+ display_path p +:+
                   "': nul byte found in provided data at position: " +:+ pretty (Z.of_nat n)))
  end.

(* @src core/linux/namespaces.rs:56-108 NamespaceManager::enter_container_root *)
Definition enter_container_root (root : path) : prog sys (Result unit) :=
  _ ←? map_err_p (fun e => SetupFailed ("Container root " +:+ display_path root +:+ " is not accessible: " +:+ e))
         (call (Chdir root));
  _ ←? map_err_p (fun e => SetupFailed ("Failed to rebind container root: " +:+ e))
         (call (Mount (Some root) root None [MS_BIND; MS_REC] None));
  let put_old := path_join root ".pivot_old" in
  old_exists ← call (PathExists put_old);
  _ ←? (if old_exists : bool then ret? tt
        else map_err_p (fun e => SetupFailed ("Failed to create .pivot_old dir: " +:+ e))
               (call (Mkdir put_old 448)));
  root_c ←? Ret (path_to_cstring root);
  old_c ←? Ret (path_to_cstring put_old);
  _ ←? map_err_p (fun e => SetupFailed ("pivot_root into " +:+ display_path root +:+ " failed: " +:+ ioe_text e))
         (call (PivotRoot root_c old_c));
  _ ←? map_err_p (fun e => SetupFailed ("chdir(/) after pivot failed: " +:+ e)) (call (Chdir "/"));
  _ ←? map_err_p (fun e => SetupFailed ("Failed to detach old host root: " +:+ e))
         (call (Umount2Detach "/.pivot_old"));
  let_ call (Rmdir "/.pivot_old");
  let_ call (Mount (Some "proc") "/proc" (Some "proc") [MS_NOSUID; MS_NOEXEC; MS_NODEV] None);
  ret? tt.

Lemma path_to_cstring_ok p q : path_to_cstring p = Ok q -> q = p.
Proof. unfold path_to_cstring. by case_match; intros [=]. Qed.

(** Entering the container root is all or nothing: it reports success only
    after the new root was made a mount point, [pivot_root] moved the old root
    to [.pivot_old], the working directory was moved into the new root and the
    old host root was detached, in this order; a failure of any of these steps
    is reported, so the child never starts with the host's root reachable. *)
Lemma enter_container_root_detaches (root : path) :
  wp any_response (enter_container_root root) (fun o t =>
    match o with
    | Done (Ok _) =>
        [Ev (Mount (Some root) root None [MS_BIND; MS_REC] None) (Ok tt);
         Ev (PivotRoot root (path_join root ".pivot_old")) (Ok tt);
         Ev (Chdir "/") (Ok tt);
         Ev (Umount2Detach "/.pivot_old") (Ok tt)] `sublist_of` t
    | Done (Err e) => exists m, e = SetupFailed m
    | Stopped _ => False
    end).
Proof.
  unfold enter_container_root. wp_simpl.
  intros [[]|e] _; cbn [map_err prog_bind wp]; [|eauto].
  intros [[]|e] _; cbn [map_err prog_bind wp]; [|eauto].
  intros old _. set (put_old := path_join root ".pivot_old").
  assert (forall e, path_to_cstring root = Err e -> exists m, e = SetupFailed m) as He1.
  { unfold path_to_cstring. intros e He. case_match; simplify_eq. eauto. }
  assert (forall e, path_to_cstring put_old = Err e -> exists m, e = SetupFailed m) as He2.
  { unfold path_to_cstring. intros e He. case_match; simplify_eq. eauto. }
  destruct (path_to_cstring root) as [rc|er] eqn:E1;
    [apply path_to_cstring_ok in E1 as ->
    |destruct old; cbn; [eauto|intros [[]|e] _; cbn; eauto]].
  destruct (path_to_cstring put_old) as [oc|eo] eqn:E2;
    [apply path_to_cstring_ok in E2 as ->
    |destruct old; cbn; [eauto|intros [[]|e] _; cbn; eauto]].
  destruct old; cbn [prog_bind wp map_err];
    [|intros [[]|e] _; cbn [map_err prog_bind wp]; [|eauto]];
    (intros [[]|e] _; cbn [map_err prog_bind wp]; [|eauto]);
    (intros [[]|e] _; cbn [map_err prog_bind wp]; [|eauto]);
    (intros [[]|e] _; cbn [map_err prog_bind wp]; [|eauto]);
    intros r1 _ r2 _;
    repeat (apply sublist_skip || apply sublist_cons || apply sublist_nil_l).
Qed.

End Namespaces.

Module Seccomp.

(* @src core/linux/seccomp.rs:20-26 SeccompFilter::apply (default list) *)
Definition default_blocked : list string :=
  ["reboot"; "kexec_load"; "init_module"; "delete_module";
   "mount"; "umount2"; "swapon"; "swapoff";
   "ptrace"; "process_vm_readv"; "process_vm_writev";
   "keyctl"; "request_key"; "add_key"].

(* @src core/linux/seccomp.rs:19-31 SeccompFilter::apply (blocked) *)
Definition blocked_names (policy : SandboxPolicy) : list string :=
  match blocked_syscalls (blocked_ops policy) with
  | [] => default_blocked
  | names => names
  end.

(* @src core/linux/seccomp.rs:36-51 SeccompFilter::apply (for syscall_name in &blocked) *)
Fixpoint block_all (names : list string) : prog sys (Result unit) :=
  match names with
  | [] => ret? tt
  | name :: names =>
      resolved ← call (SeccompFromName name);
      match resolved with
      | Some nr =>
          _ ←? map_err_p (fun e => SetupFailed ("seccomp: failed to block '" +:+ name +:+ "': " +:+ e))
                 (call (SeccompBlock nr));
          block_all names
      | None => block_all names
      end
  end.

(* @src core/linux/seccomp.rs:9-71 SeccompFilter::apply *)
Definition apply `{Target} (policy : SandboxPolicy) : prog sys (Result unit) :=
  if is_linux then
    if seccomp_feature then
      _ ←? map_err_p (fun e => SetupFailed ("Failed to initialize seccomp filter: " +:+ e))
             (call SeccompNew);
      _ ←? map_err_p (fun e => SetupFailed ("seccomp: native arch unavailable: " +:+ e))
             (call SeccompNativeArch);
      _ ←? block_all (blocked_names policy);
      _ ←? map_err_p (fun e => SetupFailed ("Failed to load seccomp filter: " +:+ e))
             (call SeccompLoad);
      ret? tt
    else Ret (Err (Unsupported
      "Built without the 'seccomp' feature; refusing to run without syscall filtering on Linux"))
  else ret? tt.

(** What the loop does for a name that the kernel resolved to [r]. *)
Definition rule_events (x : string * option Z) : sys_trace :=
  Ev (SeccompFromName x.1) x.2 ::
  match x.2 with Some nr => [Ev (SeccompBlock nr) (Ok tt)] | None => [] end.

Lemma rule_events_no_load names rs r :
  Ev SeccompLoad r ∈ flat_map rule_events (zip names rs) -> False.
Proof.
  rewrite list_elem_of_In, in_flat_map. intros ([n [z|]] & _ & Hin); cbn in Hin.
  - destruct Hin as [[=]|[[=]|[]]].
  - destruct Hin as [[=]|[]].
Qed.

Lemma block_all_spec names :
  wp any_response (block_all names) (fun o t =>
    match o with
    | Done (Ok _) => exists rs, length rs = length names /\
        t = flat_map rule_events (zip names rs)
    | Done (Err e) => (exists m, e = SetupFailed m) /\ forall r, Ev SeccompLoad r ∉ t
    | Stopped _ => False
    end).
Proof.
  induction names as [|name names IH]; [by exists []|].
  cbn [block_all]. wp_simpl. intros [nr|] _.
  - cbn. intros [[]|e] _; cbn [map_err prog_bind wp].
    + eapply wp_mono; [exact IH|]. intros [[[]|e]|s] t; cbn; [| |done].
      * intros (rs & Hl & ->). exists (Some nr :: rs). cbn. auto.
      * intros [He Hn]. split; [done|]. intros r. rewrite !elem_of_cons.
        intros [[=]|[[=]|Hin]]. by eapply Hn.
    + split; [eauto|]. intros r. rewrite !elem_of_cons, elem_of_nil. naive_solver.
  - eapply wp_mono; [exact IH|]. intros [[[]|e]|s] t; cbn; [| |done].
    + intros (rs & Hl & ->). exists (None :: rs). cbn. auto.
    + intros [He Hn]. split; [done|]. intros r. rewrite !elem_of_cons.
      intros [[=]|Hin]. by eapply Hn.
Qed.

(** With the feature, on Linux. *)
Lemma apply_spec `{Target} (policy : SandboxPolicy) :
  is_linux = true -> seccomp_feature = true ->
  wp any_response (apply policy) (fun o t =>
    match o with
    | Done (Ok _) => exists rs, length rs = length (blocked_names policy) /\
          t = [Ev SeccompNew (Ok tt); Ev SeccompNativeArch (Ok tt)] ++
              flat_map rule_events (zip (blocked_names policy) rs) ++
              [Ev SeccompLoad (Ok tt)]
    | Done (Err e) => Ev SeccompLoad (Ok tt) ∉ t /\ exists m, e = SetupFailed m
    | Stopped _ => False
    end).
Proof.
  intros Hlin Hf. unfold apply. rewrite Hlin, Hf.
  wp_simpl. intros [[]|e] _; cbn [map_err prog_bind wp];
    [|split_and!; eauto; rewrite elem_of_cons, elem_of_nil; naive_solver].
  intros [[]|e] _; cbn [map_err prog_bind wp];
    [|split_and!; eauto; rewrite !elem_of_cons, elem_of_nil; naive_solver].
  apply wp_bind. eapply wp_mono; [apply block_all_spec|].
  intros [[[]|e]|s] t; [| |done].
  - intros (rs & Hl & ->). cbn [wp prog_bind]. intros [[]|e] _; cbn [map_err prog_bind wp].
    + by exists rs.
    + split; [|eauto].
      rewrite !elem_of_cons, elem_of_app, list_elem_of_singleton.
      intros [[=]|[[=]|[Hin|Hin]]]; [by apply rule_events_no_load in Hin|].
      by apply Ev_inj in Hin.
  - intros [He Hn]. cbn. rewrite app_nil_r. split; [|done].
    rewrite !elem_of_cons. intros [[=]|[[=]|Hin]]. by eapply Hn.
Qed.

(** C25. System-call filtering is fail-closed on Linux: success means that the
    filter was loaded, after every name of the policy's block list (of the
    built-in list when the policy has none) was looked up and each one the
    kernel knows got its blocking rule, in order and with nothing in between;
    any failure is reported and no filter was loaded before it except by a
    failed load.  Without the seccomp feature a Linux build refuses to run, and
    on other systems nothing is called. *)
Theorem seccomp_fail_closed `{Target} (policy : SandboxPolicy) :
  wp any_response (apply policy) (fun o t =>
    match o with
    | Done (Ok _) =>
        if is_linux then seccomp_feature = true /\
          exists rs, length rs = length (blocked_names policy) /\
          t = [Ev SeccompNew (Ok tt); Ev SeccompNativeArch (Ok tt)] ++
              flat_map rule_events (zip (blocked_names policy) rs) ++
              [Ev SeccompLoad (Ok tt)]
        else t = []
    | Done (Err e) => is_linux = true /\ Ev SeccompLoad (Ok tt) ∉ t /\
        (if seccomp_feature then exists m, e = SetupFailed m
         else (exists m, e = Unsupported m) /\ t = [])
    | Stopped _ => False
    end).
Proof.
  destruct is_linux eqn:El; [|by unfold apply; rewrite El].
  destruct seccomp_feature eqn:Ef.
  - eapply wp_mono; [by apply apply_spec|]. intros [[[]|e]|s] t; naive_solver.
  - unfold apply. rewrite El, Ef. cbn. split_and!; eauto. apply not_elem_of_nil.
Qed.

End Seccomp.
