(* ===== verification/Darwin.v ===== *)
(** * The macOS sandbox profile ([darwin/profile.rs])

    [generate_profile] writes a profile in the language of [sandbox-exec], one
    [push_str] at a time; the model is the list of the pushed texts, in order,
    and their concatenation.  Paths enter the text through [Path::display].
    [DarwinSpec] reads the text back. *)
From S2P Require Export Policy.

Definition dq : string := String "034" "".
Definition nl : string := String "010" "".
Definition quoted (s : string) : string := dq +:+ s +:+ dq.

(** [(action (filter "path"))], and with a line break. *)
Definition form (action filter p : string) : string :=
  "(" +:+ action +:+ " (" +:+ filter +:+ " " +:+ quoted p +:+ "))".
Definition rule (action filter p : string) : string := form action filter p +:+ nl.

(** [if let Ok(canon) = p.canonicalize() { if canon != *p { .. } }] *)
Definition other_spelling (p : path) : prog sys (option path) :=
  canon ← call (Canonicalize p);
  Ret (match canon with
       | Ok c => if path_eqb c p then None else Some c
       | Err _ => None
       end).

(** A loop that pushes the lines of each element. *)
Fixpoint push_each {A} (f : A -> prog sys (list string)) (l : list A)
    : prog sys (list string) :=
  match l with
  | [] => Ret []
  | x :: l => a ← f x; b ← push_each f l; Ret (a ++ b)
  end.

(* @src core/darwin/profile.rs:11-16 DarwinSandbox::generate_profile (default denials) *)
Definition preamble : list string :=
  ["(version 1)" +:+ nl; "(allow default)" +:+ nl +:+ nl;
   "; === Strictly Deny All Writes by Default ===" +:+ nl;
   rule "deny file-write*" "subpath" "/" +:+ nl].

(* @src core/darwin/profile.rs:19-25 DarwinSandbox::generate_profile (home) *)
Definition home_rules : prog sys (list string) :=
  home ← call (EnvVar "HOME");
  Ret (match home with
       | Some home =>
           ["; === Deny Reading Entire User Home Directory ===" +:+ nl;
            rule "deny file-read*" "subpath" home;
            rule "deny file-read-metadata" "literal" home]
       | None => []
       end).

(* @src core/darwin/profile.rs:28-34 DarwinSandbox::generate_profile (scratch directories) *)
Definition scratch_rules : list string :=
  ["; === Allow Write to Temporary Dirs & Devices ===" +:+ nl;
   rule "allow file-write*" "subpath" "/private/tmp";
   rule "allow file-write*" "subpath" "/private/var/folders";
   rule "allow file-write*" "subpath" "/tmp";
   rule "allow file-write*" "subpath" "/dev/null";
   rule "allow file-write*" "subpath" "/dev/zero";
   rule "allow file-write*" "subpath" "/dev/dtracehelper" +:+ nl].

Definition rw_rule (p : path) : string := rule "allow file-read* file-write*" "subpath" (display_path p).

(* @src core/darwin/profile.rs:38-45 DarwinSandbox::generate_profile (rw_paths) *)
Definition rw_rules (p : path) : prog sys (list string) :=
  other ← other_spelling p;
  Ret (rw_rule p :: match other with Some c => [rw_rule c] | None => [] end).

(* @src core/darwin/profile.rs:49-58 DarwinSandbox::generate_profile (ro_paths) *)
Definition ro_rules (policy : SandboxPolicy) : list string :=
  ["; === Allow Read to System Libraries & Interpreters ===" +:+ nl] ++
  map (fun p => rule "allow file-read*" "subpath" (display_path p)) (ro_paths (fs policy)) ++
  [rule "allow file-read*" "subpath" "/System";
   rule "allow file-read*" "subpath" "/Library";
   rule "allow file-read*" "subpath" "/usr";
   rule "allow file-read*" "subpath" "/bin";
   rule "allow file-read*" "subpath" "/sbin";
   rule "allow file-read*" "subpath" "/opt/homebrew" +:+ nl].

Definition deny_rules_for (p : path) : list string :=
  [rule "deny file-read* file-write*" "subpath" (display_path p);
   rule "deny file-read-metadata" "subpath" (display_path p)].

(* @src core/darwin/profile.rs:62-72 DarwinSandbox::generate_profile (deny_paths) *)
Definition deny_rules (p : path) : prog sys (list string) :=
  other ← other_spelling p;
  Ret (deny_rules_for p ++ match other with Some c => deny_rules_for c | None => [] end).

Definition deny_network : string := "(deny network*)" +:+ nl.

(* @src core/darwin/profile.rs:94-101 DarwinSandbox::generate_profile (endpoint rule) *)
Definition endpoint_rule (t : NetworkTarget) (ip : string) : string :=
  rule "allow network-outbound"
    (match nt_protocol t with Udp => "remote udp" | _ => "remote tcp" end)
    (ip +:+ ":" +:+ pretty (nt_port t)).

(* @src core/darwin/profile.rs:88-110 DarwinSandbox::generate_profile (allow list) *)
Definition target_rules (t : NetworkTarget) : prog sys (list string) :=
  addrs ← call (ResolveHost (nt_host t +:+ ":" +:+ pretty (nt_port t)));
  match addrs with
  | Ok ips => Ret (map (endpoint_rule t) ips)
  | Err e =>
      _ ← call (Warn ("AllowList target '" +:+ nt_host t +:+ ":" +:+ pretty (nt_port t)
                      +:+ "' failed to resolve: " +:+ ioe_text e));
      Ret []
  end.

(* @src core/darwin/profile.rs:77-116 DarwinSandbox::generate_profile (network) *)
Definition network_rules (policy : SandboxPolicy) : prog sys (list string) :=
  match network policy with
  | Deny => Ret [deny_network]
  | AllowAll => Ret ["(allow network*)" +:+ nl]
  | AllowList targets =>
      rules ← push_each target_rules targets;
      _ ← (match rules with
           | [] => call (Warn "NetworkPolicy::AllowList resolved to zero endpoints; denying all network")
           | _ => Ret tt
           end);
      Ret (rules ++ [deny_network])
  end.

(* @src core/darwin/profile.rs:120-127 DarwinSandbox::generate_profile (services) *)
Definition service_rules (policy : SandboxPolicy) : list string :=
  ["; === Blocked Privileged & Security Services ===" +:+ nl;
   "(deny sysctl-write)" +:+ nl;
   "(deny system-privilege)" +:+ nl;
   rule "deny mach-lookup" "global-name" "com.apple.SecurityServer";
   rule "deny mach-lookup" "global-name" "com.apple.CoreAuthentication.daemon"] ++
  map (fun r => r +:+ nl) (darwin_deny_rules (blocked_ops policy)).

(** The texts pushed to the profile, in order. *)
(* @src core/darwin/profile.rs:9-130 DarwinSandbox::generate_profile *)
Definition profile_lines (policy : SandboxPolicy) : prog sys (list string) :=
  home ← home_rules;
  rw ← push_each rw_rules (rw_paths (fs policy));
  deny ← push_each deny_rules (deny_paths (fs policy));
  net ← network_rules policy;
  Ret (preamble ++ home ++ scratch_rules ++
       ["; === Allow Read & Write Strictly to Workspace ===" +:+ nl] ++ rw ++ [nl] ++
       ro_rules policy ++
       ["; === Explicit Sensitive Path & Key Denials ===" +:+ nl] ++ deny ++ [nl] ++
       ["; === Network Policy ===" +:+ nl] ++ net ++ [nl] ++
       service_rules policy).

(* @src core/darwin/profile.rs:9-10 DarwinSandbox::generate_profile (text) *)
Definition generate_profile (policy : SandboxPolicy) : prog sys string :=
  lines ← profile_lines policy; Ret (String.concat "" lines).

(* @src core/darwin/profile.rs:133-148 DarwinSandbox::build_command *)
Definition darwin_build_command (policy : SandboxPolicy) (command_str : string) (working_dir : path)
    : prog sys command :=
  profile ← generate_profile policy;
  Ret (mk_command "/usr/bin/sandbox-exec" ["-p"; profile; "/bin/sh"; "-c"; command_str]
         (Some working_dir) false ∅ Inherit Inherit Inherit false).
