(* ===== verification/DarwinSpec.v ===== *)
(** * What a macOS profile says when it is read

    A profile is text.  [forms] reads it the way [sandbox-exec] does: as
    parenthesised forms, with strings in double quotes, escapes inside them and
    comments up to the end of the line.  The theorem is about the forms that
    are read, so a quote that a path brings into the text would matter; paths
    without quotes and backslashes bring none. *)
From S2P Require Export Darwin.

(** ** Reading *)

Definition c_quote : ascii := "034".
Definition c_backslash : ascii := "092".
Definition c_newline : ascii := "010".

Inductive reading : Type := Code | InComment | InString | InEscape.

Definition blank (c : ascii) : bool :=
  bool_decide (c = " "%char) || bool_decide (c = c_newline) || bool_decide (c = "009"%char).

(** The forms of [s] when [depth] parentheses are open and [cur] is what was
    read of the form they are in; [None] if the text is not made of forms. *)
Fixpoint read_forms (depth : nat) (mode : reading) (cur s : string) : option (list string) :=
  match s with
  | EmptyString =>
      match depth, mode with O, Code | O, InComment => Some [] | _, _ => None end
  | String c s =>
      match mode with
      | InComment => read_forms depth (if decide (c = c_newline) then Code else InComment) cur s
      | InEscape => read_forms depth InString (cur +:+ String c "") s
      | InString =>
          read_forms depth
            (if decide (c = c_quote) then Code
             else if decide (c = c_backslash) then InEscape else InString)
            (cur +:+ String c "") s
      | Code =>
          if decide (c = ";"%char) then read_forms depth InComment cur s
          else match depth with
               | O =>
                   if blank c then read_forms 0 Code "" s
                   else if decide (c = "("%char) then read_forms 1 Code "(" s else None
               | S outer =>
                   let cur := cur +:+ String c "" in
                   if decide (c = "("%char) then read_forms (S depth) Code cur s
                   else if decide (c = ")"%char) then
                     match outer with
                     | O => cons cur <$> read_forms 0 Code "" s
                     | S _ => read_forms outer Code cur s
                     end
                   else read_forms depth (if decide (c = c_quote) then InString else Code) cur s
               end
      end
  end.
Definition forms (text : string) : option (list string) := read_forms 0 Code "" text.

Example forms_ex : forms ("; c" +:+ nl +:+ "(version 1)" +:+ rule "deny file*" "subpath" "/a ; (b" +:+ nl)
  = Some ["(version 1)"; form "deny file*" "subpath" "/a ; (b"].
Proof. vm_compute. reflexivity. Qed.

(** Two forms where one was meant: the path of the second has a quote. *)
Example injected_form :
  forms (rw_rule ("/w" +:+ dq +:+ "))(allow file-write* (subpath " +:+ dq +:+ "/"))
  = Some [form "allow file-read* file-write*" "subpath" "/w"; form "allow file-write*" "subpath" "/"].
Proof. vm_compute. reflexivity. Qed.

(** [reads s fs]: [s] is read as [fs], whatever comes after it. *)
Definition reads (s : string) (fs : list string) : Prop :=
  forall rest, forms (s +:+ rest) = app fs <$> forms rest.

Lemma reads_nil : reads "" [].
Proof. intros rest. change ("" +:+ rest) with rest. by destruct (forms rest). Qed.

Lemma reads_app s s' fs fs' : reads s fs -> reads s' fs' -> reads (s +:+ s') (fs ++ fs').
Proof.
  intros H H' rest. rewrite <- append_assoc, H, H'.
  destruct (forms rest) as [l|]; [|done]. cbn. by rewrite app_assoc.
Qed.

Lemma reads_concat ss fss : Forall2 reads ss fss -> reads (String.concat "" ss) (concat fss).
Proof.
  assert (forall s ss, String.concat "" (s :: ss) = s +:+ String.concat "" ss) as Hc.
  { intros s [|s' l]; [|done]. cbn. by rewrite append_nil_r. }
  induction 1 as [|s fs ss fss Hs _ IH]; [apply reads_nil|].
  rewrite Hc. by apply reads_app.
Qed.

Lemma reads_all s fs : reads s fs -> forms s = Some fs.
Proof. intros H. specialize (H ""). rewrite append_nil_r in H. rewrite H. cbn. by rewrite app_nil_r. Qed.

(** At the outside nothing of a form has been read. *)
Lemma read_outside cur cur' s :
  read_forms 0 Code cur s = read_forms 0 Code cur' s /\
  read_forms 0 InComment cur s = read_forms 0 InComment cur' s.
Proof.
  induction s as [|c s [IH1 IH2]]; [done|]. cbn [read_forms]. by repeat case_decide.
Qed.

(** A line that is read by itself is read so in front of anything. *)
Lemma read_line s : forall depth mode cur fs rest,
  read_forms depth mode cur s = Some fs ->
  read_forms depth mode cur (s +:+ nl +:+ rest) = app fs <$> forms rest.
Proof.
  induction s as [|c s IH]; intros depth mode cur fs rest H.
  - change ("" +:+ nl +:+ rest) with (String c_newline rest).
    assert (forall cur, read_forms 0 Code cur rest = app [] <$> forms rest) as Hr.
    { intros cur'. rewrite (proj1 (read_outside cur' "" rest)). unfold forms.
      by destruct (read_forms 0 Code "" rest). }
    destruct depth, mode; cbn in H; simplify_eq; apply Hr.
  - change (String c s +:+ nl +:+ rest) with (String c (s +:+ nl +:+ rest)).
    cbn [read_forms] in H |- *. destruct mode; try (by apply IH).
    destruct (decide (c = ";"%char)); [by apply IH|]. destruct depth as [|outer].
    + destruct (blank c); [by apply IH|]. by destruct (decide (c = "("%char)); [apply IH|].
    + cbv zeta in H |- *. destruct (decide (c = "("%char)); [by apply IH|].
      destruct (decide (c = ")"%char)); [|by apply IH]. destruct outer; [|by apply IH].
      destruct (read_forms 0 Code "" s) as [fs'|] eqn:Hs; cbn in H; simplify_eq.
      rewrite (IH _ _ _ _ rest Hs). by destruct (forms rest).
Qed.

Lemma reads_line s fs : forms s = Some fs -> reads (s +:+ nl) fs.
Proof. intros H rest. rewrite <- append_assoc. by apply read_line. Qed.

Lemma reads_blank : reads nl [].
Proof. by apply (reads_line "" []). Qed.

(** *** Text without quotes in a string *)

Definition plain_char (c : ascii) : bool :=
  negb (bool_decide (c = c_quote) || bool_decide (c = c_backslash)).
Definition plain (s : string) : bool := str_all plain_char s.
Definition atom (s : string) : bool :=
  str_all (fun c => negb (existsb (fun d => bool_decide (c = d)) [";"; "("; ")"; c_quote]%char)) s.

Lemma plain_display p : plain p = true -> plain (display_path p) = true.
Proof. apply str_all_display. repeat constructor. Qed.

Lemma plain_pretty (z : Z) : plain (pretty z) = true.
Proof.
  eapply str_all_mono; [|apply pretty_digits]. intros c Hc. unfold plain_char.
  apply negb_true_iff, orb_false_iff.
  split; apply bool_decide_eq_false; intros ->; vm_compute in Hc; discriminate.
Qed.

Lemma plain_app a b : plain (a +:+ b) = plain a && plain b.
Proof. apply str_all_app. Qed.

Lemma read_string depth p : forall cur s,
  plain p = true -> read_forms depth InString cur (p +:+ s) = read_forms depth InString (cur +:+ p) s.
Proof.
  induction p as [|c p IH]; intros cur s Hp; [by rewrite append_nil_r|].
  cbn in Hp. apply andb_true_iff in Hp as [Hc Hp]. unfold plain_char in Hc.
  apply negb_true_iff, orb_false_iff in Hc as [Hq%bool_decide_eq_false Hb%bool_decide_eq_false].
  change (String c p +:+ s) with (String c (p +:+ s)). cbn [read_forms].
  rewrite !decide_False by done. rewrite IH by done. by rewrite <- append_assoc.
Qed.

Lemma read_atom outer a : forall cur s,
  atom a = true -> read_forms (S outer) Code cur (a +:+ s) = read_forms (S outer) Code (cur +:+ a) s.
Proof.
  induction a as [|c a IH]; intros cur s Ha; [by rewrite append_nil_r|].
  unfold atom in Ha. cbn [str_all existsb] in Ha. apply andb_true_iff in Ha as [Hc Ha].
  apply negb_true_iff in Hc. rewrite !orb_false_iff, !bool_decide_eq_false in Hc.
  destruct Hc as (? & ? & ? & ? & _).
  change (String c a +:+ s) with (String c (a +:+ s)). cbn [read_forms].
  rewrite !decide_False by done. rewrite IH by done. by rewrite <- append_assoc.
Qed.

Lemma reads_form a f p :
  atom a = true -> atom f = true -> plain p = true -> reads (form a f p) [form a f p].
Proof.
  intros Ha Hf Hp rest. unfold form, quoted, forms. rewrite <- !append_assoc.
  change (read_forms 0 Code "" ("(" +:+ ?s)) with (read_forms 1 Code "(" s).
  rewrite read_atom by done.
  change (read_forms 1 Code ?c (" (" +:+ ?s)) with (read_forms 2 Code ((c +:+ " ") +:+ "(") s).
  rewrite read_atom by done.
  change (read_forms 2 Code ?c (" " +:+ dq +:+ ?s)) with (read_forms 2 InString ((c +:+ " ") +:+ dq) s).
  rewrite read_string by done.
  change (read_forms 2 InString ?c (dq +:+ "))" +:+ rest))
    with (cons (((c +:+ dq) +:+ ")") +:+ ")") <$> read_forms 0 Code "" rest).
  rewrite <- !append_assoc. by destruct (read_forms 0 Code "" rest).
Qed.

Lemma reads_rule a f p :
  atom a = true -> atom f = true -> plain p = true -> reads (rule a f p) [form a f p].
Proof.
  intros Ha Hf Hp. apply (reads_app _ nl [_] []); [by apply reads_form|apply reads_blank].
Qed.

Lemma reads_path_rule a f p :
  atom a = true -> atom f = true -> plain p = true ->
  reads (rule a f (display_path p)) [form a f (display_path p)].
Proof. intros Ha Hf Hp. apply reads_rule; [done|done|by apply plain_display]. Qed.

(** ** The forms of a profile *)

Definition rw_form (p : path) : string := form "allow file-read* file-write*" "subpath" (display_path p).
Definition ro_form (p : path) : string := form "allow file-read*" "subpath" (display_path p).
Definition deny_form (p : path) : string := form "deny file-read* file-write*" "subpath" (display_path p).
Definition deny_forms (p : path) : list string :=
  [deny_form p; form "deny file-read-metadata" "subpath" (display_path p)].
Definition preamble_forms : list string :=
  ["(version 1)"; "(allow default)"; form "deny file-write*" "subpath" "/"].
Definition home_forms (home : option string) : list string :=
  match home with
  | Some h => [form "deny file-read*" "subpath" h; form "deny file-read-metadata" "literal" h]
  | None => []
  end.
Definition scratch_forms : list string :=
  map (form "allow file-write*" "subpath")
    ["/private/tmp"; "/private/var/folders"; "/tmp"; "/dev/null"; "/dev/zero"; "/dev/dtracehelper"].
Definition system_dirs : list path := ["/System"; "/Library"; "/usr"; "/bin"; "/sbin"; "/opt/homebrew"].
Definition service_forms : list string :=
  ["(deny sysctl-write)"; "(deny system-privilege)";
   form "deny mach-lookup" "global-name" "com.apple.SecurityServer";
   form "deny mach-lookup" "global-name" "com.apple.CoreAuthentication.daemon"].
Definition refuse_network : string := "(deny network*)".
Definition endpoint_form (t : NetworkTarget) (ip : string) : string :=
  form "allow network-outbound"
    (match nt_protocol t with Udp => "remote udp" | _ => "remote tcp" end)
    (ip +:+ ":" +:+ pretty (nt_port t)).

(** The extra rules of a policy, when each is made of refusals. *)
Definition refusals (r : string) : Prop :=
  exists fs, forms r = Some fs /\ Forall (fun f => starts_with f "(deny " = true) fs.

(** Texts of a policy that cannot end the string they are put in. *)
Record quotable (policy : SandboxPolicy) : Prop := {
  quotable_rw : Forall (fun p => plain p = true) (rw_paths (fs policy));
  quotable_ro : Forall (fun p => plain p = true) (ro_paths (fs policy));
  quotable_deny : Forall (fun p => plain p = true) (deny_paths (fs policy));
  quotable_rules : Forall refusals (darwin_deny_rules (blocked_ops policy))
}.

(** The same of what the system answers. *)
Definition plain_ok : contract sys := fun R e =>
  match e in sys R return R -> Prop with
  | EnvVar _ => fun r => match r with Some v => plain v = true | None => True end
  | Canonicalize _ => fun r => match r with Ok c => plain c = true | Err _ => True end
  | ResolveHost _ => fun r =>
      match r with Ok ips => Forall (fun ip => plain ip = true) ips | Err _ => True end
  | _ => fun _ => True
  end.

(** What the pushed texts [lines] are read as. *)
Abbreviation reads_as lines fs := (exists fss, Forall2 reads lines fss /\ fs = concat fss).

Lemma reads_as_text lines fs : reads_as lines fs -> forms (String.concat "" lines) = Some fs.
Proof. intros (fss & H & ->). by apply reads_all, reads_concat. Qed.

Lemma reads_as_nil : reads_as [] [].
Proof. by exists []. Qed.

Lemma reads_as_cons s lines f fs :
  reads s f -> reads_as lines fs -> reads_as (s :: lines) (f ++ fs).
Proof. intros Hs (fss & H & ->). exists (f :: fss). by split; [constructor|]. Qed.

Lemma reads_as_app lines lines' fs fs' :
  reads_as lines fs -> reads_as lines' fs' -> reads_as (lines ++ lines') (fs ++ fs').
Proof.
  intros (fss & H & ->) (fss' & H' & ->). exists (fss ++ fss').
  split; [by apply Forall2_app|by rewrite concat_app].
Qed.

Lemma reads_preamble : reads_as preamble preamble_forms.
Proof.
  unfold preamble. exists [["(version 1)"]; ["(allow default)"]; []; [form "deny file-write*" "subpath" "/"]].
  split; [|done].
  constructor; [by apply (reads_line "(version 1)")|].
  constructor; [by apply (reads_line ("(allow default)" +:+ nl))|].
  constructor; [by apply (reads_line "; === Strictly Deny All Writes by Default ===")|].
  constructor; [by apply (reads_line (rule "deny file-write*" "subpath" "/"))|constructor].
Qed.

Lemma reads_scratch : reads_as scratch_rules scratch_forms.
Proof.
  unfold scratch_rules, scratch_forms. exists ([] :: map (fun p => [form "allow file-write*" "subpath" p])
    ["/private/tmp"; "/private/var/folders"; "/tmp"; "/dev/null"; "/dev/zero"; "/dev/dtracehelper"]).
  split; [|done]. constructor; [by apply (reads_line "; === Allow Write to Temporary Dirs & Devices ===")|].
  do 5 (constructor; [by apply reads_rule|]).
  constructor; [by apply (reads_line (rule "allow file-write*" "subpath" "/dev/dtracehelper"))|constructor].
Qed.

Lemma reads_home home :
  match home with Some h => plain h = true | None => True end ->
  reads_as (match home with
            | Some home =>
                ["; === Deny Reading Entire User Home Directory ===" +:+ nl;
                 rule "deny file-read*" "subpath" home;
                 rule "deny file-read-metadata" "literal" home]
            | None => []
            end) (home_forms home).
Proof.
  destruct home as [h|]; [|intros _; apply reads_as_nil]. intros Hh.
  exists [[]; [form "deny file-read*" "subpath" h]; [form "deny file-read-metadata" "literal" h]].
  split; [|done].
  constructor; [by apply (reads_line "; === Deny Reading Entire User Home Directory ===")|].
  repeat (constructor; [by apply reads_rule|]). constructor.
Qed.

Lemma reads_ro policy :
  Forall (fun p => plain p = true) (ro_paths (fs policy)) ->
  reads_as (ro_rules policy)
    (map ro_form (ro_paths (fs policy)) ++ map (form "allow file-read*" "subpath") system_dirs).
Proof.
  intros Hp. unfold ro_rules. apply (reads_as_cons _ _ []).
  { by apply (reads_line "; === Allow Read to System Libraries & Interpreters ==="). }
  apply reads_as_app.
  - induction Hp as [|p l Hp _ IH]; [apply reads_as_nil|].
    apply (reads_as_cons _ _ [ro_form p]); [|exact IH]. by apply reads_path_rule.
  - exists (map (fun p => [form "allow file-read*" "subpath" p]) system_dirs). split; [|done].
    do 5 (constructor; [by apply reads_rule|]).
    constructor; [by apply (reads_line (rule "allow file-read*" "subpath" "/opt/homebrew"))|constructor].
Qed.

(** The policy's own rules: refusals all. *)
Lemma reads_own l :
  Forall refusals l -> exists fs,
    reads_as (map (fun r => r +:+ nl) l) fs /\ Forall (fun f => starts_with f "(deny " = true) fs.
Proof.
  induction 1 as [|r l (f & Hf & Hd) _ (g & Hg & Hd')]; [by exists []; split; [apply reads_as_nil|]|].
  exists (f ++ g). split; [|by apply Forall_app].
  by apply (reads_as_cons (r +:+ nl)); [apply reads_line|].
Qed.

Lemma reads_services policy :
  Forall refusals (darwin_deny_rules (blocked_ops policy)) -> exists own,
    reads_as (service_rules policy) (service_forms ++ own) /\
    Forall (fun f => starts_with f "(deny " = true) own.
Proof.
  intros (own & Hr & Hd)%reads_own. exists own. split; [|exact Hd].
  unfold service_rules. apply reads_as_app; [|exact Hr].
  exists [[]; ["(deny sysctl-write)"]; ["(deny system-privilege)"];
     [form "deny mach-lookup" "global-name" "com.apple.SecurityServer"];
     [form "deny mach-lookup" "global-name" "com.apple.CoreAuthentication.daemon"]].
  split; [|done].
  constructor; [by apply (reads_line "; === Blocked Privileged & Security Services ===")|].
  constructor; [by apply (reads_line "(deny sysctl-write)")|].
  constructor; [by apply (reads_line "(deny system-privilege)")|].
  repeat (constructor; [by apply reads_rule|]). constructor.
Qed.

(** *** The loops *)

(** What a loop over [l] pushed, element by element. *)
Lemma push_each_spec {A} (f : A -> prog sys (list string)) (P : A -> Prop)
    (R : A -> sys_trace -> list string -> Prop) l :
  (forall x t1 t t2 fs, R x t fs -> R x (t1 ++ t ++ t2) fs) ->
  (forall x, P x -> wp plain_ok (f x) (fun o t => exists r fs,
     o = Done r /\ reads_as r fs /\ R x t fs)) ->
  Forall P l ->
  wp plain_ok (push_each f l) (fun o t => exists r fss,
    o = Done r /\ reads_as r (concat fss) /\ Forall2 (fun x fs => R x t fs) l fss).
Proof.
  intros Hmono Hf. induction 1 as [|x l Hx _ IH].
  { exists [], []. split; [done|]. split; [apply reads_as_nil|constructor]. }
  cbn [push_each]. wp_simpl. apply wp_bind. eapply wp_mono; [by apply Hf|].
  intros o t (r & fs & -> & Hr & HR). apply wp_bind. eapply wp_mono; [apply IH|].
  intros o' t' (r' & fss & -> & Hr' & HR'). cbn. exists (r ++ r'), (fs :: fss). rewrite app_nil_r.
  split; [done|]. split; [by apply reads_as_app|]. constructor.
  - specialize (Hmono x [] t t' fs HR). by rewrite app_nil_l in Hmono.
  - eapply Forall2_impl; [exact HR'|]. cbn. intros y fs' Hy.
    specialize (Hmono y t t' [] fs' Hy). by rewrite app_nil_r in Hmono.
Qed.

(** The forms a path contributes, in two spellings. *)
Definition spelled (forms_of : path -> list string) (p : path) (t : sys_trace) (fs : list string) : Prop :=
  exists canon, Ev (Canonicalize p) canon ∈ t /\
    fs = forms_of p ++
         match canon with
         | Ok c => if path_eqb c p then [] else forms_of c
         | Err _ => []
         end.

Lemma spelled_mono forms_of p t1 t t2 fs :
  spelled forms_of p t fs -> spelled forms_of p (t1 ++ t ++ t2) fs.
Proof. intros (c & Hc & ->). exists c. split; [set_solver|done]. Qed.

(** A loop body that pushes the lines of a path in both spellings. *)
Lemma other_spelling_spec (lines_of forms_of : path -> list string) p :
  (forall q, plain q = true -> reads_as (lines_of q) (forms_of q)) -> plain p = true ->
  wp plain_ok (other ← other_spelling p;
               Ret (lines_of p ++ match other with Some c => lines_of c | None => [] end))
    (fun o t => exists r fs, o = Done r /\ reads_as r fs /\ spelled forms_of p t fs).
Proof.
  intros Hl Hp. unfold other_spelling. wp_simpl. intros canon Hc.
  eexists _, _. split; [done|]. split; [|exists canon; split; [apply list_elem_of_here|reflexivity]].
  apply reads_as_app; [by apply Hl|]. destruct canon as [c|e]; [|apply reads_as_nil].
  destruct (path_eqb c p); [apply reads_as_nil|by apply Hl].
Qed.

Lemma rw_rules_spec p : plain p = true ->
  wp plain_ok (rw_rules p) (fun o t => exists r fs,
    o = Done r /\ reads_as r fs /\ spelled (fun p => [rw_form p]) p t fs).
Proof.
  intros Hp. pose proof (other_spelling_spec (fun p => [rw_rule p]) (fun p => [rw_form p]) p) as Hs.
  cbv beta in Hs. unfold rw_rules. refine (Hs _ Hp).
  intros q Hq. apply (reads_as_cons _ [] [rw_form q] []); [|apply reads_as_nil].
  by apply reads_path_rule.
Qed.

Lemma deny_rules_spec p : plain p = true ->
  wp plain_ok (deny_rules p) (fun o t => exists r fs,
    o = Done r /\ reads_as r fs /\ spelled deny_forms p t fs).
Proof.
  intros Hp. pose proof (other_spelling_spec deny_rules_for deny_forms p) as Hs.
  unfold deny_rules. refine (Hs _ Hp).
  intros q Hq. exists [[deny_form q]; [form "deny file-read-metadata" "subpath" (display_path q)]].
  split; [|done]. constructor; [by apply reads_path_rule|].
  constructor; [by apply reads_path_rule|constructor].
Qed.

(** The rules of an allow list come from what its names resolve to. *)
Definition resolved (x : NetworkTarget) (t : sys_trace) (fs : list string) : Prop :=
  fs = [] \/ exists ips, Ev (ResolveHost (nt_host x +:+ ":" +:+ pretty (nt_port x))) (Ok ips) ∈ t /\
               fs = map (endpoint_form x) ips.

Lemma reads_endpoints x ips :
  Forall (fun ip => plain ip = true) ips ->
  reads_as (map (endpoint_rule x) ips) (map (endpoint_form x) ips).
Proof.
  induction 1 as [|ip ips Hip _ IH]; [apply reads_as_nil|].
  apply (reads_as_cons _ _ [endpoint_form x ip]); [|exact IH].
  apply reads_rule; [done|by destruct (nt_protocol x)|].
  by rewrite !plain_app, Hip, plain_pretty.
Qed.

Lemma target_rules_spec x :
  wp plain_ok (target_rules x) (fun o t => exists r fs, o = Done r /\ reads_as r fs /\ resolved x t fs).
Proof.
  unfold target_rules. wp_simpl. intros [ips|e] Hips; cbn [prog_bind wp].
  - eexists _, _. split; [done|]. split; [|right; exists ips; split; [apply list_elem_of_here|done]].
    by apply reads_endpoints.
  - intros [] _. exists [], []. split; [done|]. split; [apply reads_as_nil|by left].
Qed.

(** ** What the order of the forms gives *)

Definition allows (f : string) : bool := starts_with f "(allow".
Definition allows_files (f : string) : bool :=
  starts_with f "(allow file" || starts_with f "(allow default".
Definition allows_network (f : string) : bool :=
  starts_with f "(allow network" || starts_with f "(allow default".

(** No form satisfies [f]. *)
Abbreviation none_of f l := (Forall (fun x : string => f x = false) l).

(** [x] occurs, and no form after it satisfies [f]. *)
Definition final (f : string -> bool) (x : string) (l : list string) : Prop :=
  exists l1 l2, l = l1 ++ x :: l2 /\ none_of f l2.

Lemma final_app_l f x l1 l2 : final f x l2 -> final f x (l1 ++ l2).
Proof. intros (a & b & -> & H). exists (l1 ++ a), b. by rewrite <- app_assoc. Qed.

Lemma final_app_r f x l1 l2 : final f x l1 -> none_of f l2 -> final f x (l1 ++ l2).
Proof.
  intros (a & b & -> & H) H2. exists a, (b ++ l2). rewrite <- app_assoc. split; [done|].
  by apply Forall_app.
Qed.

Lemma final_in f x l : x ∈ l -> none_of f l -> final f x l.
Proof.
  intros Hin H. apply list_elem_of_split in Hin as (a & b & ->).
  apply Forall_app in H as [_ H]. inversion H; subst. by exists a, b.
Qed.

(** A kind of grant. *)
Definition grant_test (f : string -> bool) : Prop := f = allows \/ f = allows_files \/ f = allows_network.

Lemma starts_with_app s p : starts_with s p = true -> exists r, s = p +:+ r.
Proof.
  unfold starts_with. revert s. induction p as [|a p IH]; intros s H; [by exists s|].
  destruct s as [|b s]; [done|]. cbn in H. destruct (ascii_dec a b) as [->|]; [|done].
  destruct (IH s H) as [r ->]. by exists r.
Qed.

Lemma refusal_grants_nothing f x : grant_test f -> starts_with x "(deny " = true -> f x = false.
Proof. intros Hf [r ->]%starts_with_app. by destruct Hf as [->|[->| ->]]. Qed.

Lemma refusals_grant_nothing f l :
  grant_test f -> Forall (fun x => starts_with x "(deny " = true) l -> none_of f l.
Proof.
  intros Hf H. eapply Forall_impl; [exact H|]. intros x. by apply refusal_grants_nothing.
Qed.

Lemma deny_forms_refuse p : Forall (fun x => starts_with x "(deny " = true) (deny_forms p).
Proof. repeat constructor. Qed.

Lemma spelled_forall (P : string -> Prop) forms_of l t fss :
  (forall q, Forall P (forms_of q)) ->
  Forall2 (fun x fs => spelled forms_of x t fs) l fss -> Forall P (concat fss).
Proof.
  intros H. induction 1 as [|x fs l fss (canon & _ & ->) _ IH]; [constructor|].
  cbn. repeat (apply Forall_app; split); [apply H| |exact IH].
  destruct canon as [c|e]; [|constructor]. destruct (path_eqb c x); [constructor|apply H].
Qed.

(** The refusals of a denied path, in both spellings, are in the section. *)
Lemma deny_forms_in t l fss p :
  Forall2 (fun x fs => spelled deny_forms x t fs) l fss -> p ∈ l ->
  deny_form p ∈ concat fss /\
  exists canon, Ev (Canonicalize p) canon ∈ t /\
    forall c, canon = Ok c -> path_eqb c p = false -> deny_form c ∈ concat fss.
Proof.
  intros H [i Hi]%list_elem_of_lookup.
  destruct (Forall2_lookup_l _ _ _ _ _ H Hi) as (fs & Hfs & canon & Hev & Heq).
  assert (forall x, x ∈ fs -> x ∈ concat fss) as Hin.
  { intros x Hx. rewrite list_elem_of_In. apply in_concat. exists fs.
    split; [|by apply list_elem_of_In]. apply list_elem_of_In. by eapply list_elem_of_lookup_2. }
  split; [|exists canon; split; [done|intros c -> Hne]]; apply Hin; rewrite Heq; apply elem_of_app.
  - left. apply list_elem_of_here.
  - right. rewrite Hne. apply list_elem_of_here.
Qed.

(** Where a grant of the network can come from. *)
Definition network_granted (policy : SandboxPolicy) (t : sys_trace) (f : string) : Prop :=
  (network policy = AllowAll /\ f = "(allow network*)") \/
  exists targets x ips ip, network policy = AllowList targets /\ x ∈ targets /\
    Ev (ResolveHost (nt_host x +:+ ":" +:+ pretty (nt_port x))) (Ok ips) ∈ t /\
    ip ∈ ips /\ f = endpoint_form x ip.

(** Where any grant can come from. *)
Definition granted (policy : SandboxPolicy) (t : sys_trace) (f : string) : Prop :=
  f = "(allow default)" \/ f ∈ scratch_forms \/
  (exists p, p ∈ rw_paths (fs policy) /\
     (f = rw_form p \/ exists c, Ev (Canonicalize p) (Ok c) ∈ t /\ f = rw_form c)) \/
  (exists p, p ∈ ro_paths (fs policy) /\ f = ro_form p) \/
  f ∈ map (form "allow file-read*" "subpath") system_dirs \/
  network_granted policy t f.

Lemma endpoint_not_file x ip : allows_files (endpoint_form x ip) = false.
Proof. unfold endpoint_form. by destruct (nt_protocol x). Qed.

Lemma resolved_targets targets t fss :
  Forall2 (fun x fs => resolved x t fs) targets fss ->
  Forall (fun f => exists x ips ip, x ∈ targets /\
    Ev (ResolveHost (nt_host x +:+ ":" +:+ pretty (nt_port x))) (Ok ips) ∈ t /\
    ip ∈ ips /\ f = endpoint_form x ip) (concat fss).
Proof.
  induction 1 as [|x fs targets fss Hx _ IH]; [constructor|]. cbn. apply Forall_app. split.
  - destruct Hx as [->|(ips & Hev & ->)]; [constructor|]. apply Forall_map, Forall_forall.
    intros ip Hip. exists x, ips, ip. split_and!; [apply list_elem_of_here|done|done|done].
  - eapply Forall_impl; [exact IH|]. cbn. intros f (y & ips & ip & Hy & ?).
    exists y, ips, ip. split; [by apply list_elem_of_further|done].
Qed.

Lemma network_rules_spec policy :
  wp plain_ok (network_rules policy) (fun o t => exists r fs,
    o = Done r /\ reads_as r fs /\ none_of allows_files fs /\
    (network policy <> AllowAll -> final allows_network refuse_network fs) /\
    Forall (fun f => allows f = true -> network_granted policy t f) fs).
Proof.
  assert (reads_as [deny_network] [refuse_network]) as Hdeny.
  { apply (reads_as_cons _ [] [refuse_network] []); [by apply (reads_line refuse_network)|apply reads_as_nil]. }
  unfold network_rules. destruct (network policy) as [|targets|] eqn:Hn.
  - exists [deny_network], [refuse_network]. split_and!; [done|done|repeat constructor| |by repeat constructor].
    intros _. apply final_in; [apply list_elem_of_here|repeat constructor].
  - wp_simpl. apply wp_bind. eapply wp_mono.
    { apply (push_each_spec target_rules (fun _ => True) resolved).
      - intros x t1 t t2 fs [->|(ips & H & ->)]; [by left|right]. exists ips. split; [set_solver|done].
      - intros x _. apply target_rules_spec.
      - by apply Forall_true. }
    intros o t (r & fss & -> & Hr & Hres%resolved_targets).
    assert (forall t', t ⊆ t' -> exists r' fs, Done (r ++ [deny_network]) = Done r' /\
      reads_as r' fs /\ none_of allows_files fs /\
      (AllowList targets <> AllowAll -> final allows_network refuse_network fs) /\
      Forall (fun f => allows f = true -> network_granted policy t' f) fs) as Hend.
    { intros t' Hsub. exists (r ++ [deny_network]), (concat fss ++ [refuse_network]).
      split_and!; [done|by apply reads_as_app| | |].
      - apply Forall_app. split; [|repeat constructor]. eapply Forall_impl; [exact Hres|].
        intros f (x & ips & ip & _ & _ & _ & ->). apply endpoint_not_file.
      - intros _. apply final_app_l, final_in; [apply list_elem_of_here|repeat constructor].
      - apply Forall_app. split; [|by repeat constructor]. eapply Forall_impl; [exact Hres|].
        intros f (x & ips & ip & Hx & Hev & Hip & ->) _. right.
        exists targets, x, ips, ip. split_and!; auto. }
    destruct r as [|x r]; cbn [prog_bind wp]; [intros [] _|]; apply Hend; set_solver.
  - exists ["(allow network*)" +:+ nl], ["(allow network*)"]. split_and!; [done| |repeat constructor|done|].
    + apply (reads_as_cons _ [] ["(allow network*)"] []); [by apply (reads_line "(allow network*)")|].
      apply reads_as_nil.
    + constructor; [|constructor]. intros _. by left.
Qed.

Lemma rw_forms_granted policy t t' fss :
  t ⊆ t' -> Forall2 (fun x fs => spelled (fun p => [rw_form p]) x t fs) (rw_paths (fs policy)) fss ->
  Forall (granted policy t') (concat fss).
Proof.
  intros Hsub H. apply Forall_forall. intros f Hin%list_elem_of_In.
  apply in_concat in Hin as (fs & Hfs & Hf%list_elem_of_In).
  apply list_elem_of_In, list_elem_of_lookup in Hfs as [i Hi].
  destruct (Forall2_lookup_r _ _ _ _ _ H Hi) as (p & Hp & canon & Hev & ->).
  right; right; left. exists p. split; [by eapply list_elem_of_lookup_2|].
  apply elem_of_app in Hf as [->%list_elem_of_singleton|Hf]; [by left|right].
  destruct canon as [c|e]; [|by apply elem_of_nil in Hf].
  exists c. split; [by apply Hsub|]. destruct (path_eqb c p); [by apply elem_of_nil in Hf|].
  by apply list_elem_of_singleton in Hf.
Qed.

(** All forms of a profile, section by section. *)
Definition profile_forms (policy : SandboxPolicy) (home : option string)
    (rw deny net own : list string) : list string :=
  preamble_forms ++ home_forms home ++ scratch_forms ++ rw ++
  (map ro_form (ro_paths (fs policy)) ++ map (form "allow file-read*" "subpath") system_dirs) ++
  deny ++ net ++ (service_forms ++ own).

Lemma profile_granted policy t home rw deny net own :
  Forall (granted policy t) rw -> Forall (fun f => starts_with f "(deny " = true) deny ->
  Forall (fun f => allows f = true -> network_granted policy t f) net ->
  Forall (fun f => starts_with f "(deny " = true) own ->
  Forall (fun f => allows f = true -> granted policy t f) (profile_forms policy home rw deny net own).
Proof.
  intros Hrw Hd Hn Ho.
  assert (forall l, Forall (granted policy t) l -> Forall (fun f => allows f = true -> granted policy t f) l)
    as Hall by (intros l H; eapply Forall_impl; [exact H|]; auto).
  assert (forall l, Forall (fun f => starts_with f "(deny " = true) l ->
    Forall (fun f => allows f = true -> granted policy t f) l) as Hden.
  { intros l H. eapply Forall_impl; [exact H|]. intros f Hf Ha.
    rewrite (refusal_grants_nothing allows f) in Ha; [done|by left|done]. }
  unfold profile_forms. rewrite !Forall_app. split_and!.
  - do 3 (constructor; [intros Ha; try discriminate Ha; by left|]). constructor.
  - destruct home; [|constructor]. do 2 (constructor; [discriminate|]). constructor.
  - apply Forall_forall. intros f Hf _. by right; left.
  - by apply Hall.
  - apply Forall_map, Forall_forall. intros p Hp _. do 3 right. left. by exists p.
  - apply Forall_forall. intros f Hf _. do 4 right. by left.
  - by apply Hden.
  - eapply Forall_impl; [exact Hn|]. intros f Hf Ha. do 5 right. by apply Hf.
  - by apply Hden; repeat constructor.
  - by apply Hden.
Qed.

(** The profile is read as its sections. *)
Lemma profile_read policy home rwl rwf denyl denyf netl netf own :
  quotable policy -> match home with Some h => plain h = true | None => True end ->
  reads_as rwl rwf -> reads_as denyl denyf -> reads_as netl netf ->
  reads_as (service_rules policy) (service_forms ++ own) ->
  forms (String.concat "" (preamble ++
    match home with
    | Some home =>
        ["; === Deny Reading Entire User Home Directory ===" +:+ nl;
         rule "deny file-read*" "subpath" home; rule "deny file-read-metadata" "literal" home]
    | None => []
    end ++ scratch_rules ++ ["; === Allow Read & Write Strictly to Workspace ===" +:+ nl] ++ rwl ++
    [nl] ++ ro_rules policy ++ ["; === Explicit Sensitive Path & Key Denials ===" +:+ nl] ++ denyl ++
    [nl] ++ ["; === Network Policy ===" +:+ nl] ++ netl ++ [nl] ++ service_rules policy))
  = Some (profile_forms policy home rwf denyf netf own).
Proof.
  intros [_ Hro _ _] Hh Hrw Hd Hn Hs. apply reads_as_text. unfold profile_forms.
  assert (forall l fs, reads_as l fs -> reads_as (nl :: l) fs) as Hblank.
  { intros l fs. by apply (reads_as_cons nl l [] fs), reads_blank. }
  apply reads_as_app; [apply reads_preamble|]. apply reads_as_app; [by apply reads_home|].
  apply reads_as_app; [apply reads_scratch|]. cbn [app].
  apply (reads_as_cons _ _ []); [by apply (reads_line "; === Allow Read & Write Strictly to Workspace ===")|].
  apply reads_as_app; [exact Hrw|]. apply Hblank.
  apply reads_as_app; [by apply reads_ro|].
  apply (reads_as_cons _ _ []); [by apply (reads_line "; === Explicit Sensitive Path & Key Denials ===")|].
  apply reads_as_app; [exact Hd|]. apply Hblank.
  apply (reads_as_cons _ _ []); [by apply (reads_line "; === Network Policy ===")|].
  apply reads_as_app; [exact Hn|]. by apply Hblank.
Qed.

(** C33. The profile is ordered so that its denials win.  This is about the
    text that [sandbox-exec] gets, read as forms, strings and comments, for a
    policy whose paths, and a system whose answers, have no double quote and no
    backslash (they would end the string they are put in, see [injected_form])
    and whose own rules are refusals.  Then the text is made of complete forms;
    each denied path, and its canonical spelling when the system resolves it,
    has its denial after every form that allows a file access; unless the
    policy opens the network, the refusal of all network comes after every form
    that allows some; and the only forms that allow anything are the initial
    default, the fixed scratch directories, the writable paths of the policy
    and what the system resolved them to, its readable paths and the fixed
    system directories for reading, and the network that the policy names.
    Paths are named as [Path::display] shows them: a path that is not UTF-8
    gets a denial for another name. *)
Theorem profile_denials_last (policy : SandboxPolicy) (Hplain : quotable policy) :
  wp plain_ok (generate_profile policy) (fun o t => exists text fs,
    o = Done text /\ forms text = Some fs /\
    (forall p, p ∈ deny_paths (Policy.fs policy) ->
       final allows_files (deny_form p) fs /\
       exists canon, Ev (Canonicalize p) canon ∈ t /\
         forall c, canon = Ok c -> path_eqb c p = false -> final allows_files (deny_form c) fs) /\
    (network policy <> AllowAll -> final allows_network refuse_network fs) /\
    Forall (fun f => allows f = true -> granted policy t f) fs).
Proof.
  pose proof Hplain as [Hrwp _ Hdp Hown].
  unfold generate_profile, profile_lines, home_rules. wp_simpl. intros home Hhome.
  apply wp_bind. apply wp_bind. eapply wp_mono;
    [apply (push_each_spec rw_rules (fun p => plain p = true) (spelled (fun p => [rw_form p]))
              _ (spelled_mono _) rw_rules_spec Hrwp)|].
  intros o t1 (rwl & rws & -> & Hrwr & Hrw). apply wp_bind. eapply wp_mono;
    [apply (push_each_spec deny_rules (fun p => plain p = true) (spelled deny_forms)
              _ (spelled_mono _) deny_rules_spec Hdp)|].
  intros o t2 (denyl & dens & -> & Hdr & Hden). apply wp_bind. eapply wp_mono; [apply network_rules_spec|].
  intros o t3 (netl & nets & -> & Hnr & Hnf & Hnet & Hng). cbn [wp prog_bind].
  destruct (reads_services policy Hown) as (own & Hsr & Hrefuse).
  assert (Forall (fun f => starts_with f "(deny " = true) (concat dens)) as Hdd
    by (eapply spelled_forall; [apply deny_forms_refuse|exact Hden]).
  eexists _, _. split; [reflexivity|]. split; [by apply (profile_read policy home rwl (concat rws) denyl (concat dens) netl nets own)|].
  assert (forall f, grant_test f -> none_of f (service_forms ++ own)) as Hsv.
  { intros f Hf. apply Forall_app. split; [|by apply refusals_grant_nothing].
    by apply refusals_grant_nothing; [|repeat constructor]. }
  split_and!.
  - assert (forall q, deny_form q ∈ concat dens ->
      final allows_files (deny_form q) (profile_forms policy home (concat rws) (concat dens) nets own)) as Hfin.
    { intros q Hq. unfold profile_forms. do 5 apply final_app_l. apply final_app_r.
      - apply final_in; [done|]. apply refusals_grant_nothing; [by right; left|done].
      - apply Forall_app. split; [done|]. apply Hsv. by right; left. }
    intros p Hp. destruct (deny_forms_in _ _ _ p Hden Hp) as (Hin & canon & Hev & Hc).
    split; [by apply Hfin|]. exists canon. split; [set_solver|].
    intros c -> Hne. by apply Hfin, Hc.
  - intros Hn. unfold profile_forms. do 6 apply final_app_l.
    apply final_app_r; [by apply Hnet|]. apply Hsv. by right; right.
  - apply profile_granted; [|done| |done].
    + eapply rw_forms_granted; [|exact Hrw]. set_solver.
    + eapply Forall_impl; [exact Hng|]. intros f Hf Ha. destruct (Hf Ha) as [H|(ts & x & ips & ip & H1 & H2 & H3 & H4)];
        [by left|right]. exists ts, x, ips, ip. split_and!; [done|done|set_solver|tauto|tauto].
Qed.

(** A policy of the presets, on a machine where nothing can be resolved. *)
Lemma profile_denials_last_witness :
  quotable (agent_default_in (Some "/home/u") "/w") /\
  exists text fs,
    run_out (fun R e s => (sys_default R e, s))
      (generate_profile (agent_default_in (Some "/home/u") "/w")) tt = Done text /\
    forms text = Some fs /\ final allows_files (deny_form "/home/u/.ssh") fs.
Proof.
  assert (quotable (agent_default_in (Some "/home/u") "/w")) as Hd.
  { constructor; repeat constructor.
    - exists ["(deny sysctl-write)"]. split; [vm_compute; reflexivity|repeat constructor].
    - exists ["(deny system-privilege)"]. split; [vm_compute; reflexivity|repeat constructor]. }
  split; [exact Hd|].
  assert (forall R (e : sys R) (s : unit), plain_ok R e (sys_default R e)) as Hok
    by (intros R e []; destruct e; exact I).
  pose proof (wp_run plain_ok (fun R e s => (sys_default R e, s)) _ tt _ Hok
    (profile_denials_last _ Hd)) as (text & fs & Ho & Hf & Hden & _).
  exists text, fs. split; [exact Ho|]. split; [exact Hf|]. apply Hden. apply list_elem_of_here.
Defined.
