(* ===== verification/Executor.v ===== *)
(** * The process executor ([executor.rs])

    [build_command] scrubs the environment, the pre-exec hook isolates the
    child between [fork] and [execve], and
    [execute_wait_streaming_with_stdin] starts, limits, awaits and reaps it.

    The two reader tasks run next to the wait; their schedule is the subject
    of [Pipeline].  Here the readers are joined where the code awaits them:
    [DrainPipes] answers the reads that both of them completed, in order, and
    the result carries the chunks sent to the channel. *)
From S2P Require Export Limits Linux Darwin Text.

(* @src core/executor.rs:12-17 OutputChunk *)
Record OutputChunk : Type := mk_chunk { is_stdout : bool; chunk_data : bytes }.

(* @src core/metrics.rs:4-14 ExecutionMetrics *)
Record ExecutionMetrics : Type := mk_metrics {
  m_sandbox_id : string;
  setup_duration_ms : Z;
  execution_duration_ms : Z;
  total_duration_ms : Z;
  peak_memory_bytes : Z;
  m_exit_code : Z;
  platform : string;
  resource_violation : option string
}.

(* @src core/executor.rs:21-28 SandboxResult *)
Record SandboxResult : Type := mk_sandbox_result {
  res_id : string;
  exit_code : Z;
  res_stdout : string;
  res_stderr : string;
  metrics : ExecutionMetrics
}.

Definition with_output (out err : string) (r : SandboxResult) : SandboxResult :=
  mk_sandbox_result (res_id r) (exit_code r) out err (metrics r).

(** ** The command *)

(* @src core/executor.rs:86-88 SandboxExecutor::build_command (default PATH) *)
Definition default_path : string :=
  "/usr/local/bin:/usr/bin:/bin:/usr/sbin:/sbin:/opt/homebrew/bin".

(** The allowlist loop: what is set so far, and whether [PATH] was. *)
(* @src core/executor.rs:76-85 SandboxExecutor::build_command (allowlist) *)
Fixpoint allow_env (keys : list string) (env : gmap string string) (has_path : bool)
    : prog sys (gmap string string * bool) :=
  match keys with
  | [] => Ret (env, has_path)
  | key :: keys =>
      val ← call (EnvVar key);
      match val with
      | Some val => allow_env keys (<[key := val]> env) (has_path || bool_decide (key = "PATH"))
      | None => allow_env keys env has_path
      end
  end.

(* @src core/executor.rs:89-91 SandboxExecutor::build_command (injected variables) *)
Definition inject_env (l : list (string * string)) (env : gmap string string)
    : gmap string string :=
  fold_left (fun env kv => <[kv.1 := kv.2]> env) l env.

(* @src core/executor.rs:74-91 SandboxExecutor::build_command (environment) *)
Definition scrubbed_env (policy : SandboxPolicy) : prog sys (gmap string string) :=
  allowed ← allow_env (env_allowlist policy) ∅ false;
  let env := if (allowed.2 : bool) then allowed.1 else <["PATH" := default_path]> allowed.1 in
  Ret (inject_env (env_inject policy) env).

(* @src core/executor.rs:54-151 SandboxExecutor::build_command (all but the hook) *)
Definition build_command `{Target} (command_str : string) (working_dir : path)
    (policy : SandboxPolicy) : prog sys command :=
  cmd ← (if is_macos then darwin_build_command policy command_str working_dir
         else Ret (mk_command "sh" ["-c"; command_str] (Some working_dir) false ∅
                     Inherit Inherit Inherit false));
  env ← scrubbed_env policy;
  Ret (mk_command (cmd_program cmd) (cmd_args cmd) (cmd_cwd cmd) true env
         (cmd_stdin cmd) Piped Piped true).

Definition set_stdin (s : stdio) (c : command) : command :=
  mk_command (cmd_program c) (cmd_args c) (cmd_cwd c) (cmd_env_clear c) (cmd_env c)
    s (cmd_stdout c) (cmd_stderr c) (cmd_kill_on_drop c).

(** ** The hook between [fork] and [execve] *)

Definition denied (what : string) (e : SandboxError) : io_error :=
  mk_io_error PermissionDenied ("Sandbox setup failed: " +:+ what +:+ " error: " +:+ display_error e).

(* @src core/executor.rs:102-142 SandboxExecutor::build_command (pre_exec hook) *)
Definition pre_exec `{Target} (policy : SandboxPolicy) : prog sys (io_result unit) :=
  let_ call Setpgid;
  _ ←? map_err_p (denied "resource limit enforcement") (apply_setrlimit (resources policy));
  if is_linux then
    _ ←? map_err_p (denied "namespace isolation") (Namespaces.setup_child_namespaces policy);
    _ ←? (match container_root (fs policy) with
          | Some root =>
              map_err_p (denied "container rootfs entry") (Namespaces.enter_container_root root)
          | None => ret? tt
          end);
    _ ←? map_err_p (denied "seccomp filter") (Seccomp.apply policy);
    ret? tt
  else ret? tt.

(** ** Starting a process

    [Command::spawn] of the standard library: strings with a NUL byte are
    refused; the child moves to the working directory, runs the hook and
    executes the program.  Only an errno travels back from the child, and an
    error made by the hook itself has none: it arrives as [EINVAL]. *)
Definition einval : io_error := mk_io_error OtherKind "Invalid argument (os error 22)".
Definition nul_error : io_error := mk_io_error OtherKind "nul byte found in provided data".

Definition has_nul (s : string) : bool := bool_decide (is_Some (Namespaces.nul_position s)).
Definition command_has_nul (c : command) : bool :=
  existsb has_nul (cmd_program c :: cmd_args c ++ option_list (cmd_cwd c)) ||
  existsb (fun kv => has_nul kv.1 || has_nul kv.2) (map_to_list (cmd_env c)).

Definition spawn (c : command) (hook : prog sys (io_result unit))
    : prog sys (io_result (option pid)) :=
  if command_has_nul c then Ret (Err nul_error)
  else
    _ ←? call Fork;
    _ ←? (match cmd_cwd c with
          | Some dir => map_err_p (mk_io_error OtherKind) (call (Chdir dir))
          | None => ret? tt
          end);
    _ ←? map_err_p (fun _ => einval) hook;
    call (Exec c).

(** ** Measurements *)

(** [str::parse::<u64>] *)
Fixpoint parse_digits (acc : Z) (s : string) : option Z :=
  match s with
  | EmptyString => Some acc
  | String c s =>
      let d := (Z.of_nat (Ascii.nat_of_ascii c) - 48)%Z in
      if (0 <=? d)%Z && (d <=? 9)%Z then
        let acc := (acc * 10 + d)%Z in
        if (acc <=? u64_max)%Z then parse_digits acc s else None
      else None
  end.
Definition parse_u64 (s : string) : option Z :=
  match s with
  | EmptyString => None
  | String "+" EmptyString => None
  | String "+" s => parse_digits 0 s
  | _ => parse_digits 0 s
  end.

(* @src core/executor.rs:455-469 rusage_children_maxrss *)
Definition rusage_children_maxrss `{Target} : prog sys Z :=
  rss ← call PeakRss;
  Ret (match rss with
       | Some rss => if is_macos then wrap_u64 rss else saturating_u64 (wrap_u64 rss * 1024)
       | None => 0%Z
       end).

(* @src core/executor.rs:437-453 measure_peak_memory *)
Definition measure_peak_memory `{Target} (cg_path : option path) : prog sys Z :=
  match cg_path with
  | Some cg =>
      text ← call (ReadToString (path_join cg "memory.peak"));
      match text with
      | Ok s =>
          match parse_u64 (trim s) with
          | Some v => Ret v
          | None => rusage_children_maxrss
          end
      | Err _ => rusage_children_maxrss
      end
  | None => rusage_children_maxrss
  end.

(* @src core/executor.rs:313-319 execute_wait_streaming_with_stdin (exit code) *)
Definition exit_code_of (st : exit_status) : Z :=
  match st with
  | Exited code => code
  | Signaled sig => (128 + sig)%Z
  | OtherStatus => (-1)%Z
  end.

(* @src core/executor.rs:326-332 execute_wait_streaming_with_stdin (platform) *)
Definition platform_name `{Target} : string :=
  if is_macos then "macOS (Apple Sandbox SBPL + setrlimit)"
  else if is_linux then "Linux (Namespaces + cgroups v2 + seccomp)"
  else "Generic (setrlimit fallback)".

(* @src core/executor.rs:347-353 execute_wait_streaming_with_stdin (resource_violation) *)
Definition violation_of (exit_code : Z) : option string :=
  if (exit_code =? 137)%Z then Some "Process killed by SIGKILL (OOM or force kill)"
  else if (exit_code =? 139)%Z then Some "Process terminated by SIGSEGV (Segmentation fault)"
  else None.

(** [start.elapsed().as_millis() as u64] *)
Definition elapsed (start : Z) : prog sys Z :=
  now ← call NowMillis; Ret (wrap_u64 (Z.max 0 (now - start))).

(** ** Execution *)

(* @src core/executor.rs:19-19 CHUNK_BUF_SIZE *)
Definition CHUNK_BUF_SIZE : Z := 64 * 1024.

(** The chunks the two readers send for the reads they complete: a reader
    stops at end of file and at an error. *)
(* @src core/executor.rs:238-272 execute_wait_streaming_with_stdin (reader tasks) *)
Fixpoint forward_reads (out_open err_open : bool) (reads : list pipe_read) : list OutputChunk :=
  match reads with
  | [] => []
  | (is_out, r) :: reads =>
      if (if is_out then out_open else err_open) then
        match r with
        | Ok ((_ :: _) as data) => mk_chunk is_out data :: forward_reads out_open err_open reads
        | _ => if is_out then forward_reads false err_open reads
               else forward_reads out_open false reads
        end
      else forward_reads out_open err_open reads
  end.

(** What the streaming execution returns, and the chunks it sent. *)
Abbreviation streamed := (Result SandboxResult * list OutputChunk)%type.

(* @src core/executor.rs:205-211 execute_wait_streaming_with_stdin (cgroup) *)
Definition prepare_cgroup `{Target} (id : string) (policy : SandboxPolicy)
    : prog sys (Result (option path)) :=
  if is_linux then
    available ← call (PathExists "/sys/fs/cgroup/cgroup.controllers");
    if available : bool then
      cg ←? Cgroups.create_sandbox_cgroup Cgroups.new_manager id (resources policy);
      Ret (Ok (Some cg))
    else
      _ ← call (Warn "cgroups v2 unavailable on this host: memory/pid limits degrade to rlimits only");
      Ret (Ok None)
  else Ret (Ok None).

(* @src core/executor.rs:219-228 execute_wait_streaming_with_stdin (assign_pid) *)
Definition assign_child (cg_path : option path) (child : option pid) : prog sys (Result unit) :=
  match cg_path, child with
  | Some cg, Some p =>
      assigned ← Cgroups.assign_pid cg p;
      match assigned with
      | Ok _ => ret? tt
      | Err e =>
          let_ call (KillSig p);
          let_ Cgroups.cleanup_cgroup cg;
          Ret (Err e)
      end
  | _, _ => ret? tt
  end.

(* @src core/executor.rs:292-301 execute_wait_streaming_with_stdin (timeout) *)
Definition kill_group (child : option pid) : prog sys unit :=
  match child with
  | Some p => let_ call (KillSig (- p)%Z); let_ call (KillSig p); Ret tt
  | None => Ret tt
  end.

(** The end of a [tokio] child's handle: a child still to be reaped is killed
    when its command asked for that, and left running otherwise. *)
Definition drop_child (c : command) (child : option pid) : prog sys unit :=
  match child with
  | Some p => if cmd_kill_on_drop c then (let_ call (KillSig p); Ret tt) else Ret tt
  | None => Ret tt
  end.

(* @src core/executor.rs:309-311 execute_wait_streaming_with_stdin (readers joined) *)
Definition drained : prog sys (list OutputChunk) :=
  reads ← call DrainPipes; Ret (forward_reads true true reads).

(* @src core/executor.rs:334-355 execute_wait_streaming_with_stdin (result) *)
Definition make_result `{Target} (id : string) (code setup exec total peak : Z) : SandboxResult :=
  mk_sandbox_result id code "" ""
    (mk_metrics id setup exec total peak code platform_name (violation_of code)).

(** From the moment the child runs.  Its handle is dropped on return; a child
    that was reaped by then is left alone. *)
(* @src core/executor.rs:231-355 execute_wait_streaming_with_stdin (supervision) *)
Definition supervise `{Target} (id : string) (start : Z) (cg_path : option path)
    (cmd : command) (child : option pid) (policy : SandboxPolicy) : prog sys streamed :=
  setup ← elapsed start;
  exec_start ← call NowMillis;
  let timeout_secs := Z.max (wall_time_limit_secs (resources policy)) 1 in
  reply ← call (WaitChild timeout_secs);
  total ← elapsed start;
  exec ← elapsed exec_start;
  let_ (match cg_path with Some cg => Cgroups.cleanup_cgroup cg | None => ret? tt end);
  match reply with
  | WaitOk st =>
      chunks ← drained;
      peak ← measure_peak_memory cg_path;
      Ret (Ok (make_result id (exit_code_of st) setup exec total peak), chunks)
  | WaitErr e =>
      chunks ← drained;
      _ ← drop_child cmd child;
      Ret (Err (SetupFailed ("Failed to wait for sandbox child: " +:+ ioe_text e)), chunks)
  | WaitTimedOut =>
      let_ kill_group child;
      chunks ← drained;
      _ ← drop_child cmd child;
      Ret (Err (Timeout timeout_secs), chunks)
  end.

(* @src core/executor.rs:188-356 SandboxExecutor::execute_wait_streaming_with_stdin *)
Definition execute_wait_streaming_with_stdin `{Target} (command_str : string) (working_dir : path)
    (policy : SandboxPolicy) (stdin_stdio : option stdio) : prog sys streamed :=
  id ← call NewUuid;
  start ← call NowMillis;
  cmd ← build_command command_str working_dir policy;
  let cmd := match stdin_stdio with Some si => set_stdin si cmd | None => cmd end in
  cg ← prepare_cgroup id policy;
  match cg with
  | Err e => Ret (Err e, [])
  | Ok cg_path =>
      spawned ← spawn cmd (pre_exec policy);
      match spawned with
      | Err e => Ret (Err (SetupFailed ("Failed to spawn sandboxed child process: "
                                        +:+ ioe_text e)), [])
      | Ok child =>
          assigned ← assign_child cg_path child;
          match assigned with
          | Err e => _ ← drop_child cmd child; Ret (Err e, [])
          | Ok _ => supervise id start cg_path cmd child policy
          end
      end
  end.

(* @src core/executor.rs:164-175 SandboxExecutor::execute_wait (collector) *)
Definition collect (is_out : bool) (chunks : list OutputChunk) : bytes :=
  concat (map chunk_data (filter (fun c => is_stdout c = is_out) chunks)).

(* @src core/executor.rs:154-183 SandboxExecutor::execute_wait *)
Definition execute_wait `{Target} (command_str : string) (working_dir : path)
    (policy : SandboxPolicy) : prog sys (Result SandboxResult) :=
  r ← execute_wait_streaming_with_stdin command_str working_dir policy None;
  let (res, chunks) := (r : streamed) in
  Ret (match res with
       | Ok res => Ok (with_output (from_utf8_lossy (collect true chunks))
                         (from_utf8_lossy (collect false chunks)) res)
       | Err e => Err e
       end).
