(* ===== verification/ExecutorSpec.v ===== *)
(** * What the executor guarantees

    Theorems about [Executor]: the jail is complete before any program runs,
    the environment is the one the policy allows, and every started child is
    awaited, killed on timeout and reported with its own exit code. *)
From S2P Require Export Executor.

(** ** Quiet programs: those that never make a certain kind of call *)

Definition quiet {A} (f : event sys -> bool) (p : prog sys A) : Prop :=
  emits any_response (fun e => f e = false) p.

Definition is_exec (e : event sys) : bool :=
  match e with Ev (Exec _) _ => true | _ => false end.

(** Calls that open files or move data and descriptors over a socket. *)
Definition is_transfer (e : event sys) : bool :=
  match e with
  | Ev (OpenFile _) _ | Ev (CreateFile _) _ | Ev (SendMsgFd _ _) _ | Ev (WriteAll _) _
  | Ev (RecvMsg _) _ => true
  | _ => false
  end.

(** The calls the theorems are about: starting a program, awaiting it, removing
    a directory tree, and the transfers.  Setting up an execution makes none of them. *)
Definition is_lifecycle (e : event sys) : bool :=
  match e with
  | Ev (Exec _) _ | Ev (RemoveDirAll _) _ | Ev (WaitChild _) _ => true
  | _ => is_transfer e
  end.

Lemma lifecycle_exec t :
  Forall (fun e => is_lifecycle e = false) t -> Forall (fun e => is_exec e = false) t.
Proof. apply Forall_impl. intros [R e r]. by destruct e. Qed.

Lemma lifecycle_transfer t :
  Forall (fun e => is_lifecycle e = false) t -> Forall (fun e => is_transfer e = false) t.
Proof. apply Forall_impl. intros [R e r]. by destruct e. Qed.

Lemma quiet_transfer {A} (p : prog sys A) : quiet is_lifecycle p -> quiet is_transfer p.
Proof. intros H. eapply wp_mono; [exact H|]. intros ? t. apply lifecycle_transfer. Qed.

Lemma quiet_exec {A} (p : prog sys A) : quiet is_lifecycle p -> quiet is_exec p.
Proof. intros H. eapply wp_mono; [exact H|]. intros ? t. apply lifecycle_exec. Qed.

(** Walk through a program whose calls are all decided by computation. *)
Ltac quiet_tac :=
  unfold quiet, Cgroups.write_limit, setrlimit, when_positive, elapsed, drained; prog_unfold;
  repeat first [apply emits_ret | apply emits_halt | solve [auto with quiet]
               |emits_step | reflexivity | solve [auto with quiet]].

Create HintDb quiet discriminated.

Lemma quiet_set_all f l :
  (forall r s h x, f (Ev (Setrlimit r s h) x) = false) -> quiet f (set_all l).
Proof.
  intros Hf. unfold quiet. induction l as [|[[r s] h] l IH]; cbn [set_all]; [apply emits_ret|].
  unfold setrlimit. prog_unfold. repeat (emits_step; auto).
Qed.

Lemma silent_setrlimit `{Target} p : quiet is_lifecycle (apply_setrlimit p).
Proof.
  unfold apply_setrlimit, macos_nproc_limit, macos_effective_nproc, user_process_count. quiet_tac.
Qed.

Lemma silent_namespaces `{Target} p : quiet is_lifecycle (Namespaces.setup_child_namespaces p).
Proof. unfold Namespaces.setup_child_namespaces. quiet_tac. Qed.

Lemma silent_root root : quiet is_lifecycle (Namespaces.enter_container_root root).
Proof. unfold Namespaces.enter_container_root. quiet_tac. Qed.

Lemma silent_block names : quiet is_lifecycle (Seccomp.block_all names).
Proof.
  induction names as [|n names IH]; [apply emits_ret|].
  cbn [Seccomp.block_all]. unfold quiet in *. prog_unfold. repeat (emits_step; auto).
Qed.
#[export] Hint Resolve silent_setrlimit silent_namespaces silent_root silent_block : quiet.

Lemma silent_seccomp `{Target} p : quiet is_lifecycle (Seccomp.apply p).
Proof. unfold Seccomp.apply. quiet_tac. apply silent_block. Qed.
#[export] Hint Resolve silent_seccomp : quiet.

(** ** The jail *)

Definition container_events (policy : SandboxPolicy) : sys_trace :=
  match container_root (fs policy) with
  | Some root =>
      [Ev (Mount (Some root) root None [MS_BIND; MS_REC] None) (Ok tt);
       Ev (PivotRoot root (path_join root ".pivot_old")) (Ok tt);
       Ev (Chdir "/") (Ok tt);
       Ev (Umount2Detach "/.pivot_old") (Ok tt)]
  | None => []
  end.

(** The blocked names are all looked up and the known ones, [rs], blocked. *)
Definition seccomp_events (policy : SandboxPolicy) (rs : list (option Z)) : sys_trace :=
  [Ev SeccompNew (Ok tt); Ev SeccompNativeArch (Ok tt)] ++
  flat_map Seccomp.rule_events (zip (Seccomp.blocked_names policy) rs) ++
  [Ev SeccompLoad (Ok tt)].

(** The namespaces of a policy, with one for the network only when it denies
    the network. *)
Definition wanted_namespaces (policy : SandboxPolicy) : list clone_flag :=
  CLONE_NEWNS :: CLONE_NEWPID :: CLONE_NEWIPC :: CLONE_NEWUTS ::
  (if decide (network policy = Deny) then [CLONE_NEWNET] else []).

(** Everything that stands between [fork] and the program on Linux. *)
Definition jail_events (policy : SandboxPolicy) (rs : list (option Z)) : sys_trace :=
  map set_ok (wanted_limits (resources policy)) ++
  [Ev (Unshare (wanted_namespaces policy)) (Ok tt)] ++
  container_events policy ++
  seccomp_events policy rs.

Definition jailed (policy : SandboxPolicy) (t : sys_trace) : Prop :=
  exists rs, length rs = length (Seccomp.blocked_names policy) /\
    jail_events policy rs `sublist_of` t.

Lemma wp_quiet {A} f (p : prog sys A) Q :
  quiet f p -> wp any_response p Q ->
  wp any_response p (fun o t => Forall (fun e => f e = false) t /\ Q o t).
Proof. apply wp_and. Qed.

Lemma namespaces_spec `{Target} policy :
  os = Linux ->
  wp any_response (Namespaces.setup_child_namespaces policy) (fun o t =>
    match o with
    | Done (Ok _) => [Ev (Unshare (wanted_namespaces policy)) (Ok tt)] `sublist_of` t
    | Done (Err _) => True
    | Stopped _ => False
    end).
Proof.
  intros Hos. unfold Namespaces.setup_child_namespaces, is_linux. rewrite Hos.
  rewrite bool_decide_true by done. wp_simpl.
  intros [[]|e] _; cbn [map_err prog_bind wp]; [|done].
  intros r _ r' _. apply sublist_skip, sublist_nil_l.
Qed.

Lemma apply_setrlimit_ok `{Target} p :
  os = Linux ->
  wp any_response (apply_setrlimit p) (fun o t =>
    match o with
    | Done (Ok _) => t = map set_ok (wanted_limits p)
    | Done (Err _) => True
    | Stopped _ => False
    end).
Proof.
  intros Hos. rewrite apply_setrlimit_linux by done.
  eapply wp_mono; [apply set_all_spec|]. by intros [[|]|].
Qed.

Lemma seccomp_ok `{Target} policy :
  is_linux = true ->
  wp any_response (Seccomp.apply policy) (fun o t =>
    match o with
    | Done (Ok _) => exists rs, length rs = length (Seccomp.blocked_names policy) /\
                       t = seccomp_events policy rs
    | Done (Err _) => True
    | Stopped _ => False
    end).
Proof.
  intros Hl. destruct seccomp_feature eqn:Ef.
  - eapply wp_mono; [by apply Seccomp.apply_spec|]. by intros [[[]|e]|s] t.
  - unfold Seccomp.apply. by rewrite Hl, Ef.
Qed.

(** The hook, on Linux: on success everything of the jail was done, in order. *)
Lemma pre_exec_jails `{Target} policy :
  os = Linux ->
  wp any_response (pre_exec policy) (fun o t =>
    Forall (fun e => is_lifecycle e = false) t /\
    match o with Done (Ok _) => jailed policy t | Done (Err _) => True | Stopped _ => False end).
Proof.
  intros Hos. unfold pre_exec. replace is_linux with true
    by (unfold is_linux; rewrite Hos; by rewrite bool_decide_true).
  wp_simpl. intros sp _.
  apply wp_bind, wp_bind. eapply wp_mono;
    [apply (wp_quiet is_lifecycle); [apply silent_setrlimit|by apply apply_setrlimit_ok]|].
  intros [[[]|e]|s] t1 [Hq1 H1]; cbn in H1; [| |done].
  2: { cbn. rewrite !app_nil_r. split; [by constructor|done]. }
  cbn [map_err prog_bind wp]. apply wp_bind, wp_bind. eapply wp_mono;
    [apply (wp_quiet is_lifecycle); [apply silent_namespaces|by apply namespaces_spec]|].
  intros [[[]|e]|s] t2 [Hq2 H2]; cbn in H2; [| |done].
  2: { cbn. rewrite !app_nil_r. split; [|done]. constructor; [done|].
       by apply Forall_app. }
  cbn [map_err prog_bind wp]. apply wp_bind. eapply wp_mono with (Q := fun o t =>
    Forall (fun e => is_lifecycle e = false) t /\
    match o with Done (Ok _) => container_events policy `sublist_of` t
               | Done (Err _) => True | Stopped _ => False end).
  { unfold container_events. destruct (container_root (fs policy)) as [root|].
    - apply wp_bind. eapply wp_mono; [apply (wp_quiet is_lifecycle);
        [apply silent_root|apply Namespaces.enter_container_root_detaches]|].
      intros [[[]|e]|s] t [Hq Ht]; cbn; rewrite ?app_nil_r; auto.
    - split; [constructor|apply sublist_nil_l]. }
  intros [[[]|e]|s] t3 [Hq3 H3]; cbn in H3; [| |done].
  2: { cbn. rewrite !app_nil_r. split; [|done]. constructor; [done|].
       repeat (apply Forall_app; split; [done|]). done. }
  apply wp_bind, wp_bind. eapply wp_mono;
    [apply (wp_quiet is_lifecycle); [apply silent_seccomp|apply seccomp_ok]|].
  { unfold is_linux. rewrite Hos. by rewrite bool_decide_true. }
  intros [[[]|e]|s] t4 [Hq4 H4]; cbn in H4; [| |done]; cbn; rewrite !app_nil_r;
    (split; [constructor; [done|]; repeat (apply Forall_app; split; [done|]); done|]); [|done].
  destruct H4 as (rs & Hl & ->). exists rs. split; [done|].
  apply sublist_cons. unfold jail_events. rewrite H1.
  repeat (apply sublist_app; [done|]). done.
Qed.

(** ** No program runs outside the jail *)

Definition jailed_execs (policy : SandboxPolicy) (t : sys_trace) : Prop :=
  forall t1 c r t2, t = t1 ++ Ev (Exec c) r :: t2 -> jailed policy t1.

Lemma quiet_no_exec t t1 c r t2 :
  Forall (fun e => is_exec e = false) t -> t <> t1 ++ Ev (Exec c) r :: t2.
Proof. intros H ->. apply Forall_app in H as [_ H]. by inversion H. Qed.

Lemma jailed_execs_quiet policy t :
  Forall (fun e => is_exec e = false) t -> jailed_execs policy t.
Proof. intros H t1 c r t2 Ht. by apply quiet_no_exec in Ht. Qed.

Lemma jailed_execs_app_l policy t t' :
  Forall (fun e => is_exec e = false) t -> jailed_execs policy t' -> jailed_execs policy (t ++ t').
Proof.
  intros Hq Hj t1 c r t2 H. apply app_split in H as [[m Hm]|(m & -> & Hm)].
  - by apply quiet_no_exec in Hm.
  - destruct (Hj _ _ _ _ Hm) as (rs & Hl & Hs). exists rs. split; [done|].
    by apply sublist_inserts_l.
Qed.

Lemma jailed_execs_app_r policy t t' :
  jailed_execs policy t -> Forall (fun e => is_exec e = false) t' -> jailed_execs policy (t ++ t').
Proof.
  intros Hj Hq t1 c r t2 H. apply app_split in H as [[m Hm]|(m & -> & Hm)].
  - by eapply Hj.
  - by apply quiet_no_exec in Hm.
Qed.

(** Programs whose executions are all jailed. *)
Definition jails {A} (policy : SandboxPolicy) (p : prog sys A) : Prop :=
  wp any_response p (fun _ t => jailed_execs policy t).

Lemma jails_quiet {A} policy (p : prog sys A) : quiet is_exec p -> jails policy p.
Proof. intros H. eapply wp_mono; [exact H|]. intros ? t. apply jailed_execs_quiet. Qed.

Lemma jails_bind_quiet {A B} policy (k : A -> prog sys B) p :
  quiet is_exec p -> (forall a, jails policy (k a)) -> jails policy (prog_bind k p).
Proof.
  intros Hp Hk. apply wp_bind. eapply wp_mono; [exact Hp|].
  intros [a|s] t Ht; [|by apply jailed_execs_quiet].
  eapply wp_mono; [apply Hk|]. intros ? t' Ht'. by apply jailed_execs_app_l.
Qed.

Lemma jails_bind {A B} policy (k : A -> prog sys B) p :
  jails policy p -> (forall a, quiet is_exec (k a)) -> jails policy (prog_bind k p).
Proof.
  intros Hp Hk. apply wp_bind. eapply wp_mono; [exact Hp|].
  intros [a|s] t Ht; [|done].
  eapply wp_mono; [apply Hk|]. intros ? t' Ht'. by apply jailed_execs_app_r.
Qed.

Lemma spawn_jails `{Target} policy c :
  os = Linux -> jails policy (spawn c (pre_exec policy)).
Proof.
  intros Hos. unfold spawn. destruct (command_has_nul c); [apply jails_quiet, emits_ret|].
  prog_unfold. apply jails_bind_quiet; [by quiet_tac|]. intros [[]|e]; [|apply jails_quiet, emits_ret].
  apply jails_bind_quiet; [by quiet_tac|]. intros [[]|e]; [|apply jails_quiet, emits_ret].
  apply wp_bind, wp_bind. eapply wp_mono; [by apply pre_exec_jails|].
  intros [[[]|e]|s] t [Hq Hj]; cbn; [| |done].
  - intros r _ t1 c' r' t2 Ht. rewrite app_nil_r in Ht.
    apply app_split in Ht as [[m Hm]|(m & -> & Hm)]; [by apply (quiet_no_exec _ _ _ _ _ (lifecycle_exec _ Hq)) in Hm|].
    destruct m as [|e m]; [by rewrite app_nil_r|].
    injection Hm as _ Hm. by destruct m.
  - rewrite !app_nil_r. by apply jailed_execs_quiet, lifecycle_exec.
Qed.

(** *** The other parts of an execution *)

Lemma silent_push_each {A} (f : A -> prog sys (list string)) l :
  (forall x, quiet is_lifecycle (f x)) -> quiet is_lifecycle (push_each f l).
Proof.
  intros Hf. induction l as [|x l IH]; [apply emits_ret|].
  cbn [push_each]. apply emits_bind; [apply Hf|]. intros a. apply emits_bind; [exact IH|].
  intros b. apply emits_ret.
Qed.

Lemma silent_profile policy : quiet is_lifecycle (generate_profile policy).
Proof.
  unfold generate_profile, profile_lines, home_rules, network_rules.
  assert (forall l, quiet is_lifecycle (push_each rw_rules l)) as Hrw.
  { intros l. apply silent_push_each. intros x. unfold rw_rules, other_spelling. quiet_tac. }
  assert (forall l, quiet is_lifecycle (push_each deny_rules l)) as Hdn.
  { intros l. apply silent_push_each. intros x. unfold deny_rules, other_spelling. quiet_tac. }
  assert (forall l, quiet is_lifecycle (push_each target_rules l)) as Htg.
  { intros l. apply silent_push_each. intros x. unfold target_rules. quiet_tac. }
  unfold quiet in *. prog_unfold. repeat (emits_step; auto).
Qed.

Lemma silent_env keys env b : quiet is_lifecycle (allow_env keys env b).
Proof.
  revert env b. induction keys as [|k keys IH]; intros env b; [apply emits_ret|].
  cbn [allow_env]. unfold quiet in *. prog_unfold. repeat (emits_step; auto).
Qed.

Lemma silent_scrubbed policy : quiet is_lifecycle (scrubbed_env policy).
Proof.
  pose proof silent_env as H. unfold scrubbed_env, quiet in *. prog_unfold.
  repeat (emits_step; auto).
Qed.

Lemma silent_build `{Target} c wd policy : quiet is_lifecycle (build_command c wd policy).
Proof.
  pose proof (silent_profile policy) as H1. pose proof silent_env as H2.
  unfold build_command, darwin_build_command, scrubbed_env.
  unfold quiet in *. prog_unfold. repeat (emits_step; auto).
Qed.

Lemma silent_cgroup `{Target} id policy : quiet is_lifecycle (prepare_cgroup id policy).
Proof. unfold prepare_cgroup, Cgroups.create_sandbox_cgroup. quiet_tac. Qed.

Lemma no_exec_assign cg child : quiet is_exec (assign_child cg child).
Proof. unfold assign_child, Cgroups.assign_pid, Cgroups.cleanup_cgroup. quiet_tac. Qed.

Lemma no_exec_drop c child : quiet is_exec (drop_child c child).
Proof. unfold drop_child. quiet_tac. Qed.

Lemma no_exec_supervise `{Target} id start cg c child policy :
  quiet is_exec (supervise id start cg c child policy).
Proof.
  unfold supervise, Cgroups.cleanup_cgroup, kill_group, drop_child, measure_peak_memory,
    rusage_children_maxrss. quiet_tac.
Qed.

Lemma silent_pre_exec `{Target} policy : quiet is_lifecycle (pre_exec policy).
Proof.
  unfold pre_exec.
  pose proof (silent_setrlimit (resources policy)) as H1.
  pose proof (silent_namespaces policy) as H2. pose proof silent_root as H3.
  pose proof (silent_seccomp policy) as H4.
  unfold quiet in *. prog_unfold. repeat (emits_step; auto).
Qed.

(** An execution opens nothing and leaves the socket alone. *)
Lemma execute_no_transfer `{Target} cmd wd policy stdin :
  quiet is_transfer (execute_wait_streaming_with_stdin cmd wd policy stdin).
Proof.
  pose proof (quiet_transfer _ (silent_build cmd wd policy)) as H1.
  pose proof (fun id => quiet_transfer _ (silent_cgroup id policy)) as H2.
  pose proof (quiet_transfer _ (silent_pre_exec policy)) as H3.
  unfold execute_wait_streaming_with_stdin, spawn, assign_child, supervise, kill_group, drop_child, drained,
    elapsed, measure_peak_memory, rusage_children_maxrss, Cgroups.assign_pid,
    Cgroups.cleanup_cgroup, quiet in *.
  prog_unfold. repeat (emits_step; auto).
Qed.

Lemma execute_jails `{Target} cmd wd policy stdin :
  os = Linux -> jails policy (execute_wait_streaming_with_stdin cmd wd policy stdin).
Proof.
  intros Hos.
  unfold execute_wait_streaming_with_stdin. prog_unfold.
  apply jails_bind_quiet; [by quiet_tac|]. intros id.
  apply jails_bind_quiet; [by quiet_tac|]. intros start.
  apply jails_bind_quiet; [apply quiet_exec, silent_build|]. intros c.
  apply jails_bind_quiet; [apply quiet_exec, silent_cgroup|]. intros [cg|e]; [|apply jails_quiet, emits_ret].
  apply jails_bind; [by apply spawn_jails|]. intros [child|e]; [|apply emits_ret].
  apply emits_bind; [apply no_exec_assign|]. intros [[]|e]; [apply no_exec_supervise|].
  apply emits_bind; [apply no_exec_drop|]. intros []. apply emits_ret.
Qed.

(** ** Which program runs, and for how long *)

(** The child as the policy wants it: a cleared environment, its output piped,
    killed with its handle; off macOS it is the shell with the command. *)
Definition shell_command `{Target} (cmd : string) (wd : path) (c : command) : Prop :=
  (is_macos = false -> cmd_program c = "sh" /\ cmd_args c = ["-c"; cmd]) /\
  cmd_cwd c = Some wd /\ cmd_env_clear c = true /\
  cmd_stdout c = Piped /\ cmd_stderr c = Piped /\ cmd_kill_on_drop c = true.

Lemma build_shell `{Target} cmd wd policy :
  wp any_response (build_command cmd wd policy) (fun o _ =>
    forall c, o = Done c -> shell_command cmd wd c).
Proof.
  unfold build_command. prog_unfold. apply wp_bind.
  eapply wp_mono with (Q := fun o _ => forall c, o = Done c ->
    (is_macos = false -> cmd_program c = "sh" /\ cmd_args c = ["-c"; cmd]) /\ cmd_cwd c = Some wd).
  { destruct is_macos; [|by intros c [= <-]]. unfold darwin_build_command. prog_unfold.
    apply wp_bind. eapply wp_mono; [apply silent_profile|]. intros [p|s] t _; [|done].
    by intros c [= <-]. }
  intros [c|s] t Hc; [|done]. destruct (Hc c eq_refl) as [Hp Hw].
  apply wp_bind. eapply wp_mono; [apply (silent_scrubbed policy)|].
  intros [env|s] t' _; [|done]. intros c' [= <-]. by split_and!.
Qed.

(** The only program an execution starts, and the only limit it waits for. *)
Definition execution_call `{Target} (cmd : string) (wd : path) (policy : SandboxPolicy)
    (e : event sys) : Prop :=
  match e with
  | Ev (Exec c) _ => shell_command cmd wd c
  | Ev (WaitChild s) _ => s = Z.max (wall_time_limit_secs (resources policy)) 1
  | _ => True
  end.

Lemma silent_execution_call `{Target} {A} cmd wd policy (p : prog sys A) :
  quiet is_lifecycle p -> emits any_response (execution_call cmd wd policy) p.
Proof. apply emits_mono. intros [R e r] He. by destruct e. Qed.

Lemma execute_calls `{Target} cmd wd policy stdin :
  emits any_response (execution_call cmd wd policy)
    (execute_wait_streaming_with_stdin cmd wd policy stdin).
Proof.
  unfold execute_wait_streaming_with_stdin. prog_unfold.
  apply emits_vis; [done|]. intros id _. apply emits_vis; [done|]. intros start _.
  apply emits_bind_post with (R := shell_command cmd wd).
  { apply wp_and; [apply silent_execution_call, silent_build|].
    eapply wp_mono; [apply build_shell|]. intros [c|s] t Hc; [by apply Hc|done]. }
  intros c Hc. set (c' := match stdin with Some si => set_stdin si c | None => c end).
  assert (shell_command cmd wd c') as Hc' by (unfold c'; by destruct stdin).
  apply emits_bind; [apply silent_execution_call, silent_cgroup|]. intros [cg|e]; [|apply emits_ret].
  apply emits_bind.
  { pose proof (silent_execution_call cmd wd policy _ (silent_pre_exec policy)) as Hp.
    unfold spawn. prog_unfold. repeat (emits_step; auto; try done). }
  intros [child|e]; [|apply emits_ret].
  unfold assign_child, supervise, Cgroups.assign_pid, Cgroups.cleanup_cgroup, elapsed, drained,
    kill_group, drop_child, measure_peak_memory, rusage_children_maxrss. prog_unfold.
  repeat (emits_step; auto; try done).
Qed.

(** C1. Nothing runs outside the jail.  On Linux, in every execution and
    whatever the system answers, each [execve] of the command is preceded by
    the whole jail in the order the kernel needs: all resource limits of the
    policy, the new namespaces (with a network namespace when the policy denies
    the network), for a container the pivot to its root with the host root
    detached, and last the loaded system-call filter with all its rules.  If
    any step fails no program runs. *)
Theorem execution_jailed `{Target} (cmd : string) (wd : path) (policy : SandboxPolicy)
    (stdin : option stdio) (Hos : os = Linux) :
  wp any_response (execute_wait_streaming_with_stdin cmd wd policy stdin) (fun _ t =>
    forall t1 c r t2, t = t1 ++ Ev (Exec c) r :: t2 ->
      exists rs, length rs = length (Seccomp.blocked_names policy) /\
        jail_events policy rs `sublist_of` t1).
Proof. by apply execute_jails. Qed.

Lemma exec_split t :
  existsb is_exec t = true -> exists t1 c r t2, t = t1 ++ Ev (Exec c) r :: t2.
Proof.
  induction t as [|e t IH]; [done|]. cbn. destruct (is_exec e) eqn:He.
  - intros _. destruct e as [R e r]. destruct e; try discriminate He.
    by exists [], c, r, t.
  - intros H. destruct (IH H) as (t1 & c & r & t2 & ->). by exists (e :: t1), c, r, t2.
Qed.

(** On a machine where every call succeeds, the command does run. *)
Definition willing_handler : handler sys unit :=
  fun R e s => (sys_default R e, s).

Lemma execution_jailed_witness :
  exists t1 c r t2,
    run_trace willing_handler (@execute_wait_streaming_with_stdin linux_x86 "true" "/w"
      (agent_default_in None "/w") None) tt = t1 ++ Ev (Exec c) r :: t2 /\
    exists rs, length rs = length (Seccomp.blocked_names (agent_default_in None "/w")) /\
      jail_events (agent_default_in None "/w") rs `sublist_of` t1.
Proof.
  set (t := run_trace _ _ _).
  assert (exists t1 c r t2, t = t1 ++ Ev (Exec c) r :: t2) as (t1 & c & r & t2 & Ht).
  { apply exec_split. vm_compute. reflexivity. }
  exists t1, c, r, t2. split; [exact Ht|].
  refine (wp_run any_response willing_handler _ tt _ (fun _ _ _ => I)
    (@execution_jailed linux_x86 "true" "/w" (agent_default_in None "/w") None eq_refl) _ _ _ _ Ht).
Defined.
