(* ===== verification/ExecutorRun.v ===== *)
(** * The environment, the supervision and the cgroup of an execution

    The rest of what [Executor] guarantees: which variables reach the child,
    what is reported for each way a child can end, and when the removal
    of an execution's cgroup is attempted. *)
From S2P Require Export ExecutorSpec.

(** ** The scrubbed environment *)

Lemma allow_env_spec keys env b :
  wp any_response (allow_env keys env b) (fun o t => exists env' b',
    o = Done (env', b') /\
    (forall k v, env' !! k = Some v ->
       env !! k = Some v \/ (k ∈ keys /\ Ev (EnvVar k) (Some v) ∈ t)) /\
    (forall k, is_Some (env !! k) -> is_Some (env' !! k)) /\
    ((b = true -> is_Some (env !! "PATH")) -> b' = true -> is_Some (env' !! "PATH"))).
Proof.
  revert env b. induction keys as [|key keys IH]; intros env b.
  { exists env, b. repeat split; auto. }
  cbn [allow_env]. wp_simpl. intros [val|] _.
  - eapply wp_mono; [apply IH|]. intros o t (env' & b' & -> & Hsrc & Hkeep & Hpath).
    exists env', b'. split_and!; [done| | |].
    + intros k v Hk. destruct (Hsrc k v Hk) as [Hl|[Hin Hev]].
      * apply lookup_insert_Some in Hl as [[<- <-]|[_ Hl]]; [right|by left].
        split; [apply list_elem_of_here|apply list_elem_of_here].
      * right. split; by apply list_elem_of_further.
    + intros k [v Hk]. apply Hkeep. destruct (decide (key = k)) as [->|Hne].
      * rewrite lookup_insert_eq. eauto.
      * rewrite lookup_insert_ne by done. eauto.
    + intros Hb. apply Hpath. intros Ho. apply orb_true_iff in Ho as [Hb'|Hk];
        [|apply bool_decide_eq_true in Hk as ->].
      * destruct (decide (key = "PATH")) as [->|Hne]; [rewrite lookup_insert_eq; eauto|].
        rewrite lookup_insert_ne by done. auto.
      * rewrite lookup_insert_eq. eauto.
  - eapply wp_mono; [apply IH|]. intros o t (env' & b' & -> & Hsrc & Hkeep & Hpath).
    exists env', b'. split_and!; [done| |done|done].
    intros k v Hk. destruct (Hsrc k v Hk) as [Hl|[Hin Hev]]; [by left|right].
    split; by apply list_elem_of_further.
Qed.

Lemma inject_env_spec l env k :
  match inject_env l env !! k with
  | Some v => (k, v) ∈ l \/ (k ∉ l.*1 /\ env !! k = Some v)
  | None => k ∉ l.*1 /\ env !! k = None
  end.
Proof.
  unfold inject_env. revert env. induction l as [|[k' v'] l IH]; intros env; cbn.
  { destruct (env !! k) eqn:E; [right|]; (split; [apply not_elem_of_nil|done]). }
  specialize (IH (<[k' := v']> env)).
  destruct (fold_left _ l _ !! k) as [v|].
  - destruct IH as [H|[Hn H]]; [left; by apply list_elem_of_further|].
    apply lookup_insert_Some in H as [[-> ->]|[Hne H]]; [left; apply list_elem_of_here|].
    right. split; [|done]. rewrite elem_of_cons. intros [->|]; done.
  - destruct IH as [Hn H]. apply lookup_insert_None in H as [H Hne].
    split; [|done]. rewrite elem_of_cons. intros [->|]; done.
Qed.

(** Where the value of a variable of the child comes from. *)
Definition env_source (policy : SandboxPolicy) (t : sys_trace) (k v : string) : Prop :=
  (k, v) ∈ env_inject policy \/
  (k ∈ env_allowlist policy /\ Ev (EnvVar k) (Some v) ∈ t) \/
  (k = "PATH" /\ v = default_path).

Lemma scrubbed_env_ok policy :
  wp any_response (scrubbed_env policy) (fun o t => exists env,
    o = Done env /\
    (forall k v, env !! k = Some v -> env_source policy t k v) /\
    is_Some (env !! "PATH") /\
    (forall k, k ∈ (env_inject policy).*1 ->
       exists v, env !! k = Some v /\ (k, v) ∈ env_inject policy)).
Proof.
  unfold scrubbed_env. prog_unfold. apply wp_bind. eapply wp_mono; [apply allow_env_spec|].
  intros o t (env & b & -> & Hsrc & _ & Hpath). cbn. rewrite app_nil_r.
  eexists. split; [done|]. set (env0 := if b then env else _).
  assert (is_Some (env0 !! "PATH")) as Hp0.
  { unfold env0. destruct b; [by apply Hpath|]. rewrite lookup_insert_eq. eauto. }
  split_and!.
  - intros k v Hk. pose proof (inject_env_spec (env_inject policy) env0 k) as H.
    rewrite Hk in H. destruct H as [H|[_ H]]; [by left|right].
    unfold env0 in H. destruct b.
    + destruct (Hsrc k v H) as [H'|H']; [by apply lookup_empty_Some in H'|by left].
    + apply lookup_insert_Some in H as [[<- <-]|[_ H]]; [by right|].
      destruct (Hsrc k v H) as [H'|H']; [by apply lookup_empty_Some in H'|by left].
  - pose proof (inject_env_spec (env_inject policy) env0 "PATH") as H.
    destruct (inject_env (env_inject policy) env0 !! "PATH") as [v|]; [eauto|]. destruct H as [_ H].
    rewrite H in Hp0. by destruct Hp0.
  - intros k Hk. pose proof (inject_env_spec (env_inject policy) env0 k) as H.
    destruct (inject_env (env_inject policy) env0 !! k) as [v|].
    + destruct H as [H|[H _]]; [eauto|done].
    + by destruct H.
Qed.

Lemma push_each_returns {A} (f : A -> prog sys (list string)) l :
  (forall x, returns any_response (f x)) -> returns any_response (push_each f l).
Proof.
  intros Hf. induction l as [|x l IH]; [apply returns_ret|].
  cbn [push_each]. prog_unfold. repeat (returns_step; auto).
Qed.

Lemma profile_returns policy : returns any_response (generate_profile policy).
Proof.
  assert (forall l, returns any_response (push_each rw_rules l)) as Hrw.
  { intros l. apply push_each_returns. intros x. unfold rw_rules, other_spelling.
    prog_unfold. repeat returns_step. }
  assert (forall l, returns any_response (push_each deny_rules l)) as Hdn.
  { intros l. apply push_each_returns. intros x. unfold deny_rules, other_spelling.
    prog_unfold. repeat returns_step. }
  assert (forall l, returns any_response (push_each target_rules l)) as Htg.
  { intros l. apply push_each_returns. intros x. unfold target_rules.
    prog_unfold. repeat returns_step. }
  unfold generate_profile, profile_lines, home_rules, network_rules. prog_unfold.
  repeat (returns_step; auto).
Qed.

(** C21. The child's environment is built from nothing: it is cleared, and each
    variable in it is one the policy injects, or is on the policy's allowlist
    with the value the host answered for it, or is the fallback [PATH].  The
    injected variables are all there, [PATH] always is, and the child's output
    is piped and the child killed with its handle. *)
Theorem environment_scrubbed `{Target} (cmd : string) (wd : path) (policy : SandboxPolicy) :
  wp any_response (build_command cmd wd policy) (fun o t => exists c,
    o = Done c /\ cmd_env_clear c = true /\
    (forall k v, cmd_env c !! k = Some v -> env_source policy t k v) /\
    is_Some (cmd_env c !! "PATH") /\
    (forall k, k ∈ (env_inject policy).*1 ->
       exists v, cmd_env c !! k = Some v /\ (k, v) ∈ env_inject policy) /\
    cmd_stdout c = Piped /\ cmd_stderr c = Piped /\ cmd_kill_on_drop c = true /\
    cmd_cwd c = Some wd).
Proof.
  unfold build_command. prog_unfold.
  apply wp_bind. eapply wp_mono with (Q := fun o _ => exists c, o = Done c /\ cmd_cwd c = Some wd).
  { destruct is_macos; [|by eexists].
    unfold darwin_build_command. prog_unfold.
    apply wp_bind. eapply wp_mono; [apply profile_returns|]. intros o t [p ->]. by eexists. }
  intros o t (c & -> & Hc). apply wp_bind. eapply wp_mono; [apply scrubbed_env_ok|].
  intros o t' (env & -> & Hsrc & Hp & Hinj). cbn. rewrite app_nil_r.
  eexists. split; [done|]. cbn. split_and!; auto.
  intros k v Hk. destruct (Hsrc k v Hk) as [?|[[? ?]|?]]; [by left|right; left|by right; right].
  split; [done|]. apply elem_of_app. by right.
Qed.

(** ** Supervision *)

(** The execution's cgroup is asked for and, when it is there, its removal is
    attempted; the attempt may fail. *)
Definition cleaned (cg : path) (t : sys_trace) : Prop :=
  exists present, Ev (PathExists cg) present ∈ t /\
    (present = true -> exists r, Ev (RemoveDirAll cg) r ∈ t).

Definition is_wait (e : event sys) : bool :=
  match e with Ev (WaitChild _) _ => true | _ => false end.

Definition is_read (e : event sys) : bool :=
  match e with Ev (ReadToString _) _ => true | _ => false end.

Lemma cleanup_spec cg :
  wp any_response (Cgroups.cleanup_cgroup cg) (fun o t =>
    o = Done (Ok tt) /\ cleaned cg t /\
    Forall (fun e => is_wait e = false /\ is_read e = false) t).
Proof.
  unfold Cgroups.cleanup_cgroup. wp_simpl. intros [|] _; cbn [prog_bind wp].
  - intros [|] _; cbn [prog_bind wp]; [intros w _|]; intros r _;
      (split; [done|]; split; [|repeat constructor]);
       (exists true; split; [apply list_elem_of_here|]; intros _; exists r;
        apply list_elem_of_In; simpl; auto).
  - split; [done|]. split; [|repeat constructor].
    exists false. split; [apply list_elem_of_here|done].
Qed.

Lemma measure_spec `{Target} cg :
  wp any_response (measure_peak_memory cg) (fun o t =>
    (exists peak, o = Done peak) /\ Forall (fun e => is_wait e = false) t).
Proof.
  unfold measure_peak_memory, rusage_children_maxrss. prog_unfold.
  destruct cg as [cg|]; cbn [prog_bind wp].
  - intros [s|e] _; [destruct (parse_u64 _)|]; cbn [prog_bind wp];
      try (intros r _); split; eauto; repeat constructor.
  - intros r _. split; eauto; repeat constructor.
Qed.

(** The child, if it has an identifier, is sent [SIGKILL]. *)
Definition killed (child : option pid) (t : sys_trace) : Prop :=
  forall p, child = Some p -> exists x, Ev (KillSig p) x ∈ t.

Lemma killed_app child t1 t t2 : killed child t -> killed child (t1 ++ t ++ t2).
Proof. intros H p Hp. destruct (H p Hp) as [x ?]. exists x. set_solver. Qed.

(** What is reported for each way the wait can end. *)
Definition reported (id : string) (policy : SandboxPolicy) (c : command) (child : option pid)
    (reply : wait_reply) (res : Result SandboxResult) (after : sys_trace) : Prop :=
  match reply with
  | WaitOk st => exists r, res = Ok r /\
      res_id r = id /\ exit_code r = exit_code_of st /\
      m_exit_code (metrics r) = exit_code_of st /\
      resource_violation (metrics r) = violation_of (exit_code_of st)
  | WaitErr e =>
      res = Err (SetupFailed ("Failed to wait for sandbox child: " +:+ ioe_text e)) /\
      (cmd_kill_on_drop c = true -> killed child after)
  | WaitTimedOut =>
      res = Err (Timeout (Z.max (wall_time_limit_secs (resources policy)) 1)) /\
      forall p, child = Some p -> exists r1 r2 reads,
        [Ev (KillSig (- p)%Z) r1; Ev (KillSig p) r2; Ev DrainPipes reads] `sublist_of` after
  end.

(** A supervision seen from its trace: one wait, clean-up and readers after it. *)
Definition supervised (id : string) (cg_path : option path) (c : command) (child : option pid)
    (policy : SandboxPolicy) (o : outcome streamed) (t : sys_trace) : Prop :=
  exists res chunks before reply after reads,
    o = Done (res, chunks) /\
    t = before ++ Ev (WaitChild (Z.max (wall_time_limit_secs (resources policy)) 1)) reply :: after /\
    (forall s r, Ev (WaitChild s) r ∉ before ++ after) /\
    (forall cg, cg_path = Some cg -> cleaned cg after /\
       forall a p text b, after = a ++ Ev (ReadToString p) text :: b -> cleaned cg a) /\
    Ev DrainPipes reads ∈ after /\ chunks = forward_reads true true reads /\
    reported id policy c child reply res after.

Lemma cleaned_app cg t1 t t2 : cleaned cg t -> cleaned cg (t1 ++ t ++ t2).
Proof.
  intros (pr & Hpr & Hrm). exists pr. split; [set_solver|].
  intros Hp. destruct (Hrm Hp) as [r ?]. exists r. set_solver.
Qed.

Lemma supervised_close id cg_path c child policy n1 n2 n3 n4 reply tc rest res chunks reads :
  Forall (fun e => is_wait e = false /\ is_read e = false) tc ->
  (forall cg, cg_path = Some cg -> cleaned cg tc) ->
  Forall (fun e => is_wait e = false) rest -> Ev DrainPipes reads ∈ rest ->
  reported id policy c child reply res rest -> chunks = forward_reads true true reads ->
  supervised id cg_path c child policy (Done (res, chunks))
    (Ev NowMillis n1 :: Ev NowMillis n2 ::
     Ev (WaitChild (Z.max (wall_time_limit_secs (resources policy)) 1)) reply ::
     Ev NowMillis n3 :: Ev NowMillis n4 :: tc ++ rest).
Proof.
  intros Hq Hc Hr Hin Hrep ->.
  eexists _, _, [Ev NowMillis n1; Ev NowMillis n2], reply,
    (Ev NowMillis n3 :: Ev NowMillis n4 :: tc ++ rest), reads.
  split; [reflexivity|]. split; [reflexivity|]. split_and!.
  - intros s r Hwait. cbn in Hwait. rewrite !elem_of_cons in Hwait.
    destruct Hwait as [[=]|[[=]|[[=]|[[=]|Hwait]]]].
    assert (Forall (fun e => is_wait e = false) (tc ++ rest)) as Hall.
    { apply Forall_app. split; [|done]. eapply Forall_impl; [|exact Hq]. by intros ? [? ?]. }
    rewrite Forall_forall in Hall. apply list_elem_of_In in Hwait. by apply Hall in Hwait.
  - intros cg Hcg. specialize (Hc cg Hcg). split.
    + by apply (cleaned_app cg [Ev NowMillis n3; Ev NowMillis n4] tc rest).
    + intros a p text b Hab.
      assert (exists m, a = Ev NowMillis n3 :: Ev NowMillis n4 :: tc ++ m) as [m ->].
      { change (_ :: _ :: tc ++ rest) with ((Ev NowMillis n3 :: Ev NowMillis n4 :: tc) ++ rest) in Hab.
        apply app_split in Hab as [[m Hm]|(m & -> & _)]; [|by exists m].
        assert (Forall (fun e => is_read e = false) (Ev NowMillis n3 :: Ev NowMillis n4 :: tc)) as Hall.
        { do 2 (constructor; [done|]). eapply Forall_impl; [|exact Hq]. by intros ? [? ?]. }
        rewrite Hm in Hall. apply Forall_app in Hall as [_ Hall]. by inversion Hall. }
      by apply (cleaned_app cg [Ev NowMillis n3; Ev NowMillis n4] tc m).
  - set_solver.
  - done.
  - destruct reply as [st|e|]; [exact Hrep| |].
    { destruct Hrep as [-> Hk]. split; [done|]. intros Hd.
      rewrite <- (app_nil_r rest). by apply (killed_app child (_ :: _ :: tc) rest []), Hk. }
    destruct Hrep as [-> Hk]. split; [done|]. intros p Hp.
    destruct (Hk p Hp) as (r1 & r2 & rd & Hs). exists r1, r2, rd.
    do 2 apply sublist_cons. by apply sublist_inserts_l.
Qed.

(** A handle dropped before the child was reaped. *)
Lemma drop_child_spec c child :
  wp any_response (drop_child c child) (fun o t =>
    o = Done tt /\ Forall (fun e => is_wait e = false) t /\
    (cmd_kill_on_drop c = true -> killed child t)).
Proof.
  unfold drop_child. prog_unfold. destruct child as [p|]; [destruct (cmd_kill_on_drop c) eqn:Hd|].
  - cbn [prog_bind wp]. intros x _. split_and!; [done|by repeat constructor|].
    intros _ ? [= <-]. exists x. apply list_elem_of_here.
  - split_and!; [done|constructor|done].
  - split_and!; [done|constructor|done].
Qed.

Lemma supervise_supervised `{Target} (id : string) (start : Z) (cg_path : option path)
    (c : command) (child : option pid) (policy : SandboxPolicy) :
  wp any_response (supervise id start cg_path c child policy)
    (supervised id cg_path c child policy).
Proof.
  unfold supervise, elapsed, drained. prog_unfold. cbn [prog_bind wp].
  intros n1 _ n2 _ reply _ n3 _ n4 _. apply wp_bind.
  eapply wp_mono with (Q := fun o t => o = Done (Ok tt) /\
    Forall (fun e => is_wait e = false /\ is_read e = false) t /\
    (forall cg, cg_path = Some cg -> cleaned cg t)).
  { destruct cg_path as [cg|].
    - eapply wp_mono; [apply cleanup_spec|]. intros o t (-> & Hc & Hq).
      split_and!; [done|done|]. by intros ? [= <-].
    - split_and!; [done|constructor|done]. }
  intros o tc (-> & Hq & Hc). cbn [prog_bind].
  destruct reply as [st|e|].
  - cbn [prog_bind wp]. intros reads _. apply wp_bind. eapply wp_mono; [apply measure_spec|].
    intros o tm ((peak & ->) & Hqm). cbn. rewrite app_nil_r.
    eapply supervised_close; [done|done|by constructor|apply list_elem_of_here| |done].
    eexists. repeat split.
  - cbn [prog_bind wp]. intros reads _. apply wp_bind.
    eapply wp_mono; [apply drop_child_spec|]. intros o td (-> & Hqd & Hk). cbn. rewrite app_nil_r.
    eapply supervised_close; [done|done|by constructor|apply list_elem_of_here| |done].
    split; [done|]. intros Hd. rewrite <- (app_nil_r td).
    by apply (killed_app child [_] td []), Hk.
  - unfold kill_group. prog_unfold. destruct child as [p|]; cbn [prog_bind wp].
    + intros r1 _ r2 _ reads _. apply wp_bind.
      eapply wp_mono; [apply drop_child_spec|]. intros o td (-> & Hqd & _). cbn. rewrite app_nil_r.
      eapply supervised_close; [done|done|by repeat (constructor; [done|])| | |done].
      * do 2 apply list_elem_of_further. apply list_elem_of_here.
      * split; [done|]. intros ? [= <-]. exists r1, r2, reads.
        do 3 apply sublist_skip. apply sublist_nil_l.
    + intros reads _.
      eapply supervised_close; [done|done|by repeat constructor|apply list_elem_of_here|by split|done].
Qed.

(** ** The whole execution *)

Lemma block_all_returns names : returns any_response (Seccomp.block_all names).
Proof.
  induction names as [|n names IH]; [apply returns_ret|]. cbn [Seccomp.block_all].
  prog_unfold. repeat (returns_step; auto).
Qed.

Lemma pre_exec_returns `{Target} policy : returns any_response (pre_exec policy).
Proof.
  pose proof block_all_returns as Hb.
  unfold pre_exec, apply_setrlimit, macos_nproc_limit, macos_effective_nproc,
    user_process_count, when_positive, setrlimit, Namespaces.setup_child_namespaces,
    Namespaces.enter_container_root, Seccomp.apply.
  prog_unfold. repeat (returns_step; auto).
Qed.

Lemma wp_returns {A} (p : prog sys A) (Q : outcome A -> sys_trace -> Prop) :
  returns any_response p -> wp any_response p Q ->
  wp any_response p (fun o t => (exists a, o = Done a) /\ Q o t).
Proof. apply wp_and. Qed.

Definition started (t : sys_trace) : Prop := exists c child, Ev (Exec c) (Ok child) ∈ t.
(** A successful [execve]. *)
Definition exec_ok (e : event sys) : bool :=
  match e with
  | @Ev _ R c r =>
      match c in sys R return R -> bool with
      | Exec _ => fun r => match r with Ok _ => true | Err _ => false end
      | _ => fun _ => false
      end r
  end.
Definition removes (t : sys_trace) : Prop := exists p r, Ev (RemoveDirAll p) r ∈ t.

Lemma silent_not_started t :
  Forall (fun e => is_lifecycle e = false) t -> ~ started t /\ ~ removes t.
Proof.
  rewrite Forall_forall. intros H.
  split; intros (x & r & Hin); apply list_elem_of_In in Hin; by apply H in Hin.
Qed.

Lemma exec_not_started t : Forall (fun e => is_exec e = false) t -> ~ started t.
Proof.
  rewrite Forall_forall. intros H (x & r & Hin). apply list_elem_of_In in Hin. by apply H in Hin.
Qed.

Lemma not_started_app t t' : ~ started t -> ~ started t' -> ~ started (t ++ t').
Proof. intros H H' (c & r & [Hin|Hin]%elem_of_app); [apply H|apply H']; by exists c, r. Qed.

Lemma not_removes_app t t' : ~ removes t -> ~ removes t' -> ~ removes (t ++ t').
Proof. intros H H' (c & r & [Hin|Hin]%elem_of_app); [apply H|apply H']; by exists c, r. Qed.

Lemma spawn_spec `{Target} policy c :
  wp any_response (spawn c (pre_exec policy)) (fun o t =>
    match o with
    | Done (Ok child) => exists t0, t = t0 ++ [Ev (Exec c) (Ok child)] /\
                           ~ started t0 /\ ~ removes t0
    | Done (Err _) => ~ started t /\ ~ removes t
    | Stopped _ => False
    end).
Proof.
  unfold spawn. destruct (command_has_nul c); [apply silent_not_started; constructor|].
  prog_unfold. cbn [prog_bind wp]. intros [[]|e] _; cbn [prog_bind wp];
    [|apply silent_not_started; repeat constructor].
  apply wp_bind. eapply wp_mono with (Q := fun o t => (exists r, o = Done r) /\
    Forall (fun e => is_lifecycle e = false) t).
  { destruct (cmd_cwd c); cbn; [intros [[]|e] _|]; cbn; split; eauto; repeat constructor. }
  intros o t1 [[[[]|e] ->] Hq1].
  2: { cbn. rewrite app_nil_r. apply silent_not_started. by constructor. }
  cbn [prog_bind]. apply wp_bind, wp_bind. eapply wp_mono;
    [apply wp_returns; [apply pre_exec_returns|apply silent_pre_exec]|].
  intros o t2 [[[[]|e] ->] Hq2]; cbn.
  2: { rewrite !app_nil_r. apply silent_not_started. constructor; [done|]. by apply Forall_app. }
  intros [child|e] _.
  - exists (Ev Fork (Ok tt) :: t1 ++ t2). rewrite app_nil_r.
    split; [cbn; by rewrite <- app_assoc|]. apply silent_not_started.
    constructor; [done|]. by apply Forall_app.
  - rewrite app_nil_r, app_assoc, app_comm_cons.
    assert (Forall (fun e => is_lifecycle e = false) (Ev Fork (Ok tt) :: t1 ++ t2)) as Hq
      by (constructor; [done|]; by apply Forall_app).
    apply silent_not_started in Hq as [Hs Hr].
    split; [apply not_started_app|apply not_removes_app]; auto.
    + intros (c' & child & Hin%list_elem_of_singleton). by apply (f_equal exec_ok) in Hin.
    + intros (p & r & [=]%list_elem_of_singleton).
Qed.

(** The directory an execution's cgroup gets. *)
Definition cgroup_of (id : string) : path := path_join "/sys/fs/cgroup/kuda_sandbox" id.

Definition cgroup_choice `{Target} (id : string) (cg : option path) (t : sys_trace) : Prop :=
  match cg with
  | Some c => c = cgroup_of id /\ Ev (CreateDirAll c) (Ok tt) ∈ t
  | None => is_linux = true -> Ev (PathExists "/sys/fs/cgroup/cgroup.controllers") false ∈ t
  end.

Lemma prepare_cgroup_spec `{Target} id policy :
  wp any_response (prepare_cgroup id policy) (fun o t =>
    (~ started t /\ ~ removes t) /\
    match o with
    | Done (Ok cg) => cgroup_choice id cg t
    | Done (Err _) => True
    | Stopped _ => False
    end).
Proof.
  eapply wp_mono with (Q := fun o t => Forall (fun e => is_lifecycle e = false) t /\
    match o with Done (Ok cg) => cgroup_choice id cg t | Done (Err _) => True
               | Stopped _ => False end).
  2: { intros o t [Hq Ho]. split; [by apply silent_not_started|done]. }
  apply (wp_quiet is_lifecycle); [apply silent_cgroup|].
  unfold prepare_cgroup. destruct is_linux eqn:El; [|cbn; congruence].
  unfold Cgroups.create_sandbox_cgroup, Cgroups.write_limit.
  wp_simpl. intros [|] _; cbn [prog_bind wp].
  - intros [[]|e] _; cbn [map_err prog_bind wp]; [|done].
    destruct (0 <? memory_limit_bytes _)%Z; cbn [prog_bind wp];
      [intros [[]|e] _; cbn [map_err prog_bind wp]; [|done]|];
      (destruct (0 <? max_pids _)%Z; cbn [prog_bind wp];
        [intros [[]|e] _; cbn [map_err prog_bind wp]; [|done]|]);
      (intros [[]|e] _; cbn [map_err prog_bind wp]; [|done]);
      (split; [done|apply list_elem_of_further, list_elem_of_here]).
  - intros w _ _. apply list_elem_of_here.
Qed.

Lemma assign_spec cg child :
  wp any_response (assign_child cg child) (fun o t =>
    ~ started t /\
    match o with
    | Done (Ok _) => ~ removes t
    | Done (Err _) => exists c, cg = Some c /\ cleaned c t /\ killed child t
    | Stopped _ => False
    end).
Proof.
  eapply wp_mono with (Q := fun o t => Forall (fun e => is_exec e = false) t /\
    match o with Done (Ok _) => Forall (fun e => is_lifecycle e = false) t
               | Done (Err _) => exists c, cg = Some c /\ cleaned c t /\ killed child t
               | Stopped _ => False end).
  { apply (wp_quiet is_exec); [apply no_exec_assign|].
    unfold assign_child, Cgroups.assign_pid. prog_unfold.
    destruct cg as [cg|]; [|constructor]. destruct child as [p|]; [|constructor].
    cbn [prog_bind wp]. intros [[]|e] _; cbn [map_err prog_bind wp]; [repeat constructor|].
    intros r _. apply wp_bind. eapply wp_mono; [apply cleanup_spec|].
    intros o t (-> & Hc & _). cbn. exists cg. split; [done|].
    split; [by apply (cleaned_app cg [_; _] t [])|]. intros ? [= <-]. exists r.
    right. apply list_elem_of_here. }
  intros o t [Hq Ho]. split.
  - intros (c & r & Hin). rewrite Forall_forall in Hq. apply list_elem_of_In in Hin.
    by apply Hq in Hin.
  - destruct o as [[[]|e]|s]; [by apply silent_not_started|done|done].
Qed.

Lemma allow_env_returns keys env b : returns any_response (allow_env keys env b).
Proof.
  revert env b. induction keys as [|k keys IH]; intros env b; [apply returns_ret|].
  cbn [allow_env]. prog_unfold. repeat (returns_step; auto).
Qed.

Lemma build_returns `{Target} cmd wd policy : returns any_response (build_command cmd wd policy).
Proof.
  pose proof allow_env_returns as He. pose proof profile_returns as Hp.
  unfold build_command, darwin_build_command, scrubbed_env. prog_unfold.
  repeat (returns_step; auto).
Qed.

Lemma cleanup_returns cg : returns any_response (Cgroups.cleanup_cgroup cg).
Proof. eapply wp_mono; [apply cleanup_spec|]. intros o t (-> & _). by eexists. Qed.

(** An execution always returns: no call can make it hang or panic. *)
Lemma execute_returns `{Target} cmd wd policy stdin :
  returns any_response (execute_wait_streaming_with_stdin cmd wd policy stdin).
Proof.
  pose proof (build_returns cmd wd policy) as Hb. pose proof (pre_exec_returns policy) as Hp.
  pose proof cleanup_returns as Hc.
  unfold execute_wait_streaming_with_stdin, prepare_cgroup, Cgroups.create_sandbox_cgroup,
    Cgroups.write_limit, spawn, assign_child, Cgroups.assign_pid, supervise, kill_group, drop_child,
    drained, elapsed, measure_peak_memory, rusage_children_maxrss.
  prog_unfold. repeat (returns_step; auto).
Qed.

(** An execution whose program started: nothing was removed before, and then
    either the child could not be put in its cgroup, which is cleaned up, or
    the child was supervised. *)
Definition ran `{Target} (id : string) (policy : SandboxPolicy) (o : outcome streamed)
    (t : sys_trace) : Prop :=
  exists t1 c child t2 cg,
    t = t1 ++ Ev (Exec c) (Ok child) :: t2 /\ ~ started t1 /\ ~ started t2 /\ ~ removes t1 /\
    cgroup_choice id cg t1 /\ cmd_kill_on_drop c = true /\
    ((exists e d, o = Done (Err e, []) /\ cg = Some d /\ cleaned d t2 /\ killed child t2) \/
     (exists t3 t4, t2 = t3 ++ t4 /\ supervised id cg c child policy o t4)).

(** An execution whose program did not start. *)
Definition not_run (o : outcome streamed) (t : sys_trace) : Prop :=
  ~ started t /\ ~ removes t /\ exists e, o = Done (Err e, []).

(** An execution whose program did not start, from the quiet steps that led
    to its error. *)
Lemma not_run_steps t1 t2 e :
  ~ started t1 /\ ~ removes t1 -> ~ started t2 /\ ~ removes t2 ->
  not_run (Done (Err e, [])) (t1 ++ t2).
Proof.
  intros [??] [??]. split; [by apply not_started_app|].
  split; [by apply not_removes_app|by exists e].
Qed.

(** An execution whose program started, from its parts: the steps that built
    the command, chose the cgroup, started the program and assigned it, and
    what followed. *)
Lemma ran_steps `{Target} id policy c child cg tb tc t0 ta rest o :
  ~ started tb /\ ~ removes tb -> ~ started tc /\ ~ removes tc -> ~ started t0 /\ ~ removes t0 ->
  cgroup_choice id cg tc -> cmd_kill_on_drop c = true -> ~ started ta -> ~ started rest ->
  ((exists e d, o = Done (Err e, []) /\ cg = Some d /\ cleaned d (ta ++ rest) /\
     killed child (ta ++ rest)) \/
   supervised id cg c child policy o rest) ->
  ran id policy o (tb ++ tc ++ (t0 ++ [Ev (Exec c) (Ok child)]) ++ ta ++ rest).
Proof.
  intros [??] [??] [??] Ho ??? Hr.
  exists (tb ++ tc ++ t0), c, child, (ta ++ rest), cg. split_and!.
  - by rewrite <- !app_assoc.
  - by repeat apply not_started_app.
  - by apply not_started_app.
  - by repeat apply not_removes_app.
  - unfold cgroup_choice in *. destruct cg as [d|]; [destruct Ho; split; [done|]; set_solver|].
    intros Hl. specialize (Ho Hl). set_solver.
  - done.
  - destruct Hr as [Hr|Hr]; [by left|right]. eauto.
Qed.

Lemma execution_ends `{Target} cmd wd policy stdin :
  wp any_response (execute_wait_streaming_with_stdin cmd wd policy stdin) (fun o t =>
    exists id, Ev NewUuid id ∈ t /\ (ran id policy o t \/ not_run o t)).
Proof.
  unfold execute_wait_streaming_with_stdin. prog_unfold. cbn [prog_bind wp].
  intros id _ start _. apply wp_bind.
  eapply wp_mono; [apply wp_returns; [apply build_returns|]; apply wp_and;
    [apply silent_build|apply build_shell]|].
  intros o tb [[c ->] [Hqb Hsh]]. cbn [prog_bind].
  assert (~ started (Ev NewUuid id :: Ev NowMillis start :: tb) /\
          ~ removes (Ev NewUuid id :: Ev NowMillis start :: tb)) as Hb
    by (apply silent_not_started; by repeat constructor).
  assert (Ev NewUuid id ∈ Ev NewUuid id :: Ev NowMillis start :: tb) as Hid by apply list_elem_of_here.
  set (tb' := Ev NewUuid id :: _) in *.
  apply wp_bind. eapply wp_mono; [apply prepare_cgroup_spec|].
  intros o tc [Hc Ho]. destruct o as [[cg|e]|s]; [| |done].
  2: { exists id. cbn. rewrite app_nil_r. split; [set_solver|right].
       exact (not_run_steps tb' tc _ Hb Hc). }
  set (c' := match stdin with Some si => _ | None => c end).
  assert (cmd_kill_on_drop c' = true) as Hkill.
  { destruct (Hsh c eq_refl) as (_ & _ & _ & _ & _ & Hk). unfold c'. by destruct stdin. }
  apply wp_bind. eapply wp_mono; [apply spawn_spec|].
  intros o ts Hs. destruct o as [[child|e]|s]; [| |done].
  2: { exists id. cbn. rewrite app_nil_r. split; [set_solver|right].
       change (not_run (Done (Err (SetupFailed
         ("Failed to spawn sandboxed child process: " +:+ ioe_text e)), [])) (tb' ++ tc ++ ts)).
       apply not_run_steps; [done|]. destruct Hc, Hs.
       split; [by apply not_started_app|by apply not_removes_app]. }
  destruct Hs as (t0 & -> & H0).
  apply wp_bind. eapply wp_mono; [apply assign_spec|].
  intros o ta [Hsa Ha]. destruct o as [[[]|e]|s]; [| |done].
  - eapply wp_mono; [apply (wp_quiet is_exec); [apply no_exec_supervise|apply supervise_supervised]|].
    intros oo tv [Hqv Hv]. exists id. split; [set_solver|left].
    apply (ran_steps id policy c' child cg tb' tc t0 ta tv oo); auto using exec_not_started.
  - destruct Ha as (d & -> & Hd & Hk). apply wp_bind.
    eapply wp_mono; [apply (wp_quiet is_exec); [apply no_exec_drop|apply drop_child_spec]|].
    intros oo td [Hqd (-> & _ & _)]. exists id. split; [set_solver|left]. cbn [prog_bind wp].
    rewrite app_nil_r.
    apply (ran_steps id policy c' child (Some d) tb' tc t0 ta td); auto using exec_not_started.
    left. exists e, d. split_and!; [done|done|by apply (cleaned_app d [] ta td)|].
    by apply (killed_app child [] ta td).
Qed.

(** C4. Every execution ends in one of two ways, for every answer of the
    system.  If the program was started, exactly once, then the removal of its
    cgroup, named after the execution's fresh identifier whenever cgroups are
    available, is attempted unless the directory is already gone: at once when
    the child cannot be assigned to it, otherwise by the supervision, which
    waits for the child once, reports its exit, a failed wait or a timeout
    (killing the group and the child on a timeout, with the limit used, and the
    child when the wait or the assignment fails), and joins both readers; the memory peak is read
    only after that attempt.  The attempt is one recursive removal whose answer
    is ignored, failure included: that the cgroup is gone is not claimed.  If
    the program was not started the result is an error without output, and no
    removal is attempted, not of the cgroup directory made for it either. *)
Theorem execution_lifecycle `{Target} (cmd : string) (wd : path) (policy : SandboxPolicy)
    (stdin : option stdio) :
  wp any_response (execute_wait_streaming_with_stdin cmd wd policy stdin) (fun o t =>
    exists id, Ev NewUuid id ∈ t /\ (ran id policy o t \/ not_run o t)).
Proof. apply execution_ends. Qed.

(** *** The fate of a started child *)

(** It was reaped, or it was sent [SIGKILL]. *)
Definition finished (child : option pid) (t : sys_trace) : Prop :=
  (exists s st, Ev (WaitChild s) (WaitOk st) ∈ t) \/ killed child t.

Lemma finished_app child t1 t t2 : finished child t -> finished child (t1 ++ t ++ t2).
Proof.
  intros [(s & st & H)|H]; [left; exists s, st; set_solver|right; by apply killed_app].
Qed.

Lemma supervised_finished id cg c child policy o t :
  cmd_kill_on_drop c = true -> supervised id cg c child policy o t -> finished child t.
Proof.
  intros Hkill (res & chunks & before & reply & after & reads & _ & -> & _ & _ & _ & _ & Hrep).
  assert (reply = WaitTimedOut \/ (exists e, reply = WaitErr e) -> killed child after) as Hk.
  { intros [->|[e ->]]; destruct Hrep as [_ Hk]; [|by apply Hk].
    intros p Hp. destruct (Hk p Hp) as (r1 & r2 & rd & Hs). exists r2.
    eapply elem_of_submseteq; [|by apply sublist_submseteq]. set_solver. }
  destruct reply as [st|e|].
  - left. eexists _, st. apply elem_of_app. right. apply list_elem_of_here.
  - right. intros p Hp. destruct (Hk ltac:(eauto) p Hp) as [x Hx]. exists x.
    apply elem_of_app. right. by apply list_elem_of_further.
  - right. intros p Hp. destruct (Hk ltac:(eauto) p Hp) as [x Hx]. exists x.
    apply elem_of_app. right. by apply list_elem_of_further.
Qed.

(** A trace has only one place where a program starts for the first and last
    time. *)
Lemma started_split (t1 t2 m m' : sys_trace) c c0 child child0 :
  ~ started t1 -> ~ started t2 ->
  m ++ Ev (Exec c) (Ok child) :: m' = t1 ++ Ev (Exec c0) (Ok child0) :: t2 ->
  child = child0 /\ m' = t2.
Proof.
  intros H1 H2 Heq. pose proof Heq as Hs. apply app_split in Hs as [[k ->]|(k & -> & Hs)].
  - rewrite <- app_assoc in Heq. apply app_inv_head in Heq. injection Heq as <-.
    exfalso. apply H2. exists c, child. set_solver.
  - destruct k as [|e k].
    + injection Hs as Hc Hm. subst c0 m'. rewrite app_nil_r in Heq.
      apply app_inv_head in Heq. apply (f_equal head), (inj Some) in Heq. by ev_simpl.
    + injection Hs as <- _. exfalso. apply H1. exists c, child. set_solver.
Qed.

Lemma ran_finished `{Target} id policy o m c child m' :
  ran id policy o (m ++ Ev (Exec c) (Ok child) :: m') -> finished child m'.
Proof.
  intros (t1 & c0 & child0 & t2 & cg & Heq & Hn1 & Hn2 & _ & _ & Hkill & Hend).
  apply started_split in Heq as [-> ->]; [|done|done].
  destruct Hend as [(e & d & _ & _ & _ & Hk)|(t3 & t4 & -> & Hs)]; [by right|].
  rewrite <- (app_nil_r t4). apply (finished_app child0 t3 t4 []).
  by eapply supervised_finished.
Qed.

(** Every program an execution starts is finished by it. *)
Lemma execution_finishes `{Target} cmd wd policy stdin :
  wp any_response (execute_wait_streaming_with_stdin cmd wd policy stdin) (fun _ t =>
    forall m c child m', t = m ++ Ev (Exec c) (Ok child) :: m' -> finished child m').
Proof.
  eapply wp_mono; [apply execution_ends|]. intros o t (id & _ & [Hr|[Hn _]]) m c child m' ->.
  - by eapply ran_finished.
  - exfalso. apply Hn. exists c, child. set_solver.
Qed.

(** ** Where a container's program starts *)

Definition is_chdir (e : event sys) : bool :=
  match e with Ev (Chdir _) _ => true | _ => false end.

(** The last change of directory is to [/]. *)
Definition at_root (t : sys_trace) : Prop :=
  exists a b, t = a ++ Ev (Chdir "/") (Ok tt) :: b /\ Forall (fun e => is_chdir e = false) b.

Lemma at_root_app t1 t t2 :
  at_root t -> Forall (fun e => is_chdir e = false) t2 -> at_root (t1 ++ t ++ t2).
Proof.
  intros (a & b & -> & Hb) H2. exists (t1 ++ a), (b ++ t2).
  split; [by rewrite <- !app_assoc|]. by apply Forall_app.
Qed.

Lemma enter_root_cwd root :
  wp any_response (Namespaces.enter_container_root root) (fun o t =>
    match o with Done (Ok _) => at_root t | Done (Err _) => True | Stopped _ => False end).
Proof.
  unfold Namespaces.enter_container_root. wp_simpl.
  intros [[]|e] _; cbn [map_err prog_bind wp]; [|done].
  intros [[]|e] _; cbn [map_err prog_bind wp]; [|done].
  intros old _. set (put_old := path_join root ".pivot_old").
  destruct (Namespaces.path_to_cstring root) as [rc|er];
    [|destruct old; cbn; [done|by intros [[]|e] _]].
  destruct (Namespaces.path_to_cstring put_old) as [oc|eo];
    [|destruct old; cbn; [done|by intros [[]|e] _]].
  destruct old; cbn [prog_bind wp map_err];
    [|intros [[]|e] _; cbn [map_err prog_bind wp]; [|done]];
    (intros [[]|e] _; cbn [map_err prog_bind wp]; [|done]);
    (intros [[]|e] _; cbn [map_err prog_bind wp]; [|done]);
    (intros [[]|e] _; cbn [map_err prog_bind wp]; [|done]);
    intros r1 _ r2 _.
  - eexists [_; _; _; _], [_; _; _]. split; [reflexivity|by repeat constructor].
  - eexists [_; _; _; _; _], [_; _; _]. split; [reflexivity|by repeat constructor].
Qed.

Lemma no_chdir_block names : quiet is_chdir (Seccomp.block_all names).
Proof.
  induction names as [|n names IH]; [apply emits_ret|].
  cbn [Seccomp.block_all]. unfold quiet in *. prog_unfold. repeat (emits_step; auto).
Qed.

Lemma no_chdir_seccomp `{Target} p : quiet is_chdir (Seccomp.apply p).
Proof.
  pose proof no_chdir_block as Hb. unfold Seccomp.apply, quiet in *. prog_unfold.
  repeat (emits_step; auto).
Qed.

Lemma pre_exec_cwd `{Target} policy root :
  os = Linux -> container_root (fs policy) = Some root ->
  wp any_response (pre_exec policy) (fun o t =>
    match o with Done (Ok _) => at_root t | Done (Err _) => True | Stopped _ => False end).
Proof.
  intros Hos Hroot. unfold pre_exec. rewrite Hroot.
  replace is_linux with true by (unfold is_linux; rewrite Hos; by rewrite bool_decide_true).
  wp_simpl. intros sp _. apply wp_bind, wp_bind.
  eapply wp_mono; [by apply apply_setrlimit_ok|].
  intros [[[]|e]|s] t1 H1; cbn in H1; [|done|done]. cbn [map_err prog_bind wp].
  apply wp_bind, wp_bind. eapply wp_mono; [by apply namespaces_spec|].
  intros [[[]|e]|s] t2 H2; cbn in H2; [|done|done]. cbn [map_err prog_bind wp].
  apply wp_bind, wp_bind. eapply wp_mono; [apply enter_root_cwd|].
  intros [[[]|e]|s] t3 H3; cbn in H3; [|done|done]. cbn [map_err prog_bind wp].
  apply wp_bind, wp_bind. eapply wp_mono;
    [apply (wp_quiet is_chdir); [apply no_chdir_seccomp|apply seccomp_ok]|].
  { unfold is_linux. rewrite Hos. by rewrite bool_decide_true. }
  intros [[[]|e]|s] t4 [H4 H4x]; cbn in H4x; [|done|done]. cbn. rewrite !app_nil_r.
  pose proof (at_root_app (Ev Setpgid sp :: t1 ++ t2) t3 t4 H3 H4) as H5.
  cbn in H5. by rewrite <- app_assoc in H5.
Qed.

(** A container's program starts in the root of the container: whatever
    working directory the command was given, entering the container changes to
    [/] after it and nothing changes it back, so on Linux a program that starts
    under a container root never starts in the mounted workspace. *)
Lemma container_starts_at_root `{Target} (c : command) (policy : SandboxPolicy) (root : path)
    (Hos : os = Linux) (Hroot : container_root (fs policy) = Some root) :
  wp any_response (spawn c (pre_exec policy)) (fun o t =>
    forall child, o = Done (Ok child) ->
      exists before, t = before ++ [Ev (Exec c) (Ok child)] /\ at_root before).
Proof.
  unfold spawn. destruct (command_has_nul c); [done|]. prog_unfold. cbn [prog_bind wp].
  intros [[]|e] _; cbn [prog_bind wp]; [|done].
  apply wp_bind. eapply wp_mono with (Q := fun o _ => exists r, o = Done r).
  { destruct (cmd_cwd c); cbn; [intros [[]|e] _|]; eauto. }
  intros o t1 [[[]|e] ->]; [|done]. apply wp_bind, wp_bind.
  eapply wp_mono; [by eapply pre_exec_cwd|].
  intros [[[]|e]|s] t2 H2; cbn in H2; [|done|done]. cbn. intros r _ child [= ->].
  exists (Ev Fork (Ok tt) :: t1 ++ t2). rewrite app_nil_r.
  split; [cbn; by rewrite <- app_assoc|].
  rewrite app_comm_cons, <- (app_nil_r t2). by apply at_root_app.
Qed.

Definition container_demo : SandboxPolicy :=
  with_fs (set_container_root (Some "/tmp/c/root") (fs (agent_default_in None "/w")))
    (agent_default_in None "/w").
Definition container_command : command :=
  mk_command "sh" ["-c"; "pwd"] (Some "/tmp/c/root/workspace") true ∅ Inherit Piped Piped true.

Lemma container_starts_at_root_witness :
  exists before,
    run_trace willing_handler (spawn container_command (@pre_exec linux_x86 container_demo)) tt
      = before ++ [Ev (Exec container_command) (Ok (Some 100%Z))] /\ at_root before.
Proof.
  refine (wp_run any_response willing_handler _ tt _ (fun _ _ _ => I)
    (@container_starts_at_root linux_x86 container_command container_demo "/tmp/c/root"
       eq_refl eq_refl) (Some 100%Z) _).
  vm_compute. reflexivity.
Defined.
