(* ===== verification/Server.v ===== *)
(** * The server side of the wire protocol ([net/wire.rs])

    [serve_connection] reads requests from one accepted connection;
    [handle_exec] runs a command and streams its output, [handle_file_get]
    hands the descriptor of a workspace file to the peer.

    The execution and the task that forwards its chunks run concurrently in
    the code; the frames of one connection are sent in the order modelled
    here (all chunks, then the final frame), see [Pipeline] and [PipelineSpec] for the schedules.
    JSON is the business of serde: the class [Json] stands for its two
    conversions, about which nothing is assumed. *)
From S2P Require Export WireSpec Workspace ExecutorRun.

(* @src core/net/wire.rs:66-75 ExecRequest *)
Record ExecRequest : Type := mk_exec_request {
  er_command : string;
  er_workspace : string;
  er_allow_net : bool;
  er_ram_mb : Z;
  er_timeout_secs : Z;
  er_stdin_from_fd : bool
}.

(* @src core/net/wire.rs:77-81 ExitStatus *)
Record ExitStatus : Type := mk_exit_status {
  es_exit_code : Z;
  es_metrics : ExecutionMetrics
}.

Class Json : Type := {
  request_to_json : ExecRequest -> result bytes string;
  request_of_json : bytes -> result ExecRequest string;
  status_to_json : ExitStatus -> result bytes string;
  status_of_json : bytes -> result ExitStatus string
}.

Definition send_text (t : MsgType) (msg : string) : prog sys (Result unit) :=
  send_frame t (bytes_of_string msg) None.

Section Server.
Context `{Target} `{Json}.

(** ** EXEC *)

(* @src core/net/wire.rs:322-329 handle_exec (policy from the request) *)
Definition request_policy (req : ExecRequest) (policy : SandboxPolicy) : SandboxPolicy :=
  let policy := with_network (if er_allow_net req then AllowAll else Deny) policy in
  let policy :=
    if (0 <? er_ram_mb req)%Z then
      with_resources (set_memory (wrap_u64 (er_ram_mb req * 1024 * 1024)) (resources policy)) policy
    else policy in
  if (0 <? er_timeout_secs req)%Z then
    with_resources (set_wall_time (er_timeout_secs req) (resources policy)) policy
  else policy.

(* @src core/net/wire.rs:341-349 handle_exec (forwarding loop) *)
Fixpoint forward_chunks (chunks : list OutputChunk) : prog sys bool :=
  match chunks with
  | [] => Ret true
  | chunk :: chunks =>
      sent ← send_frame (if is_stdout chunk then StdoutChunk else StderrChunk)
               (chunk_data chunk) None;
      match sent with
      | Ok _ => forward_chunks chunks
      | Err _ => Ret false
      end
  end.

(* @src core/net/wire.rs:355-362 handle_exec (final frame) *)
Definition send_result (res : Result SandboxResult) : prog sys (Result unit) :=
  match res with
  | Ok res =>
      match status_to_json (mk_exit_status (exit_code res) (metrics res)) with
      | Ok encoded => send_frame Exit encoded None
      | Err e => Ret (Err (General e))
      end
  | Err e => send_text ErrorT (display_error e)
  end.

(** The end of a request: the chunks, then the result. *)
(* @src core/net/wire.rs:351-362 handle_exec (answer) *)
Definition answer (r : streamed) : prog sys (Result unit) :=
  let (exec_res, chunks) := r in
  forwarded ← forward_chunks chunks;
  if forwarded : bool then send_result exec_res
  else Ret (Err (General "client disconnected during streaming")).

(* @src core/net/wire.rs:307-363 handle_exec *)
Definition handle_exec (payload : bytes) (stdin_fd : option fd) : prog sys (Result unit) :=
  match request_of_json payload with
  | Err e => Ret (Err (General ("bad ExecRequest encoding: " +:+ e)))
  | Ok req =>
      ws ← classify_workspace (er_workspace req);
      match ws with
      | Err reason => send_text ErrorT reason
      | Ok ws =>
          policy ← agent_default ws;
          r ← execute_wait_streaming_with_stdin (er_command req) ws (request_policy req policy)
                (FromFd <$> stdin_fd);
          answer r
      end
  end.

(** ** FILE_GET *)

Definition outside_workspace (canon ws : path) : string :=
  "Security Error: '" +:+ display_path canon +:+ "' is outside this session's workspace '"
  +:+ display_path ws +:+ "'".

(* @src core/net/wire.rs:424-428 handle_file_get (descriptor handoff) *)
Definition hand_over (f : fd) (size : Z) : prog sys (Result unit) :=
  sent ← send_frame FileGetRequest (to_le_bytes 8 size) (Some f);
  _ ← call (CloseFd f);
  match sent with
  | Ok _ => send_frame FileEof [] None
  | Err e => Ret (Err e)
  end.

(* @src core/net/wire.rs:390-423 handle_file_get (containment) *)
Definition contained_handoff (ws requested : path) : prog sys (Result unit) :=
  canon ← call (Canonicalize requested);
  match canon with
  | Err _ => send_text ErrorT ("cannot resolve '" +:+ display_path requested +:+ "'")
  | Ok canon =>
      if path_starts_with canon ws then
        meta ← call (Metadata canon);
        match meta with
        | Err e => send_text ErrorT ("cannot stat '" +:+ display_path canon +:+ "': " +:+ ioe_text e)
        | Ok meta =>
            if md_is_file meta then
              opened ← call (OpenFile canon);
              match opened with
              | Err e => send_text ErrorT ("cannot open '" +:+ display_path canon +:+ "': " +:+ ioe_text e)
              | Ok f => hand_over f (md_len meta)
              end
            else send_text ErrorT ("'" +:+ display_path canon +:+ "' is not a regular file")
        end
      else send_text ErrorT (outside_workspace canon ws)
  end.

(* @src core/net/wire.rs:365-429 handle_file_get *)
Definition handle_file_get (payload : bytes) (session_workspace : option path)
    : prog sys (Result unit) :=
  match from_utf8 payload with
  | None => send_text ErrorT "non-utf8 path"
  | Some rel =>
      match session_workspace with
      | None => send_text ErrorT
          "FILE_GET refused: no workspace established on this connection (run an exec first)"
      | Some ws =>
          let requested := trim rel in
          verdict ← classify_workspace requested;
          match verdict with
          | Err reason => send_text ErrorT reason
          | Ok _ => contained_handoff ws requested
          end
      end
  end.

(** ** The connection *)

(* @src core/net/wire.rs:279-284 serve_connection (workspace of the request) *)
Definition request_workspace (payload : bytes) : prog sys (option path) :=
  match request_of_json payload with
  | Err _ => Ret None
  | Ok r =>
      verdict ← classify_workspace (er_workspace r);
      match verdict with
      | Err _ => Ret None
      | Ok w =>
          canon ← call (Canonicalize w);
          Ret (match canon with Ok c => Some c | Err _ => None end)
      end
  end.

(** [rounds] bounds the number of requests, [fuel] the reads of one frame. *)
(* @src core/net/wire.rs:268-305 serve_connection *)
Fixpoint serve_connection (rounds fuel : nat) (session_workspace : option path) : prog sys unit :=
  match rounds with
  | O => Halt Running
  | S rounds =>
      frame ← recv_frame fuel;
      match frame with
      | Err _ => Ret tt
      | Ok frame =>
          match msg_type frame with
          | ExecRequestT =>
              ws ← request_workspace (payload frame);
              done ← handle_exec (payload frame) (frame_fd frame);
              match done with
              | Err _ => Ret tt
              | Ok _ =>
                  serve_connection rounds fuel
                    (match ws with Some w => Some w | None => session_workspace end)
              end
          | FileGetRequest =>
              done ← handle_file_get (payload frame) session_workspace;
              match done with
              | Err _ => Ret tt
              | Ok _ => serve_connection rounds fuel session_workspace
              end
          | _ => Ret tt
          end
      end
  end.
End Server.
