(* ===== verification/ServerSpec.v ===== *)
(** * What the server guarantees

    Files leave the host only from the workspace of the connection, commands
    run only in accepted workspaces and jailed as the request says, and the
    peer gets one well-formed answer per request. *)
From S2P Require Export Server.

(** ** Descriptors leave only for workspace files *)

(** [ws] is the workspace that an execution request of this connection
    established: right after the request's frame was received, the guard
    accepted the workspace it names, and the system resolved that to [ws]. *)
Definition established `{Json} (h : sys_trace) (ws : path) : Prop :=
  exists h1 h2 before payload req home,
    h = h1 ++ [Ev (EnvVar "HOME") home; Ev (Canonicalize (er_workspace req)) (Ok ws)] ++ h2 /\
    received h1 = before ++ frame_bytes ExecRequestT payload /\
    request_of_json payload = Ok req /\ allowed (default "" home) (er_workspace req).

(** The next call may open [p]: the last frame received is a file request whose
    text, trimmed, is a path the guard accepts, the system resolved that path to
    [p], [p] lies in an established workspace, and its metadata, the last thing
    asked for, are those of a regular file. *)
Definition workspace_file `{Json} (h : sys_trace) (p : path) : Prop :=
  exists h0 before payload rel ws home m,
    h = h0 ++ [Ev (EnvVar "HOME") home; Ev (Canonicalize (trim rel)) (Ok p);
               Ev (Metadata p) (Ok m)] /\
    received h0 = before ++ frame_bytes FileGetRequest payload /\ from_utf8 payload = Some rel /\
    allowed (default "" home) (trim rel) /\
    established h0 ws /\ path_starts_with p ws = true /\ md_is_file m = true.

(** The rule for every call of a connection. *)
Definition handoff_rule `{Json} (h : sys_trace) (e : event sys) : Prop :=
  match e with
  | Ev (OpenFile p) _ => workspace_file h p
  | Ev (SendMsgFd _ f) _ => exists h' p, h = h' ++ [Ev (OpenFile p) (Ok f)] /\ workspace_file h' p
  | _ => True
  end.

Lemma established_app `{Json} h t ws : established h ws -> established (h ++ t) ws.
Proof.
  intros (h1 & h2 & before & payload & req & home & -> & H1 & H2 & H3).
  exists h1, (h2 ++ t), before, payload, req, home. by rewrite <- !app_assoc.
Qed.

Section Handoff.
Context `{Json}.

Lemma transfer_rule e : is_transfer e = false -> forall h, handoff_rule h e.
Proof. destruct e as [R e r]. by destruct e. Qed.

Lemma guards_transfer {A} h (p : prog sys A) :
  quiet is_transfer p -> guards sys_ok handoff_rule h p.
Proof.
  intros Hq. apply guards_emits. eapply wp_weaken with (ok := any_response); [done|].
  eapply wp_mono; [exact Hq|]. intros ? t. apply Forall_impl. apply transfer_rule.
Qed.

Lemma guards_send h t p : guards sys_ok handoff_rule h (send_frame t p None).
Proof.
  apply guards_emits. unfold send_frame. destruct (_ <? _)%Z; [apply emits_ret|].
  unfold write_all. prog_unfold. repeat (emits_step; try (intros ?; exact I)).
Qed.

Lemma guards_text h t msg : guards sys_ok handoff_rule h (send_text t msg).
Proof. apply guards_send. Qed.

Lemma recv_loop_rule fuel : forall buf cap need att,
  emits sys_ok (fun e => forall h, handoff_rule h e) (recv_loop fuel buf cap need att).
Proof.
  induction fuel as [|fuel IH]; intros buf cap need att; [apply emits_halt|].
  cbn [recv_loop]. unfold recv_step, finish_frame. prog_unfold.
  repeat (emits_step || cbv zeta; auto; try (intros ?; exact I)).
Qed.

Lemma guards_recv h fuel : guards sys_ok handoff_rule h (recv_frame fuel).
Proof. apply guards_emits, recv_loop_rule. Qed.

Lemma guards_classify h p : guards sys_ok handoff_rule h (classify_workspace p).
Proof. apply guards_transfer. unfold classify_workspace. quiet_tac. Qed.

Lemma guards_forward h chunks : guards sys_ok handoff_rule h (forward_chunks chunks).
Proof.
  revert h. induction chunks as [|c chunks IH]; intros h; [apply guards_ret|].
  cbn [forward_chunks]. prog_unfold. apply guards_bind; [apply guards_send|].
  intros [[]|e] t; [apply IH|apply guards_ret].
Qed.

Lemma guards_exec `{Target} h payload f :
  guards sys_ok handoff_rule h (handle_exec payload f).
Proof.
  unfold handle_exec, answer. destruct (request_of_json payload) as [req|e]; [|apply guards_ret].
  prog_unfold. apply guards_bind; [apply guards_classify|]. intros [ws|reason] t; [|apply guards_text].
  apply guards_bind; [apply guards_transfer; unfold agent_default; quiet_tac|]. intros policy t'.
  apply guards_bind; [apply guards_transfer, execute_no_transfer|]. intros [res chunks] t''.
  apply guards_bind; [apply guards_forward|]. intros [|] t3; [|apply guards_ret].
  unfold send_result. destruct res as [res|e]; [|apply guards_text].
  destruct (status_to_json _); [apply guards_send|apply guards_ret].
Qed.

(** ** FILE_GET *)

(** Only the descriptor [hand_over] was given leaves through it. *)
Lemma guards_hand_over h p f size :
  workspace_file h p ->
  guards sys_ok handoff_rule (h ++ [Ev (OpenFile p) (Ok f)]) (hand_over f size).
Proof.
  intros Hfile. unfold hand_over. prog_unfold. apply guards_bind.
  - unfold send_frame. destruct (_ <? _)%Z; [apply guards_ret|]. unfold SEND_FUEL.
    cbn [send_loop]. prog_unfold.
    destruct (_ <? _)%nat; [|apply guards_ret]. cbn [prog_bind]. apply guards_vis.
    intros r Hr. split; [by exists h, p|]. apply guards_emits.
    repeat (emits_step; try (intros ?; exact I)).
  - intros r t. apply guards_vis. intros [] _. split; [done|].
    destruct r as [[]|e]; [apply guards_send|apply guards_ret].
Qed.

Lemma guards_file_get h payload before session :
  received h = before ++ frame_bytes FileGetRequest payload ->
  (forall ws, session = Some ws -> established h ws) ->
  guards sys_ok handoff_rule h (handle_file_get payload session).
Proof.
  intros Hrecv Hws. unfold handle_file_get.
  destruct (from_utf8 payload) as [rel|] eqn:Hrel; [|apply guards_text].
  destruct session as [ws|]; [|apply guards_text]. specialize (Hws ws eq_refl).
  unfold classify_workspace, contained_handoff. prog_unfold. cbn [prog_bind].
  apply guards_vis. intros home _. split; [exact I|].
  destruct (classify_workspace_in _ _) as [w|reason] eqn:Hc; [|apply guards_text].
  apply classify_ok in Hc as [_ Hall].
  apply guards_vis. intros [canon|e] _; (split; [exact I|]); [|apply guards_text].
  destruct (path_starts_with canon ws) eqn:Hin; [|apply guards_text].
  apply guards_vis. intros [m|e] _; (split; [exact I|]); [|apply guards_text].
  destruct (md_is_file m) eqn:Hf; [|apply guards_text].
  rewrite <- !app_assoc. cbn [app].
  assert (workspace_file (h ++ [Ev (EnvVar "HOME") home; Ev (Canonicalize (trim rel)) (Ok canon);
                                Ev (Metadata canon) (Ok m)]) canon) as Hfile.
  { by exists h, before, payload, rel, ws, home, m. }
  apply guards_vis. intros [f|e] _; (split; [exact Hfile|]); [|apply guards_text].
  by apply guards_hand_over.
Qed.

(** The workspace a request establishes was accepted and resolved. *)
Lemma request_workspace_spec payload :
  wp any_response (request_workspace payload) (fun o t => forall ws,
    o = Done (Some ws) -> exists req home, request_of_json payload = Ok req /\
      allowed (default "" home) (er_workspace req) /\
      t = [Ev (EnvVar "HOME") home; Ev (Canonicalize (er_workspace req)) (Ok ws)]).
Proof.
  unfold request_workspace. destruct (request_of_json payload) as [req|e]; [|by cbn].
  unfold classify_workspace. wp_simpl. intros home _. cbn [prog_bind].
  destruct (classify_workspace_in _ _) as [w|reason] eqn:Hc; [|by cbn].
  wp_simpl. intros [c|e] _; cbn; [|done]. intros ws [= ->].
  apply classify_ok in Hc as [-> Ha]. by exists req, home.
Qed.

(** A connection keeps the rule from any history that has its workspace. *)
Lemma guards_connection `{Target} rounds fuel : forall h session,
  (forall ws, session = Some ws -> established h ws) ->
  guards sys_ok handoff_rule h (serve_connection rounds fuel session).
Proof.
  induction rounds as [|rounds IH]; intros h session Hs.
  { apply guards_emits, emits_halt. }
  cbn [serve_connection]. prog_unfold.
  apply guards_bind_post with (fun r t => forall fr, r = Ok fr ->
    received t = frame_bytes (msg_type fr) (payload fr)); [apply guards_recv| |].
  { eapply wp_mono; [apply recv_ok|]. cbn. naive_solver. }
  intros [frame|e] t Hrecv; [|apply guards_ret]. specialize (Hrecv _ eq_refl).
  assert (received (h ++ t) = received h ++ frame_bytes (msg_type frame) (payload frame)) as Hlast
    by by rewrite received_app, Hrecv.
  destruct (msg_type frame) eqn:Hty; try apply guards_ret.
  - apply guards_bind_post with (fun ws t => forall w, ws = Some w -> exists req home,
      request_of_json (payload frame) = Ok req /\ allowed (default "" home) (er_workspace req) /\
      t = [Ev (EnvVar "HOME") home; Ev (Canonicalize (er_workspace req)) (Ok w)]).
    + apply guards_transfer. unfold request_workspace, classify_workspace. quiet_tac.
    + eapply wp_weaken with (ok := any_response); [done|].
      eapply wp_mono; [apply request_workspace_spec|]. naive_solver.
    + intros ws t' Hw. apply guards_bind; [apply guards_exec|].
      intros [[]|e] t''; [|apply guards_ret]. apply IH. intros w Hsw.
      apply established_app. destruct ws as [w'|]; simplify_eq.
      * destruct (Hw w eq_refl) as (req & home & H1 & H2 & ->).
        by exists (h ++ t), [], (received h), (payload frame), req, home.
      * by do 2 apply established_app; apply Hs.
  - apply guards_bind.
    + apply guards_file_get with (received h); [done|].
      intros ws Hw. by apply established_app, Hs.
    + intros [[]|e] t'; [|apply guards_ret]. apply IH.
      intros ws Hw. by do 2 apply established_app; apply Hs.
Qed.
End Handoff.

(** C2. Nothing outside the workspace leaves the host.  On a connection, for
    every peer, every system and any number of requests: a file is opened only
    to answer the file request received last, right after the path it asks for
    passed the guard, was resolved to that file and the file was seen to be a
    regular one; and the file lies, component by component, under the resolved
    name of a workspace that an execution request received earlier on this
    connection named and the guard accepted.  A descriptor that is sent is the
    one that was opened just before, under this rule. *)
Theorem connection_confined `{Target} `{Json} (rounds fuel : nat) :
  wp sys_ok (serve_connection rounds fuel None) (fun _ t =>
    forall t1 e t2, t = t1 ++ e :: t2 -> handoff_rule t1 e).
Proof.
  eapply wp_mono; [by apply (guards_connection rounds fuel [] None)|].
  intros o t Ht t1 e t2 Heq. exact (Ht t1 e t2 Heq).
Qed.

(** ** Remote commands run jailed *)

(** The jail of a request: the agent's default policy written out, with the
    memory the request asks for (a limit of 0, also by wrapping around, is
    none) and with a network namespace unless it asks for the network. *)
Definition requested_memory (req : ExecRequest) : Z :=
  if (0 <? er_ram_mb req)%Z then (er_ram_mb req * 2 ^ 20 mod 2 ^ 64)%Z else (512 * 2 ^ 20)%Z.
Definition requested_time (req : ExecRequest) : Z :=
  if (0 <? er_timeout_secs req)%Z then er_timeout_secs req else 60.
Definition remote_blocked : list string :=
  ["reboot"; "kexec_load"; "init_module"; "delete_module"; "mount"; "umount2";
   "swapon"; "swapoff"; "ptrace"; "process_vm_readv"; "process_vm_writev"; "keyctl"].

Definition remote_jail (req : ExecRequest) (rs : list (option Z)) : sys_trace :=
  let limit r soft hard := Ev (Setrlimit r soft hard) (Ok tt) in
  let m := requested_memory req in
  [limit RLIMIT_CPU 30 35]%Z ++
  (if (0 <? m)%Z then [limit RLIMIT_AS m m] else []) ++
  [limit RLIMIT_FSIZE (100 * 2 ^ 20) (100 * 2 ^ 20); limit RLIMIT_NOFILE 256 256;
   limit RLIMIT_NPROC 64 64]%Z ++
  [Ev (Unshare ([CLONE_NEWNS; CLONE_NEWPID; CLONE_NEWIPC; CLONE_NEWUTS] ++
                if er_allow_net req then [] else [CLONE_NEWNET])) (Ok tt)] ++
  [Ev SeccompNew (Ok tt); Ev SeccompNativeArch (Ok tt)] ++
  flat_map Seccomp.rule_events (zip remote_blocked rs) ++
  [Ev SeccompLoad (Ok tt)].

(** What precedes an execution on behalf of [payload], which program it is and
    how long it is awaited. *)
Definition request_rule `{Json} (payload : bytes) (h : sys_trace) (e : event sys) : Prop :=
  match e with
  | Ev (Exec c) _ => exists req home rs,
      request_of_json payload = Ok req /\
      Ev (EnvVar "HOME") home ∈ h /\ allowed (default "" home) (er_workspace req) /\
      cmd_program c = "sh" /\ cmd_args c = ["-c"; er_command req] /\
      cmd_cwd c = Some (er_workspace req) /\ cmd_env_clear c = true /\
      length rs = length remote_blocked /\ remote_jail req rs `sublist_of` h
  | Ev (WaitChild s) _ => exists req,
      request_of_json payload = Ok req /\ s = requested_time req
  | _ => True
  end.

(** The calls the rule restricts. *)
Definition is_child (e : event sys) : bool :=
  match e with Ev (Exec _) _ | Ev (WaitChild _) _ => true | _ => false end.

Lemma child_rule `{Json} payload e : is_child e = false -> forall h, request_rule payload h e.
Proof. destruct e as [R e r]. by destruct e. Qed.

Lemma child_exec t :
  Forall (fun e => is_child e = false) t -> Forall (fun e => is_exec e = false) t.
Proof. apply Forall_impl. intros [R e r]. by destruct e. Qed.

Lemma guards_no_child `{Json} payload h {A} (p : prog sys A) :
  quiet is_child p -> guards any_response (request_rule payload) h p.
Proof.
  intros Hq. apply guards_emits. eapply wp_mono; [exact Hq|].
  intros ? t. apply Forall_impl. apply child_rule.
Qed.

Lemma no_child_send t p : quiet is_child (send_frame t p None).
Proof. unfold send_frame, write_all. quiet_tac. Qed.

Lemma no_child_forward chunks : quiet is_child (forward_chunks chunks).
Proof.
  induction chunks as [|c chunks IH]; [apply emits_ret|]. cbn [forward_chunks].
  pose proof no_child_send as Hs. unfold quiet in *. prog_unfold. repeat (emits_step; auto).
Qed.

(** The policy of a request makes that jail and allows that time. *)
Lemma request_jail req home rs :
  jail_events (request_policy req (agent_default_in home (er_workspace req))) rs
  = remote_jail req rs.
Proof.
  unfold remote_jail, requested_memory, jail_events, request_policy, seccomp_events,
    wanted_limits, limit_spec.
  replace (er_ram_mb req * 2 ^ 20)%Z with (er_ram_mb req * 1024 * 1024)%Z by lia.
  destruct (er_allow_net req), (0 <? er_ram_mb req)%Z, (0 <? er_timeout_secs req)%Z; cbn;
    try reflexivity; unfold wrap_u64; case_match; reflexivity.
Qed.

Lemma request_time req home :
  Z.max (wall_time_limit_secs (resources
    (request_policy req (agent_default_in home (er_workspace req))))) 1 = requested_time req.
Proof. unfold requested_time, request_policy. repeat case_match; cbn; lia. Qed.

Lemma guards_request `{Target} `{Json} (payload : bytes) (stdin_fd : option fd) :
  os = Linux ->
  guards any_response (request_rule payload) [] (handle_exec payload stdin_fd).
Proof.
  intros Hos.
  unfold handle_exec, answer. destruct (request_of_json payload) as [req|e] eqn:Hreq; [|apply guards_ret].
  unfold classify_workspace, agent_default. prog_unfold. cbn [prog_bind].
  apply guards_vis. intros home _. split; [exact I|]. cbn [prog_bind].
  destruct (classify_workspace_in _ _) as [ws|reason] eqn:Hc; [|apply guards_no_child, no_child_send].
  apply classify_ok in Hc as [-> Hall].
  apply guards_vis. intros home' _. split; [exact I|].
  apply guards_bind.
  - eapply wp_mono; [apply wp_and; [by apply execute_jails|apply execute_calls]|].
    intros o t [Hj Hcalls] t1 e t2 Heq.
    assert (execution_call (er_command req) (er_workspace req)
      (request_policy req (agent_default_in home' (er_workspace req))) e) as Hcall.
    { rewrite Heq in Hcalls. apply Forall_app in Hcalls as [_ Hcalls]. by inversion Hcalls. }
    destruct e as [R [] r]; try exact I.
    + destruct Hcall as (Hsh & Hwd & Hclear & _).
      destruct Hsh as [Hprog Hargs]; [unfold is_macos; by rewrite Hos|].
      destruct (Hj _ _ _ _ Heq) as (rs & Hl & Hs). rewrite request_jail in Hs.
      exists req, home, rs. split_and!; try done; [set_solver| |by apply sublist_inserts_l].
      rewrite Hl. unfold request_policy. by repeat case_match.
    + exists req. split; [done|]. rewrite Hcall. apply request_time.
  - intros [res chunks] t. apply guards_no_child. apply emits_bind; [apply no_child_forward|].
    intros [|]; [|apply emits_ret]. unfold send_result, send_text.
    destruct res as [res|e]; [|apply no_child_send].
    destruct (status_to_json _); [apply no_child_send|apply emits_ret].
Qed.

(** C15. What a peer's request runs, and how.  The only program is the shell
    with the command of the request, with a cleared environment, in the
    directory the request names and the guard accepted; before each [execve]
    the whole jail of the request was set up in order: the five resource limits
    with their values (the memory is the amount asked for modulo [2^64], 512 MiB
    if none is, and not limited if that is 0), the new namespaces with one for
    the network unless the request asks for the network, and the loaded filter
    with the twelve blocked names; and the child is awaited for the seconds the
    request asks for, 60 if none.  This holds whatever the system answers. *)
Theorem remote_commands_jailed `{Target} `{Json} (payload : bytes) (stdin_fd : option fd)
    (Hos : os = Linux) :
  wp any_response (handle_exec payload stdin_fd) (fun _ t =>
    forall t1 e t2, t = t1 ++ e :: t2 -> request_rule payload t1 e).
Proof. by apply guards_request. Qed.

(** A request as a peer would send it, and a codec for it. *)
Definition demo_request : ExecRequest := mk_exec_request "true" "/w" false 256 10 false.
Definition demo_json : Json := {|
  request_to_json := fun _ => Ok (bytes_of_string "{}");
  request_of_json := fun _ => Ok demo_request;
  status_to_json := fun st => Ok [byte_of_Z (es_exit_code st)];
  status_of_json := fun l => Ok (mk_exit_status (from_le_bytes l)
    (mk_metrics "" 0 0 0 0 (from_le_bytes l) "" None)) |}.

Lemma remote_commands_jailed_witness :
  exists t1 c r t2,
    run_trace willing_handler (@handle_exec linux_x86 demo_json [] None) tt
      = t1 ++ Ev (Exec c) r :: t2 /\ @request_rule demo_json [] t1 (Ev (Exec c) r).
Proof.
  set (t := run_trace _ _ _).
  assert (exists t1 c r t2, t = t1 ++ Ev (Exec c) r :: t2) as (t1 & c & r & t2 & Ht).
  { apply exec_split. vm_compute. reflexivity. }
  exists t1, c, r, t2. split; [exact Ht|].
  refine (wp_run any_response willing_handler _ tt _ (fun _ _ _ => I)
    (@remote_commands_jailed linux_x86 demo_json [] None eq_refl) _ _ _ Ht).
Defined.

(** ** One answer per request *)

Definition chunk_frame (c : OutputChunk) : bytes :=
  frame_bytes (if is_stdout c then StdoutChunk else StderrChunk) (chunk_data c).
Definition chunk_frames (chunks : list OutputChunk) : bytes := concat (map chunk_frame chunks).

(** The last frame of an answer to an execution that ended as [res]. *)
Definition result_frame `{Json} (res : Result SandboxResult) (frame : bytes) : Prop :=
  match res with
  | Ok r => exists encoded,
      status_to_json (mk_exit_status (exit_code r) (metrics r)) = Ok encoded /\
      frame = frame_bytes Exit encoded
  | Err e => frame = frame_bytes ErrorT (bytes_of_string (display_error e))
  end.

Lemma sent_app t t' : sent_bytes (t ++ t') = sent_bytes t ++ sent_bytes t'.
Proof. unfold sent_bytes. by rewrite map_app, concat_app. Qed.
Lemma fds_app t t' : fds_sent (t ++ t') = fds_sent t ++ fds_sent t'.
Proof. unfold fds_sent. by rewrite map_app, concat_app. Qed.

(** Calls that are no transfers send nothing. *)
Lemma transfer_sends_nothing t :
  Forall (fun e => is_transfer e = false) t -> sent_bytes t = [] /\ fds_sent t = [].
Proof.
  induction 1 as [|[R e r] t He _ [IH1 IH2]]; [done|].
  unfold sent_bytes, fds_sent in *. cbn. rewrite IH1, IH2. by destruct e.
Qed.

(** A frame without a descriptor, sent. *)
Lemma send_plain t p :
  wp sys_ok (send_frame t p None) (fun o tr => exists r, o = Done r /\
    (r = Ok tt -> sent_bytes tr = frame_bytes t p /\ fds_sent tr = [])).
Proof.
  unfold send_frame. destruct (_ <? _)%Z; [cbn; eauto; by eexists|].
  unfold write_all. wp_simpl. intros [[]|e] _; cbn; (eexists; split; [done|]); [|done].
  intros _. split; [by rewrite app_nil_r|done].
Qed.

Lemma forward_spec chunks :
  wp sys_ok (forward_chunks chunks) (fun o t => exists ok, o = Done ok /\
    (ok = true -> sent_bytes t = chunk_frames chunks /\ fds_sent t = [])).
Proof.
  induction chunks as [|c chunks IH]; [by exists true|]. cbn [forward_chunks]. prog_unfold.
  apply wp_bind. eapply wp_mono; [apply send_plain|].
  intros o t ([[]|e] & -> & Hs); [|by exists false].
  eapply wp_mono; [apply IH|]. intros o t' (b & -> & Hb). exists b. split; [done|].
  intros ->. destruct (Hs eq_refl) as [Hs1 Hs2]. destruct (Hb eq_refl) as [Hb1 Hb2].
  rewrite sent_app, fds_app, Hs1, Hs2, Hb1, Hb2. done.
Qed.

Lemma send_result_spec `{Json} res :
  wp sys_ok (send_result res) (fun o t => exists r, o = Done r /\
    (r = Ok tt -> exists frame, result_frame res frame /\ sent_bytes t = frame /\ fds_sent t = [])).
Proof.
  unfold send_result, send_text. destruct res as [res|e].
  - destruct (status_to_json _) as [enc|e] eqn:He; [|by eexists].
    eapply wp_mono; [apply send_plain|]. intros o t (r & -> & Hs). eexists. split; [done|].
    intros Hr. destruct (Hs Hr). eexists. split; [by exists enc|done].
  - eapply wp_mono; [apply send_plain|]. intros o t (r & -> & Hs). eexists. split; [done|].
    intros Hr. destruct (Hs Hr). by eexists.
Qed.

(** What answers an execution that ended as [res] and produced [chunks]: it took
    the calls [tx], and the calls [ts] after it sent the answer. *)
Definition executed `{Target} `{Json} (req : ExecRequest) (policy : SandboxPolicy)
    (stdin : option stdio) (res : Result SandboxResult) (chunks : list OutputChunk)
    (tx ts : sys_trace) : Prop :=
  behaves sys_ok
    (execute_wait_streaming_with_stdin (er_command req) (er_workspace req) policy stdin)
    (Done (res, chunks)) tx /\
  (exists id, Ev NewUuid id ∈ tx /\
     (ran id policy (Done (res, chunks)) tx \/ not_run (Done (res, chunks)) tx)) /\
  ~ started ts /\
  exists frame, result_frame res frame /\ sent_bytes ts = chunk_frames chunks ++ frame.

Lemma answer_sends `{Json} res chunks :
  wp sys_ok (answer (res, chunks)) (fun o ts => ~ started ts /\ exists r, o = Done r /\
    (r = Ok tt -> fds_sent ts = [] /\
      exists frame, result_frame res frame /\ sent_bytes ts = chunk_frames chunks ++ frame)).
Proof.
  apply wp_and.
  { eapply wp_weaken with (ok := any_response); [done|].
    eapply wp_mono; [|intros o t Ht; apply exec_not_started, child_exec, Ht].
    unfold answer. prog_unfold. apply emits_bind; [apply no_child_forward|].
    intros [|]; [|apply emits_ret]. unfold send_result, send_text.
    destruct res; [destruct (status_to_json _)|]; try apply no_child_send. apply emits_ret. }
  unfold answer. prog_unfold. apply wp_bind. eapply wp_mono; [apply forward_spec|].
  intros o tf (b & -> & Hf). destruct b; [|cbn; by eexists].
  destruct (Hf eq_refl) as [Hf1 Hf2].
  eapply wp_mono; [apply send_result_spec|]. intros o ts (r & -> & Hr).
  eexists. split; [done|]. intros Hok. destruct (Hr Hok) as (frame & Hframe & Hs1 & Hs2).
  rewrite fds_app, Hf2, Hs2. split; [done|]. exists frame. split; [done|].
  by rewrite sent_app, Hf1, Hs1.
Qed.


Lemma send_with_fd t p f :
  wp sys_ok (send_frame t p (Some f)) (fun o tr => exists r, o = Done r /\
    (r = Ok tt -> sent_bytes tr = frame_bytes t p /\ fds_sent tr = [f])).
Proof.
  unfold send_frame. destruct (_ <? _)%Z; [by eexists|].
  eapply wp_mono; [by apply send_loop_spec with (p := p) (t := t); [unfold SEND_FUEL; lia|]|].
  intros [[[]|e]|s] tr; cbn; [|by eexists|done].
  intros [H1 H2]. eexists. by split.
Qed.

(** Why a file request is refused: the first check that failed, as its own
    input or the answer of the system shows it. *)
Definition file_cause (p ws : path) (t : sys_trace) : Prop :=
  path_starts_with p ws = false \/ (exists e, Ev (Metadata p) (Err e) ∈ t) \/
  (exists m, Ev (Metadata p) (Ok m) ∈ t /\ md_is_file m = false) \/
  exists e, Ev (OpenFile p) (Err e) ∈ t.
Definition path_cause (q ws : path) (t : sys_trace) : Prop :=
  (exists home, Ev (EnvVar "HOME") home ∈ t /\ ~ allowed (default "" home) q) \/
  (exists e, Ev (Canonicalize q) (Err e) ∈ t) \/
  exists p, Ev (Canonicalize q) (Ok p) ∈ t /\ file_cause p ws t.
Definition refusal_cause (payload : bytes) (session : option path) (t : sys_trace) : Prop :=
  from_utf8 payload = None \/ session = None \/
  exists rel ws, from_utf8 payload = Some rel /\ session = Some ws /\ path_cause (trim rel) ws t.

(** The reply that hands over the descriptor [f] of the regular file [p] that
    the requested path [q] names inside the workspace [ws]. *)
Definition handed_over (ws q p : path) (m : metadata) (f : fd) (t : sys_trace) : Prop :=
  Ev (Canonicalize q) (Ok p) ∈ t /\ path_starts_with p ws = true /\
  Ev (Metadata p) (Ok m) ∈ t /\ md_is_file m = true /\
  Ev (OpenFile p) (Ok f) ∈ t /\ Ev (CloseFd f) tt ∈ t /\
  sent_bytes t = frame_bytes FileGetRequest (to_le_bytes 8 (md_len m)) ++ frame_bytes FileEof [] /\
  fds_sent t = [f].

Definition file_answer (payload : bytes) (session : option path) (o : outcome (Result unit))
    (t : sys_trace) : Prop :=
  exists r, o = Done r /\ (r = Ok tt ->
    (refusal_cause payload session t /\ fds_sent t = [] /\
     exists msg, sent_bytes t = frame_bytes ErrorT (bytes_of_string msg)) \/
    exists rel ws p m f, from_utf8 payload = Some rel /\ session = Some ws /\
      handed_over ws (trim rel) p m f t).

(** Refusing after calls that send nothing. *)
Lemma refuse_spec payload session (pre : sys_trace) msg :
  sent_bytes pre = [] -> fds_sent pre = [] -> refusal_cause payload session pre ->
  wp sys_ok (send_text ErrorT msg) (fun o t => file_answer payload session o (pre ++ t)).
Proof.
  intros Hs Hf Hc. eapply wp_mono; [apply send_plain|]. intros o t (r & -> & Ht).
  exists r. split; [done|]. intros Hr. destruct (Ht Hr) as [H1 H2]. left.
  rewrite sent_app, fds_app, Hs, Hf. split; [|split; [done|by exists msg]].
  destruct Hc as [?|[?|(rel & ws & Hrel & Hws & Hc)]]; [by left|by right; left|].
  right. right. exists rel, ws. split; [done|]. split; [done|].
  destruct Hc as [(home & ? & ?)|[(e & ?)|(p & ? & Hp)]]; [left|right; left|right; right].
  - exists home. set_solver.
  - exists e. set_solver.
  - exists p. split; [set_solver|].
    destruct Hp as [?|[(e & ?)|[(m & ? & ?)|(e & ?)]]];
      [by left|right; left; exists e|right; right; left; exists m|right; right; right; exists e];
      set_solver.
Qed.

Lemma hand_over_spec payload session pre rel ws p m f :
  sent_bytes pre = [] -> fds_sent pre = [] ->
  from_utf8 payload = Some rel -> session = Some ws ->
  Ev (Canonicalize (trim rel)) (Ok p) ∈ pre -> path_starts_with p ws = true ->
  Ev (Metadata p) (Ok m) ∈ pre -> md_is_file m = true -> Ev (OpenFile p) (Ok f) ∈ pre ->
  wp sys_ok (hand_over f (md_len m)) (fun o t => file_answer payload session o (pre ++ t)).
Proof.
  intros Hps Hpf Hrel Hws Hcanon Hin Hmeta Hfile Hopen.
  unfold hand_over. prog_unfold. apply wp_bind. eapply wp_mono; [apply send_with_fd|].
  intros o t (r & -> & Hs). cbn [prog_bind wp]. intros [] _.
  destruct r as [[]|e]; [|cbn; by eexists].
  destruct (Hs eq_refl) as [Hs1 Hs2].
  eapply wp_mono; [apply send_plain|]. intros o t' (r & -> & Hs').
  eexists. split; [done|]. intros Hr. destruct (Hs' Hr) as [Hs1' Hs2'].
  right. exists rel, ws, p, m, f. split; [done|]. split; [done|].
  change (t ++ Ev (CloseFd f) tt :: t') with (t ++ [Ev (CloseFd f) tt] ++ t').
  unfold handed_over. rewrite !sent_app, !fds_app, Hps, Hpf, Hs1, Hs2, Hs1', Hs2'.
  split_and!; try done; set_solver.
Qed.

Lemma file_get_answers payload session :
  wp sys_ok (handle_file_get payload session) (file_answer payload session).
Proof.
  unfold handle_file_get. destruct (from_utf8 payload) as [rel|] eqn:Hrel.
  2: { apply (refuse_spec payload session []); [done|done|by left]. }
  destruct session as [ws|]; [|apply (refuse_spec payload None []); [done|done|by right; left]].
  assert (forall t, path_cause (trim rel) ws t -> refusal_cause payload (Some ws) t) as Hcause.
  { intros t Ht. right. right. by exists rel, ws. }
  unfold classify_workspace, contained_handoff. prog_unfold. cbn [prog_bind wp]. intros home _.
  destruct (classify_workspace_in _ _) as [w|reason] eqn:Hc.
  2: { apply (refuse_spec payload (Some ws) [_]); [done|done|]. apply Hcause. left.
       exists home. split; [apply list_elem_of_here|]. intros Ha.
       rewrite (proj2 (classify_ok_iff _ _ (trim rel)) (conj eq_refl Ha)) in Hc. done. }
  cbn [wp]. intros [canon|e] _.
  2: { apply (refuse_spec payload (Some ws) [_; _]); [done|done|]. apply Hcause.
       right. left. exists e. set_solver. }
  assert (forall t, Ev (Canonicalize (trim rel)) (Ok canon) ∈ t -> file_cause canon ws t ->
    refusal_cause payload (Some ws) t) as Hcause'.
  { intros t Hin Ht. apply Hcause. right. right. by exists canon. }
  destruct (path_starts_with canon ws) eqn:Hin.
  2: { apply (refuse_spec payload (Some ws) [_; _]); [done|done|].
       apply Hcause'; [set_solver|by left]. }
  cbn [wp]. intros [m|e] _.
  2: { apply (refuse_spec payload (Some ws) [_; _; _]); [done|done|].
       apply Hcause'; [set_solver|]. right. left. exists e. set_solver. }
  destruct (md_is_file m) eqn:Hf.
  2: { apply (refuse_spec payload (Some ws) [_; _; _]); [done|done|].
       apply Hcause'; [set_solver|]. right. right. left. exists m. set_solver. }
  cbn [wp]. intros [f|e] _.
  2: { apply (refuse_spec payload (Some ws) [_; _; _; _]); [done|done|].
       apply Hcause'; [set_solver|]. right. right. right. exists e. set_solver. }
  apply (hand_over_spec payload (Some ws) [_; _; _; _] rel ws canon m f); try done; set_solver.
Qed.

(** C32. A file request that the server answers gets exactly this answer.
    Either it is one error frame and no descriptor, because one of the checks
    failed: the text is not UTF-8, the connection has no workspace, the guard
    refuses the path, the path cannot be resolved, it resolves outside the
    workspace, it cannot be examined, is not a regular file or cannot be
    opened.  Or it is, for the regular file inside the workspace that the
    requested path was resolved to and that was opened, a reply with the file's
    length as eight little-endian bytes and its descriptor attached exactly
    once, followed by the end marker, the server's own copy of the descriptor
    being closed.  Without a workspace on the connection nothing is opened and
    no descriptor is sent, whatever happens.  The handler always returns. *)
Theorem file_get_answer (payload : bytes) (session : option path) :
  wp sys_ok (handle_file_get payload session) (fun o t =>
    file_answer payload session o t /\
    (session = None -> fds_sent t = [] /\ forall p r, Ev (OpenFile p) r ∉ t)).
Proof.
  apply wp_and; [apply file_get_answers|].
  destruct session as [ws|]; [by apply wp_true|].
  unfold handle_file_get, send_text, send_frame, write_all. prog_unfold.
  destruct (from_utf8 payload); (destruct (_ <? _)%Z; [by cbn; split; [|intros ??; apply not_elem_of_nil]|]);
    cbn [prog_bind wp]; intros [[]|e] _; cbn; (split; [done|]; intros p r [=]%list_elem_of_singleton).
Qed.
