(* ===== verification/Client.v ===== *)
(** * The client side of the wire protocol ([net/wire.rs], [BinaryClient])

    [exec] sends a request and hands the streamed frames to a callback; its
    model returns the events in the order the callback gets them.  [fetch_file]
    copies a file out of a received descriptor.  The last theorem plays the
    server's answer through the socket model of [Kernel] to the client. *)
From S2P Require Export ServerSpec.

(* @src core/net/wire.rs:481-487 ExecEvent *)
Inductive ExecEvent : Type :=
| Stdout (data : bytes)
| Stderr (data : bytes)
| ExitEvent (status : ExitStatus)
| ErrorEvent (msg : string).

(* @src core/net/wire.rs:490-495 BinaryClient::connect *)
Definition connect (socket_path : path) : prog sys (Result unit) :=
  map_err_p (fun e => SetupFailed ("Cannot connect to daemon at " +:+ display_path socket_path +:+ ": " +:+ ioe_text e))
    (call (Connect socket_path)).

Section Client.
Context `{Json}.

(** [rounds] bounds the number of frames, [fuel] the reads of one frame. *)
(* @src core/net/wire.rs:517-534 BinaryClient::exec (event loop) *)
Fixpoint exec_loop (rounds fuel : nat) (events : list ExecEvent)
    : prog sys (Result unit * list ExecEvent) :=
  match rounds with
  | O => Halt Running
  | S rounds =>
      frame ← recv_frame fuel;
      match frame with
      | Err e => Ret (Err e, events)
      | Ok frame =>
          match msg_type frame with
          | StdoutChunk => exec_loop rounds fuel (events ++ [Stdout (payload frame)])
          | StderrChunk => exec_loop rounds fuel (events ++ [Stderr (payload frame)])
          | Exit =>
              match status_of_json (payload frame) with
              | Ok st => Ret (Ok tt, events ++ [ExitEvent st])
              | Err e => Ret (Err (General ("bad ExitStatus encoding: " +:+ e)), events)
              end
          | ErrorT => Ret (Ok tt, events ++ [ErrorEvent (from_utf8_lossy (payload frame))])
          | _ => Ret (Err (General "unexpected frame type in exec session"), events)
          end
      end
  end.

(* @src core/net/wire.rs:506-515 BinaryClient::exec (request) *)
Definition send_request (payload : bytes) (stdin_path : option path) : prog sys (Result unit) :=
  match stdin_path with
  | None => send_frame ExecRequestT payload None
  | Some p =>
      f ←? map_err_p (fun e => SetupFailed ("Cannot open stdin file " +:+ display_path p +:+ ": " +:+ ioe_text e))
             (call (OpenFile p));
      sent ← send_frame ExecRequestT payload (Some f);
      _ ← call (CloseFd f);
      Ret sent
  end.

(* @src core/net/wire.rs:500-535 BinaryClient::exec *)
Definition exec (rounds fuel : nat) (req : ExecRequest) (stdin_path : option path)
    : prog sys (Result unit * list ExecEvent) :=
  match request_to_json req with
  | Err e => Ret (Err (General e), [])
  | Ok payload =>
      sent ← send_request payload stdin_path;
      match sent with
      | Err e => Ret (Err e, [])
      | Ok _ => exec_loop rounds fuel []
      end
  end.
End Client.

(* @src core/net/wire.rs:553-561 BinaryClient::fetch_file (copy) *)
Definition fetch_copy (fuel : nat) (src out : fd) (expected : Z) : prog sys (Result Z) :=
  written ←? map_err_p Io (call (CopyFd src out));
  _ ←? recv_frame fuel;
  if (written =? expected)%Z then Ret (Ok written)
  else Ret (Err (General ("file size mismatch: expected " +:+ pretty expected +:+ ", got "
                          +:+ pretty written))).

(** The files are closed when they go out of scope. *)
(* @src core/net/wire.rs:545-562 BinaryClient::fetch_file (reply) *)
Definition fetch_reply (fuel : nat) (dest : path) (frame : Frame) : prog sys (Result Z) :=
  if (length (payload frame) <? 8)%nat then Ret (Err (General "short FILE_GET reply"))
  else
    let expected := from_le_bytes (take 8 (payload frame)) in
    match frame_fd frame with
    | None => Ret (Err (General "daemon did not attach an fd"))
    | Some src =>
        created ← call (CreateFile dest);
        match created with
        | Err e => _ ← call (CloseFd src); Ret (Err (Io e))
        | Ok out =>
            r ← fetch_copy fuel src out expected;
            _ ← call (CloseFd out);
            _ ← call (CloseFd src);
            Ret r
        end
    end.

(* @src core/net/wire.rs:539-565 BinaryClient::fetch_file *)
Definition fetch_file (fuel : nat) (remote_path : string) (dest : path) : prog sys (Result Z) :=
  _ ←? send_frame FileGetRequest (bytes_of_string remote_path) None;
  frame ←? recv_frame fuel;
  match msg_type frame with
  | ErrorT => Ret (Err (General (from_utf8_lossy (payload frame))))
  | FileGetRequest => fetch_reply fuel dest frame
  | _ => Ret (Err (General "unexpected reply to FILE_GET"))
  end.

(** ** A file is complete or an error *)

(** C17. A fetched file is complete or an error is reported: [fetch_file]
    returns a length only if the peer's reply was a frame announcing exactly
    that length in its first eight bytes with a descriptor attached, the whole
    of that descriptor, of that length, was copied into the newly created
    destination, a closing frame was received, and both files were closed. *)
Theorem fetch_complete (fuel : nat) (remote : string) (dest : path) :
  wp sys_ok (fetch_file fuel remote dest) (fun o t => forall n, o = Done (Ok n) ->
    exists t1 t2 t3 reply src out,
      t = t1 ++ t2 ++ t3 /\ sent_bytes t1 = frame_bytes FileGetRequest (bytes_of_string remote) /\
      received t2 = frame_bytes FileGetRequest reply /\ attached_by None t2 = Some src /\
      (8 <= length reply)%nat /\ from_le_bytes (take 8 reply) = n /\
      Ev (CreateFile dest) (Ok out) ∈ t3 /\ Ev (CopyFd src out) (Ok n) ∈ t3 /\
      (exists fr, received t3 = frame_bytes (msg_type fr) (payload fr)) /\
      Ev (CloseFd out) tt ∈ t3 /\ Ev (CloseFd src) tt ∈ t3).
Proof.
  unfold fetch_file. prog_unfold. apply wp_bind. eapply wp_mono; [apply send_plain|].
  intros o t1 ([[]|e] & -> & Hs); [|done]. destruct (Hs eq_refl) as [Hs1 _].
  apply wp_bind. eapply wp_mono; [apply recv_ok|].
  intros o t2 Hr. destruct o as [[fr|e]|s]; [|done|done].
  destruct (Hr fr eq_refl) as [Hr1 Hr2]. clear Hr.
  destruct (msg_type fr) eqn:Ht; try done. unfold fetch_reply. prog_unfold.
  destruct (Nat.ltb_spec (length (payload fr)) 8) as [|Hlen]; [done|].
  destruct (frame_fd fr) as [src|] eqn:Hfd; [|done]. cbn [prog_bind wp].
  intros [out|e] _; [|done]. apply wp_bind. unfold fetch_copy. prog_unfold. cbn [prog_bind wp].
  intros [written|e] _; cbn [map_err prog_bind wp]; [|done].
  apply wp_bind. eapply wp_mono; [apply recv_ok|].
  intros o t3 Hr. destruct o as [[fr'|e]|s]; [|done|done].
  destruct (Hr fr' eq_refl) as [Hr3 _].
  destruct (Z.eqb_spec written (from_le_bytes (take 8 (payload fr)))) as [->|]; [|done].
  cbn. intros [] _ [] _ n [= <-]. rewrite app_nil_r.
  eexists t1, t2, _, (payload fr), src, out. split; [reflexivity|].
  split_and!; [done|done|by rewrite <- Hr2|done|done|set_solver|set_solver| |set_solver|set_solver].
  exists fr'. unfold received in *. cbn. by rewrite map_app, concat_app, Hr3, app_nil_r.
Qed.

(** ** A session end to end *)

Definition chunk_outgoing (c : OutputChunk) : outgoing :=
  (if is_stdout c then StdoutChunk else StderrChunk, chunk_data c, None).
Definition chunk_event (c : OutputChunk) : ExecEvent :=
  if is_stdout c then Stdout (chunk_data c) else Stderr (chunk_data c).

(** The last frame of an answer, and what the client makes of it. *)
Definition result_outgoing `{Json} (res : Result SandboxResult) (x : outgoing) : Prop :=
  match res with
  | Ok r => exists encoded,
      status_to_json (mk_exit_status (exit_code r) (metrics r)) = Ok encoded /\
      x = (Exit, encoded, None)
  | Err e => x = (ErrorT, bytes_of_string (display_error e), None)
  end.
Definition result_event (res : Result SandboxResult) : ExecEvent :=
  match res with
  | Ok r => ExitEvent (mk_exit_status (exit_code r) (metrics r))
  | Err e => ErrorEvent (from_utf8_lossy (bytes_of_string (display_error e)))
  end.

Section Session.
Context `{Json}.

Lemma forward_run chunks k :
  fits (map chunk_outgoing chunks) -> exists tr,
    run kernel_handler (forward_chunks chunks) k =
    (Done true, tr, mk_kernel (k_rx k) (k_closed k) (k_ticks k)
                      (k_tx k ++ flights (map chunk_outgoing chunks))).
Proof.
  revert k. induction chunks as [|c chunks IH]; intros k Hf.
  - exists []. cbn. rewrite app_nil_r. by destruct k.
  - inversion Hf as [|? ? Hc Hf' E1]; subst. cbn in Hc.
    destruct (send_frame_run (if is_stdout c then StdoutChunk else StderrChunk)
                (chunk_data c) None k Hc) as [tr Hr].
    cbn [forward_chunks]. prog_unfold. rewrite run_bind, Hr.
    destruct (IH (kernel_send (frame_bytes (if is_stdout c then StdoutChunk else StderrChunk)
                                 (chunk_data c)) None k) Hf') as [tr' ->].
    cbn [kernel_send k_rx k_closed k_ticks k_tx]. rewrite <- app_assoc. eauto.
Qed.

Lemma send_result_run res x k :
  result_outgoing res x -> fits [x] -> exists tr,
    run kernel_handler (send_result res) k =
    (Done (Ok tt), tr, mk_kernel (k_rx k) (k_closed k) (k_ticks k) (k_tx k ++ flights [x])).
Proof.
  intros Hx Hf. inversion Hf as [|? ? Hc _]; subst.
  unfold send_result, send_text, flights. cbn [map concat]. rewrite app_nil_r.
  destruct res as [r|e].
  - destruct Hx as (enc & -> & ->). destruct (send_frame_run Exit enc None k Hc) as [tr Hr].
    rewrite Hr. eauto.
  - cbn in Hx. subst x. cbn in Hc.
    destruct (send_frame_run ErrorT _ None k Hc) as [tr Hr]. rewrite Hr. eauto.
Qed.

Lemma flights_cons x l : flights (x :: l) = frame_flight x.1.1 x.1.2 x.2 ++ flights l.
Proof. done. Qed.
Lemma flights_app l l' : flights (l ++ l') = flights l ++ flights l'.
Proof. unfold flights. by rewrite map_app, concat_app. Qed.

(** The server's answer puts its frames on the socket, in order. *)
Lemma answer_run chunks res x k :
  result_outgoing res x -> fits (map chunk_outgoing chunks ++ [x]) -> exists tr,
    run kernel_handler (answer (res, chunks)) k =
    (Done (Ok tt), tr, mk_kernel (k_rx k) (k_closed k) (k_ticks k)
                         (k_tx k ++ flights (map chunk_outgoing chunks ++ [x]))).
Proof.
  intros Hx Hf. apply Forall_app in Hf as [Hf Hfx].
  unfold answer. prog_unfold. destruct (forward_run chunks k Hf) as [tr Hr].
  rewrite run_bind, Hr. edestruct (send_result_run res x) as [tr' ->]; [done|done|].
  cbn [k_rx k_closed k_ticks k_tx]. rewrite flights_app, app_assoc. eauto.
Qed.

Lemma exec_loop_run fuel chunks : forall rounds events k rest (x : outgoing) final,
  (length chunks < rounds)%nat ->
  k_rx k = flights (map chunk_outgoing chunks ++ [x]) ++ rest ->
  fits (map chunk_outgoing chunks ++ [x]) ->
  Forall (fun x => length (k_ticks k) + (HEADER_LEN + length x.1.2) < fuel)%nat
    (map chunk_outgoing chunks ++ [x]) ->
  (exists st, x.1.1 = Exit /\ status_of_json x.1.2 = Ok st /\ final = ExitEvent st) \/
  (x.1.1 = ErrorT /\ final = ErrorEvent (from_utf8_lossy x.1.2)) ->
  exists tr k', k_rx k' = rest /\
    run kernel_handler (exec_loop rounds fuel events) k =
    (Done (Ok tt, events ++ map chunk_event chunks ++ [final]), tr, k').
Proof.
  induction chunks as [|c chunks IH]; intros rounds events k rest x final Hrounds Hrx Hfits Hfuel Hx;
    (destruct rounds as [|rounds]; [simpl in Hrounds; lia|]);
    inversion Hfits as [|? ? Hc Hfits']; inversion Hfuel as [|? ? Hcf Hfuel']; subst;
    cbn [map app] in Hrx; rewrite flights_cons, <- app_assoc in Hrx;
    cbn [chunk_outgoing fst snd] in Hc, Hcf, Hrx; cbn [exec_loop].
  - destruct x as [[t p] f]. cbn [fst snd] in *.
    destruct (recv_frame_run fuel t p f _ k Hc Hrx Hcf) as (tr & ts & _ & Hr).
    prog_unfold. rewrite run_bind, Hr. cbn [msg_type payload].
    destruct Hx as [(st & -> & -> & ->)|[-> ->]]; cbn; eexists _, _;
      (split; [|reflexivity]); reflexivity.
  - destruct (recv_frame_run fuel (if is_stdout c then StdoutChunk else StderrChunk)
      (chunk_data c) None _ k Hc Hrx Hcf) as (tr & ts & Hts & Hr).
    prog_unfold. rewrite run_bind, Hr. cbn [msg_type payload].
    edestruct (IH rounds (events ++ [chunk_event c])
      (mk_kernel (flights (map chunk_outgoing chunks ++ [x]) ++ rest) (k_closed k) ts (k_tx k)))
      as (tr' & k' & Hk & Hr'); [simpl in Hrounds; lia|reflexivity|done| |exact Hx|].
    { eapply Forall_impl; [|exact Hfuel']. cbn. lia. }
    rewrite <- app_assoc in Hr'. unfold chunk_event at 1 in Hr'.
    destruct (is_stdout c) eqn:Hc'; rewrite Hr'; cbn [map app]; unfold chunk_event;
      rewrite ?Hc'; eexists _, _; (split; [exact Hk|reflexivity]).
Qed.

(** C12. An execution session works end to end.  Whatever chunks and result an
    execution produced, when the server's answer goes out over a Unix stream
    socket and the client reads it, fragmented in any way on either side, the
    client's callback gets each output chunk as its own event, of its kind and
    in order, then exactly one event for the result, the exit status or the
    error text, and nothing is left on the socket.  It is assumed that the
    answer has frames: a status can be encoded, and each payload is within the
    protocol's cap; that the client's rounds and fuel exceed what the exchange
    calls for; and of serde only that decoding what this one status, if the
    result has one, was encoded to gives it back. *)
Theorem session_roundtrip (chunks : list OutputChunk) (res : Result SandboxResult) (x : outgoing)
    (send_ticks recv_ticks : list tick) (rounds fuel : nat)
    (Hx : result_outgoing res x)
    (Hjson : forall r l, res = Ok r ->
       status_to_json (mk_exit_status (exit_code r) (metrics r)) = Ok l ->
       status_of_json l = Ok (mk_exit_status (exit_code r) (metrics r)))
    (Hfits : fits (map chunk_outgoing chunks ++ [x]))
    (Hrounds : (length chunks < rounds)%nat)
    (Hfuel : Forall (fun x => length recv_ticks + (HEADER_LEN + length x.1.2) < fuel)%nat
               (map chunk_outgoing chunks ++ [x])) :
  let k := run_state kernel_handler (answer (res, chunks)) (fresh_kernel send_ticks) in
  run_out kernel_handler (answer (res, chunks)) (fresh_kernel send_ticks) = Done (Ok tt) /\
  run_out kernel_handler (exec_loop rounds fuel []) (peer_of k recv_ticks)
    = Done (Ok tt, map chunk_event chunks ++ [result_event res]) /\
  k_rx (run_state kernel_handler (exec_loop rounds fuel []) (peer_of k recv_ticks)) = [].
Proof.
  unfold run_out, run_state.
  destruct (answer_run chunks res x (fresh_kernel send_ticks) Hx Hfits) as [tr ->]. cbn.
  destruct (exec_loop_run fuel chunks rounds []
    (mk_kernel (flights (map chunk_outgoing chunks ++ [x])) false recv_ticks []) [] x
    (result_event res)) as (tr' & k' & Hk & Hr);
    [done|by rewrite app_nil_r|done|done| |].
  - destruct res as [r|e]; [left|right].
    + destruct Hx as (enc & He & ->). eexists. split; [done|]. split; [by apply (Hjson r)|done].
    + cbn in Hx. subst x. done.
  - unfold peer_of. cbn. rewrite Hr. cbn. by rewrite Hk.
Qed.
End Session.

Definition demo_chunks : list OutputChunk :=
  [mk_chunk true (bytes_of_string "hello"); mk_chunk false (bytes_of_string "oops")].
Definition demo_result : SandboxResult :=
  mk_sandbox_result "" 7 "" "" (mk_metrics "" 0 0 0 0 7 "" None).

Lemma session_roundtrip_witness :
  run_out kernel_handler (@exec_loop demo_json 3 90 [])
    (peer_of (run_state kernel_handler (@answer demo_json (Ok demo_result, demo_chunks))
                (fresh_kernel [])) [Chunk 3; NotReady; Chunk 20])
  = Done (Ok tt, [Stdout (bytes_of_string "hello"); Stderr (bytes_of_string "oops");
                  ExitEvent (mk_exit_status 7 (metrics demo_result))]).
Proof.
  refine (proj1 (proj2 (@session_roundtrip demo_json demo_chunks (Ok demo_result)
    (Exit, [byte_of_Z 7], None) [] [Chunk 3; NotReady; Chunk 20] 3 90 _ _ _ _ _))).
  - exists [byte_of_Z 7]. split; reflexivity.
  - intros r l [= <-] [= <-]. vm_compute. reflexivity.
  - repeat constructor; vm_compute; discriminate.
  - vm_compute; repeat constructor.
  - repeat constructor.
Defined.
