(* ===== verification/Pipeline.v ===== *)
(** * The output pipeline ([executor.rs], [net/wire.rs])

    The concurrent part of a streamed execution: two reader tasks turn what
    they read from the child's pipes into chunks and send them to a bounded
    channel; the task joined with the execution receives them and forwards each
    to the peer.  The tasks are a transition system: a label says which task
    makes its next move, and any task that can move may. *)
From S2P Require Export Executor.
From stdpp Require Export relations.

(* @src core/net/wire.rs:337-337 handle_exec (channel capacity) *)
Definition CHANNEL_CAPACITY : nat := 64.

(** A reader awaits data, awaits room for a chunk, or has dropped its sender. *)
Inductive reader_task : Type :=
| Reading
| Sending (data : bytes)
| Finished.

(** A reader and the data its pipe has yet to deliver before end of file. *)
Record reader : Type := mk_reader { left : list bytes; task : reader_task }.

(** The receiving side awaits a chunk, saw the channel closed ([true] in the
    code) or failed to forward ([false]).  A failed one keeps its receiver. *)
Inductive forwarder : Type :=
| Receiving
| Drained
| Failed.

Record pipeline : Type := mk_pipeline {
  out_reader : reader;
  err_reader : reader;
  channel : list OutputChunk;
  forwarding : forwarder;
  forwarded : list OutputChunk
}.

Inductive label : Type :=
| Read (is_out : bool)
| Eof (is_out : bool)
| Send (is_out : bool)
| Forward
| Fail
| Close.

Definition get_reader (is_out : bool) (s : pipeline) : reader :=
  if is_out then out_reader s else err_reader s.
Definition set_reader (is_out : bool) (r : reader) (s : pipeline) : pipeline :=
  if is_out then mk_pipeline r (err_reader s) (channel s) (forwarding s) (forwarded s)
  else mk_pipeline (out_reader s) r (channel s) (forwarding s) (forwarded s).
Definition push (c : OutputChunk) (s : pipeline) : pipeline :=
  mk_pipeline (out_reader s) (err_reader s) (channel s ++ [c]) (forwarding s) (forwarded s).

Definition finished (r : reader) : bool := match task r with Finished => true | _ => false end.

(** One move of a reader: [pipe.read], its end of file, [tx.send]. *)
(* @src core/executor.rs:234-272 execute_wait_streaming_with_stdin (reader tasks) *)
Definition reader_step (l : label) (s : pipeline) : option pipeline :=
  match l with
  | Read b =>
      match get_reader b s with
      | mk_reader (data :: rest) Reading => Some (set_reader b (mk_reader rest (Sending data)) s)
      | _ => None
      end
  | Eof b =>
      match get_reader b s with
      | mk_reader [] Reading => Some (set_reader b (mk_reader [] Finished) s)
      | _ => None
      end
  | Send b =>
      match get_reader b s with
      | mk_reader rest (Sending data) =>
          if (length (channel s) <? CHANNEL_CAPACITY)%nat
          then Some (push (mk_chunk b data) (set_reader b (mk_reader rest Reading) s))
          else None
      | _ => None
      end
  | _ => None
  end.

(** One move of the forwarder: [rx.recv] with a forward that works or not, and
    the closed channel, which is seen once both senders are gone and the
    channel is empty. *)
(* @src core/net/wire.rs:340-349 handle_exec (joined futures) *)
Definition forwarder_step (l : label) (s : pipeline) : option pipeline :=
  match l, forwarding s, channel s with
  | Forward, Receiving, c :: rest =>
      Some (mk_pipeline (out_reader s) (err_reader s) rest Receiving (forwarded s ++ [c]))
  | Fail, Receiving, c :: rest =>
      Some (mk_pipeline (out_reader s) (err_reader s) rest Failed (forwarded s))
  | Close, Receiving, [] =>
      if finished (out_reader s) && finished (err_reader s)
      then Some (mk_pipeline (out_reader s) (err_reader s) [] Drained (forwarded s))
      else None
  | _, _, _ => None
  end.

Definition pipeline_step (l : label) (s : pipeline) : option pipeline :=
  match l with
  | Read _ | Eof _ | Send _ => reader_step l s
  | Forward | Fail | Close => forwarder_step l s
  end.

Definition step (s s' : pipeline) : Prop := exists l, pipeline_step l s = Some s'.
Definition good_step (s s' : pipeline) : Prop :=
  exists l, l <> Fail /\ pipeline_step l s = Some s'.

Definition start (outs errs : list bytes) : pipeline :=
  mk_pipeline (mk_reader outs Reading) (mk_reader errs Reading) [] Receiving [].

(** [tokio::join!] completes when the execution, which awaits both readers,
    and the forwarder have. *)
Definition joined (s : pipeline) : Prop :=
  finished (out_reader s) = true /\ finished (err_reader s) = true /\ forwarding s <> Receiving.

(** ** The invariant *)

Definition stream (is_out : bool) (l : list OutputChunk) : list bytes :=
  map chunk_data (filter (fun c => is_stdout c = is_out) l).
Arguments stream : simpl never.
Definition in_hand (r : reader) : list bytes :=
  match task r with Sending data => [data] | _ => [] end.

(** What was read from a pipe is, in order, forwarded, in the channel, in the
    reader's hand or still to come. *)
Definition conserved (is_out : bool) (reads : list bytes) (s : pipeline) : Prop :=
  stream is_out (forwarded s) ++ stream is_out (channel s) ++
  in_hand (get_reader is_out s) ++ left (get_reader is_out s) = reads.

Definition well_formed (s : pipeline) : Prop :=
  (length (channel s) <= CHANNEL_CAPACITY)%nat /\
  (finished (out_reader s) = true -> left (out_reader s) = []) /\
  (finished (err_reader s) = true -> left (err_reader s) = []) /\
  (forwarding s = Drained ->
     channel s = [] /\ finished (out_reader s) = true /\ finished (err_reader s) = true).

Definition pipe_inv (outs errs : list bytes) (s : pipeline) : Prop :=
  well_formed s /\
  (forwarding s <> Failed -> conserved true outs s /\ conserved false errs s).

Lemma stream_app b l l' : stream b (l ++ l') = stream b l ++ stream b l'.
Proof. unfold stream. by rewrite filter_app, map_app. Qed.

Lemma stream_one b b' d : stream b [mk_chunk b' d] = if Bool.eqb b' b then [d] else [].
Proof. by destruct b, b'. Qed.

Lemma start_inv outs errs : pipe_inv outs errs (start outs errs).
Proof. repeat split; cbn; try done; unfold CHANNEL_CAPACITY; lia. Qed.

(** The moves of a reader. *)
Lemma reader_step_cases l s s' :
  reader_step l s = Some s' -> exists b,
    (l = Read b /\ exists data rest, get_reader b s = mk_reader (data :: rest) Reading /\
       s' = set_reader b (mk_reader rest (Sending data)) s) \/
    (l = Eof b /\ get_reader b s = mk_reader [] Reading /\
       s' = set_reader b (mk_reader [] Finished) s) \/
    (l = Send b /\ exists data rest, get_reader b s = mk_reader rest (Sending data) /\
       (length (channel s) < CHANNEL_CAPACITY)%nat /\
       s' = push (mk_chunk b data) (set_reader b (mk_reader rest Reading) s)).
Proof.
  unfold reader_step. intros H.
  destruct l as [b|b|b| | |]; try done; exists b;
    destruct (get_reader b s) as [[|data rest] [|d|]]; try done.
  - injection H as <-. left. eauto.
  - injection H as <-. right. left. eauto.
  - destruct (Nat.ltb_spec (length (channel s)) CHANNEL_CAPACITY); [|done].
    injection H as <-. right. right. split; [done|]. by eexists _, _.
  - destruct (Nat.ltb_spec (length (channel s)) CHANNEL_CAPACITY); [|done].
    injection H as <-. right. right. split; [done|]. by eexists _, _.
Qed.

Lemma reader_step_inv outs errs s s' l :
  pipe_inv outs errs s -> reader_step l s = Some s' -> pipe_inv outs errs s'.
Proof.
  intros [(Hcap & Ho & He & Hd) Hc] H.
  destruct s as [ro re ch fw sent]. unfold pipe_inv, well_formed, conserved in *. cbn in *.
  apply reader_step_cases in H as [b [(_ & d & rest & Hb & ->)|[(_ & Hb & ->)
    |(_ & d & rest & Hb & Hlt & ->)]]]; destruct b; cbn in *; subst; cbn in *;
    (split;
     [split_and!; try done;
      first [rewrite length_app; cbn; lia|intros Hf; destruct (Hd Hf) as (? & ? & ?); done]
     |intros Hf; destruct (Hc Hf) as [<- <-]; unfold in_hand; cbn;
      rewrite ?stream_app, ?stream_one; cbn; rewrite ?app_nil_r, <- ?app_assoc; done]).
Qed.

Lemma forwarder_step_inv outs errs s s' l :
  pipe_inv outs errs s -> forwarder_step l s = Some s' -> pipe_inv outs errs s'.
Proof.
  intros [(Hcap & Ho & He & Hd) Hc] H.
  destruct s as [[lo to] [le te] ch fw sent]. unfold pipe_inv, well_formed, conserved in *.
  cbn in *. unfold forwarder_step in H. cbn in H.
  destruct l, fw; try done; destruct ch as [|c ch]; try done.
  - injection H as <-. cbn in *. split; [split_and!; try done; lia|].
    intros Hf. destruct Hc as [<- <-]; [done|].
    rewrite !stream_app. change (c :: ch) with ([c] ++ ch). rewrite !stream_app.
    by rewrite <- !app_assoc.
  - injection H as <-. cbn in *. split; [split_and!; try done; lia|done].
  - destruct (finished (mk_reader lo to)) eqn:E1, (finished (mk_reader le te)) eqn:E2; try done.
    injection H as <-. cbn in *. split; [split_and!; auto|]. intros _. by apply Hc.
Qed.

Lemma step_inv outs errs s s' l :
  pipe_inv outs errs s -> pipeline_step l s = Some s' -> pipe_inv outs errs s'.
Proof.
  intros Hi H. destruct l; cbn [pipeline_step] in H;
    first [by eapply reader_step_inv|by eapply forwarder_step_inv].
Qed.

(** ** Progress *)

(** A bound on the moves left: three for each read, two for a chunk in hand,
    one for a chunk in the channel, and the ends. *)
Definition reader_moves (r : reader) : nat :=
  3 * length (left r) +
  match task r with Reading => 1 | Sending _ => 3 | Finished => 0 end.
Definition moves_left (s : pipeline) : nat :=
  reader_moves (out_reader s) + reader_moves (err_reader s) + length (channel s) +
  match forwarding s with Receiving => 1 | _ => 0 end.

Lemma reader_step_measure s s' l :
  reader_step l s = Some s' -> (moves_left s' < moves_left s)%nat.
Proof.
  intros H. destruct s as [ro re ch fw sent]. unfold moves_left, reader_moves.
  apply reader_step_cases in H as [b [(_ & d & rest & Hb & ->)|[(_ & Hb & ->)
    |(_ & d & rest & Hb & Hlt & ->)]]]; destruct b; cbn in *; subst; cbn;
    rewrite ?length_app; cbn; lia.
Qed.

Lemma forwarder_step_measure s s' l :
  forwarder_step l s = Some s' -> (moves_left s' < moves_left s)%nat.
Proof.
  intros H. destruct s as [ro re ch fw sent]. unfold moves_left, forwarder_step in *. cbn in *.
  destruct l, fw; try done; destruct ch as [|c ch]; try done;
    [| |destruct (finished ro && finished re); [|done]];
    injection H as <-; cbn; lia.
Qed.

Lemma step_measure s s' l :
  pipeline_step l s = Some s' -> (moves_left s' < moves_left s)%nat.
Proof.
  destruct l; cbn [pipeline_step]; first [apply reader_step_measure|apply forwarder_step_measure].
Qed.

(** While the forwarder receives, some task can move. *)
Lemma receiving_moves outs errs s :
  pipe_inv outs errs s -> forwarding s = Receiving -> exists s', good_step s s'.
Proof.
  intros [(Hcap & _) _] Hf. destruct s as [[lo to] [le te] ch fw sent]. cbn in *. subst fw.
  destruct ch as [|c ch].
  2: { eexists. exists Forward. split; [done|reflexivity]. }
  destruct to as [|d|].
  { destruct lo as [|x lo]; [exists (set_reader true (mk_reader [] Finished)
        (mk_pipeline (mk_reader [] Reading) (mk_reader le te) [] Receiving sent)), (Eof true)
      |eexists; exists (Read true)]; (split; [done|reflexivity]). }
  { eexists. exists (Send true). split; [done|reflexivity]. }
  destruct te as [|d|].
  { destruct le as [|x le]; [eexists; exists (Eof false)|eexists; exists (Read false)];
      (split; [done|reflexivity]). }
  { eexists. exists (Send false). split; [done|reflexivity]. }
  eexists. exists Close. split; [done|reflexivity].
Qed.

Definition good_state (outs errs : list bytes) (s : pipeline) : Prop :=
  pipe_inv outs errs s /\ forwarding s <> Failed.

Lemma good_step_state outs errs s s' :
  good_state outs errs s -> good_step s s' -> good_state outs errs s'.
Proof.
  intros [Hi Hf] (l & Hl & H). split; [by eapply step_inv|].
  destruct l; cbn [pipeline_step] in H.
  1-3: apply reader_step_cases in H as [b [(_ & d & rest & Hb & ->)|[(_ & Hb & ->)
         |(_ & d & rest & Hb & Hlt & ->)]]]; by destruct b.
  all: unfold forwarder_step in H; destruct (forwarding s), (channel s); try done;
    try (destruct (finished (out_reader s) && finished (err_reader s)); [|done]);
    by injection H as <-.
Qed.

Lemma good_steps outs errs n s s' :
  good_state outs errs s -> nsteps good_step n s s' ->
  good_state outs errs s' /\ (n + moves_left s' <= moves_left s)%nat.
Proof.
  intros Hg H. induction H as [|n s1 s2 s3 H12 _ IH]; [split; [done|lia]|].
  pose proof (good_step_state _ _ _ _ Hg H12) as Hg2.
  destruct (IH Hg2) as [Hg3 Hm]. destruct H12 as (l & _ & Hl). apply step_measure in Hl.
  split; [done|lia].
Qed.

(** Once the channel was seen closed everything has been forwarded. *)
Lemma drained_streams outs errs s :
  good_state outs errs s -> forwarding s = Drained ->
  stream true (forwarded s) = outs /\ stream false (forwarded s) = errs.
Proof.
  intros [[(_ & Ho & He & Hd) Hc] Hf] Hdr. destruct (Hd Hdr) as (Hch & Hfo & Hfe).
  destruct (Hc Hf) as [Hco Hce].
  unfold conserved, in_hand, finished in *. cbn in *. rewrite Hch, (Ho Hfo) in Hco.
  rewrite Hch, (He Hfe) in Hce.
  destruct (task (out_reader s)); try done. destruct (task (err_reader s)); try done.
  cbn in *. by rewrite !app_nil_r in *.
Qed.

(** C7. No output is lost, reordered or duplicated, and streaming ends, as
    long as the peer takes what is forwarded.  Under every schedule of the
    tasks, at each moment what was read from each pipe is, in order, what has
    been forwarded of it, the channel's part, the chunk in the reader's hand
    and what is still to come, with at most 64 chunks in the channel; a
    schedule has at most three moves per read and three to end; and where it
    cannot go on the futures have joined, the channel was seen closed, and all
    chunks of both streams have been forwarded. *)
Theorem streaming_complete (outs errs : list bytes) (n : nat) (s : pipeline)
    (Hrun : nsteps good_step n (start outs errs) s) :
  (n <= 3 * (length outs + length errs) + 3)%nat /\
  (length (channel s) <= CHANNEL_CAPACITY)%nat /\
  conserved true outs s /\ conserved false errs s /\
  ((forall s', ~ good_step s s') ->
     joined s /\ forwarding s = Drained /\
     stream true (forwarded s) = outs /\ stream false (forwarded s) = errs).
Proof.
  assert (good_state outs errs (start outs errs)) as Hg0 by (split; [apply start_inv|done]).
  destruct (good_steps _ _ _ _ _ Hg0 Hrun) as [[Hi Hf] Hm].
  pose proof Hi as [(Hcap & Ho & He & Hd) Hc]. destruct (Hc Hf) as [Hco Hce].
  split_and!; [|done|done|done|].
  - unfold moves_left at 2, reader_moves in Hm. cbn in Hm. lia.
  - intros Hstuck. assert (forwarding s = Drained) as Hdr.
    { destruct (forwarding s) eqn:E; [|done|done].
      destruct (receiving_moves _ _ _ Hi E) as [s' Hs']. by destruct (Hstuck s'). }
    destruct (Hd Hdr) as (_ & Hfo & Hfe).
    destruct (drained_streams _ _ _ (conj Hi Hf) Hdr) as [H1 H2].
    unfold joined. by rewrite Hdr.
Qed.

(** Running a schedule. *)
Fixpoint run_labels (l : list label) (s : pipeline) : option pipeline :=
  match l with
  | [] => Some s
  | x :: l => match pipeline_step x s with Some s' => run_labels l s' | None => None end
  end.

Definition is_fail (l : label) : bool := match l with Fail => true | _ => false end.

Lemma run_labels_good l s s' :
  run_labels l s = Some s' -> forallb (fun x => negb (is_fail x)) l = true ->
  nsteps good_step (length l) s s'.
Proof.
  revert s. induction l as [|x l IH]; intros s H Hl; cbn in *; [injection H as ->; constructor|].
  apply andb_true_iff in Hl as [Hx Hl]. destruct (pipeline_step x s) as [s1|] eqn:E; [|done].
  econstructor; [|by apply IH]. exists x. split; [|done]. by intros ->.
Qed.

Lemma run_labels_steps l s s' : run_labels l s = Some s' -> rtc step s s'.
Proof.
  revert s. induction l as [|x l IH]; intros s H; cbn in *; [injection H as ->; constructor|].
  destruct (pipeline_step x s) as [s1|] eqn:E; [|done].
  econstructor; [by exists x|]. by apply IH.
Qed.

Definition demo_schedule : list label :=
  [Read true; Read false; Send false; Send true; Forward; Eof false; Read true; Send true;
   Eof true; Forward; Forward; Close].
Definition demo_outs : list bytes := [[Byte.x61]; [Byte.x62]].
Definition demo_errs : list bytes := [[Byte.x65]].
Definition demo_end : pipeline := match run_labels demo_schedule (start demo_outs demo_errs) with
  | Some s => s | None => start [] [] end.

Lemma streaming_complete_witness :
  nsteps good_step 12 (start demo_outs demo_errs) demo_end /\
  conserved true demo_outs demo_end.
Proof.
  assert (nsteps good_step 12 (start demo_outs demo_errs) demo_end) as H.
  { apply (run_labels_good demo_schedule); vm_compute; reflexivity. }
  split; [exact H|]. exact (proj1 (proj2 (proj2 (streaming_complete _ _ _ _ H)))).
Defined.

(** ** A forward that fails *)

Definition held (r : reader) : nat := length (in_hand r) + length (left r).
(** The chunks that have yet to be received. *)
Definition pending (s : pipeline) : nat :=
  length (channel s) + held (out_reader s) + held (err_reader s).

Lemma failed_step s s' :
  forwarding s = Failed -> step s s' -> forwarding s' = Failed /\ pending s' = pending s.
Proof.
  intros Hf (l & H). destruct l; cbn [pipeline_step] in H.
  1-3: apply reader_step_cases in H as [b [(_ & d & rest & Hb & ->)|[(_ & Hb & ->)
         |(_ & d & rest & Hb & Hlt & ->)]]]; destruct s as [ro re ch fw sent];
         destruct b; cbn in *; subst; unfold pending, held, in_hand; cbn;
         (split; [done|]); rewrite ?length_app; cbn; lia.
  all: unfold forwarder_step in H; by rewrite Hf in H.
Qed.

Lemma rtc_inv outs errs s s' :
  pipe_inv outs errs s -> rtc step s s' -> pipe_inv outs errs s'.
Proof.
  intros Hi H. induction H as [|s1 s2 s3 (l & Hl) _ IH]; [done|].
  apply IH. by eapply step_inv.
Qed.

(** C39. A client that goes away can block its handler for ever.  When
    forwarding a chunk fails while more than 64 chunks are still to be received
    (in the channel, in a reader's hand or unread), no schedule lets the
    futures join: the receiver is kept without being read, the channel fills up
    and a reader waits for room for ever, with it the execution that awaits the
    readers, timeout or not. *)
Theorem failed_forward_blocks (outs errs : list bytes) (s s' : pipeline)
    (Hreach : rtc step (start outs errs) s) (Hfail : forwarding s = Failed)
    (Hmany : (CHANNEL_CAPACITY < pending s)%nat) (Hrun : rtc step s s') :
  ~ joined s'.
Proof.
  assert (forwarding s' = Failed /\ pending s' = pending s) as [Hf Hp].
  { clear Hreach Hmany. induction Hrun as [|s1 s2 s3 H12 _ IH]; [done|].
    destruct (failed_step _ _ Hfail H12) as [Hf2 Hp2]. destruct (IH Hf2) as [? ?].
    split; [done|congruence]. }
  intros (Ho & He & _).
  assert (pipe_inv outs errs s') as [(Hcap & Hlo & Hle & _) _].
  { eapply rtc_inv; [|exact Hrun]. eapply rtc_inv; [apply start_inv|exact Hreach]. }
  specialize (Hlo Ho). specialize (Hle He). unfold finished in *.
  unfold pending, held, in_hand in Hp, Hmany. rewrite Hlo, Hle in Hp.
  destruct (task (out_reader s')); try done. destruct (task (err_reader s')); try done.
  cbn in Hp. lia.
Qed.

(** A peer that disconnects during the first of 67 chunks. *)
Definition chatty : list bytes := repeat [Byte.x61] 67.
Definition blocked_state : pipeline :=
  match run_labels [Read true; Send true; Fail] (start chatty []) with
  | Some s => s | None => start [] [] end.

Lemma failed_forward_blocks_witness :
  forwarding blocked_state = Failed /\
  (forall s', rtc step blocked_state s' -> ~ joined s').
Proof.
  split; [vm_compute; reflexivity|]. intros s' Hs'.
  refine (failed_forward_blocks chatty [] blocked_state s' _ _ _ Hs').
  - apply (run_labels_steps [Read true; Send true; Fail]). vm_compute. reflexivity.
  - vm_compute. reflexivity.
  - apply Nat.ltb_lt. vm_compute. reflexivity.
Defined.
