(* ===== verification/PipelineSpec.v ===== *)
(** * The pipeline and its sequential model

    [Executor] and [Server] treat the output of a child as one list of
    completed reads, [forward_reads]; [Pipeline] has the tasks and the channel.
    The two agree: the tasks can forward exactly the chunk lists that the
    sequential model yields for some order of the reads. *)
From S2P Require Export Pipeline.

(** The reads of one pipe, and what a pipe delivers: its data, then end of
    file. *)
Definition of_pipe (is_out : bool) (reads : list pipe_read) : list (io_result bytes) :=
  map snd (filter (fun x => x.1 = is_out) reads).
Definition delivered (datas : list bytes) : list (io_result bytes) := map Ok datas ++ [Ok []].

(** A read of no bytes is the end of file, so data is not empty. *)
Definition nonempty (datas : list bytes) : Prop := Forall (fun d => d <> []) datas.

Lemma of_pipe_cons b x reads :
  of_pipe b (x :: reads) = (if Bool.eqb x.1 b then [x.2] else []) ++ of_pipe b reads.
Proof. destruct x as [[] r], b; reflexivity. Qed.

Lemma of_pipe_app b l l' : of_pipe b (l ++ l') = of_pipe b l ++ of_pipe b l'.
Proof. unfold of_pipe. by rewrite filter_app, map_app. Qed.

(** ** From the tasks to the sequential model *)

Definition as_read (c : OutputChunk) : pipe_read := (is_stdout c, Ok (chunk_data c)).

Lemma stream_cons b c l :
  stream b (c :: l) = (if Bool.eqb (is_stdout c) b then [chunk_data c] else []) ++ stream b l.
Proof. change (c :: l) with ([c] ++ l). rewrite stream_app. destruct c. by rewrite stream_one. Qed.

Lemma of_pipe_chunks b l : of_pipe b (map as_read l) = map Ok (stream b l).
Proof.
  induction l as [|c l IH]; [done|]. cbn [map]. rewrite of_pipe_cons, stream_cons, IH.
  cbn [as_read fst snd]. by destruct (Bool.eqb _ _).
Qed.

Lemma chunks_nonempty l :
  nonempty (stream true l) -> nonempty (stream false l) -> Forall (fun c => chunk_data c <> []) l.
Proof.
  unfold nonempty. induction l as [|c l IH]; intros Ho He; [constructor|].
  rewrite stream_cons in Ho, He. apply Forall_app in Ho as [Ho1 Ho], He as [He1 He].
  constructor; [|by apply IH]. destruct (is_stdout c); [by inversion Ho1|by inversion He1].
Qed.

Lemma forward_reads_chunks l tl :
  Forall (fun c => chunk_data c <> []) l ->
  forward_reads true true (map as_read l ++ tl) = l ++ forward_reads true true tl.
Proof.
  induction l as [|[b d] l IH]; intros H; [done|]. inversion_clear H as [|? ? Hd Hl].
  destruct d as [|x d]; [exfalso; apply Hd; reflexivity|]. cbn [map app as_read is_stdout chunk_data].
  cbn [forward_reads]. destruct b; by rewrite IH.
Qed.

(** ** From the sequential model to the tasks *)

(** A reader that is between two reads or has ended, and the reads it is to do. *)
Definition at_rest (open : bool) (datas : list bytes) : reader :=
  mk_reader datas (if open then Reading else Finished).
Definition to_do (open : bool) (datas : list bytes) (reads : list (io_result bytes)) : Prop :=
  if open then nonempty datas /\ reads = delivered datas else datas = [] /\ reads = [].

(** A piece of data goes all the way through, or a pipe ends. *)
Lemma one_read (b oo eo : bool) lo le acc d rest :
  (if b then oo = true /\ lo = d :: rest else eo = true /\ le = d :: rest) ->
  rtc good_step (mk_pipeline (at_rest oo lo) (at_rest eo le) [] Receiving acc)
    (mk_pipeline (at_rest oo (if b then rest else lo)) (at_rest eo (if b then le else rest)) []
       Receiving (acc ++ [mk_chunk b d])).
Proof.
  intros H. destruct b; destruct H as [-> ->];
    [set (b := true)|set (b := false)];
    (eapply rtc_l; [exists (Read b); split; [done|reflexivity]|];
     eapply rtc_l; [exists (Send b); split; [done|reflexivity]|];
     eapply rtc_l; [exists Forward; split; [done|reflexivity]|]; constructor).
Qed.

Lemma one_eof (b oo eo : bool) lo le acc :
  (if b then oo = true /\ lo = [] else eo = true /\ le = []) ->
  rtc good_step (mk_pipeline (at_rest oo lo) (at_rest eo le) [] Receiving acc)
    (mk_pipeline (at_rest (if b then false else oo) lo) (at_rest (if b then eo else false) le) []
       Receiving acc).
Proof.
  intros H. apply rtc_once. destruct b; destruct H as [-> ->];
    [exists (Eof true)|exists (Eof false)]; split; done.
Qed.

(** The next read of an open pipe is its next piece or its end. *)
Lemma to_do_next open datas r rs :
  to_do open datas (r :: rs) -> open = true /\
  ((datas = [] /\ r = Ok [] /\ to_do false [] rs) \/
   exists d rest, datas = d :: rest /\ r = Ok d /\ d <> [] /\ to_do true rest rs).
Proof.
  destruct open; [|by intros [_ H]]. intros [Hn Hr]. split; [done|].
  destruct datas as [|d rest]; [left|right].
  - unfold delivered in Hr. cbn in Hr. by injection Hr as -> ->.
  - unfold delivered in Hr. cbn in Hr. injection Hr as -> ->. inversion_clear Hn.
    by exists d, rest.
Qed.

Lemma forward_reads_step (b oo eo : bool) d rest :
  (if b then oo = true else eo = true) -> d <> [] ->
  forward_reads oo eo ((b, Ok d) :: rest) = mk_chunk b d :: forward_reads oo eo rest.
Proof. destruct d; [done|]. by destruct b; intros -> _. Qed.

Lemma schedule_exists reads : forall oo eo lo le acc,
  to_do oo lo (of_pipe true reads) -> to_do eo le (of_pipe false reads) ->
  exists s, rtc good_step (mk_pipeline (at_rest oo lo) (at_rest eo le) [] Receiving acc) s /\
    forwarding s = Drained /\ forwarded s = acc ++ forward_reads oo eo reads.
Proof.
  induction reads as [|[b r] reads IH]; intros oo eo lo le acc Ho He.
  - destruct oo; [by destruct Ho as [_ Ho]; destruct lo|].
    destruct eo; [by destruct He as [_ He]; destruct le|].
    eexists. split; [eapply rtc_once; exists Close; split; [done|reflexivity]|].
    split; [done|]. by rewrite app_nil_r.
  - rewrite of_pipe_cons in Ho, He. destruct b; cbn [fst snd Bool.eqb app] in Ho, He.
    + apply to_do_next in Ho as [-> [(-> & -> & Ho)|(d & rest & -> & -> & Hd & Ho)]].
      * destruct (IH false eo [] le acc Ho He) as (s & Hs & H1 & H2). exists s.
        split; [|done]. etrans; [by apply (one_eof true)|exact Hs].
      * destruct (IH true eo rest le (acc ++ [mk_chunk true d]) Ho He) as (s & Hs & H1 & H2).
        exists s. split; [etrans; [by apply (one_read true)|exact Hs]|]. split; [done|].
        by rewrite H2, forward_reads_step, <- app_assoc.
    + apply to_do_next in He as [-> [(-> & -> & He)|(d & rest & -> & -> & Hd & He)]].
      * destruct (IH oo false lo [] acc Ho He) as (s & Hs & H1 & H2). exists s.
        split; [|done]. etrans; [by apply (one_eof false)|exact Hs].
      * destruct (IH oo true lo rest (acc ++ [mk_chunk false d]) Ho He) as (s & Hs & H1 & H2).
        exists s. split; [etrans; [by apply (one_read false)|exact Hs]|]. split; [done|].
        by rewrite H2, forward_reads_step, <- app_assoc.
Qed.

(** ** The two models agree *)

Lemma good_rtc_state outs errs s s' :
  good_state outs errs s -> rtc good_step s s' -> good_state outs errs s'.
Proof.
  intros Hg H. induction H as [|s1 s2 s3 H12 _ IH]; [done|]. by eapply IH, good_step_state.
Qed.

(** C8. The tasks implement the sequential model, and nothing less.  For the
    data of the two pipes, a chunk list can be what has been forwarded when the
    channel is seen closed, under some schedule of the two readers, the bounded
    channel and the forwarder, exactly when it is what [forward_reads] makes of
    some order of the reads that gives each pipe its data followed by its end.
    So what [Executor] and [Server] say of one list of reads holds of every
    schedule, and each list they consider does occur. *)
Theorem pipeline_equals_sequential (outs errs : list bytes) (l : list OutputChunk)
    (Hout : nonempty outs) (Herr : nonempty errs) :
  (exists s, rtc good_step (start outs errs) s /\ forwarding s = Drained /\ forwarded s = l) <->
  (exists reads, of_pipe true reads = delivered outs /\ of_pipe false reads = delivered errs /\
     forward_reads true true reads = l).
Proof.
  split.
  - intros (s & Hs & Hd & <-).
    assert (good_state outs errs s) as Hg.
    { eapply good_rtc_state; [|exact Hs]. split; [apply start_inv|done]. }
    destruct (drained_streams _ _ _ Hg Hd) as [H1 H2].
    exists (map as_read (forwarded s) ++ [(true, Ok []); (false, Ok [])]).
    rewrite !of_pipe_app, !of_pipe_chunks, H1, H2. split; [done|]. split; [done|].
    rewrite forward_reads_chunks by (apply chunks_nonempty; by rewrite ?H1, ?H2). apply app_nil_r.
  - intros (reads & H1 & H2 & <-).
    apply (schedule_exists reads true true outs errs []); by split.
Qed.

Lemma pipeline_equals_sequential_witness :
  exists s, rtc good_step (start demo_outs demo_errs) s /\ forwarding s = Drained /\
    forwarded s = [mk_chunk true [Byte.x61]; mk_chunk false [Byte.x65]; mk_chunk true [Byte.x62]].
Proof.
  apply (pipeline_equals_sequential demo_outs demo_errs); [repeat constructor; discriminate..|].
  exists [(true, Ok [Byte.x61]); (false, Ok [Byte.x65]); (false, Ok []); (true, Ok [Byte.x62]);
          (true, Ok [])].
  split_and!; reflexivity.
Defined.
