(* ===== verification/Images.v ===== *)
(** * Root filesystem images ([rootfs/image_manager.rs])

    Download, verification and unpacking of the images containers start from.
    SHA-256 and the text of an HTTP status come from other crates: the class
    [ImageDeps] stands for them.  The decoders and the tar reader are calls of
    [Sys]. *)
From S2P Require Export Policy Text.

Class ImageDeps : Type := {
  sha256_hex : bytes -> string;
  status_text : Z -> string
}.

(* @src core/rootfs/image_manager.rs:10-16 RootfsImage *)
Inductive RootfsImage : Type :=
| Alpine
| Ubuntu
| Debian
| Custom (name : string).

(* @src core/rootfs/image_manager.rs:28-33 Compression *)
Inductive Compression : Type :=
| Gzip
| Xz
| NoCompression.

(** The comparison with [b"tar"] is the code's: five bytes against three. *)
(* @src core/rootfs/image_manager.rs:36-46 Compression::detect *)
Definition detect (l : bytes) : option Compression :=
  if (2 <=? length l)%nat && bool_decide (take 2 l = [Byte.x1f; Byte.x8b]) then Some Gzip
  else if (6 <=? length l)%nat &&
          bool_decide (take 6 l = [Byte.xfd; Byte.x37; Byte.x7a; Byte.x58; Byte.x5a; Byte.x00])
  then Some Xz
  else if (262 <=? length l)%nat &&
          bool_decide (take 5 (drop 257 l) = bytes_of_string "tar")
  then Some NoCompression
  else None.

(** Which decoder the reader gets. *)
(* @src core/rootfs/image_manager.rs:125-129 ImageManager::unpack_archive (reader) *)
Definition decoder (c : Compression) : string :=
  match c with Gzip => "gzip" | Xz => "xz" | NoCompression => "none" end.

Record ImageManager : Type := mk_image_manager { cache_dir : path }.

(* @src core/rootfs/image_manager.rs:58-65 ImageManager::new *)
Definition new_image_manager : prog sys ImageManager :=
  home ← call (EnvVar "HOME");
  match home with
  | Some h =>
      dir ← call (IsDir h);
      if dir : bool then Ret (mk_image_manager (path_join (path_join h ".kuda_sandbox") "images"))
      else tmp ← call TempDir; Ret (mk_image_manager (path_join tmp "kuda_sandbox_images"))
  | None => tmp ← call TempDir; Ret (mk_image_manager (path_join tmp "kuda_sandbox_images"))
  end.

Section Images.
Context `{ImageDeps}.

(* @src core/rootfs/image_manager.rs:77-86 ImageManager::get_image_path (custom name) *)
Definition custom_name (s : string) : string :=
  if starts_with s "http://" || starts_with s "https://" || str_contains s "/"
  then String.substring 0 24 ("custom-" +:+ sha256_hex (bytes_of_string s))
  else s.

(* @src core/rootfs/image_manager.rs:72-89 ImageManager::get_image_path *)
Definition get_image_path (self : ImageManager) (image : RootfsImage) : path :=
  path_join (cache_dir self)
    (match image with
     | Alpine => "alpine-latest"
     | Ubuntu => "ubuntu-minimal"
     | Debian => "debian-slim"
     | Custom s => custom_name s
     end).

(* @src core/rootfs/image_manager.rs:92-95 ImageManager::is_cached *)
Definition is_cached (self : ImageManager) (image : RootfsImage) : prog sys bool :=
  let p := get_image_path self image in
  here ← call (PathExists p);
  if here : bool then call (PathExists (path_join p "bin")) else Ret false.

(** [?] on an I/O result. *)
Definition io {A} (p : prog sys (io_result A)) : prog sys (Result A) := map_err_p Io p.

(** A read that delivers something makes progress: [size] rounds and one for
    the end are enough. *)
(* @src core/rootfs/image_manager.rs:302-312 read_full *)
Fixpoint read_full (fuel : nat) (f : fd) (size : nat) (acc : bytes) : prog sys (Result bytes) :=
  if (length acc <? size)%nat then
    match fuel with
    | O => Halt Running
    | S fuel =>
        data ←? io (call (ReadFd f (size - length acc)));
        match data with
        | [] => ret? acc
        | _ => read_full fuel f size (acc ++ data)
        end
    end
  else ret? acc.

(* @src core/rootfs/image_manager.rs:107-109 ImageManager::unpack_archive (header) *)
Definition HEADER_SIZE : nat := 512.

(** The first bytes of a file; the descriptor is closed on every path. *)
(* @src core/rootfs/image_manager.rs:107-116 ImageManager::unpack_archive (probe) *)
Definition probe (archive_path : path) : prog sys (Result (option Compression)) :=
  f ←? io (call (OpenFile archive_path));
  header ← read_full (S HEADER_SIZE) f HEADER_SIZE [];
  _ ← call (CloseFd f);
  Ret (match header with Ok h => Ok (detect h) | Err e => Err e end).

(* @src core/rootfs/image_manager.rs:134-140 ImageManager::unpack_archive (entry check) *)
Definition check_entry (p : path) : Result unit :=
  if is_absolute p || has_parent_dir p
  then Err (SecurityViolation ("Malicious tar entry detected with path traversal: " +:+ display_path p))
  else Ok tt.

(* @src core/rootfs/image_manager.rs:131-142 ImageManager::unpack_archive (entries) *)
Fixpoint unpack_entries (fuel : nat) (temp_target : path) : prog sys (Result unit) :=
  match fuel with
  | O => Halt Running
  | S fuel =>
      entry ← call ArchiveNext;
      match entry with
      | None => ret? tt
      | Some (Err e) => Ret (Err (Io e))
      | Some (Ok _) =>
          p ←? io (call EntryPath);
          _ ←? Ret (check_entry p);
          _ ←? io (call (EntryUnpackIn temp_target));
          unpack_entries fuel temp_target
      end
  end.

(** The closure that both operations run: unpack to the temporary directory
    and rename it to the target. *)
(* @src core/rootfs/image_manager.rs:119-149 ImageManager::unpack_archive (closure) *)
Definition extract (fuel : nat) (archive_path temp_target target_dir : path) (c : Compression)
    : prog sys (Result path) :=
  _ ←? io (call (CreateDirAll temp_target));
  file ←? io (call (OpenFile archive_path));
  _ ←? io (call (ArchiveOpen file (decoder c)));
  _ ←? unpack_entries fuel temp_target;
  there ← call (PathExists target_dir);
  let_ (if there : bool then call (RemoveDirAll target_dir) else ret? tt);
  _ ←? io (call (Rename temp_target target_dir));
  Ret (Ok target_dir).

(* @src core/rootfs/image_manager.rs:151-153 ImageManager::unpack_archive (clean-up) *)
Definition remove_temp (temp_target : path) : prog sys unit :=
  there ← call (PathExists temp_target);
  if there : bool then let_ call (RemoveDirAll temp_target); Ret tt else Ret tt.

Definition not_an_archive (p : path) : SandboxError :=
  SetupFailed ("File '" +:+ display_path p +:+ "' is not a recognizable tar/tar.gz/tar.xz archive").

(* @src core/rootfs/image_manager.rs:100-160 ImageManager::unpack_archive *)
Definition unpack_archive (fuel : nat) (self : ImageManager) (archive_path : path)
    (image : RootfsImage) : prog sys (Result path) :=
  let target_dir := get_image_path self image in
  there ← call (PathExists target_dir);
  if there : bool then ret? target_dir
  else
    _ ←? io (call (CreateDirAll (cache_dir self)));
    probed ←? probe archive_path;
    match probed with
    | None => Ret (Err (not_an_archive archive_path))
    | Some c =>
        id ← call NewUuid;
        let temp_target := path_join (cache_dir self) (".extract_" +:+ id) in
        res ← extract fuel archive_path temp_target target_dir c;
        _ ← remove_temp temp_target;
        Ret res
    end.

(** ** Download *)

(** [str::split_whitespace().next().unwrap_or(..)] *)
Fixpoint word_bytes (l : bytes) : bytes :=
  match l with
  | [] => []
  | b :: l' => if (white_prefix white_space l =? 0)%nat then b :: word_bytes l' else []
  end.
Definition first_word (s : string) : string :=
  let l := bytes_of_string s in
  string_of_bytes (word_bytes (trim_tokens (length l) white_space l)).

Definition is_hex_digit (b : byte) : bool :=
  let z := Z_of_byte b in
  ((48 <=? z) && (z <=? 57) || (65 <=? z) && (z <=? 70) || (97 <=? z) && (z <=? 102))%Z.

(* @src core/rootfs/image_manager.rs:329-330 fetch_alpine_sha256 (digest) *)
Definition checksum_of (body : string) : option string :=
  let hash := to_lowercase (first_word body) in
  if (String.length hash =? 64)%nat && forallb is_hex_digit (bytes_of_string hash)
  then Some hash else None.

Definition is_success (status : Z) : bool := ((200 <=? status) && (status <? 300))%Z.

(* @src core/rootfs/image_manager.rs:314-337 fetch_alpine_sha256 *)
Definition fetch_alpine_sha256 (url : string) : prog sys (Result (option string)) :=
  let checksum_url := url +:+ ".sha256" in
  resp ←? map_err_p (fun e => SetupFailed ("Failed to fetch checksum sidecar " +:+ checksum_url
                                           +:+ ": " +:+ e))
            (call (HttpGet checksum_url));
  if is_success (http_status resp) then
    body ←? map_err_p (fun e => SetupFailed ("Failed to read checksum sidecar: " +:+ e))
              (call (HttpText (http_id resp)));
    match checksum_of body with
    | Some hash => ret? (Some hash)
    | None => Ret (Err (SetupFailed ("Malformed checksum sidecar content: '" +:+ trim body +:+ "'")))
    end
  else Ret (Err (SetupFailed ("Checksum sidecar " +:+ checksum_url +:+ " returned HTTP "
              +:+ status_text (http_status resp) +:+ " — refusing unverified download"))).

(** Rounds are bounded by [fuel]; [acc] is what the hasher has seen. *)
(* @src core/rootfs/image_manager.rs:345-351 write_stream_and_hash (loop) *)
Fixpoint stream_body (fuel : nat) (id : Z) (file : fd) (acc : bytes) : prog sys (Result string) :=
  match fuel with
  | O => Halt Running
  | S fuel =>
      chunk ←? map_err_p Reqwest (call (HttpChunk id));
      match chunk with
      | None => _ ←? io (call (FlushFd file)); ret? (sha256_hex acc)
      | Some chunk =>
          _ ←? io (call (WriteFd file chunk));
          stream_body fuel id file (acc ++ chunk)
      end
  end.

(* @src core/rootfs/image_manager.rs:339-352 write_stream_and_hash *)
Definition write_stream_and_hash (fuel : nat) (id : Z) (dest : path) : prog sys (Result string) :=
  file ←? io (call (CreateFile dest));
  stream_body fuel id file [].

(** [diff |= x ^ y] over the pairs. *)
Fixpoint diff_bytes (diff : Z) (a b : bytes) : Z :=
  match a, b with
  | x :: a, y :: b => diff_bytes (Z.lor diff (Z.lxor (Z_of_byte x) (Z_of_byte y))) a b
  | _, _ => diff
  end.

(* @src core/rootfs/image_manager.rs:354-365 constant_time_eq *)
Definition constant_time_eq (a b : string) : bool :=
  let a := bytes_of_string a in
  let b := bytes_of_string b in
  if (length a =? length b)%nat then (diff_bytes 0 a b =? 0)%Z else false.

(* @src core/rootfs/image_manager.rs:172-187 ImageManager::pull_image (url) *)
Definition image_url `{Target} (image : RootfsImage) : string :=
  match image with
  | Alpine =>
      let a := if bool_decide (arch = ArchAarch64) then "aarch64" else "x86_64" in
      "https://dl-cdn.alpinelinux.org/alpine/v3.20/releases/" +:+ a
        +:+ "/alpine-minirootfs-3.20.0-" +:+ a +:+ ".tar.gz"
  | Ubuntu =>
      "https://cloud-images.ubuntu.com/minimal/releases/noble/release/ubuntu-24.04-minimal-cloudimg-amd64-root.tar.xz"
  | Debian =>
      "https://cloud.debian.org/images/cloud/bookworm/latest/debian-12-genericcloud-amd64.tar.xz"
  | Custom url => url
  end.

(* @src core/rootfs/image_manager.rs:223-234 ImageManager::pull_image (integrity) *)
Definition check_digest (expected : option string) (actual : string) (temp_archive : path)
    : prog sys (Result unit) :=
  match expected with
  | Some expected =>
      if constant_time_eq (trim expected) actual then ret? tt
      else
        let_ call (RemoveFile temp_archive);
        Ret (Err (SecurityViolation
          ("SHA256 mismatch for downloaded rootfs (expected " +:+ trim expected +:+ ", got "
           +:+ actual +:+ "). Supply-chain integrity check failed.")))
  | None =>
      _ ← call (Warn "No reference SHA256 available for this image; skipping integrity verification");
      ret? tt
  end.

(** From the finished download on. *)
(* @src core/rootfs/image_manager.rs:236-289 ImageManager::pull_image (unpacking) *)
Definition unpack_download (fuel : nat) (self : ImageManager) (temp_archive target_dir : path)
    : prog sys (Result path) :=
  probed ←? probe temp_archive;
  match probed with
  | None =>
      let_ call (RemoveFile temp_archive);
      Ret (Err (SetupFailed "Downloaded rootfs is not a recognizable tar/tar.gz/tar.xz archive"))
  | Some c =>
      id ← call NewUuid;
      let temp_target := path_join (cache_dir self) (".extract_" +:+ id) in
      res ← extract fuel temp_archive temp_target target_dir c;
      let_ call (RemoveFile temp_archive);
      _ ← remove_temp temp_target;
      Ret res
  end.

(** The image is not cached: fetch it. *)
(* @src core/rootfs/image_manager.rs:172-290 ImageManager::pull_image (download) *)
Definition download_image `{Target} (fuel : nat) (self : ImageManager) (image : RootfsImage)
    : prog sys (Result path) :=
  let url := image_url image in
  resp ←? map_err_p (fun e => SetupFailed ("Failed to download rootfs from " +:+ url +:+ ": " +:+ e))
            (call (HttpGet url));
  if is_success (http_status resp) then
    expected ←? (match image with
                 | Alpine => fetch_alpine_sha256 url
                 | _ => ret? None
                 end);
    _ ←? io (call (CreateDirAll (cache_dir self)));
    id ← call NewUuid;
    let temp_archive := path_join (cache_dir self) ("temp_" +:+ id +:+ ".download") in
    hashed ← write_stream_and_hash fuel (http_id resp) temp_archive;
    match hashed with
    | Err e => let_ call (RemoveFile temp_archive); Ret (Err e)
    | Ok actual =>
        _ ←? check_digest expected actual temp_archive;
        unpack_download fuel self temp_archive (get_image_path self image)
    end
  else Ret (Err (SetupFailed ("HTTP error " +:+ status_text (http_status resp)
              +:+ " when downloading rootfs from " +:+ url))).

(* @src core/rootfs/image_manager.rs:166-170 ImageManager::pull_image *)
Definition pull_image `{Target} (fuel : nat) (self : ImageManager) (image : RootfsImage)
    : prog sys (Result path) :=
  cached ← is_cached self image;
  if cached : bool then ret? (get_image_path self image)
  else download_image fuel self image.

(* @src core/rootfs/image_manager.rs:294-296 ImageManager::prepare_synthetic_rootfs (dirs) *)
Definition synthetic_dirs : list string :=
  ["bin"; "sbin"; "usr/bin"; "usr/lib"; "lib"; "etc"; "tmp"; "dev"; "proc"; "sys"; "workspace"].

Fixpoint create_all (l : list path) : prog sys (Result unit) :=
  match l with
  | [] => ret? tt
  | d :: l => _ ←? io (call (CreateDirAll d)); create_all l
  end.

(* @src core/rootfs/image_manager.rs:293-299 ImageManager::prepare_synthetic_rootfs *)
Definition prepare_synthetic_rootfs (target_dir : path) : prog sys (Result unit) :=
  create_all (map (path_join target_dir) synthetic_dirs).
End Images.
