(* ===== verification/ImagesSpec.v ===== *)
(** * What the image manager guarantees

    An image directory appears complete or not at all, entries that would
    leave it are refused, an Alpine image is unpacked only after its digest was
    checked, and where images are kept. *)
From S2P Require Export Images ExecutorRun.

(** ** Comparing digests *)

Lemma lor_zero a b : Z.lor a b = 0%Z <-> a = 0%Z /\ b = 0%Z.
Proof. apply Z.lor_eq_0_iff. Qed.

Lemma diff_bytes_zero a : forall d b,
  length a = length b -> (diff_bytes d a b = 0%Z <-> d = 0%Z /\ a = b).
Proof.
  induction a as [|x a IH]; intros d [|y b] Hl; try done; cbn; [tauto|].
  rewrite IH by (cbn in Hl; lia). rewrite lor_zero, Z.lxor_eq_0_iff. split.
  - intros [[-> Hxy] ->]. split; [done|]. f_equal. by apply Z_of_byte_inj.
  - intros [-> [= -> ->]]. done.
Qed.

Lemma digests_equal_iff (a b : string) : constant_time_eq a b = true <-> a = b.
Proof.
  unfold constant_time_eq. cbv zeta.
  assert (bytes_of_string a = bytes_of_string b -> a = b) as Hinj.
  { intros H. apply (f_equal string_of_bytes) in H. by rewrite !string_of_bytes_of_string in H. }
  destruct (Nat.eqb_spec (length (bytes_of_string a)) (length (bytes_of_string b))) as [Hl|Hl].
  - rewrite Z.eqb_eq, diff_bytes_zero by done. split; [intros [_ H]; auto|by intros ->].
  - split; [done|]. intros ->. done.
Qed.

Lemma digests_equal a b : constant_time_eq a b = true -> a = b.
Proof. apply digests_equal_iff. Qed.

(** ** Recognizing archives *)

Lemma take_prefix_iff {A} (p l : list A) : take (length p) l = p <-> p `prefix_of` l.
Proof.
  split.
  - intros H. exists (drop (length p) l). by rewrite <- H at 1; rewrite take_drop.
  - intros [k ->]. by rewrite take_app_length.
Qed.

Lemma magic_test {A} `{EqDecision A} (p l : list A) n :
  length p = n ->
  (n <=? length l)%nat && bool_decide (take n l = p) = true <-> p `prefix_of` l.
Proof.
  intros <-. rewrite andb_true_iff, bool_decide_eq_true, take_prefix_iff.
  split; [tauto|]. intros [k ->]. split; [|by exists k]. apply Nat.leb_le.
  rewrite length_app. lia.
Qed.

Definition gzip_magic : bytes := [Byte.x1f; Byte.x8b].
Definition xz_magic : bytes := [Byte.xfd; Byte.x37; Byte.x7a; Byte.x58; Byte.x5a; Byte.x00].

(** Archives are recognized by their magic bytes: exactly the inputs that
    begin with gzip's or xz's are taken for one.  The third test can never
    succeed, as it compares five bytes with the three of [tar]: a plain tar
    archive, which the code means to accept, is never recognized. *)
Lemma detect_spec (l : bytes) :
  (detect l = Some Gzip <-> gzip_magic `prefix_of` l) /\
  (detect l = Some Xz <-> xz_magic `prefix_of` l) /\
  detect l <> Some NoCompression.
Proof.
  assert (gzip_magic `prefix_of` l -> xz_magic `prefix_of` l -> False) as Hdis.
  { intros [k ->] [k' [=]]. }
  unfold detect.
  pose proof (magic_test gzip_magic l 2 eq_refl) as Hg.
  pose proof (magic_test xz_magic l 6 eq_refl) as Hx.
  fold gzip_magic xz_magic.
  destruct (_ && bool_decide (take 2 l = gzip_magic)).
  { split_and!; [tauto| |done]. split; [done|]. intros Hp. exfalso. tauto. }
  destruct (_ && bool_decide (take 6 l = xz_magic)).
  { split_and!; [|tauto|done]. split; [done|]. intros Hp. exfalso. tauto. }
  assert ((262 <=? length l)%nat && bool_decide (take 5 (drop 257 l) = bytes_of_string "tar") = false)
    as ->.
  { destruct (Nat.leb_spec 262 (length l)) as [Hl|]; [|done]. apply bool_decide_eq_false.
    intros H. apply (f_equal length) in H. rewrite length_take, length_drop in H.
    change (length (bytes_of_string "tar")) with 3%nat in H. lia. }
  split_and!; [| |done]; (split; [done|]; tauto).
Qed.

(** ** Reading the header *)

Definition event_read (e : event sys) : bytes :=
  match e with
  | @Ev _ R e r =>
      match e in sys R return R -> bytes with
      | ReadFd _ _ => fun r => match r with Ok d => d | Err _ => [] end
      | _ => fun _ => []
      end r
  end.
Definition read_bytes (t : sys_trace) : bytes := concat (map event_read t).

(** Something was read up to the end of the file. *)
Definition at_eof (f : fd) (t : sys_trace) : Prop := exists n, Ev (ReadFd f n) (Ok []) ∈ t.

(** [read_full] fills its buffer across short reads: it always ends, never
    asks for more than there is room for, and what it returns is everything it
    read, the full size unless the file ended before. *)
Lemma read_full_spec (f : fd) (size : nat) :
  wp sys_ok (read_full (S size) f size []) (fun o t =>
    match o with
    | Done (Ok data) => data = read_bytes t /\ (length data <= size)%nat /\
                        (length data = size \/ at_eof f t)
    | Done (Err e) => exists e', e = Io e'
    | Stopped _ => False
    end).
Proof.
  assert (forall fuel acc, (length acc <= size)%nat -> (size - length acc < fuel)%nat ->
    wp sys_ok (read_full fuel f size acc) (fun o t =>
      match o with
      | Done (Ok data) => data = acc ++ read_bytes t /\ (length data <= size)%nat /\
                          (length data = size \/ at_eof f t)
      | Done (Err e) => exists e', e = Io e'
      | Stopped _ => False
      end)) as H.
  { induction fuel as [|fuel IH]; intros acc Hacc Hfuel; [lia|]. cbn [read_full].
    destruct (Nat.ltb_spec (length acc) size).
    2: { cbn. rewrite app_nil_r. split_and!; [done|lia|]. left. lia. }
    unfold io. wp_simpl. intros [data|e] Hok; cbn [map_err prog_bind wp]; [|by exists e].
    cbn in Hok. destruct data as [|b data].
    - cbn. rewrite app_nil_r. split_and!; [done|lia|]. right.
      exists (size - length acc)%nat. apply list_elem_of_here.
    - eapply wp_mono; [apply (IH (acc ++ b :: data));
        rewrite length_app; cbn in *; lia|].
      intros [[d|e]|s] t; [|done|done]. intros (Hd & Hl & Hend).
      split_and!; [rewrite Hd; unfold read_bytes; cbn; by rewrite <- app_assoc|done|].
      destruct Hend as [|[n Hn]]; [by left|right]. exists n. by apply list_elem_of_further. }
  eapply wp_mono; [apply (H (S size) []); cbn; lia|]. done.
Qed.

(** ** Unpacking *)

(** An entry that stays inside the directory it is unpacked to. *)
Definition stays_inside (p : path) : Prop := is_absolute p = false /\ has_parent_dir p = false.

(** The directory in the cache that an archive is unpacked to first. *)
Definition staging (self : ImageManager) (id : string) : path :=
  path_join (cache_dir self) (".extract_" +:+ id).

(** The rule for each call that touches the tree: an entry goes to the staging
    directory named after the identifier [id] that was made for this call, right
    after its name was checked, and that directory is renamed to the target only
    when the archive has been read to its end. *)
Definition unpack_rule (self : ImageManager) (id : string) (target : path) (h : sys_trace)
    (e : event sys) : Prop :=
  match e with
  | Ev (EntryUnpackIn d) _ => d = staging self id /\ Ev NewUuid id ∈ h /\
      exists h' p, h = h' ++ [Ev EntryPath (Ok p)] /\ stays_inside p
  | Ev (Rename a b) _ => a = staging self id /\ b = target /\ Ev NewUuid id ∈ h /\
      Ev ArchiveNext None ∈ h
  | _ => True
  end.

(** A successful rename. *)
Definition renamed (t : sys_trace) : Prop := exists a b, Ev (Rename a b) (Ok tt) ∈ t.

Definition is_unpacking (e : event sys) : bool :=
  match e with Ev (EntryUnpackIn _) _ | Ev (Rename _ _) _ => true | _ => false end.

Lemma unpacking_rule self id target e :
  is_unpacking e = false -> forall h, unpack_rule self id target h e.
Proof. destruct e as [R e r]. by destruct e. Qed.

Lemma not_renamed t : Forall (fun e => is_unpacking e = false) t -> ~ renamed t.
Proof.
  rewrite Forall_forall. intros H (a & b & Hin). apply list_elem_of_In in Hin. by apply H in Hin.
Qed.

Lemma guards_quiet_unpack {A} self id target h (p : prog sys A) :
  quiet is_unpacking p -> guards any_response (unpack_rule self id target) h p.
Proof.
  intros Hq. apply guards_emits. eapply wp_mono; [exact Hq|].
  intros ? t. apply Forall_impl. apply unpacking_rule.
Qed.

Lemma unpack_entries_guards self id target fuel : forall h, Ev NewUuid id ∈ h ->
  guards any_response (unpack_rule self id target) h (unpack_entries fuel (staging self id)).
Proof.
  induction fuel as [|fuel IH]; intros h Hid; [apply guards_emits, emits_halt|].
  cbn [unpack_entries]. unfold io, check_entry. prog_unfold. cbn [prog_bind].
  apply guards_vis. intros [[[]|e]|] _; (split; [exact I|]); try apply guards_ret.
  cbn [prog_bind]. apply guards_vis. intros [p|e] _; (split; [exact I|]); [|apply guards_ret].
  cbn [prog_bind map_err]. destruct (is_absolute p) eqn:Ha; [apply guards_ret|].
  destruct (has_parent_dir p) eqn:Hp; [apply guards_ret|]. cbn [orb prog_bind].
  apply guards_vis. intros r _.
  split; [split; [done|]; split; [set_solver|by eexists _, p]|].
  destruct r as [b|e]; [apply IH; set_solver|apply guards_ret].
Qed.

(** Success means that the end of the archive was seen; nothing is renamed. *)
Lemma unpack_entries_spec temp fuel :
  wp any_response (unpack_entries fuel temp) (fun o t =>
    ~ renamed t /\
    match o with
    | Done (Ok _) => Ev ArchiveNext None ∈ t
    | Done (Err _) => True
    | Stopped s => s = Running
    end).
Proof.
  induction fuel as [|fuel IH]; [split; [by intros (? & ? & ?%elem_of_nil)|done]|].
  assert (forall (e : event sys) t, (forall a b, e <> Ev (Rename a b) (Ok tt)) ->
    ~ renamed t -> ~ renamed (e :: t)) as Hcons.
  { intros e t He Ht (a & b & [Hin|Hin]%elem_of_cons); [by apply (He a b)|].
    apply Ht. by exists a, b. }
  assert (~ renamed []) as Hnil by by intros (? & ? & ?%elem_of_nil).
  cbn [unpack_entries]. unfold io, check_entry. prog_unfold. cbn [prog_bind wp].
  intros [[[]|e]|] _; cbn [prog_bind wp map_err]; try (split; [by apply Hcons|done]).
  2: { split; [by apply Hcons|apply list_elem_of_here]. }
  intros [p|e] _; cbn [prog_bind wp map_err]; [|split; [by repeat apply Hcons|done]].
  destruct (is_absolute p || has_parent_dir p); cbn [prog_bind wp];
    [split; [by repeat apply Hcons|done]|].
  intros [b|e] _; cbn [prog_bind wp map_err]; [|split; [by repeat apply Hcons|done]].
  eapply wp_mono; [apply IH|]. intros o t [Hn Ho]. split; [by repeat apply Hcons|].
  destruct o as [[[]|e]|s]; [set_solver|done|done].
Qed.

Lemma extract_guards fuel archive self id target c h :
  Ev NewUuid id ∈ h ->
  guards any_response (unpack_rule self id target) h
    (extract fuel archive (staging self id) target c).
Proof.
  intros Hid. unfold extract, io. prog_unfold. cbn [prog_bind].
  apply guards_vis. intros [[]|e] _; (split; [exact I|]); [|apply guards_ret]. cbn [prog_bind map_err].
  apply guards_vis. intros [f|e] _; (split; [exact I|]); [|apply guards_ret]. cbn [prog_bind map_err].
  apply guards_vis. intros [[]|e] _; (split; [exact I|]); [|apply guards_ret]. cbn [prog_bind map_err].
  apply guards_bind_post with (fun r t => forall u, r = Ok u -> Ev ArchiveNext None ∈ t).
  - apply unpack_entries_guards. set_solver.
  - eapply wp_mono; [apply unpack_entries_spec|]. intros o t [_ Ho] a -> u ->. done.
  - intros [[]|e] t Ht; [|apply guards_ret]. specialize (Ht tt eq_refl). prog_unfold.
    apply guards_vis. intros there _. split; [exact I|].
    destruct there; cbn [prog_bind]; [apply guards_vis; intros rm _; (split; [exact I|]); cbn [prog_bind]|];
      (apply guards_vis; intros [[]|e] _; (split; [|apply guards_ret]);
       (split; [done|split; [done|split; set_solver]])).
Qed.

(** One more call in front of a trace. *)
Lemma not_renamed_cons e t :
  is_unpacking e = false -> ~ renamed t -> ~ renamed (e :: t).
Proof.
  intros He Ht (a & b & [Hin|Hin]%elem_of_cons); [by rewrite <- Hin in He|].
  apply Ht. by exists a, b.
Qed.

Lemma not_renamed_nil : ~ renamed [].
Proof. by intros (? & ? & ?%elem_of_nil). Qed.

Lemma extract_spec fuel archive temp target c :
  wp any_response (extract fuel archive temp target c) (fun o t =>
    match o with
    | Done (Ok p) => p = target /\ Ev (Rename temp target) (Ok tt) ∈ t /\ Ev ArchiveNext None ∈ t
    | Done (Err _) => ~ renamed t
    | Stopped s => s = Running /\ ~ renamed t
    end).
Proof.
  pose proof not_renamed_cons as Hcons. pose proof not_renamed_nil as Hnil.
  unfold extract, io. prog_unfold. cbn [prog_bind wp].
  intros [[]|e] _; cbn [prog_bind wp map_err]; [|by apply Hcons].
  intros [f|e] _; cbn [prog_bind wp map_err]; [|by repeat apply Hcons].
  intros [[]|e] _; cbn [prog_bind wp map_err]; [|by repeat apply Hcons].
  apply wp_bind. eapply wp_mono; [apply unpack_entries_spec|].
  intros o t [Hn Ho]. destruct o as [[[]|e]|s].
  3: { split; [done|]. by repeat apply Hcons. }
  2: { cbn. rewrite app_nil_r. by repeat apply Hcons. }
  cbn [prog_bind wp]. intros there _.
  assert (forall t', (forall e, Ev (Rename temp target) (Err e) ∉ t' -> True) -> ~ renamed t' ->
    ~ renamed (t ++ t')) as Happ.
  { intros t' _ Ht' (a & b & [Hin|Hin]%elem_of_app); [apply Hn|apply Ht']; by exists a, b. }
  assert (forall e, ~ renamed [Ev (Rename temp target) (Err e)]) as Hre.
  { intros e (a & b & Hin%list_elem_of_singleton). injection Hin as <- <- Hin.
    apply Eqdep.EqdepTheory.inj_pair2 in Hin. done. }
  destruct there; cbn [prog_bind wp]; [intros rm _; cbn [prog_bind wp]|];
    (intros [[]|e] _; cbn [prog_bind wp map_err];
     [split_and!; [done|set_solver|set_solver]
     |do 3 (apply Hcons; [done|]); apply Happ; [done|]; repeat (apply Hcons; [done|]); apply Hre]).
Qed.

(** ** Complete or not at all *)

(** What an operation that fills the image directory [target] does: for one
    staging directory, entries and rename follow the rule; success means the
    target is there, because it already was or by the rename of a completely
    read archive; without success nothing was renamed; and once an archive has
    been opened the staging directory is looked for and, when it is there, its
    removal is attempted. *)
Definition atomic_unpack (self : ImageManager) (target : path) (o : outcome (Result path))
    (t : sys_trace) : Prop :=
  exists id, safe (unpack_rule self id target) [] t /\
    match o with
    | Done (Ok p) => p = target /\
        ((~ renamed t /\ Ev (PathExists target) true ∈ t) \/
         (Ev (Rename (staging self id) target) (Ok tt) ∈ t /\ Ev ArchiveNext None ∈ t))
    | Done (Err _) => ~ renamed t
    | Stopped s => s = Running /\ ~ renamed t
    end /\
    forall a, o = Done a -> (exists f d r, Ev (ArchiveOpen f d) r ∈ t) -> cleaned (staging self id) t.

Definition is_archive (e : event sys) : bool :=
  match e with Ev (ArchiveOpen _ _) _ => true | _ => is_unpacking e end.

Lemma archive_unpacking t :
  Forall (fun e => is_archive e = false) t -> Forall (fun e => is_unpacking e = false) t.
Proof. apply Forall_impl. intros [R e r]. by destruct e. Qed.

Lemma not_opened t : Forall (fun e => is_archive e = false) t ->
  ~ exists f d r, Ev (ArchiveOpen f d) r ∈ t.
Proof.
  rewrite Forall_forall. intros H (f & d & r & Hin). apply list_elem_of_In in Hin.
  by apply H in Hin.
Qed.

(** An error before the archive was opened. *)
Lemma atomic_err self target e t :
  Forall (fun e => is_archive e = false) t -> atomic_unpack self target (Done (Err e)) t.
Proof.
  intros H. exists "". pose proof (archive_unpacking _ H) as Hu. split_and!.
  - apply safe_forall. eapply Forall_impl; [|exact Hu]. apply unpacking_rule.
  - by apply not_renamed.
  - intros a _ Hex. by apply not_opened in Hex.
Qed.

Lemma renamed_app t t' : renamed (t ++ t') <-> renamed t \/ renamed t'.
Proof.
  split.
  - intros (a & b & [Hin|Hin]%elem_of_app); [left|right]; by exists a, b.
  - intros [(a & b & Hin)|(a & b & Hin)]; exists a, b; set_solver.
Qed.

Lemma remove_temp_spec temp :
  wp any_response (remove_temp temp) (fun o t => o = Done tt /\ cleaned temp t /\
    Forall (fun e => is_archive e = false) t).
Proof.
  unfold remove_temp. prog_unfold. cbn [prog_bind wp]. intros [|] _; cbn [prog_bind wp].
  - intros r _. split; [done|]. split; [|by repeat constructor].
    exists true. split; [set_solver|]. intros _. exists r. set_solver.
  - split; [done|]. split; [|by repeat constructor]. exists false. split; [set_solver|done].
Qed.

(** The end both operations share: extract, perhaps do [mid], clean up. *)
Lemma staged_atomic {B} fuel archive self target c (mid : prog sys B) t0 :
  quiet is_archive mid -> returns any_response mid ->
  Forall (fun e => is_archive e = false) t0 ->
  wp any_response
    (id ← call NewUuid;
     res ← extract fuel archive (staging self id) target c;
     _ ← mid;
     _ ← remove_temp (staging self id);
     Ret res) (fun o t => atomic_unpack self target o (t0 ++ t)).
Proof.
  intros Hmid Hret Ht0. prog_unfold. cbn [prog_bind wp]. intros id _. set (temp := staging self id).
  assert (Forall (fun e => is_archive e = false) (t0 ++ [Ev NewUuid id])) as Ht0'
    by (apply Forall_app; split; [done|by repeat constructor]).
  pose proof (archive_unpacking _ Ht0') as Hu0. pose proof (not_renamed _ Hu0) as Hr0.
  apply wp_bind. eapply wp_mono; [apply wp_and;
    [apply (extract_guards fuel archive self id target c (t0 ++ [Ev NewUuid id])); set_solver
    |apply extract_spec]|].
  intros o tx [Hsafe Ho].
  assert (forall t', Forall (fun e => is_archive e = false) t' ->
    safe (unpack_rule self id target) [] (t0 ++ Ev NewUuid id :: tx ++ t')) as Hs.
  { intros t' Ht'. change (Ev NewUuid id :: tx ++ t') with ([Ev NewUuid id] ++ tx ++ t').
    rewrite (app_assoc t0). apply (safe_app _ []).
    { apply safe_forall. eapply Forall_impl; [|exact Hu0]. apply unpacking_rule. }
    apply safe_app; [exact Hsafe|]. apply safe_forall.
    eapply Forall_impl; [|by apply archive_unpacking]. apply unpacking_rule. }
  destruct o as [res|s].
  2: { exists id. rewrite <- (app_nil_r tx). split; [apply Hs; constructor|].
       destruct Ho as [-> Hn]. split; [|done]. split; [done|]. rewrite app_nil_r.
       change (Ev NewUuid id :: tx) with ([Ev NewUuid id] ++ tx).
       rewrite (app_assoc t0), renamed_app. tauto. }
  apply wp_bind. eapply wp_mono; [apply wp_and; [exact Hmid|exact Hret]|].
  intros o tm [Htm [b ->]]. apply wp_bind. eapply wp_mono; [apply remove_temp_spec|].
  intros o tc (-> & Hc & Htc). cbn. rewrite app_nil_r. exists id.
  assert (Forall (fun e => is_archive e = false) (tm ++ tc)) as Htmc by (by apply Forall_app).
  split; [by apply Hs|]. split.
  - assert (~ renamed (tm ++ tc)) as Hn' by (by apply not_renamed, archive_unpacking).
    destruct res as [p|e].
    + destruct Ho as (-> & H1 & H2). split; [done|]. right. set_solver.
    + change (Ev NewUuid id :: tx ++ tm ++ tc) with ([Ev NewUuid id] ++ tx ++ (tm ++ tc)).
      rewrite (app_assoc t0), !renamed_app. rewrite renamed_app in Hr0. rewrite renamed_app in Hn'.
      tauto.
  - intros a _ _. change (Ev NewUuid id :: tx ++ tm ++ tc) with ([Ev NewUuid id] ++ tx ++ tm ++ tc).
    rewrite !app_assoc. rewrite <- (app_nil_r tc). rewrite (app_assoc _ tc []). rewrite <- app_assoc.
    by apply cleaned_app.
Qed.

Lemma read_full_returns f size fuel : forall acc,
  (size - length acc < fuel)%nat -> returns any_response (read_full fuel f size acc).
Proof.
  induction fuel as [|fuel IH]; intros acc Hf; [lia|]. cbn [read_full].
  destruct (Nat.ltb_spec (length acc) size); [|apply returns_ret].
  unfold io. prog_unfold. cbn [prog_bind]. apply returns_vis. intros [[|b data]|e] _; cbn [prog_bind map_err];
    [apply returns_ret| |apply returns_ret].
  apply IH. rewrite length_app. cbn. lia.
Qed.

Lemma read_full_quiet f size fuel : forall acc, quiet is_archive (read_full fuel f size acc).
Proof.
  induction fuel as [|fuel IH]; intros acc; cbn [read_full];
    (destruct (_ <? _)%nat; [|apply emits_ret]); [apply emits_halt|].
  unfold io, quiet in *. prog_unfold. repeat (emits_step; auto).
Qed.

(** The probe ends and leaves the archive machinery alone. *)
Lemma probe_spec p :
  wp any_response (probe p) (fun o t =>
    (exists r, o = Done r) /\ Forall (fun e => is_archive e = false) t).
Proof.
  assert (returns any_response (probe p)) as H1.
  { unfold probe, io. prog_unfold. repeat returns_step.
    apply read_full_returns. cbn. unfold HEADER_SIZE. lia. }
  assert (quiet is_archive (probe p)) as H2.
  { unfold probe, io, quiet. prog_unfold. repeat (emits_step; auto). apply read_full_quiet. }
  apply wp_and; [exact H1|exact H2].
Qed.

Lemma no_slash_split s :
  forallb (fun c => negb (Ascii.eqb c "/")) (String.list_ascii_of_string s) = true ->
  split_on "/" s = [s].
Proof.
  induction s as [|c s IH]; [done|]. cbn. intros [Hc Hs]%andb_true_iff.
  rewrite (IH Hs). rewrite decide_False; [done|]. intros ->. done.
Qed.

Lemma not_contains_slash s :
  str_contains s "/" = false ->
  forallb (fun c => negb (Ascii.eqb c "/")) (String.list_ascii_of_string s) = true.
Proof.
  induction s as [|c s IH]; [done|]. cbn [str_contains]. intros [Hc Hs]%orb_false_iff.
  cbn. rewrite (IH Hs), andb_true_r. unfold starts_with in Hc. cbn in Hc.
  destruct (Ascii.eqb_spec c "/"); [|done]. subst c. cbn in Hc. by destruct s.
Qed.

Lemma relative_name s : split_on "/" s = [s] -> is_absolute s = false.
Proof.
  destruct s as [|c s]; [done|]. cbn. case_decide as Hc; [done|]. intros _.
  destruct c as [[] [] [] [] [] [] [] []]; try done.
Qed.

(** A name that does not begin with [/] is joined to a directory as it is. *)
Lemma path_join_inj p a b :
  is_absolute a = false -> is_absolute b = false -> path_join p a = path_join p b -> a = b.
Proof.
  intros Ha Hb. unfold path_join. rewrite Ha, Hb. destruct (last_char p); [|done].
  case_decide; intros Heq; apply (inj (String.append p)) in Heq; [done|by injection Heq].
Qed.

(** The staging directory is no image directory, except that of a custom image
    of that very name. *)
Lemma staging_not_target `{ImageDeps} self image id :
  staging self id = get_image_path self image -> image = Custom (".extract_" +:+ id).
Proof.
  unfold staging, get_image_path. intros Heq. destruct image as [| | |s];
    [apply path_join_inj in Heq; done..|]. revert Heq. unfold custom_name.
  destruct (_ || str_contains s "/") eqn:Hs.
  - intros Heq. apply path_join_inj in Heq; done.
  - apply orb_false_iff in Hs as [_ Hs]. intros Heq.
    apply path_join_inj in Heq; [by rewrite Heq|done|].
    by apply relative_name, no_slash_split, not_contains_slash.
Qed.


(** ** Verified before use *)

(** The body bytes a download got, and the bytes it put in a file. *)
Definition event_chunk (e : event sys) : bytes :=
  match e with
  | @Ev _ R e r =>
      match e in sys R return R -> bytes with
      | HttpChunk _ => fun r => match r with Ok (Some d) => d | _ => [] end
      | _ => fun _ => []
      end r
  end.
Definition event_written (e : event sys) : bytes :=
  match e with
  | @Ev _ R e r =>
      match e in sys R return R -> bytes with
      | WriteFd _ d => fun r => match r with Ok _ => d | Err _ => [] end
      | _ => fun _ => []
      end r
  end.
Definition downloaded (t : sys_trace) : bytes := concat (map event_chunk t).
Definition written (t : sys_trace) : bytes := concat (map event_written t).

Section Verified.
Context `{ImageDeps}.

(** The published digest is that of the bytes that were downloaded and stored. *)
Definition verified (h : sys_trace) : Prop :=
  exists id body digest, Ev (HttpText id) (Ok body) ∈ h /\ checksum_of body = Some digest /\
    sha256_hex (downloaded h) = trim digest /\ written h = downloaded h.

Definition verified_rule (h : sys_trace) (e : event sys) : Prop :=
  is_archive e = true -> verified h.

Definition no_body (e : event sys) : Prop := event_chunk e = [] /\ event_written e = [].

Lemma downloaded_app t t' : downloaded (t ++ t') = downloaded t ++ downloaded t'.
Proof. unfold downloaded. by rewrite map_app, concat_app. Qed.
Lemma written_app t t' : written (t ++ t') = written t ++ written t'.
Proof. unfold written. by rewrite map_app, concat_app. Qed.

Lemma no_body_empty t : Forall no_body t -> downloaded t = [] /\ written t = [].
Proof.
  induction 1 as [|e t [H1 H2] _ [IH1 IH2]]; [done|].
  unfold downloaded, written in *. cbn. by rewrite H1, H2, IH1, IH2.
Qed.

Lemma verified_app h t : Forall no_body t -> verified h -> verified (h ++ t).
Proof.
  intros [H1 H2]%no_body_empty (id & body & digest & Hb & Hc & Hs & Hw).
  exists id, body, digest. rewrite downloaded_app, written_app, H1, H2, !app_nil_r.
  split; [set_solver|done].
Qed.

(** Once verified, work that neither downloads nor writes stays verified. *)
Lemma guards_verified {A} h (p : prog sys A) :
  verified h -> emits any_response no_body p -> guards any_response verified_rule h p.
Proof.
  intros Hv He. eapply wp_mono; [exact He|]. intros ? t Ht t1 e t2 -> _.
  apply verified_app; [|done]. by apply Forall_app in Ht as [Ht _].
Qed.

Lemma guards_unarchived {A} h (p : prog sys A) :
  quiet is_archive p -> guards any_response verified_rule h p.
Proof.
  intros Hq. apply guards_emits. eapply wp_mono; [exact Hq|].
  intros ? t. apply Forall_impl. intros e He h' He'. congruence.
Qed.

Lemma no_body_read f size fuel : forall acc, emits any_response no_body (read_full fuel f size acc).
Proof.
  induction fuel as [|fuel IH]; intros acc; cbn [read_full];
    (destruct (_ <? _)%nat; [|apply emits_ret]); [apply emits_halt|].
  unfold io. prog_unfold. repeat (emits_step; auto). by split.
Qed.

Lemma no_body_entries temp fuel : emits any_response no_body (unpack_entries fuel temp).
Proof.
  induction fuel as [|fuel IH]; [apply emits_halt|]. cbn [unpack_entries].
  unfold io, check_entry. prog_unfold. repeat (emits_step; auto); by split.
Qed.

Lemma no_body_unpack fuel self temp target :
  emits any_response no_body (unpack_download fuel self temp target).
Proof.
  pose proof no_body_read as Hr. pose proof no_body_entries as He.
  unfold unpack_download, probe, extract, remove_temp, io. prog_unfold.
  repeat (emits_step; auto); by split.
Qed.

(** The hash is that of the body, and the body is what the file gets. *)
Lemma stream_body_spec fuel id file : forall acc,
  wp any_response (stream_body fuel id file acc) (fun o t => forall hash, o = Done (Ok hash) ->
    hash = sha256_hex (acc ++ downloaded t) /\ written t = downloaded t).
Proof.
  induction fuel as [|fuel IH]; intros acc; [by cbn|]. cbn [stream_body].
  unfold io. prog_unfold. cbn [prog_bind wp].
  intros [[chunk|]|e] _; cbn [prog_bind wp map_err]; [| |done].
  - intros [[]|e] _; cbn [prog_bind wp map_err]; [|done].
    eapply wp_mono; [apply IH|]. intros o t Ho hash ->. destruct (Ho hash eq_refl) as [-> Hw].
    unfold downloaded, written in *. cbn. rewrite Hw, <- app_assoc. done.
  - intros [[]|e] _; cbn; [|done]. intros hash [= <-]. by rewrite app_nil_r.
Qed.

Lemma stream_body_quiet fuel id file : forall acc, quiet is_archive (stream_body fuel id file acc).
Proof.
  induction fuel as [|fuel IH]; intros acc; [apply emits_halt|]. cbn [stream_body].
  unfold io, quiet in *. prog_unfold. repeat (emits_step; auto).
Qed.

Lemma fetch_spec url :
  wp any_response (fetch_alpine_sha256 url) (fun o t =>
    Forall (fun e => is_archive e = false) t /\ Forall no_body t /\
    forall e, o = Done (Ok e) -> exists id body digest, e = Some digest /\
      Ev (HttpText id) (Ok body) ∈ t /\ checksum_of body = Some digest).
Proof.
  unfold fetch_alpine_sha256. prog_unfold. cbn [prog_bind wp].
  intros [resp|e] _; cbn [prog_bind wp map_err]; [|by repeat constructor].
  destruct (is_success _); cbn [prog_bind wp]; [|by repeat constructor].
  intros [body|e] _; cbn [prog_bind wp map_err]; [|by repeat constructor].
  destruct (checksum_of body) as [digest|] eqn:Hc; cbn [wp]; [|by repeat constructor].
  split; [by repeat constructor|]. split; [by repeat constructor|].
  intros e [= <-]. exists (http_id resp), body, digest. set_solver.
Qed.

Lemma check_digest_spec expected actual temp :
  wp any_response (check_digest expected actual temp) (fun o t =>
    Forall (fun e => is_archive e = false) t /\ Forall no_body t /\
    forall e, expected = Some e -> o = Done (Ok tt) -> trim e = actual).
Proof.
  unfold check_digest. destruct expected as [e|].
  - destruct (constant_time_eq (trim e) actual) eqn:He.
    + split_and!; [constructor|constructor|]. intros ? [= <-] _. by apply digests_equal.
    + prog_unfold. cbn. intros r _. by repeat constructor.
  - prog_unfold. cbn. intros [] _. by repeat constructor.
Qed.

Lemma download_guards `{Target} fuel self h :
  downloaded h = [] -> written h = [] ->
  guards any_response verified_rule h (download_image fuel self Alpine).
Proof.
  intros Hd Hw. unfold download_image, write_stream_and_hash, io. prog_unfold. cbn [prog_bind].
  apply guards_vis. intros [resp|e] _; (split; [done|]); cbn [prog_bind map_err]; [|apply guards_ret].
  destruct (is_success _); [|apply guards_ret].
  apply guards_bind_post with (fun r t => Forall no_body t /\ forall e, r = Ok e ->
    exists id body digest, e = Some digest /\ Ev (HttpText id) (Ok body) ∈ t /\
      checksum_of body = Some digest).
  { apply guards_emits. eapply wp_mono; [apply fetch_spec|]. intros o t (Hq & _).
    eapply Forall_impl; [|exact Hq]. intros x Hx h' Hx'. congruence. }
  { eapply wp_mono; [apply fetch_spec|]. intros o t (_ & Hn & Ho) a ->. split; [done|].
    intros x ->. by apply Ho. }
  intros [expected|e] t1 [Hn1 Hex]; [|apply guards_ret].
  destruct (Hex expected eq_refl) as (hid & body & digest & -> & Hbody & Hsum). clear Hex.
  apply no_body_empty in Hn1 as [Hd1 Hw1]. cbn [prog_bind].
  apply guards_vis. intros [[]|e] _; (split; [done|]); cbn [prog_bind map_err]; [|apply guards_ret].
  apply guards_vis. intros uid _; (split; [done|]). cbn [prog_bind].
  apply guards_vis. intros [file|e] _; (split; [done|]); cbn [prog_bind map_err];
    [|apply guards_unarchived; quiet_tac].
  set (h' := ((((h ++ _) ++ _) ++ _) ++ _) ++ _).
  assert (downloaded h' = [] /\ written h' = []) as [Hd' Hw'].
  { unfold h'. rewrite !downloaded_app, !written_app, Hd, Hw, Hd1, Hw1. done. }
  assert (Ev (HttpText hid) (Ok body) ∈ h') as Hin by (unfold h'; set_solver).
  clearbody h'.
  apply guards_bind_post with (fun r t => forall hash, r = Ok hash ->
    hash = sha256_hex (downloaded t) /\ written t = downloaded t).
  { apply guards_unarchived, stream_body_quiet. }
  { eapply wp_mono; [apply stream_body_spec|]. intros o t Ho a -> hash ->. by apply Ho. }
  intros [actual|e] t2 Hb; [|apply guards_unarchived; quiet_tac].
  destruct (Hb actual eq_refl) as [Hact Hwr]. clear Hb.
  apply guards_bind_post with (fun r t => Forall no_body t /\ (r = Ok tt -> trim digest = actual)).
  { apply guards_unarchived. eapply wp_mono; [apply check_digest_spec|]. by intros o t (Hq & _). }
  { eapply wp_mono; [apply check_digest_spec|]. intros o t (_ & Hn & Ho) a ->. split; [done|].
    intros ->. by apply Ho. }
  intros [[]|e] t3 [Hn3 Heq]; [|apply guards_ret]. specialize (Heq eq_refl).
  apply guards_verified; [|apply no_body_unpack].
  apply verified_app; [done|]. exists hid, body, digest.
  rewrite !downloaded_app, !written_app, Hd', Hw', Hwr, Heq, Hact. split; [set_solver|done].
Qed.

(** C14. An Alpine image is unpacked only after its digest was checked.  In
    every run of [pull_image], each opening of the archive, each unpacked entry
    and each rename comes after the published checksum file was fetched and
    parsed, and the digest in it is the SHA-256 of exactly the bytes that were
    downloaded and written to the archive; nothing is written after the check.
    Nothing is assumed of the hash function. *)
Theorem alpine_verified_before_use `{Target} (fuel : nat) (self : ImageManager) :
  wp any_response (pull_image fuel self Alpine) (fun _ t =>
    forall t1 e t2, t = t1 ++ e :: t2 -> is_archive e = true -> verified t1).
Proof.
  change (guards any_response verified_rule [] (pull_image fuel self Alpine)).
  unfold pull_image, is_cached. prog_unfold. cbn [prog_bind].
  apply guards_vis. intros here _. split; [done|].
  destruct here; cbn [prog_bind]; [|by apply download_guards].
  apply guards_vis. intros [|] _; (split; [done|]); cbn [prog_bind];
    [apply guards_ret|by apply download_guards].
Qed.
End Verified.

(** ** Where images are kept *)

(** A character of a digest in lower case hexadecimal. *)
Definition hex_char (c : ascii) : bool :=
  let n := nat_of_ascii c in
  ((48 <=? n) && (n <=? 57) || (97 <=? n) && (n <=? 102))%nat.

(** A digest is a non-empty text of such characters. *)
Definition hex_digests `{ImageDeps} : Prop := forall l,
  exists c s, sha256_hex l = String c s /\ forallb hex_char (String.list_ascii_of_string (sha256_hex l)) = true.

(** A prefix of a string has the string's characters only. *)
Lemma substring_chars P n s :
  forallb P (String.list_ascii_of_string s) = true ->
  forallb P (String.list_ascii_of_string (String.substring 0 n s)) = true.
Proof.
  revert s. induction n as [|n IH]; intros [|c s]; try done. cbn.
  intros [Hc Hs]%andb_true_iff. by rewrite Hc, IH.
Qed.

Lemma list_ascii_app a b : String.list_ascii_of_string (a +:+ b) =
  String.list_ascii_of_string a ++ String.list_ascii_of_string b.
Proof. induction a as [|c a IH]; [done|]. cbn. by rewrite <- IH. Qed.

Lemma tail_of_name s :
  split_on "/" s = [s] ->
  tail_components s = if decide (s = "") then [] else if decide (s = ".") then []
    else if decide (s = "..") then [ParentDir] else [Normal s].
Proof.
  intros H. unfold tail_components. rewrite H. cbn. unfold segment_component.
  by repeat case_decide.
Qed.

(** Images are kept side by side in the cache directory: the path of an
    image is one name below it, with a single kind of exception.  A custom
    image whose name is empty, [.] or [..] gets the cache directory itself or
    its parent, so with the last one unpacking and caching work on a directory
    outside the cache.  Of SHA-256 it is assumed that a digest is a non-empty
    text of hexadecimal digits. *)
Lemma image_path_below_cache `{ImageDeps} (self : ImageManager) (image : RootfsImage)
    (Hhex : hex_digests) (Hcache : cache_dir self <> "") :
  (exists name, components (get_image_path self image)
                = components (cache_dir self) ++ [Normal name]) \/
  (exists s, image = Custom s /\
     ((s = "" \/ s = ".") /\ components (get_image_path self image) = components (cache_dir self) \/
      s = ".." /\ components (get_image_path self image)
                  = components (cache_dir self) ++ [ParentDir])).
Proof.
  assert (forall n, split_on "/" n = [n] ->
    components (path_join (cache_dir self) n) = components (cache_dir self) ++ tail_components n)
    as Hjoin by (intros n Hn; apply components_join; [by apply relative_name|done]).
  unfold get_image_path.
  destruct image as [| | |s]; [left; eexists; by rewrite Hjoin by reflexivity..|].
  unfold custom_name.
  destruct (starts_with s "http://" || starts_with s "https://" || str_contains s "/") eqn:Hs.
  - left. destruct (Hhex (bytes_of_string s)) as (c & r & Hsha & Hall).
    assert (split_on "/" (String.substring 0 24 ("custom-" +:+ sha256_hex (bytes_of_string s)))
            = [String.substring 0 24 ("custom-" +:+ sha256_hex (bytes_of_string s))]) as Hsp.
    { apply no_slash_split, substring_chars. rewrite list_ascii_app, forallb_app.
      apply andb_true_iff. split; [reflexivity|].
      rewrite forallb_forall in *. intros x Hx. specialize (Hall x Hx).
      destruct (Ascii.eqb_spec x "/"); [|done]. by subst x. }
    exists (String.substring 0 24 ("custom-" +:+ sha256_hex (bytes_of_string s))).
    rewrite Hjoin by done. f_equal. rewrite tail_of_name by done. rewrite Hsha. done.
  - apply orb_false_iff in Hs as [_ Hs]. pose proof (no_slash_split s (not_contains_slash s Hs)) as Hsp.
    rewrite Hjoin, tail_of_name by done.
    destruct (decide (s = "")); [right; exists s; rewrite app_nil_r; auto 6|].
    destruct (decide (s = ".")); [right; exists s; rewrite app_nil_r; auto 6|].
    destruct (decide (s = "..")); [right; exists s; auto 6|].
    left. by exists s.
Qed.

Definition demo_deps : ImageDeps := {|
  sha256_hex := fun _ => "e3b0c44298fc1c149afbf4c8996fb92427ae41e4649b934ca495991b7852b855";
  status_text := fun z => pretty z |}.

Lemma image_path_below_cache_witness :
  @hex_digests demo_deps /\
  ((exists name, components (@get_image_path demo_deps (mk_image_manager "/c") (Custom ".."))
                = components "/c" ++ [Normal name]) \/
   (exists s, Custom ".." = Custom s /\
     ((s = "" \/ s = ".") /\
        components (@get_image_path demo_deps (mk_image_manager "/c") (Custom "..")) = components "/c" \/
      s = ".." /\ components (@get_image_path demo_deps (mk_image_manager "/c") (Custom ".."))
                  = components "/c" ++ [ParentDir]))).
Proof.
  assert (@hex_digests demo_deps) as Hhex.
  { intros l. eexists _, _. split; [reflexivity|]. vm_compute. reflexivity. }
  split; [exact Hhex|].
  apply (@image_path_below_cache demo_deps (mk_image_manager "/c") (Custom "..") Hhex). discriminate.
Defined.
