(* ===== verification/Chaos.v ===== *)
(** * Network chaos ([net/chaos.rs])

    The profile of a [tc netem] queue and the commands that install and remove
    it.  [f32] is the binary32 format of the Standard Library's [SpecFloat]
    (24 bits of precision, exponent bound 128, nearest-even); percentages are
    printed from the exact value, half to even, as [{:.2}] does. *)
From S2P Require Export Policy Text.
From Stdlib Require Export SpecFloat.

Abbreviation f32 := spec_float.
Definition f32_mul : f32 -> f32 -> f32 := SFmul 24 128.
Definition f32_div : f32 -> f32 -> f32 := SFdiv 24 128.
Definition f32_zero : f32 := S754_zero false.
(** 100.0 *)
Definition f32_hundred : f32 := S754_finite false 13107200 (-17).
Definition is_positive (x : f32) : bool := SFltb f32_zero x.

(** [n / d] to the nearest integer, ties to even. *)
Definition div_half_even (n d : Z) : Z :=
  let q := (n / d)%Z in
  let r := (2 * (n mod d))%Z in
  if (r <? d)%Z then q
  else if (d <? r)%Z then (q + 1)%Z
  else if Z.even q then q else (q + 1)%Z.

(** The value in hundredths, rounded. *)
Definition hundredths (m : positive) (e : Z) : Z :=
  if (0 <=? e)%Z then (Z.pos m * 2 ^ e * 100)%Z
  else div_half_even (Z.pos m * 100) (2 ^ (- e)).

Definition two_digits (z : Z) : string :=
  if (z <? 10)%Z then "0" +:+ pretty z else pretty z.

(** [{:.2}] *)
Definition format_f32_2 (x : f32) : string :=
  match x with
  | S754_nan => "NaN"
  | S754_infinity s => if s then "-inf" else "inf"
  | S754_zero s => if s then "-0.00" else "0.00"
  | S754_finite s m e =>
      let h := hundredths m e in
      (if s then "-" else "") +:+ pretty (h / 100)%Z +:+ "." +:+ two_digits (h mod 100)
  end.

(* @src core/net/chaos.rs:5-16 ChaosProfile *)
Record ChaosProfile : Type := mk_chaos {
  latency_ms : Z;
  jitter_ms : Z;
  packet_loss : f32;
  bandwidth_kbps : option Z;
  corrupt_ratio : f32
}.
#[export] Instance spec_float_eq_dec : EqDecision spec_float.
Proof. solve_decision. Defined.
#[export] Instance ChaosProfile_eq_dec : EqDecision ChaosProfile.
Proof. solve_decision. Defined.

(* @src core/net/chaos.rs:4-4 ChaosProfile::default *)
Definition default_chaos : ChaosProfile := mk_chaos 0 0 f32_zero None f32_zero.

(* @src core/net/chaos.rs:19-25 ChaosProfile::is_active *)
Definition is_active (p : ChaosProfile) : bool :=
  (0 <? latency_ms p)%Z || (0 <? jitter_ms p)%Z || is_positive (packet_loss p) ||
  bool_decide (is_Some (bandwidth_kbps p)) || is_positive (corrupt_ratio p).

(* @src core/net/chaos.rs:54-54 NetworkChaosSimulator::apply_chaos (percentage) *)
Definition percent (x : f32) : string := format_f32_2 (f32_mul x f32_hundred) +:+ "%".

(* @src core/net/chaos.rs:42-63 NetworkChaosSimulator::apply_chaos (netem arguments) *)
Definition netem_args (p : ChaosProfile) : list string :=
  (if (0 <? latency_ms p)%Z then
     ["delay";
      let delay := pretty (latency_ms p) +:+ "ms" in
      if (0 <? jitter_ms p)%Z then delay +:+ " " +:+ pretty (jitter_ms p) +:+ "ms" else delay]
   else []) ++
  (if is_positive (packet_loss p) then ["loss"; percent (packet_loss p)] else []) ++
  (match bandwidth_kbps p with Some kbps => ["rate"; pretty kbps +:+ "kbit"] | None => [] end) ++
  (if is_positive (corrupt_ratio p) then ["corrupt"; percent (corrupt_ratio p)] else []).

(** [Command::output] gives the tool no input and captures what it prints. *)
Definition tool (program : string) (args : list string) : command :=
  mk_command program args None false ∅ Null Piped Piped false.
Definition tc_command (args : list string) : command := tool "tc" args.

Definition status_success (st : exit_status) : bool :=
  match st with Exited code => (code =? 0)%Z | _ => false end.

(* @src core/net/chaos.rs:35-94 NetworkChaosSimulator::apply_chaos *)
Definition apply_chaos `{Target} (profile : ChaosProfile) (interface : string)
    : prog sys (Result unit) :=
  if negb (is_active profile) then ret? tt
  else if is_linux then
    out ←? map_err_p (fun e => SetupFailed
             ("Failed to run 'tc' (is iproute2 installed? do you have CAP_NET_ADMIN?): " +:+ ioe_text e))
             (call (RunCommand (tc_command
               (["qdisc"; "replace"; "dev"; interface; "root"; "netem"] ++ netem_args profile))));
    if status_success (co_status out) then ret? tt
    else Ret (Err (SetupFailed ("tc qdisc replace failed on '" +:+ interface +:+ "': "
                                +:+ trim (from_utf8_lossy (co_stderr out)))))
  else Ret (Err (Unsupported
    "Network chaos simulation requires Linux tc netem; it is not available on this OS")).

(* @src core/net/chaos.rs:98-128 NetworkChaosSimulator::clear_chaos *)
Definition clear_chaos `{Target} (interface : string) : prog sys (Result unit) :=
  if is_linux then
    out ← call (RunCommand (tc_command ["qdisc"; "del"; "dev"; interface; "root"]));
    match out with
    | Ok o =>
        if status_success (co_status o) then ret? tt
        else
          let stderr := from_utf8_lossy (co_stderr o) in
          if str_contains stderr "No such file or directory"
             || str_contains stderr "Cannot find requested qdisc"
          then ret? tt
          else Ret (Err (General ("tc qdisc del failed on '" +:+ interface +:+ "': " +:+ trim stderr)))
    | Err e => Ret (Err (General ("Failed to run 'tc': " +:+ ioe_text e)))
    end
  else ret? tt.

(** ** What is installed *)

Example percent_5 : percent (S754_finite false 13421773 (-28)) = "5.00%".
Proof. vm_compute. reflexivity. Qed.

(** Installing chaos is fail-closed and exact.  An inactive profile does
    nothing; an active one runs [tc] exactly once, to replace the root queue of
    the interface by a netem queue with the profile's arguments, and succeeds
    exactly when [tc] ran and exited with 0; where there is no [tc] it is
    refused.  A jitter without a latency makes the profile active but
    contributes no argument, so a profile of jitter alone installs a queue that
    does nothing and is reported as applied. *)
Lemma apply_chaos_exact `{Target} (profile : ChaosProfile) (interface : string) :
  wp any_response (apply_chaos profile interface) (fun o t =>
    if is_active profile then
      if is_linux then exists reply,
        t = [Ev (RunCommand (tc_command
               (["qdisc"; "replace"; "dev"; interface; "root"; "netem"] ++ netem_args profile)))
               reply] /\
        (o = Done (Ok tt) <->
           exists out, reply = Ok out /\ status_success (co_status out) = true) /\
        (forall e, o = Done (Err e) -> exists m, e = SetupFailed m)
      else t = [] /\ exists m, o = Done (Err (Unsupported m))
    else t = [] /\ o = Done (Ok tt)) /\
  (latency_ms profile = 0%Z -> (0 < jitter_ms profile)%Z ->
   packet_loss profile = f32_zero -> bandwidth_kbps profile = None ->
   corrupt_ratio profile = f32_zero -> is_active profile = true /\ netem_args profile = []).
Proof.
  split.
  - unfold apply_chaos. destruct (is_active profile); [|done]. cbn [negb].
    destruct is_linux; [|cbn; eauto].
    wp_simpl. intros [out|e] _; cbn [map_err prog_bind wp].
    + destruct (status_success (co_status out)) eqn:Hs; cbn; eexists; (split; [reflexivity|]);
        (split; [|intros e' [= <-]; eauto || done]).
      * split; [|done]. intros _. by exists out.
      * split; [done|]. intros (? & [= <-] & ?). congruence.
    + eexists. split; [reflexivity|]. split; [|intros e' [= <-]; eauto].
      split; [done|]. by intros (? & ? & ?).
  - intros Hl Hj Hp Hb Hc. unfold is_active, netem_args. rewrite Hl, Hp, Hb, Hc.
    destruct (Z.ltb_spec 0 (jitter_ms profile)); [|lia]. done.
Qed.

(** ** Topologies ([net/topology.rs])

    Only the isolated topology has an effect: the loopback interface comes up. *)

Module Topology.

(* @src core/net/topology.rs:4-16 NetworkTopology *)
Inductive NetworkTopology : Type :=
| Isolated
| Nat (subnet : string)
| Bridge (interface : string)
| MeshSubnet (network_id ip_address : string)
| Offline.

(* @src core/net/topology.rs:18-22 NetworkTopology::default *)
Definition default_topology : NetworkTopology := Isolated.

(* @src core/net/topology.rs:27-53 VirtualNetworkManager::configure_topology *)
Definition configure_topology `{Target} (t : NetworkTopology) : prog sys (Result unit) :=
  match t with
  | Isolated =>
      _ ← (if is_linux then let_ call (RunCommand (tool "ip" ["link"; "set"; "lo"; "up"])); Ret tt
           else Ret tt);
      ret? tt
  | Nat _ | Bridge _ | MeshSubnet _ _ | Offline => ret? tt
  end.

(** Every other topology is accepted and changes nothing. *)
Lemma configure_topology_ok `{Target} t :
  wp any_response (configure_topology t) (fun o tr => o = Done (Ok tt) /\
    (tr <> [] -> t = Isolated /\ is_linux = true)).
Proof.
  destruct t; cbn [configure_topology]; try (split; done). prog_unfold.
  destruct is_linux; cbn; [intros r _|]; done.
Qed.
End Topology.
