(* ===== verification/Controller.v ===== *)
(** * The network controller ([net/controller.rs])

    A control socket accepts one JSON command per line; the handlers share the
    chaos profile and the partition flag, each behind its own lock.  This
    file has the handler as it behaves alone and the set-up of the listener;
    [Handlers] has any number of handlers that share the locks. *)
From S2P Require Export Chaos.

(* @src core/net/controller.rs:9-30 NetworkCommand *)
Inductive NetworkCommand : Type :=
| SetChaos (latency : Z) (jitter : option Z) (loss : f32)
| SetPartition (blocked : bool)
| SetBandwidth (kbps : Z)
| Reset
| GetStatus.

(* @src core/net/controller.rs:32-38 NetworkStatusResponse *)
Record NetworkStatusResponse : Type := mk_status {
  st_latency_ms : Z;
  st_packet_loss : f32;
  st_partition_active : bool;
  st_bandwidth_kbps : option Z
}.

(** The JSON values a handler answers with. *)
Inductive reply : Type :=
| Applied (what : string)
| Status (s : NetworkStatusResponse).

(** The state that all handlers share. *)
(* @src core/net/controller.rs:42-43 DynamicNetworkController (the two locks) *)
Record net_state : Type := mk_net { chaos : ChaosProfile; partition_active : bool }.

(* @src core/net/controller.rs:49-54 DynamicNetworkController::new *)
Definition new_controller : net_state := mk_net default_chaos false.

(* @src core/net/controller.rs:162-165 handle_network_command (SetChaos) *)
Definition set_chaos (latency : Z) (jitter : option Z) (loss : f32) (c : ChaosProfile) : ChaosProfile :=
  mk_chaos latency (default 0%Z jitter) loss (bandwidth_kbps c) (corrupt_ratio c).

(* @src core/net/controller.rs:174-175 handle_network_command (SetBandwidth) *)
Definition set_bandwidth (kbps : Z) (c : ChaosProfile) : ChaosProfile :=
  mk_chaos (latency_ms c) (jitter_ms c) (packet_loss c) (Some kbps) (corrupt_ratio c).

Definition status_of (c : ChaosProfile) (p : bool) : NetworkStatusResponse :=
  mk_status (latency_ms c) (packet_loss c) p (bandwidth_kbps c).

(** A handler that runs alone. *)
(* @src core/net/controller.rs:155-197 handle_network_command *)
Definition handle_network_command (cmd : NetworkCommand) (s : net_state) : net_state * reply :=
  match cmd with
  | SetChaos l j loss => (mk_net (set_chaos l j loss (chaos s)) (partition_active s), Applied "set_chaos")
  | SetPartition blocked => (mk_net (chaos s) blocked, Applied "set_partition")
  | SetBandwidth kbps => (mk_net (set_bandwidth kbps (chaos s)) (partition_active s), Applied "set_bandwidth")
  | Reset => (mk_net default_chaos false, Applied "reset")
  | GetStatus => (s, Status (status_of (chaos s) (partition_active s)))
  end.

(** ** The socket of the listener *)

(* @src core/net/controller.rs:123-153 remove_stale_socket_if_owned *)
Definition remove_stale_socket_if_owned (p : path) : prog sys (Result unit) :=
  meta ←? map_err_p (fun e => General ("Cannot stat existing control socket " +:+ display_path p +:+ ": "
                                       +:+ ioe_text e))
            (call (Metadata p));
  if md_is_socket meta then
    euid ← call GetEuid;
    if (md_uid meta =? euid)%Z then
      map_err_p (fun e => General ("Failed to remove stale socket: " +:+ ioe_text e))
        (call (RemoveFile p))
    else Ret (Err (SecurityViolation ("Refusing to delete control socket '" +:+ display_path p +:+ "' owned by uid "
                +:+ pretty (md_uid meta) +:+ " (current uid " +:+ pretty euid +:+ ")")))
  else Ret (Err (SecurityViolation ("Refusing to delete '" +:+ display_path p
              +:+ "': it exists but is not a socket"))).

(** Up to the spawned accept loop. *)
(* @src core/net/controller.rs:62-72 DynamicNetworkController::start_control_listener *)
Definition start_control_listener (socket_path : path) : prog sys (Result unit) :=
  there ← call (PathExists socket_path);
  _ ←? (if there : bool then remove_stale_socket_if_owned socket_path else ret? tt);
  _ ←? map_err_p Io (call (BindListener socket_path));
  let_ call (SetPermissions socket_path 384);
  ret? tt.

(** The four claims for one explicit trace of the listener's start. *)
Ltac listener_goals :=
  split_and!; intros; ev_simpl; eauto;
  try (split; [done|]; eexists; split_and!; [|eassumption|]; set_solver);
  try (right; set_solver); try (left; set_solver);
  try match goal with
      | H : md_is_socket _ = false \/ _ |- _ =>
          exfalso; destruct H as [H|H]; [congruence|apply H; set_solver]
      | r : io_result unit |- _ => split; [set_solver|exists r; set_solver]
      end.

(** Starting the listener deletes nothing that is not its own stale socket:
    a file is removed only at the configured path and only after it was found
    to be a socket owned by the current user; a file of any other kind or owner
    stays and is reported as a security violation; and the listener is bound
    only if the path was free or its old socket was removed, and then its file
    is made private to the user. *)
Lemma listener_start_safe (socket_path : path) :
  wp any_response (start_control_listener socket_path) (fun o t =>
    (forall p r, Ev (RemoveFile p) r ∈ t -> p = socket_path /\
       exists m, Ev (Metadata socket_path) (Ok m) ∈ t /\ md_is_socket m = true /\
                 Ev GetEuid (md_uid m) ∈ t) /\
    (forall m, Ev (Metadata socket_path) (Ok m) ∈ t ->
       (md_is_socket m = false \/ ~ Ev GetEuid (md_uid m) ∈ t) ->
       exists e, o = Done (Err (SecurityViolation e))) /\
    (forall p r, Ev (BindListener p) r ∈ t ->
       Ev (PathExists socket_path) false ∈ t \/ Ev (RemoveFile socket_path) (Ok tt) ∈ t) /\
    (o = Done (Ok tt) -> Ev (BindListener socket_path) (Ok tt) ∈ t /\
       exists r, Ev (SetPermissions socket_path 384) r ∈ t)).
Proof.
  unfold start_control_listener, remove_stale_socket_if_owned. wp_simpl.
  intros [|] _; cbn [prog_bind wp].
  - intros [m|e] _; cbn [map_err prog_bind wp].
    + destruct (md_is_socket m) eqn:Hm; cbn [prog_bind wp].
      * intros euid _. destruct (Z.eqb_spec (md_uid m) euid) as [He|He]; cbn [prog_bind wp].
        -- subst euid. intros [[]|e] _; cbn [map_err prog_bind wp].
           ++ intros [[]|e] _; cbn [map_err prog_bind wp]; [intros r _|]; listener_goals.
           ++ listener_goals.
        -- listener_goals.
      * listener_goals.
    + listener_goals.
  - intros [[]|e] _; cbn [map_err prog_bind wp]; [intros r _|]; listener_goals.
Qed.
