(* ===== verification/Handlers.v ===== *)
(** * Concurrent handlers of the network controller ([net/controller.rs])

    Every connection has its own task, and all handlers share the two locks.
    A handler is a sequence of moves between which others run: it takes a lock
    ([c_state] before [p_state] when it needs both), reads or writes under it,
    and drops its guards at the end of its arm.  The moves are a function, so a
    schedule can be evaluated; the theorems hold for every schedule.  The locks
    go to any waiter that fits: the queue of the runtime's lock only narrows
    the choice. *)
From S2P Require Export Controller.
From stdpp Require Export relations.

(** How far a handler has come. *)
Inductive progress : Type :=
| Ready
| HoldC
| WroteC
| HoldP
| HoldCP
| ReadP (p : bool)
| Answered (r : reply).

Abbreviation task := (NetworkCommand * progress)%type.

Record system : Type := mk_system { shared : net_state; tasks : list task }.

(** The guards a task holds. *)
Definition holds_c (t : task) : bool :=
  match t.2 with HoldC | WroteC | HoldCP | ReadP _ => true | _ => false end.
Definition writes_c (t : task) : bool :=
  match t.1 with GetStatus => false | _ => holds_c t end.
Definition writes_p (t : task) : bool :=
  match t.2 with HoldP | HoldCP => true | _ => false end.

(** [write().await] and [read().await] go through when nobody is in the way. *)
Definition c_free (l : list task) : bool := forallb (fun t => negb (holds_c t)) l.
Definition c_readable (l : list task) : bool := forallb (fun t => negb (writes_c t)) l.
Definition p_free (l : list task) : bool := forallb (fun t => negb (writes_p t)) l.

Definition take_when (free : bool) (s : net_state) (t : task) : option (net_state * task) :=
  if free then Some (s, t) else None.

(* @src core/net/controller.rs:160-196 handle_network_command (lock by lock) *)
Definition task_step (l : list task) (s : net_state) (t : task) : option (net_state * task) :=
  match t with
  | (SetChaos la j lo, Ready) => take_when (c_free l) s (SetChaos la j lo, HoldC)
  | (SetChaos la j lo, HoldC) =>
      Some (mk_net (set_chaos la j lo (chaos s)) (partition_active s),
            (SetChaos la j lo, Answered (Applied "set_chaos")))
  | (SetBandwidth k, Ready) => take_when (c_free l) s (SetBandwidth k, HoldC)
  | (SetBandwidth k, HoldC) =>
      Some (mk_net (set_bandwidth k (chaos s)) (partition_active s),
            (SetBandwidth k, Answered (Applied "set_bandwidth")))
  | (SetPartition b, Ready) => take_when (p_free l) s (SetPartition b, HoldP)
  | (SetPartition b, HoldP) =>
      Some (mk_net (chaos s) b, (SetPartition b, Answered (Applied "set_partition")))
  | (Reset, Ready) => take_when (c_free l) s (Reset, HoldC)
  | (Reset, HoldC) => Some (mk_net default_chaos (partition_active s), (Reset, WroteC))
  | (Reset, WroteC) => take_when (p_free l) s (Reset, HoldCP)
  | (Reset, HoldCP) => Some (mk_net (chaos s) false, (Reset, Answered (Applied "reset")))
  | (GetStatus, Ready) => take_when (c_readable l) s (GetStatus, HoldC)
  | (GetStatus, HoldC) => take_when (p_free l) s (GetStatus, ReadP (partition_active s))
  | (GetStatus, ReadP p) => Some (s, (GetStatus, Answered (Status (status_of (chaos s) p))))
  | _ => None
  end.

Definition system_step (i : nat) (y : system) : option system :=
  t ← tasks y !! i;
  r ← task_step (tasks y) (shared y) t;
  Some (mk_system r.1 (<[i := r.2]> (tasks y))).

Definition moves (y y' : system) : Prop := exists i, system_step i y = Some y'.

Definition start_system (cmds : list NetworkCommand) (s : net_state) : system :=
  mk_system s (map (fun c => (c, Ready)) cmds).

Definition answered (t : task) : bool := match t.2 with Answered _ => true | _ => false end.

(** ** The sequential specification *)

(** The handlers [order] of [cmds] run one after the other. *)
Fixpoint replay (cmds : list NetworkCommand) (order : list nat) (s : net_state)
    : net_state * list (nat * reply) :=
  match order with
  | [] => (s, [])
  | i :: order =>
      match cmds !! i with
      | Some c =>
          let (s, r) := handle_network_command c s in
          let (s, rs) := replay cmds order s in
          (s, (i, r) :: rs)
      | None => replay cmds order s
      end
  end.

Lemma replay_snoc cmds order i c s :
  cmds !! i = Some c ->
  replay cmds (order ++ [i]) s =
    let '(a, rs) := replay cmds order s in
    let '(a', r) := handle_network_command c a in (a', rs ++ [(i, r)]).
Proof.
  intros Hc. revert s. induction order as [|j order IH]; intros s; cbn.
  - rewrite Hc. by destruct (handle_network_command c s).
  - destruct (cmds !! j) as [cj|]; [|apply IH].
    destruct (handle_network_command cj s) as [s1 r1]. rewrite IH.
    destruct (replay cmds order s1) as [a rs].
    by destruct (handle_network_command c a).
Qed.

Lemma replay_indices cmds order s i r : (i, r) ∈ (replay cmds order s).2 -> i ∈ order.
Proof.
  revert s. induction order as [|j order IH]; intros s; cbn; [by rewrite elem_of_nil|].
  destruct (cmds !! j) as [c|].
  - destruct (handle_network_command c s) as [s1 r1]. specialize (IH s1).
    destruct (replay cmds order s1) as [a rs]. cbn in *.
    rewrite !elem_of_cons. intros [[= -> ->]|Hin]; [by left|right; auto].
  - intros Hin. apply list_elem_of_further. by eapply IH.
Qed.

(** ** The simulation *)

(** Where the effect of a handler takes place, seen from its progress: a
    status is taken when the flag is copied, the others when they answer. *)
Definition linearized (t : task) : bool :=
  match t.2 with ReadP _ | Answered _ => true | _ => false end.

(** The states a handler can be in. *)
Definition task_ok (t : task) : bool :=
  match t with
  | (_, Ready) | (_, Answered _) => true
  | (SetChaos _ _ _, HoldC) | (SetBandwidth _, HoldC) => true
  | (SetPartition _, HoldP) => true
  | (Reset, HoldC) | (Reset, WroteC) | (Reset, HoldCP) => true
  | (GetStatus, HoldC) | (GetStatus, ReadP _) => true
  | _ => false
  end.

(** A reset that has written the profile and not yet the flag. *)
Definition resetting (t : task) : bool :=
  match t.2 with WroteC | HoldCP => true | _ => false end.

(** Two tasks do not hold the same lock, unless both only read. *)
Definition compatible (t u : task) : Prop :=
  (writes_c t = true -> holds_c u = false) /\ (writes_p t = true -> writes_p u = false).

Definition exclusive (l : list task) : Prop :=
  forall i j ti tj, i <> j -> l !! i = Some ti -> l !! j = Some tj -> compatible ti tj.

(** What a task that took effect answers, given its reply in the replay. *)
Definition answers (s : net_state) (t : task) (r : reply) : Prop :=
  match t.2 with
  | Answered r' => r' = r
  | ReadP p => r = Status (status_of (chaos s) p)
  | _ => False
  end.

(** The shared state against the state [a] of the replay: they differ only
    while a reset has written the profile and not yet the flag. *)
Definition simulates (l : list task) (s a : net_state) : Prop :=
  partition_active a = partition_active s /\
  (chaos a = chaos s \/ exists i t, l !! i = Some t /\ resetting t = true) /\
  (forall i t, l !! i = Some t -> resetting t = true -> chaos s = default_chaos).

Record linear_inv (cmds : list NetworkCommand) (s0 : net_state) (order : list nat)
    (y : system) : Prop := mk_linear_inv {
  inv_cmds : (tasks y).*1 = cmds;
  inv_ok : forall i t, tasks y !! i = Some t -> task_ok t = true;
  inv_excl : exclusive (tasks y);
  inv_nodup : NoDup order;
  inv_order : forall i, i ∈ order <-> exists t, tasks y !! i = Some t /\ linearized t = true;
  inv_sim : simulates (tasks y) (shared y) (replay cmds order s0).1;
  inv_answers : forall i t r, tasks y !! i = Some t -> (i, r) ∈ (replay cmds order s0).2 ->
                  answers (shared y) t r
}.

Lemma linear_inv_start cmds s0 : linear_inv cmds s0 [] (start_system cmds s0).
Proof.
  assert (Hl : forall i t, tasks (start_system cmds s0) !! i = Some t -> t.2 = Ready).
  { cbn. intros i t. rewrite list_lookup_fmap. by intros (c & _ & ->)%fmap_Some. }
  split.
  - cbn. rewrite <- list_fmap_compose. apply list_fmap_id.
  - intros i [c pr] H. apply Hl in H. cbn in H. subst pr. by destruct c.
  - intros i j ti tj _ Hi _. apply Hl in Hi. destruct ti as [c pr]; cbn in Hi; subst pr.
    split; by destruct c.
  - constructor.
  - intros i. rewrite elem_of_nil. split; [done|]. intros (t & H & Hlin).
    apply Hl in H. unfold linearized in Hlin. by rewrite H in Hlin.
  - split_and!; [done|by left|]. intros i t H Hr. apply Hl in H. unfold resetting in Hr.
    by rewrite H in Hr.
  - cbn. intros i t r _. by rewrite elem_of_nil.
Qed.

Lemma forallb_lookup {A} (f : A -> bool) (l : list A) i x :
  forallb f l = true -> l !! i = Some x -> f x = true.
Proof.
  rewrite forallb_forall. intros H Hi. apply H, list_elem_of_In. by eapply list_elem_of_lookup_2.
Qed.

Lemma take_when_Some b s t r : take_when b s t = Some r -> b = true /\ r = (s, t).
Proof. destruct b; [|done]. by intros [= <-]. Qed.

(** Inversion of one step into its moves. *)
Ltac step_cases H :=
  match type of H with
  | task_step _ _ (?c, ?pr) = Some _ =>
      destruct c, pr; cbn in H; try done;
      first [ apply take_when_Some in H as [? H] | idtac ];
      injection H as ? ?; subst
  end.

Lemma step_command l s t s' t' : task_step l s t = Some (s', t') -> t'.1 = t.1.
Proof. destruct t as [c pr]. intros H. by step_cases H. Qed.

Lemma step_ok l s t s' t' : task_step l s t = Some (s', t') -> task_ok t' = true.
Proof. destruct t as [c pr]. intros H. by step_cases H. Qed.

(** A step takes a guard only when the others leave it. *)
Lemma step_compatible l s t s' t' i j u :
  task_step l s t = Some (s', t') -> l !! i = Some t -> l !! j = Some u -> i <> j ->
  exclusive l -> compatible t' u /\ compatible u t'.
Proof.
  intros H Hi Hj Hij Hx.
  destruct (Hx i j t u Hij Hi Hj) as [Hc Hp], (Hx j i u t (not_eq_sym Hij) Hj Hi) as [Hc' Hp'].
  destruct t as [c pr]. step_cases H; unfold c_free, c_readable, p_free in *;
    repeat match goal with
      | Hf : forallb _ l = true |- _ =>
          apply (forallb_lookup _ _ _ _ Hf) in Hj as ?; apply negb_true_iff in H; clear Hf
      | Hf : negb _ = true |- _ => apply negb_true_iff in Hf
      end;
    unfold compatible; cbn in *; repeat split; intros;
    first [ done | by apply Hc | by apply Hp | by apply Hc' | by apply Hp'
          | destruct u as [cu pru]; destruct cu, pru; cbn in *;
            first [done | congruence | intuition congruence] ].
Qed.

Lemma insert_lookup_cases {A} (l : list A) i x k u :
  <[i := x]> l !! k = Some u -> (k = i /\ u = x) \/ (k <> i /\ l !! k = Some u).
Proof.
  destruct (decide (k = i)) as [->|Hk].
  - intros H. apply list_lookup_insert_Some in H. left. naive_solver.
  - rewrite list_lookup_insert_ne by done. by right.
Qed.

Lemma step_exclusive l s t s' t' i :
  task_step l s t = Some (s', t') -> l !! i = Some t -> exclusive l -> exclusive (<[i := t']> l).
Proof.
  intros H Hi Hx j k tj tk Hjk Hj Hk.
  apply insert_lookup_cases in Hj as [[-> ->]|[Hji Hj]], Hk as [[-> ->]|[Hki Hk]]; try done.
  - by destruct (step_compatible l s t s' t' i k tk).
  - by destruct (step_compatible l s t s' t' i j tj).
  - by apply (Hx j k).
Qed.

(** Only a writer of the profile changes it. *)
Lemma step_chaos l s t s' t' :
  task_step l s t = Some (s', t') -> writes_c t = false -> chaos s' = chaos s.
Proof. destruct t as [c pr]. intros H Hw. by step_cases H. Qed.

(** With the profile written by nobody else, no other reset is half done. *)
Lemma no_reset_beside l i t j u :
  exclusive l -> l !! i = Some t -> l !! j = Some u -> j <> i -> holds_c t = true ->
  resetting u = true -> task_ok u = true -> False.
Proof.
  intros Hx Hi Hj Hij Hh Hr Hok. destruct (Hx j i u t Hij Hj Hi) as [Hc _].
  rewrite Hc in Hh; [done|]. destruct u as [c pr]; destruct c, pr; done.
Qed.

(** The steps that are not the effect of their handler. *)
Lemma silent_simulates l s t s' t' i a :
  task_step l s t = Some (s', t') -> l !! i = Some t -> linearized t' = linearized t ->
  simulates l s a -> simulates (<[i := t']> l) s' a.
Proof.
  intros H Hi Hlin (Hp & Hch & Hre).
  assert (Hlen : (i < length l)%nat) by by eapply lookup_lt_Some.
  assert ((s' = mk_net default_chaos (partition_active s) /\ t' = (Reset, WroteC)) \/
          (s' = s /\ resetting t' = resetting t)) as [[-> ->]|[-> Hrt]].
  { destruct t as [c pr]. step_cases H; first [done | by left | by right]. }
  - split_and!; cbn; [done| |].
    + right. exists i, (Reset, WroteC). by rewrite list_lookup_insert_eq.
    + done.
  - split_and!; [done| |].
    + destruct Hch as [Hch|(j & u & Hj & Hu)]; [by left|right].
      destruct (decide (j = i)) as [->|Hji].
      * exists i, t'. rewrite list_lookup_insert_eq by done. split; [done|]. congruence.
      * exists j, u. by rewrite list_lookup_insert_ne.
    + intros j u Hj Hu. apply insert_lookup_cases in Hj as [[-> ->]|[Hji Hj]]; [|by eapply Hre].
      apply (Hre i t Hi). congruence.
Qed.

Lemma silent_answers l s t s' t' r :
  task_step l s t = Some (s', t') -> linearized t' = linearized t -> answers s t r ->
  answers s' t' r.
Proof. destruct t as [c pr]. intros H Hlin Ha. step_cases H; cbn in *; congruence. Qed.

(** The profile of the replay is the shared one for whoever holds the lock. *)
Lemma holder_agrees l s a i t :
  exclusive l -> (forall j u, l !! j = Some u -> task_ok u = true) ->
  l !! i = Some t -> holds_c t = true -> resetting t = false -> simulates l s a -> a = s.
Proof.
  intros Hx Hok Hi Hh Hr (Hp & Hch & _). destruct a as [ca pa], s as [cs ps]. cbn in *. subst pa.
  f_equal. destruct Hch as [Hch|(j & u & Hj & Hu)]; [done|exfalso].
  destruct (decide (j = i)) as [->|Hji]; [congruence|].
  by apply (no_reset_beside l i t j u); eauto.
Qed.

(** The steps that are: the replay makes the whole handler's step. *)
Lemma effect_simulates l s t s' t' i a a' r :
  exclusive l -> (forall j u, l !! j = Some u -> task_ok u = true) ->
  task_step l s t = Some (s', t') -> l !! i = Some t ->
  linearized t = false -> linearized t' = true -> simulates l s a ->
  handle_network_command t.1 a = (a', r) ->
  simulates (<[i := t']> l) s' a' /\ answers s' t' r.
Proof.
  intros Hx Hok H Hi Hl Hl' Hsim Hr. pose proof Hsim as (Hp & Hch & Hre).
  assert (Hlen : (i < length l)%nat) by by eapply lookup_lt_Some.
  assert (Hold : forall j u, <[i := t']> l !! j = Some u -> resetting u = true ->
                   j <> i /\ l !! j = Some u).
  { intros j u Hj Hu. apply insert_lookup_cases in Hj as [[-> ->]|]; [|done].
    destruct t' as [c' []]; done. }
  destruct (holds_c t && negb (resetting t)) eqn:Hhold.
  - apply andb_true_iff in Hhold as [Hh Hnr]. apply negb_true_iff in Hnr.
    assert (a = s) as -> by by eapply holder_agrees.
    assert (s' = a' /\ answers s' t' r) as [-> Hans].
    { destruct t as [c pr]. step_cases H; cbn in Hr |- *; injection Hr as ? ?; by subst. }
    split; [|done]. split_and!; [done|by left|]. intros j u Hj Hu.
    destruct (Hold _ _ Hj Hu) as [Hji Hj']. exfalso.
    by apply (no_reset_beside l i t j u); eauto.
  - destruct t as [c pr]. step_cases H; try discriminate Hl'; try discriminate Hhold;
      cbn in Hr |- *; injection Hr as ? ?; subst.
    + split; [|done]. split_and!; [done| |].
      * destruct Hch as [Hch|(j & u & Hj & Hu)]; [by left|right].
        exists j, u. split; [|done]. rewrite list_lookup_insert_ne; [done|].
        intros <-. rewrite Hi in Hj. by injection Hj as <-.
      * intros j u Hj Hu. destruct (Hold _ _ Hj Hu) as [_ Hj']. by eapply Hre.
    + split; [|done]. split_and!; [done| |].
      * left. cbn. symmetry. by eapply (Hre _ _ Hi).
      * intros j u Hj Hu. cbn. by eapply (Hre _ _ Hi).
Qed.

Lemma other_answers l s t s' t' i j u r :
  exclusive l -> task_step l s t = Some (s', t') -> l !! i = Some t -> l !! j = Some u -> j <> i ->
  answers s u r -> answers s' u r.
Proof.
  intros Hx H Hi Hj Hji Ha. destruct u as [c []]; try done.
  assert (writes_c t = false) as Hw.
  { destruct (writes_c t) eqn:Hw; [|done].
    destruct (Hx i j _ _ (not_eq_sym Hji) Hi Hj) as [Hc _]. by specialize (Hc Hw). }
  apply step_chaos in H; [|done]. unfold answers in *. cbn in *. by rewrite H.
Qed.

Lemma system_step_Some i y y' :
  system_step i y = Some y' -> exists t s' t', tasks y !! i = Some t /\
    task_step (tasks y) (shared y) t = Some (s', t') /\ y' = mk_system s' (<[i := t']> (tasks y)).
Proof.
  unfold system_step. destruct (tasks y !! i) as [t|]; [cbn|done].
  destruct (task_step _ _ t) as [[s' t']|] eqn:H; cbn; [|done]. intros [= <-]. eauto 10.
Qed.

Lemma step_linearized l s t s' t' :
  task_step l s t = Some (s', t') -> linearized t = true -> linearized t' = true.
Proof. destruct t as [c pr]. intros H Hl. by step_cases H. Qed.

Lemma command_lookup (l : list task) i t : l !! i = Some t -> l.*1 !! i = Some t.1.
Proof. intros Hi. rewrite list_lookup_fmap. apply fmap_Some. eauto. Qed.

Lemma insert_commands (l : list task) i t t' :
  l !! i = Some t -> t'.1 = t.1 -> (<[i := t']> l).*1 = l.*1.
Proof.
  intros Hi He. rewrite list_fmap_insert, He. apply list_insert_id.
  by apply command_lookup.
Qed.

(** What every step preserves, whatever it does to the order. *)
Lemma step_frame cmds s0 order y i t s' t' :
  linear_inv cmds s0 order y -> tasks y !! i = Some t ->
  task_step (tasks y) (shared y) t = Some (s', t') ->
  (<[i := t']> (tasks y)).*1 = cmds /\
  (forall j u, <[i := t']> (tasks y) !! j = Some u -> task_ok u = true) /\
  exclusive (<[i := t']> (tasks y)).
Proof.
  intros [Hcmds Hok Hx _ _ _ _] Hi Ht. split_and!.
  - rewrite (insert_commands _ i t); eauto using step_command.
  - intros j u [[-> ->]|[_ Hj]]%insert_lookup_cases; eauto using step_ok.
  - by eapply step_exclusive.
Qed.

Lemma linear_inv_silent cmds s0 order y i t s' t' :
  linear_inv cmds s0 order y -> tasks y !! i = Some t ->
  task_step (tasks y) (shared y) t = Some (s', t') -> linearized t' = linearized t ->
  linear_inv cmds s0 order (mk_system s' (<[i := t']> (tasks y))).
Proof.
  intros Hinv Hi Ht Hl. destruct (step_frame _ _ _ _ _ _ _ _ Hinv Hi Ht) as (Hcmds' & Hok' & Hx').
  destruct Hinv as [_ _ Hx Hnd Hord Hsim Hans].
  assert (Hlen : (i < length (tasks y))%nat) by by eapply lookup_lt_Some.
  split; cbn; try done.
  - intros j. rewrite Hord. split.
    + intros (u & Hj & Hu). destruct (decide (j = i)) as [->|Hji].
      * exists t'. rewrite list_lookup_insert_eq by done. split; [done|congruence].
      * exists u. by rewrite list_lookup_insert_ne.
    + intros (u & [[-> ->]|[_ Hj]]%insert_lookup_cases & Hu); [|eauto].
      exists t. split; [done|congruence].
  - by eapply silent_simulates.
  - intros j u r [[-> ->]|[Hji Hj]]%insert_lookup_cases Hr.
    + eapply silent_answers; [done|done|]. by eapply Hans.
    + by apply (other_answers _ _ _ _ _ _ _ _ _ Hx Ht Hi Hj Hji), (Hans j).
Qed.

Lemma linear_inv_effect cmds s0 order y i t s' t' :
  linear_inv cmds s0 order y -> tasks y !! i = Some t ->
  task_step (tasks y) (shared y) t = Some (s', t') ->
  linearized t = false -> linearized t' = true ->
  linear_inv cmds s0 (order ++ [i]) (mk_system s' (<[i := t']> (tasks y))).
Proof.
  intros Hinv Hi Ht Hl Hl'.
  destruct (step_frame _ _ _ _ _ _ _ _ Hinv Hi Ht) as (Hcmds' & Hok' & Hx').
  destruct Hinv as [Hcmds Hok Hx Hnd Hord Hsim Hans].
  assert (Hlen : (i < length (tasks y))%nat) by by eapply lookup_lt_Some.
  assert (Hci : cmds !! i = Some t.1) by (rewrite <- Hcmds; by apply command_lookup).
  assert (Hfresh : i ∉ order) by (intros (u & Hu & Hlu)%Hord; congruence).
  pose proof (replay_snoc cmds order i t.1 s0 Hci) as Hrep.
  pose proof (replay_indices cmds order s0) as Hidx.
  destruct (replay cmds order s0) as [a rs]. cbn in Hsim, Hans, Hidx.
  destruct (handle_network_command t.1 a) as [a' r] eqn:Hr.
  destruct (effect_simulates _ _ _ _ _ _ _ _ _ Hx Hok Ht Hi Hl Hl' Hsim Hr) as [Hsim' Ha'].
  split; cbn; try done; rewrite ?Hrep; try done.
  - apply NoDup_app. split_and!; [done| |apply NoDup_singleton].
    intros j Hj ->%list_elem_of_singleton. done.
  - intros j. rewrite elem_of_app, list_elem_of_singleton, Hord. split.
    + intros [(u & Hj & Hu)| ->].
      * exists u. rewrite list_lookup_insert_ne; [done|]. intros ->. congruence.
      * exists t'. by rewrite list_lookup_insert_eq.
    + intros (u & [[-> ->]|[_ Hj]]%insert_lookup_cases & Hu); eauto.
  - intros j u q Hj. cbn. rewrite elem_of_app, list_elem_of_singleton. intros [Hq|[= -> ->]].
    + apply insert_lookup_cases in Hj as [[-> ->]|[Hji Hj]]; [by apply Hidx in Hq|].
      by apply (other_answers _ _ _ _ _ _ _ _ _ Hx Ht Hi Hj Hji), (Hans j).
    + apply insert_lookup_cases in Hj as [[_ ->]|[? _]]; done.
Qed.

Lemma linear_inv_step cmds s0 order y y' :
  linear_inv cmds s0 order y -> moves y y' ->
  exists more, linear_inv cmds s0 (order ++ more) y'.
Proof.
  intros Hinv [i H]. apply system_step_Some in H as (t & s' & t' & Hi & Ht & ->).
  destruct (linearized t) eqn:Hl, (linearized t') eqn:Hl';
    [exists []|apply (step_linearized _ _ _ _ _ Ht) in Hl; congruence|exists [i]|exists []];
    rewrite ?app_nil_r.
  - eapply linear_inv_silent; eauto; congruence.
  - by eapply linear_inv_effect.
  - eapply linear_inv_silent; eauto; congruence.
Qed.

Lemma linear_inv_steps cmds s0 order y y' :
  rtc moves y y' -> linear_inv cmds s0 order y -> exists more, linear_inv cmds s0 (order ++ more) y'.
Proof.
  intros Hr. revert order. induction Hr as [y|y1 y2 y3 H _ IH]; intros order Hinv.
  - exists []. by rewrite app_nil_r.
  - destruct (linear_inv_step _ _ _ _ _ Hinv H) as [m1 H1]. destruct (IH _ H1) as [m2 H2].
    exists (m1 ++ m2). by rewrite app_assoc.
Qed.

Lemma reachable_inv cmds s0 y :
  rtc moves (start_system cmds s0) y -> exists order, linear_inv cmds s0 order y.
Proof.
  intros Hr. by destruct (linear_inv_steps _ _ _ _ _ Hr (linear_inv_start cmds s0)) as [o H]; eauto.
Qed.

Lemma replay_complete cmds order s i :
  i ∈ order -> is_Some (cmds !! i) -> exists r, (i, r) ∈ (replay cmds order s).2.
Proof.
  intros Hi [c Hc]. revert s. induction Hi as [i order|i j order Hi IH]; intros s; cbn.
  - rewrite Hc. destruct (handle_network_command c s) as [s1 r].
    destruct (replay cmds order s1) as [a rs]. exists r. by left.
  - destruct (cmds !! j) as [cj|]; [|by apply IH].
    destruct (handle_network_command cj s) as [s1 r]. specialize (IH Hc s1) as [r' Hr'].
    destruct (replay cmds order s1) as [a rs]. exists r'. by right.
Qed.

Lemma inv_reply cmds s0 order y i c r :
  linear_inv cmds s0 order y -> tasks y !! i = Some (c, Answered r) ->
  (i, r) ∈ (replay cmds order s0).2.
Proof.
  intros H Hi. destruct (replay_complete cmds order s0 i) as [r' Hr'].
  - apply (inv_order _ _ _ _ H). eauto.
  - rewrite <- (inv_cmds _ _ _ _ H), (command_lookup _ _ _ Hi). eauto.
  - pose proof (inv_answers _ _ _ _ H _ _ _ Hi Hr') as Ha. cbn in Ha. by subst.
Qed.

Definition all_answered (y : system) : bool := forallb answered (tasks y).

Lemma inv_final cmds s0 order y :
  linear_inv cmds s0 order y -> all_answered y = true ->
  order ≡ₚ seq 0 (length cmds) /\ shared y = (replay cmds order s0).1.
Proof.
  intros H Hall.
  assert (Hans : forall i t, tasks y !! i = Some t -> answered t = true).
  { intros i t Hi. by apply (forallb_lookup answered _ _ _ Hall Hi). }
  split.
  - apply NoDup_Permutation; [apply H|apply NoDup_seq|]. intros i.
    rewrite (inv_order _ _ _ _ H), elem_of_seq, <- (inv_cmds _ _ _ _ H), length_fmap. split.
    + intros (t & Hi & _). apply lookup_lt_Some in Hi. lia.
    + intros [_ Hlt]. apply lookup_lt_is_Some in Hlt as [t Hi]. exists t. split; [done|].
      apply Hans in Hi. by destruct t as [c []].
  - destruct (inv_sim _ _ _ _ H) as (Hp & [Hc|(i & t & Hi & Hr)] & _).
    + destruct (shared y), (replay cmds order s0).1; cbn in *; congruence.
    + apply Hans in Hi. by destruct t as [c []].
Qed.

(** C5. The handlers are linearizable: whatever the schedule of their lock
    operations, the replies given so far are those of running the handlers one
    after the other in some order; a handler that had answered at an earlier
    point comes before every handler that had not started by then; and when all
    have answered, every handler is in the order once and the shared state is
    the one the sequential run ends in. *)
Theorem handlers_linearizable (cmds : list NetworkCommand) (s0 : net_state) (y1 y2 : system) :
  rtc moves (start_system cmds s0) y1 -> rtc moves y1 y2 ->
  exists early late,
    NoDup (early ++ late) /\
    (forall i c r, tasks y1 !! i = Some (c, Answered r) -> i ∈ early) /\
    (forall i c, tasks y1 !! i = Some (c, Ready) -> i ∉ early) /\
    (forall i c r, tasks y2 !! i = Some (c, Answered r) ->
       (i, r) ∈ (replay cmds (early ++ late) s0).2) /\
    (all_answered y2 = true ->
       early ++ late ≡ₚ seq 0 (length cmds) /\ shared y2 = (replay cmds (early ++ late) s0).1).
Proof.
  intros H1 H2. destruct (reachable_inv _ _ _ H1) as [early Hinv1].
  destruct (linear_inv_steps _ _ _ _ _ H2 Hinv1) as [late Hinv2].
  exists early, late. split_and!.
  - apply Hinv2.
  - intros i c r Hi. apply (inv_order _ _ _ _ Hinv1). eauto.
  - intros i c Hi (t & Hi' & Ht)%(inv_order _ _ _ _ Hinv1). rewrite Hi in Hi'.
    by injection Hi' as <-.
  - intros i c r. by apply inv_reply.
  - by apply inv_final.
Qed.

(** ** No deadlock, and a bound on every schedule *)

Lemma forallb_false_exists {A} (f : A -> bool) (l : list A) :
  forallb f l = false -> exists i x, l !! i = Some x /\ f x = false.
Proof.
  induction l as [|x l IH]; cbn; [done|]. destruct (f x) eqn:Hf; cbn.
  - intros (i & y & Hi & Hy)%IH. by exists (S i), y.
  - intros _. by exists 0%nat, x.
Qed.

Lemma system_step_is i y t r :
  tasks y !! i = Some t -> task_step (tasks y) (shared y) t = Some r -> exists y', moves y y'.
Proof.
  intros Hi Ht. eexists. exists i. unfold system_step. rewrite Hi. cbn. by rewrite Ht.
Qed.

Lemma some_move y :
  (forall i t, tasks y !! i = Some t -> task_ok t = true) -> all_answered y = false ->
  exists y', moves y y'.
Proof.
  intros Hok Hnot.
  destruct (p_free (tasks y)) eqn:Hp.
  - destruct (c_free (tasks y)) eqn:Hc.
    + apply forallb_false_exists in Hnot as (i & t & Hi & Ht).
      assert (Hread : c_readable (tasks y) = true).
      { apply forallb_forall. intros u Hu%list_elem_of_In%list_elem_of_lookup_1.
        destruct Hu as [j Hj]. apply (forallb_lookup _ _ _ _ Hc) in Hj.
        destruct u as [c []], c; done. }
      pose proof (forallb_lookup _ _ _ _ Hc Hi) as Hh. specialize (Hok _ _ Hi).
      destruct t as [c pr]. destruct c, pr; try discriminate; eapply system_step_is; eauto;
        cbn; rewrite ?Hc, ?Hp, ?Hread; reflexivity.
    + apply forallb_false_exists in Hc as (i & t & Hi & Ht). specialize (Hok _ _ Hi).
      destruct t as [c pr]. destruct c, pr; try discriminate; eapply system_step_is; eauto;
        cbn; rewrite ?Hp; reflexivity.
  - apply forallb_false_exists in Hp as (i & t & Hi & Ht). specialize (Hok _ _ Hi).
    destruct t as [c pr]. destruct c, pr; try discriminate; eapply system_step_is; eauto;
      reflexivity.
Qed.

(** The moves a handler has left at most. *)
Definition moves_left (t : task) : nat :=
  match t.2 with
  | Ready => 4 | HoldC => 3 | WroteC => 2 | HoldP | HoldCP | ReadP _ => 1 | Answered _ => 0
  end.

Lemma step_moves_left l s t s' t' :
  task_step l s t = Some (s', t') -> (moves_left t' < moves_left t)%nat.
Proof. destruct t as [c pr]. intros H. step_cases H; cbn; lia. Qed.

Fixpoint left_in (l : list task) : nat :=
  match l with [] => 0%nat | t :: l => (moves_left t + left_in l)%nat end.

Lemma left_insert (l : list task) i t t' :
  l !! i = Some t -> (left_in (<[i := t']> l) + moves_left t = left_in l + moves_left t')%nat.
Proof.
  revert i. induction l as [|u l IH]; intros [|i] H; try done.
  - injection H as ->. cbn. lia.
  - specialize (IH i H). change (<[S i := t']> (u :: l)) with (u :: <[i := t']> l).
    cbn [left_in]. lia.
Qed.

Definition total_left (y : system) : nat := left_in (tasks y).

Lemma total_decreases y y' : moves y y' -> (total_left y' < total_left y)%nat.
Proof.
  intros [i H]. apply system_step_Some in H as (t & s' & t' & Hi & Ht & ->).
  apply step_moves_left in Ht. pose proof (left_insert _ _ _ t' Hi).
  unfold total_left. cbn. lia.
Qed.

Lemma run_bounded n y y' : nsteps moves n y y' -> (n + total_left y' <= total_left y)%nat.
Proof.
  induction 1 as [|n y1 y2 y3 H _ IH]; [lia|]. apply total_decreases in H. lia.
Qed.

Lemma total_start cmds s0 : total_left (start_system cmds s0) = (4 * length cmds)%nat.
Proof.
  unfold total_left. cbn [tasks start_system]. induction cmds as [|c cmds IH]; cbn; [done|].
  cbn in IH. rewrite IH. lia.
Qed.

(** C30. No schedule of the handlers deadlocks and none goes on for ever: a run
    has at most four moves for every handler, and where no move is possible all
    handlers have answered. *)
Theorem handlers_finish (cmds : list NetworkCommand) (s0 : net_state) (n : nat) (y : system) :
  nsteps moves n (start_system cmds s0) y ->
  (n <= 4 * length cmds)%nat /\
  ((forall i, system_step i y = None) -> all_answered y = true).
Proof.
  intros Hn. split.
  - apply run_bounded in Hn. rewrite total_start in Hn. lia.
  - intros Hstuck. destruct (all_answered y) eqn:Ha; [done|exfalso].
    assert (Hr : rtc moves (start_system cmds s0) y) by (apply rtc_nsteps; eauto).
    destruct (reachable_inv _ _ _ Hr) as [o Hinv].
    destruct (some_move y) as [y' [i Hi]]; [by apply Hinv|done|]. by rewrite Hstuck in Hi.
Qed.

(** ** Schedules that can be evaluated *)

Fixpoint run_schedule (sched : list nat) (y : system) : option system :=
  match sched with
  | [] => Some y
  | i :: sched => y' ← system_step i y; run_schedule sched y'
  end.

Lemma run_schedule_nsteps sched y y' :
  run_schedule sched y = Some y' -> nsteps moves (length sched) y y'.
Proof.
  revert y. induction sched as [|i sched IH]; intros y; cbn; [intros [= ->]; constructor|].
  destruct (system_step i y) as [y1|] eqn:H; cbn; [|done]. intros Hr.
  econstructor; [by exists i|by apply IH].
Qed.

Lemma run_schedule_rtc sched y y' : run_schedule sched y = Some y' -> rtc moves y y'.
Proof. intros H%run_schedule_nsteps. by eapply rtc_nsteps_2. Qed.

(** A reset, a profile change and two status requests. *)
Definition demo_commands : list NetworkCommand :=
  [SetChaos 100 (Some 20%Z) (packet_loss default_chaos); GetStatus; Reset; GetStatus].

Definition demo_start : system := start_system demo_commands (mk_net default_chaos true).

(** The profile change answers first, the two status requests overlap, and
    the reset comes last. *)
Definition demo_half : list nat := [0; 0; 1; 1; 3]%nat.
Definition demo_rest : list nat := [3; 1; 3; 2; 2; 2; 2]%nat.

Definition demo_mid : system := default demo_start (run_schedule demo_half demo_start).
Definition demo_end : system := default demo_start (run_schedule demo_rest demo_mid).

Lemma handlers_linearizable_witness :
  all_answered demo_end = true /\
  (exists early late, (0 ∈ early /\ 2 ∉ early)%nat /\ early ++ late ≡ₚ seq 0 4 /\
     shared demo_end = (replay demo_commands (early ++ late) (mk_net default_chaos true)).1 /\
     shared demo_end = new_controller).
Proof.
  split; [vm_compute; reflexivity|].
  destruct (handlers_linearizable demo_commands (mk_net default_chaos true) demo_mid demo_end)
    as (early & late & _ & He & Hl & _ & Hall).
  - apply (run_schedule_rtc demo_half). vm_compute; reflexivity.
  - apply (run_schedule_rtc demo_rest). vm_compute; reflexivity.
  - destruct Hall as [Hperm Hsh]; [vm_compute; reflexivity|].
    exists early, late. split; [split|].
    + eapply (He 0%nat). vm_compute; reflexivity.
    + eapply (Hl 2%nat). vm_compute; reflexivity.
    + split; [exact Hperm|]. split; [exact Hsh|]. vm_compute; reflexivity.
Defined.

Lemma handlers_finish_witness :
  (12 <= 16)%nat /\ all_answered demo_end = true.
Proof.
  destruct (handlers_finish demo_commands (mk_net default_chaos true) 12 demo_end) as [Hn Ha].
  - apply (run_schedule_nsteps (demo_half ++ demo_rest)). vm_compute; reflexivity.
  - split; [exact Hn|]. apply Ha. intros [|[|[|[|i]]]]; vm_compute; reflexivity.
Defined.
