(* ===== verification/Control.v ===== *)
(** * Control connections ([net/controller.rs], the connection task)

    A connection reads one JSON command per line and answers each with one
    line.  A command is one call here, [Handle]: [Handlers] shows that the
    handlers of all connections behave as if each ran in one step.  JSON is
    the business of serde and the class [ControlJson]. *)
From S2P Require Export Handlers.

Class ControlJson : Type := {
  command_of_json : string -> result NetworkCommand string;
  reply_to_json : reply -> string;
  error_to_json : string -> string
}.

(** The calls of a connection: a line, a command, an answer.  [read_line]
    answers the text with its newline, and no text at the end. *)
Inductive control : Type -> Type :=
| ReadLine : control (io_result string)
| Handle (cmd : NetworkCommand) : control reply
| WriteReply (text : string) : control (io_result unit).

Definition newline : string := String "010" "".

Section Control.
Context `{ControlJson}.

(* @src core/net/controller.rs:99-111 start_control_listener (one command) *)
Definition answer_line (trimmed : string) : prog control unit :=
  match command_of_json trimmed with
  | Ok cmd =>
      reply ← call (Handle cmd);
      let_ call (WriteReply (reply_to_json reply +:+ newline));
      Ret tt
  | Err e =>
      let_ call (WriteReply (error_to_json ("Invalid JSON command: " +:+ e) +:+ newline));
      Ret tt
  end.

(** [rounds] bounds the number of lines. *)
(* @src core/net/controller.rs:82-113 start_control_listener (connection task) *)
Fixpoint serve_control (rounds : nat) : prog control unit :=
  match rounds with
  | O => Halt Running
  | S rounds =>
      r ← call ReadLine;
      match r with
      | Err _ => Ret tt
      | Ok line =>
          if decide (line = "") then Ret tt
          else
            let trimmed := trim line in
            if decide (trimmed = "") then serve_control rounds
            else (_ ← answer_line trimmed; serve_control rounds)
      end
  end.

(** ** One line, one answer *)

(** The calls that a line causes after it was read: none for a blank line, and
    otherwise exactly one reply, to the command or to the error. *)
Definition exchange (line : string) (t : trace control) : Prop :=
  if decide (trim line = "") then t = []
  else exists sent,
    match command_of_json (trim line) with
    | Ok cmd => exists rep,
        t = [Ev (Handle cmd) rep; Ev (WriteReply (reply_to_json rep +:+ newline)) sent]
    | Err e =>
        t = [Ev (WriteReply (error_to_json ("Invalid JSON command: " +:+ e) +:+ newline)) sent]
    end.

(** A connection: its lines with what each caused. *)
Inductive conversation : list string -> trace control -> Prop :=
| conv_nil : conversation [] []
| conv_line line lines t1 t2 :
    line <> "" -> exchange line t1 -> conversation lines t2 ->
    conversation (line :: lines) (Ev ReadLine (Ok line) :: t1 ++ t2).

Definition over (t : trace control) : Prop :=
  t = [Ev ReadLine (Ok "")] \/ exists e, t = [Ev ReadLine (Err e)].

Lemma answer_line_spec line :
  trim line <> "" ->
  wp any_response (answer_line (trim line)) (fun o t => o = Done tt /\ exchange line t).
Proof.
  intros Hne. unfold answer_line, exchange. destruct (decide (trim line = "")) as [|_]; [done|].
  destruct (command_of_json (trim line)) as [cmd|e]; wp_simpl.
  - intros rep _ sent _. split; [done|]. by exists sent, rep.
  - intros sent _. split; [done|]. by exists sent.
Qed.

Lemma serve_control_spec (rounds : nat) :
  wp any_response (serve_control rounds) (fun o t => exists lines body tail,
    t = body ++ tail /\ conversation lines body /\
    match o with
    | Done _ => over tail
    | Stopped s => s = Running /\ tail = [] /\ length lines = rounds
    end).
Proof.
  induction rounds as [|rounds IH]; cbn [serve_control].
  - exists [], [], []. split_and!; by constructor.
  - wp_simpl. intros [line|e] _.
    + destruct (decide (line = "")) as [->|Hne].
      { exists [], [], [Ev ReadLine (Ok "")]. split_and!; [done|constructor|by left]. }
      destruct (decide (trim line = "")) as [Hb|Hb].
      * eapply wp_mono; [exact IH|]. intros o t (lines & body & tail & -> & Hc & Ho).
        exists (line :: lines), (Ev ReadLine (Ok line) :: [] ++ body), tail. split_and!; [done| |].
        -- constructor; [done| |done]. unfold exchange. by rewrite decide_True.
        -- destruct o; [done|]. destruct Ho as (-> & -> & <-). done.
      * apply wp_bind. eapply wp_mono; [by apply answer_line_spec|]. intros o t1 [-> He].
        eapply wp_mono; [exact IH|]. intros o t (lines & body & tail & -> & Hc & Ho).
        exists (line :: lines), (Ev ReadLine (Ok line) :: t1 ++ body), tail. split_and!.
        -- cbn. by rewrite app_assoc.
        -- by constructor.
        -- destruct o; [done|]. destruct Ho as (-> & -> & <-). done.
    + exists [], [], [Ev ReadLine (Err e)]. split_and!; [done|constructor|right; by eexists].
Qed.

(** C34. A control connection answers line by line: every line that is not
    blank gets exactly one answer before the next line is read, the reply of
    the handler of its command or, if it is no command, an error, and blank
    lines get none; a failed write does not end the connection.  It ends when
    the peer closes it or a line cannot be read. *)
Theorem control_answers_lines (rounds : nat) :
  wp any_response (serve_control rounds) (fun o t => exists lines body tail,
    t = body ++ tail /\ conversation lines body /\
    match o with
    | Done _ => over tail
    | Stopped s => s = Running /\ tail = [] /\ length lines = rounds
    end).
Proof. apply serve_control_spec. Qed.
End Control.
