(* ===== verification/Arch.v ===== *)
(** * Binary architectures and emulation ([arch/elf_detector.rs], [arch/qemu_runner.rs])

    [detect_header] is the decision on the first bytes of a file,
    [detect_binary_architecture] reads them, and [wrap_if_needed] puts a
    user-mode emulator in front of a command for a foreign processor. *)
From S2P Require Export Policy Text.

(* @src core/arch/elf_detector.rs:7-18 Architecture *)
Inductive Architecture : Type :=
| X86_64
| Aarch64
| ArmV7
| Riscv64
| Mips
| Wasm
| MachO (kind : string)
| Script
| Unknown.
#[export] Instance Architecture_eq_dec : EqDecision Architecture.
Proof. solve_decision. Defined.

(* @src core/arch/elf_detector.rs:22-23 HEADER_LEN *)
Definition ELF_HEADER_LEN : nat := 64.

(** The buffer after a read of [data]: the rest keeps its zeros. *)
(* @src core/arch/elf_detector.rs:33-37 detect_binary_architecture (buffer) *)
Definition filled (data : bytes) : bytes :=
  take ELF_HEADER_LEN (data ++ replicate ELF_HEADER_LEN Byte.x00).

(** A slice of the buffer as numbers. *)
Definition octets (first n : nat) (header : bytes) : list Z :=
  map Z_of_byte (take n (drop first header)).

(* @src core/arch/elf_detector.rs:81-88 detect_binary_architecture (e_machine) *)
Definition machine_architecture (machine : Z) : Architecture :=
  match machine with
  | 62 => X86_64 | 183 => Aarch64 | 40 => ArmV7 | 243 => Riscv64 | 8 => Mips
  | _ => Unknown
  end%Z.

(* @src core/arch/elf_detector.rs:77-80 detect_binary_architecture (byte order) *)
Definition e_machine (header : bytes) : Z :=
  if decide (octets 5 1 header = [2%Z])
  then from_be_bytes (take 2 (drop 18 header))
  else from_le_bytes (take 2 (drop 18 header)).

(* @src core/arch/elf_detector.rs:39-91 detect_binary_architecture (header) *)
Definition detect_header (header : bytes) (bytes_read : nat) : Architecture :=
  let magic := octets 0 4 header in
  if (bytes_read <? 4)%nat then Unknown
  else if decide (octets 0 2 header = [35; 33]%Z) then Script
  else if decide (magic = [0; 97; 115; 109]%Z) then Wasm
  else if decide (magic = [207; 250; 237; 254]%Z \/ magic = [254; 237; 250; 207]%Z)
  then MachO "64-bit"
  else if decide (magic = [206; 250; 237; 254]%Z \/ magic = [254; 237; 250; 206]%Z)
  then MachO "32-bit"
  else if decide (magic = [202; 254; 186; 190]%Z \/ magic = [190; 186; 254; 202]%Z) then
    let n := from_be_bytes (take 4 (drop 4 header)) in
    if (8 <=? bytes_read)%nat && (1 <=? n)%Z && (n <=? 16)%Z then MachO "Universal/Fat"
    else Unknown
  else if decide (magic = [127; 69; 76; 70]%Z /\ (20 <= bytes_read)%nat)
  then machine_architecture (e_machine header)
  else Unknown.

(** Closing the descriptor is the end of the file's scope. *)
(* @src core/arch/elf_detector.rs:26-92 ElfDetector::detect_binary_architecture *)
Definition detect_binary_architecture (p : path) : prog sys (Result Architecture) :=
  opened ← call (OpenFile p);
  match opened with
  | Err _ => ret? Unknown
  | Ok f =>
      r ← call (ReadFd f ELF_HEADER_LEN);
      _ ← call (CloseFd f);
      match r with
      | Err _ => ret? Unknown
      | Ok data => ret? (detect_header (filled data) (length data))
      end
  end.

(* @src core/arch/elf_detector.rs:94-104 ElfDetector::host_architecture *)
Definition host_architecture `{Target} : Architecture :=
  match arch with
  | ArchX86_64 => X86_64
  | ArchAarch64 => Aarch64
  | ArchRiscv64 => Riscv64
  | OtherArch => Unknown
  end.

(* @src core/arch/elf_detector.rs:110-118 ElfDetector::requires_emulation (table) *)
Definition needs_emulation (binary host : Architecture) : bool :=
  match binary, host with
  | X86_64, Aarch64 => true
  | Aarch64, X86_64 => true
  | ArmV7, _ => true
  | Riscv64, Riscv64 => false
  | Riscv64, _ => true
  | _, _ => false
  end.

(* @src core/arch/elf_detector.rs:106-122 ElfDetector::requires_emulation *)
Definition requires_emulation `{Target} (p : path) : prog sys bool :=
  r ← detect_binary_architecture p;
  Ret (match r with Ok a => needs_emulation a host_architecture | Err _ => false end).

(** ** Emulators *)

(* @src core/arch/qemu_runner.rs:7-8 QemuRunner::find_emulator (candidates) *)
Definition candidates (name : string) : list string := [name +:+ "-static"; name].

(** One probe per directory and candidate, up to the first that exists. *)
(* @src core/arch/qemu_runner.rs:10-16 QemuRunner::find_emulator (search) *)
Fixpoint probe_all (l : list (path * string)) : prog sys (option string) :=
  match l with
  | [] => Ret None
  | (dir, candidate) :: l =>
      there ← call (PathExists (path_join dir candidate));
      if there : bool then Ret (Some candidate) else probe_all l
  end.

Definition search_places (path_var name : string) : list (path * string) :=
  concat (map (fun dir => map (fun c => (dir, c)) (candidates name)) (split_on ":" path_var)).

(* @src core/arch/qemu_runner.rs:7-19 QemuRunner::find_emulator *)
Definition find_emulator (name : string) : prog sys (option string) :=
  path_var ← call (EnvVar "PATH");
  match path_var with
  | Some v => probe_all (search_places v name)
  | None => Ret None
  end.

Definition emulate_with (name command : string) : prog sys string :=
  emu ← find_emulator name;
  Ret (match emu with Some e => e +:+ " " +:+ command | None => command end).

Definition ROSETTA : list path :=
  ["/usr/libexec/rosetta/oahd"; "/Library/Apple/usr/libexec/oah/libRosettaRuntime"].

(** [exists() || exists()]: the second path is asked for only when needed. *)
(* @src core/arch/qemu_runner.rs:31-31 QemuRunner::wrap_if_needed (Rosetta) *)
Definition rosetta_there : prog sys bool :=
  a ← call (PathExists "/usr/libexec/rosetta/oahd");
  if a : bool then Ret true
  else call (PathExists "/Library/Apple/usr/libexec/oah/libRosettaRuntime").

(* @src core/arch/qemu_runner.rs:21-66 QemuRunner::wrap_if_needed *)
Definition wrap_if_needed `{Target} (command : string) (target : option Architecture)
    : prog sys string :=
  match target, host_architecture with
  | Some X86_64, Aarch64 =>
      if is_macos then
        rosetta ← rosetta_there;
        if rosetta : bool then Ret ("arch -x86_64 " +:+ command)
        else emulate_with "qemu-x86_64" command
      else emulate_with "qemu-x86_64" command
  | Some Aarch64, X86_64 => emulate_with "qemu-aarch64" command
  | Some Riscv64, _ => emulate_with "qemu-riscv64" command
  | _, _ => Ret command
  end.

(** ** Detection *)

(** The header of an ELF file: magic, class, byte order, version and the rest
    of [e_ident], [e_type], [e_machine]. *)
Definition elf_header (class order : byte) (ident etype machine : bytes) : bytes :=
  [Byte.x7f; Byte.x45; Byte.x4c; Byte.x46; class; order] ++ ident ++ etype ++ machine.

Lemma filled_prefix (data : bytes) n :
  (n <= length data)%nat -> (n <= ELF_HEADER_LEN)%nat -> take n (filled data) = take n data.
Proof.
  intros Hn Hl. unfold filled. rewrite take_take, Nat.min_l by done. by rewrite take_app_le.
Qed.

Lemma octets_prefix (data : bytes) i n :
  (i + n <= length data)%nat -> (i + n <= ELF_HEADER_LEN)%nat ->
  octets i n (filled data) = octets i n data.
Proof.
  intros Hn Hl. unfold octets. f_equal.
  rewrite !take_drop_commute. by rewrite filled_prefix.
Qed.

Lemma length_filled (data : bytes) : length (filled data) = ELF_HEADER_LEN.
Proof. unfold filled. rewrite length_take, length_app, length_replicate. lia. Qed.

(** [machine_of a] is the [e_machine] number of an ELF architecture. *)
Definition machine_of (a : Architecture) : option Z :=
  match a with
  | X86_64 => Some 62 | Aarch64 => Some 183 | ArmV7 => Some 40 | Riscv64 => Some 243
  | Mips => Some 8
  | _ => None
  end%Z.

Lemma machine_architecture_of a m : machine_of a = Some m -> machine_architecture m = a.
Proof. by destruct a; intros [= <-]. Qed.

Lemma machine_architecture_inv m a :
  machine_architecture m = a -> a <> Unknown -> machine_of a = Some m.
Proof. unfold machine_architecture. intros <- Hne. by repeat case_match. Qed.

(** The first two bytes of a header with this magic. *)
Lemma octets_two header a b c d :
  octets 0 4 header = [a; b; c; d] -> octets 0 2 header = [a; b].
Proof.
  unfold octets. rewrite !drop_0.
  destruct header as [|b0 [|b1 [|b2 [|b3 header]]]]; try done. cbn. congruence.
Qed.

(** A decision by decision reading of [detect_header]. *)
Lemma detect_header_elf header n a m :
  machine_of a = Some m ->
  detect_header header n = a <->
  (20 <= n)%nat /\ octets 0 4 header = [127; 69; 76; 70]%Z /\ e_machine header = m.
Proof.
  intros Hm. unfold detect_header. split.
  - intros H. repeat case_match; subst; try done.
    match goal with H : _ /\ _ |- _ => destruct H as [Hmag Hn] end.
    split; [done|]. split; [done|].
    assert (machine_of (machine_architecture (e_machine header)) = Some (e_machine header)).
    { apply machine_architecture_inv; [done|]. intros He. by rewrite He in Hm. }
    congruence.
  - intros (Hn & Hmag & He). rewrite (octets_two _ _ _ _ _ Hmag), Hmag.
    destruct (Nat.ltb_spec n 4); [lia|].
    do 5 (rewrite decide_False by naive_solver). rewrite decide_True by done.
    rewrite He. by apply machine_architecture_of.
Qed.

Lemma map_bytes_inj (l l' : bytes) : map Z_of_byte l = map Z_of_byte l' -> l = l'.
Proof.
  revert l'. induction l as [|b l IH]; intros [|b' l'] H; try done. cbn in H.
  injection H as Hb Hl. apply Z_of_byte_inj in Hb as ->. f_equal. auto.
Qed.

Lemma octets_are (data l : bytes) i :
  (i + length l <= ELF_HEADER_LEN)%nat -> (i + length l <= length data)%nat ->
  octets i (length l) (filled data) = map Z_of_byte l <-> take (length l) (drop i data) = l.
Proof.
  intros Hh Hd. rewrite octets_prefix by done. unfold octets. split.
  - apply map_bytes_inj.
  - by intros ->.
Qed.

Definition ELF_MAGIC : bytes := [Byte.x7f; Byte.x45; Byte.x4c; Byte.x46].

Ltac elf_len := unfold ELF_HEADER_LEN, ELF_MAGIC; cbn [length]; lia.

(** The machine number of an ELF file in the byte order the file declares. *)
Definition declared_machine (data : bytes) : Z :=
  (if decide (take 1 (drop 5 data) = [Byte.x02]) then from_be_bytes else from_le_bytes)
    (take 2 (drop 18 data)).

Lemma e_machine_filled (data : bytes) :
  (20 <= length data)%nat -> e_machine (filled data) = declared_machine data.
Proof.
  intros Hl. unfold e_machine, declared_machine.
  assert (take 2 (drop 18 (filled data)) = take 2 (drop 18 data)) as ->.
  { rewrite !take_drop_commute. by rewrite filled_prefix by (unfold ELF_HEADER_LEN; lia). }
  pose proof (octets_are data [Byte.x02] 5) as H. cbn [length map] in H.
  change (map Z_of_byte [Byte.x02]) with [2%Z] in H.
  specialize (H ltac:(elf_len) ltac:(elf_len)).
  destruct (decide (octets 5 1 (filled data) = [2%Z])) as [E|E];
    destruct (decide (take 1 (drop 5 data) = [Byte.x02])) as [E'|E']; try done;
    exfalso; tauto.
Qed.

(** The result of [detect_header] on a read, for the two kinds of file the
    executor cares about. *)
Lemma detect_read (data : bytes) :
  (forall a m, machine_of a = Some m ->
     detect_header (filled data) (length data) = a <->
     (20 <= length data)%nat /\ take 4 data = ELF_MAGIC /\ declared_machine data = m) /\
  (detect_header (filled data) (length data) = Script <->
     (4 <= length data)%nat /\ take 2 data = [Byte.x23; Byte.x21]).
Proof.
  split.
  - intros a m Hm. rewrite (detect_header_elf _ _ _ _ Hm). split.
    + intros (Hl & Hmag & He). pose proof (octets_are data ELF_MAGIC 0) as H.
      rewrite drop_0 in H. rewrite <- e_machine_filled by done. split_and!; try done.
      apply H; [elf_len|elf_len|done].
    + intros (Hl & Hmag & He). pose proof (octets_are data ELF_MAGIC 0) as H.
      rewrite drop_0 in H. rewrite e_machine_filled by done. split_and!; try done.
      apply H; [elf_len|elf_len|done].
  - unfold detect_header. destruct (Nat.ltb_spec (length data) 4) as [Hl|Hl].
    { split; [done|lia]. }
    pose proof (octets_are data [Byte.x23; Byte.x21] 0) as H. rewrite drop_0 in H.
    specialize (H ltac:(elf_len) ltac:(elf_len)).
    change (octets 0 2 (filled data) = [35; 33]%Z <-> take 2 data = [Byte.x23; Byte.x21]) in H.
    split.
    + intros Hs. split; [done|]. apply H. repeat case_match; try done.
      all: match goal with Hm : machine_architecture ?m = Script |- _ =>
             unfold machine_architecture in Hm; by repeat case_match end.
    + intros [_ ->%H]. by rewrite decide_True.
Qed.

(** C38. Detecting an architecture never fails: a file that cannot be opened or
    read is [Unknown], and what was opened is closed.  After a successful read
    the answer is an ELF architecture exactly when the file starts with the ELF
    magic, has the twenty bytes that hold the machine number, and that number,
    read in the byte order the file declares, is the architecture's; it is a
    script exactly when at least four bytes were read and the first two are
    [#!], so a script of three bytes is [Unknown]. *)
Theorem detect_architecture_spec (p : path) :
  wp sys_ok (detect_binary_architecture p) (fun o t => exists a, o = Done (Ok a) /\
    (forall f, Ev (OpenFile p) (Ok f) ∈ t -> Ev (CloseFd f) tt ∈ t) /\
    ((forall f data, ~ Ev (ReadFd f ELF_HEADER_LEN) (Ok data) ∈ t) -> a = Unknown) /\
    (forall f data, Ev (ReadFd f ELF_HEADER_LEN) (Ok data) ∈ t ->
       (forall b m, machine_of b = Some m ->
          a = b <-> (20 <= length data)%nat /\ take 4 data = ELF_MAGIC /\
                    declared_machine data = m) /\
       (a = Script <-> (4 <= length data)%nat /\ take 2 data = [Byte.x23; Byte.x21]))).
Proof.
  unfold detect_binary_architecture. wp_simpl. intros [f|e] _; cbn [prog_bind wp].
  - intros [data|e] _ [] _; (eexists; split; [done|]).
    + split_and!; [intros g Hg; ev_simpl; set_solver| |].
      * intros H. exfalso. apply (H f data). set_solver.
      * intros g d Hg. ev_simpl. assert (g = f) as -> by (by injection Hg). ev_simpl.
        apply detect_read.
    + split_and!; [intros g Hg; ev_simpl; set_solver|done|].
      intros g d Hg. ev_simpl. assert (g = f) as -> by (by injection Hg). ev_simpl.
  - eexists. split; [done|]. split_and!; [intros g Hg; ev_simpl|done|].
    intros g d Hg. ev_simpl.
Qed.

(** ** Wrapping *)

Definition absent (dc : path * string) : event sys := Ev (PathExists (path_join dc.1 dc.2)) false.
Definition present (dc : path * string) : event sys := Ev (PathExists (path_join dc.1 dc.2)) true.

(** [found l r t]: the search of [l] that saw [t] ended with [r], the first
    candidate that exists. *)
Definition found (l : list (path * string)) (r : option string) (t : sys_trace) : Prop :=
  exists before rest, l = before ++ rest /\
    match rest with
    | [] => r = None /\ t = map absent before
    | dc :: _ => r = Some dc.2 /\ t = map absent before ++ [present dc]
    end.

Lemma probe_all_spec l :
  wp any_response (probe_all l) (fun o t => exists r, o = Done r /\ found l r t).
Proof.
  induction l as [|[dir c] l IH]; cbn [probe_all].
  - exists None. split; [done|]. by exists [], [].
  - wp_simpl. intros [|] _; cbn [prog_bind wp].
    + exists (Some c). split; [done|]. by exists [], ((dir, c) :: l).
    + eapply wp_mono; [exact IH|]. intros o t (r & -> & before & rest & -> & H).
      exists r. split; [done|]. exists ((dir, c) :: before), rest. split; [done|].
      destruct rest as [|dc rest]; destruct H as [-> ->]; done.
Qed.

(** What a search for [name] that saw [t] makes of a command. *)
Definition emulated (name command out : string) (t : sys_trace) : Prop :=
  (t = [Ev (EnvVar "PATH") None] /\ out = command) \/
  exists v r t', t = Ev (EnvVar "PATH") (Some v) :: t' /\ found (search_places v name) r t' /\
    out = match r with Some emu => emu +:+ " " +:+ command | None => command end.

Lemma emulate_with_spec name command :
  wp any_response (emulate_with name command) (fun o t =>
    exists out, o = Done out /\ emulated name command out t).
Proof.
  unfold emulate_with, find_emulator. wp_simpl. intros [v|] _; cbn [prog_bind wp].
  - apply wp_bind. eapply wp_mono; [apply probe_all_spec|].
    intros o t (r & -> & Hf). eexists. split; [done|]. right. exists v, r, t.
    by rewrite app_nil_r.
  - eexists. split; [done|]. by left.
Qed.

(** The emulator for a binary on a host, as [wrap_if_needed] chooses it. *)
Definition emulator_for (binary host : Architecture) : option string :=
  match binary, host with
  | X86_64, Aarch64 => Some "qemu-x86_64"
  | Aarch64, X86_64 => Some "qemu-aarch64"
  | Riscv64, _ => Some "qemu-riscv64"
  | _, _ => None
  end.

(** A command is changed only by a prefix, the emulator.  With no target,
    or one that has no emulator on this host, nothing is asked and the command
    is the given one.  Otherwise the directories of [PATH] are searched in
    order, the static build before the other in each, and the first that
    exists is put in front, on macOS only after Rosetta was found missing;
    without any the command is left as it is.  The choice agrees with
    [requires_emulation] but for 32-bit ARM, which needs emulation and gets
    none, and RISC-V on RISC-V, which needs none and gets it. *)
Lemma wrap_if_needed_spec `{Target} (command : string) (target : option Architecture) :
  wp any_response (wrap_if_needed command target) (fun o t => exists out, o = Done out /\
    match target ≫= fun b => emulator_for b host_architecture with
    | None => out = command /\ t = []
    | Some name =>
        emulated name command out t \/
        (is_macos = true /\ target = Some X86_64 /\ host_architecture = Aarch64 /\
         ((out = "arch -x86_64 " +:+ command /\
           exists r, r ∈ ROSETTA /\ Ev (PathExists r) true ∈ t) \/
          exists t', t = map (fun r => Ev (PathExists r) false) ROSETTA ++ t' /\
            emulated name command out t'))
    end) /\
  (forall b, needs_emulation b host_architecture <> bool_decide (is_Some (emulator_for b host_architecture))
     <-> b = ArmV7 \/ (b = Riscv64 /\ host_architecture = Riscv64)).
Proof.
  split.
  - unfold wrap_if_needed. destruct target as [b|]; [|by eexists].
    destruct b, host_architecture eqn:Hh; cbn [mbind option_bind emulator_for];
      try (eexists; split; [done|]; done);
      try (eapply wp_mono; [apply emulate_with_spec|]; intros o t (out & -> & He);
           eexists; split; [done|]; by left).
    destruct is_macos.
    + unfold rosetta_there. wp_simpl. intros [|] _; cbn [prog_bind wp].
      * eexists. split; [done|]. right. split_and!; try done. left. split; [done|].
        eexists. split; [|by left]. by left.
      * intros [|] _; cbn [prog_bind wp].
        -- eexists. split; [done|]. right. split_and!; try done. left. split; [done|].
           eexists. split; [|right; by left]. right; by left.
        -- eapply wp_mono; [apply emulate_with_spec|]. intros o t (out & -> & He).
           eexists. split; [done|]. right. split_and!; try done. right. by exists t.
    + eapply wp_mono; [apply emulate_with_spec|]. intros o t (out & -> & He).
      eexists; split; [done|]. by left.
  - intros b. unfold host_architecture.
    destruct b, arch; cbn; split; intros Hx;
      first [ done | by left | by right | by (exfalso; apply Hx)
            | by destruct Hx as [?|[? ?]] ].
Qed.

(** A static emulator in the second directory of [PATH]. *)
Example wrap_ex :
  let h : handler sys unit := fun R e s =>
    (match e in sys R return R with
     | EnvVar _ => Some "/bin:/opt"
     | PathExists p => bool_decide (p = "/opt/qemu-riscv64-static")
     | e => sys_default _ e
     end, s) in
  run_out h (@wrap_if_needed linux_x86 "./prog" (Some Riscv64)) tt
    = Done "qemu-riscv64-static ./prog".
Proof. vm_compute. reflexivity. Qed.
