(* ===== verification/Overlay.v ===== *)
(** * Overlay layers ([rootfs/overlay_rootfs.rs], [linux/overlay.rs])

    A container gets a fresh session directory with an overlay mount over the
    image and the workspace bound into it; the executor of plain processes has
    a smaller manager of the same kind.  [Module Rootfs] and [Module Layer]
    model the two. *)
From S2P Require Export Policy.

(** The options of an overlay mount. *)
(* @src core/rootfs/overlay_rootfs.rs:53-58 spawn_container_fs (options) *)
Definition overlay_options (lower upper work : path) : string :=
  "lowerdir=" +:+ display_path lower +:+ ",upperdir=" +:+ display_path upper +:+ ",workdir="
  +:+ display_path work.

Definition mount_overlay (what : string) (lower upper work target : path) : prog sys (Result unit) :=
  map_err_p (fun e => SetupFailed (what +:+ e))
    (call (Mount (Some "overlay") target (Some "overlay") [] (Some (overlay_options lower upper work)))).

Definition mkdir_all (p : path) : prog sys (Result unit) := map_err_p Io (call (CreateDirAll p)).

(** [if dir.exists() { let _ = umount2(dir, MNT_DETACH) }] *)
Definition detach_if_there (p : path) : prog sys unit :=
  there ← call (PathExists p);
  if there : bool then let_ call (Umount2Detach p); Ret tt else Ret tt.

(** [if dir.exists() { let _ = remove_dir_all(dir) }] *)
Definition remove_if_there (p : path) : prog sys unit :=
  there ← call (PathExists p);
  if there : bool then let_ call (RemoveDirAll p); Ret tt else Ret tt.

Module Rootfs.

(* @src core/rootfs/overlay_rootfs.rs:9-15 ContainerFs *)
Record ContainerFs : Type := mk_container_fs {
  container_id : string;
  root_dir : path;
  upper_dir : path;
  work_dir : path;
  workspace_mount : path
}.

(* @src core/rootfs/overlay_rootfs.rs:17-19 RootfsOverlayManager *)
Record RootfsOverlayManager : Type := mk_manager { base_run_dir : path }.

(* @src core/rootfs/overlay_rootfs.rs:28-32 RootfsOverlayManager::new *)
Definition new_overlay_manager : RootfsOverlayManager := mk_manager "/tmp/kuda_containers".

Definition session_dir (self : RootfsOverlayManager) (id : string) : path :=
  path_join (base_run_dir self) id.

(** The paths of a container. *)
Definition layout (self : RootfsOverlayManager) (id : string) : ContainerFs :=
  let s := session_dir self id in
  mk_container_fs id (path_join s "root") (path_join s "upper") (path_join s "work")
    (path_join (path_join s "root") "workspace").

(* @src core/rootfs/overlay_rootfs.rs:50-83 spawn_container_fs (mounts) *)
Definition mount_container (base_rootfs workspace : path) (c : ContainerFs)
    : prog sys (Result unit) :=
  _ ←? mount_overlay "Failed to mount container rootfs: " base_rootfs (upper_dir c) (work_dir c)
         (root_dir c);
  _ ←? map_err_p (fun e => SetupFailed ("Failed to bind-mount workspace into container: " +:+ e))
         (call (Mount (Some workspace) (workspace_mount c) None [MS_BIND; MS_REC] None));
  mkdir_all (path_join (root_dir c) ".pivot_old").

(* @src core/rootfs/overlay_rootfs.rs:34-98 RootfsOverlayManager::spawn_container_fs *)
Definition spawn_container_fs `{Target} (self : RootfsOverlayManager) (base_rootfs workspace : path)
    : prog sys (Result ContainerFs) :=
  id ← call NewUuid;
  let c := layout self id in
  _ ←? mkdir_all (root_dir c);
  _ ←? mkdir_all (upper_dir c);
  _ ←? mkdir_all (work_dir c);
  _ ←? mkdir_all (workspace_mount c);
  _ ←? (if is_linux then mount_container base_rootfs workspace c else ret? tt);
  ret? c.

(* @src core/rootfs/overlay_rootfs.rs:100-119 RootfsOverlayManager::cleanup *)
Definition cleanup `{Target} (self : RootfsOverlayManager) (c : ContainerFs)
    : prog sys (Result unit) :=
  _ ← (if is_linux then
         _ ← detach_if_there (workspace_mount c);
         detach_if_there (root_dir c)
       else Ret tt);
  _ ← remove_if_there (session_dir self (container_id c));
  ret? tt.
End Rootfs.

Module Layer.

(* @src core/linux/overlay.rs:6-12 OverlayMount *)
Record OverlayMount : Type := mk_overlay {
  ov_id : string;
  lower_dir : path;
  upper_dir : path;
  work_dir : path;
  merged_dir : path
}.

(* @src core/linux/overlay.rs:14-16 OverlayManager *)
Record OverlayManager : Type := mk_manager { base_tmp : path }.

(* @src core/linux/overlay.rs:25-29 OverlayManager::new *)
Definition new_overlay_manager : OverlayManager := mk_manager "/tmp/kuda_sandbox_overlay".

Definition session_root (self : OverlayManager) (id : string) : path :=
  path_join (base_tmp self) id.

(* @src core/linux/overlay.rs:31-72 OverlayManager::prepare_overlay *)
Definition prepare_overlay `{Target} (self : OverlayManager) (lower_path : path)
    : prog sys (Result OverlayMount) :=
  id ← call NewUuid;
  let root := session_root self id in
  let upper := path_join root "upper" in
  let work := path_join root "work" in
  let merged := path_join root "merged" in
  _ ←? mkdir_all upper;
  _ ←? mkdir_all work;
  _ ←? mkdir_all merged;
  _ ←? (if is_linux then mount_overlay "Failed to mount OverlayFS: " lower_path upper work merged
        else ret? tt);
  ret? (mk_overlay id lower_path upper work merged).

(* @src core/linux/overlay.rs:74-90 OverlayManager::cleanup_overlay *)
Definition cleanup_overlay `{Target} (self : OverlayManager) (m : OverlayMount)
    : prog sys (Result unit) :=
  _ ← (if is_linux then detach_if_there (merged_dir m) else Ret tt);
  _ ← remove_if_there (session_root self (ov_id m));
  ret? tt.
End Layer.

(** ** Setting up *)

Definition overlay_mounted (lower upper work target : path) (r : nix_result unit) : event sys :=
  Ev (Mount (Some "overlay") target (Some "overlay") [] (Some (overlay_options lower upper work))) r.

Definition workspace_bound (workspace target : path) (r : nix_result unit) : event sys :=
  Ev (Mount (Some workspace) target None [MS_BIND; MS_REC] None) r.

Definition made (p : path) : event sys := Ev (CreateDirAll p) (Ok tt).

(** Everything a successful set-up did, in order. *)
Definition container_setup `{Target} (base_rootfs workspace : path) (c : Rootfs.ContainerFs)
    : sys_trace :=
  Ev NewUuid (Rootfs.container_id c) ::
  map made [Rootfs.root_dir c; Rootfs.upper_dir c; Rootfs.work_dir c; Rootfs.workspace_mount c] ++
  (if is_linux then
     [overlay_mounted base_rootfs (Rootfs.upper_dir c) (Rootfs.work_dir c) (Rootfs.root_dir c) (Ok tt);
      workspace_bound workspace (Rootfs.workspace_mount c) (Ok tt);
      made (path_join (Rootfs.root_dir c) ".pivot_old")]
   else []).

(** What undoes a set-up. *)
Definition undoes (e : event sys) : bool :=
  match e with
  | @Ev _ _ (Umount2Detach _) _ | @Ev _ _ (RemoveDirAll _) _ => true
  | _ => false
  end.

(** A set-up that stopped at its last call: what it did before is an initial
    part of the whole, and nothing of it was undone. *)
Definition stopped_in (whole t : sys_trace) : Prop :=
  exists done failed, t = done ++ [failed] /\ done `prefix_of` whole /\
    Forall (fun e => undoes e = false) t.

(** Split a straight line of fallible calls into its ends. *)
Ltac fallible_line := repeat
  lazymatch goal with
  | |- forall r : result unit _, any_response _ _ r -> _ =>
      intros [[]|?] _; cbn [map_err prog_bind wp]
  | |- wp _ (prog_bind _ (if ?b then _ else _)) _ => destruct b; cbn [prog_bind wp]
  end.

Ltac stopped_here :=
  lazymatch goal with
  | |- stopped_in _ ?t =>
      exists (List.removelast t), (List.last t (made "")); split; [reflexivity|];
      split; [eexists; reflexivity|by repeat constructor]
  end.

Lemma spawn_container_fs_lemma `{Target} self base_rootfs workspace :
  wp any_response (Rootfs.spawn_container_fs self base_rootfs workspace) (fun o t =>
    exists id,
    let whole := container_setup base_rootfs workspace (Rootfs.layout self id) in
    (o = Done (Ok (Rootfs.layout self id)) /\ t = whole) \/
    (exists e, o = Done (Err e) /\ stopped_in whole t)).
Proof.
  unfold Rootfs.spawn_container_fs, Rootfs.mount_container, mount_overlay, mkdir_all, container_setup.
  wp_simpl. intros id _. cbn [prog_bind wp].
  fallible_line; exists id; cbn zeta;
    first [ left; split; reflexivity | right; eexists; split; [reflexivity|stopped_here] ].
Qed.

Definition layer_setup `{Target} (m : Layer.OverlayMount) : sys_trace :=
  Ev NewUuid (Layer.ov_id m) ::
  map made [Layer.upper_dir m; Layer.work_dir m; Layer.merged_dir m] ++
  (if is_linux then
     [overlay_mounted (Layer.lower_dir m) (Layer.upper_dir m) (Layer.work_dir m)
        (Layer.merged_dir m) (Ok tt)]
   else []).

Lemma prepare_overlay_lemma `{Target} self lower :
  wp any_response (Layer.prepare_overlay self lower) (fun o t =>
    exists m, Layer.lower_dir m = lower /\
      Layer.merged_dir m = path_join (Layer.session_root self (Layer.ov_id m)) "merged" /\
      ((o = Done (Ok m) /\ t = layer_setup m) \/
       (exists e, o = Done (Err e) /\ stopped_in (layer_setup m) t))).
Proof.
  unfold Layer.prepare_overlay, mount_overlay, mkdir_all, layer_setup.
  wp_simpl. intros id _. cbn [prog_bind wp]. cbn zeta.
  set (root := Layer.session_root self id).
  fallible_line;
    exists (Layer.mk_overlay id lower (path_join root "upper") (path_join root "work")
              (path_join root "merged"));
    (split; [done|]); (split; [done|]);
    first [ left; split; reflexivity | right; eexists; split; [reflexivity|stopped_here] ].
Qed.

(** ** Taking down *)

Definition detached (p : path) (t : sys_trace) : Prop :=
  t = [Ev (PathExists p) false] \/
  exists r, t = [Ev (PathExists p) true; Ev (Umount2Detach p) r].

Definition removed (p : path) (t : sys_trace) : Prop :=
  t = [Ev (PathExists p) false] \/
  exists r, t = [Ev (PathExists p) true; Ev (RemoveDirAll p) r].

Lemma detach_spec p :
  wp any_response (detach_if_there p) (fun o t => o = Done tt /\ detached p t).
Proof.
  unfold detach_if_there. wp_simpl. intros [|] _; cbn [prog_bind wp].
  - intros r _. split; [done|]. right. by exists r.
  - split; [done|]. by left.
Qed.

Lemma remove_spec p :
  wp any_response (remove_if_there p) (fun o t => o = Done tt /\ removed p t).
Proof.
  unfold remove_if_there. wp_simpl. intros [|] _; cbn [prog_bind wp].
  - intros r _. split; [done|]. right. by exists r.
  - split; [done|]. by left.
Qed.

(** The calls of a complete clean-up: the workspace is detached before the
    root it is mounted in, and the directories go last. *)
Definition taken_down `{Target} (self : Rootfs.RootfsOverlayManager) (c : Rootfs.ContainerFs)
    (t : sys_trace) : Prop :=
  exists t1 t2 t3, t = t1 ++ t2 ++ t3 /\
    (if is_linux then detached (Rootfs.workspace_mount c) t1 /\ detached (Rootfs.root_dir c) t2
     else t1 = [] /\ t2 = []) /\
    removed (Rootfs.session_dir self (Rootfs.container_id c)) t3.

Lemma cleanup_lemma `{Target} self c :
  wp any_response (Rootfs.cleanup self c) (fun o t => o = Done (Ok tt) /\ taken_down self c t).
Proof.
  unfold Rootfs.cleanup, taken_down. prog_unfold.
  apply wp_bind. destruct is_linux.
  - apply wp_bind. eapply wp_mono; [apply detach_spec|]. intros o t1 [-> H1].
    eapply wp_mono; [apply detach_spec|]. intros o t2 [-> H2].
    apply wp_bind. eapply wp_mono; [apply remove_spec|]. intros o t3 [-> H3]. cbn.
    split; [done|]. exists t1, t2, t3. by rewrite app_nil_r, app_assoc.
  - cbn [wp]. apply wp_bind. eapply wp_mono; [apply remove_spec|]. intros o t3 [-> H3]. cbn.
    split; [done|]. exists [], [], t3. by rewrite app_nil_r.
Qed.

Lemma path_join_ne p q : p <> "" -> path_join p q <> "".
Proof.
  intros Hp. unfold path_join. destruct (is_absolute q) eqn:Hq; [by intros ->|].
  destruct p as [|a p]; [done|]. destruct (last_char (String a p)) as [c|] eqn:Hl.
  - by case_decide.
  - by apply last_char_none in Hl.
Qed.

(** The root file system of a container is set up completely or not at
    all handed out: on success the session directories exist, and on Linux the
    overlay over the image, the workspace bound into it and the directory for
    the pivot are in place, in this order.  A failing step ends the set-up with
    an error at that call, and nothing that was done before, mounts included,
    is undone. *)
Lemma spawn_container_fs_spec `{Target} (self : Rootfs.RootfsOverlayManager)
    (base_rootfs workspace : path) :
  wp any_response (Rootfs.spawn_container_fs self base_rootfs workspace) (fun o t =>
    exists id,
    let whole := container_setup base_rootfs workspace (Rootfs.layout self id) in
    (o = Done (Ok (Rootfs.layout self id)) /\ t = whole) \/
    (exists e, o = Done (Err e) /\ stopped_in whole t)).
Proof. apply spawn_container_fs_lemma. Qed.

(** C37. The clean-up of a container does not wait for its unmounts: on Linux,
    where the directories exist, the session tree is removed recursively even
    when detaching the workspace or the root failed, and the workspace mount is
    inside that tree. *)
Theorem cleanup_ignores_failed_unmounts `{Target} (id : string)
    (r1 r2 : nix_result unit) (r3 : io_result unit)
    (Hos : os = Linux) (Hid : is_absolute id = false) :
  let self := Rootfs.new_overlay_manager in
  let c := Rootfs.layout self id in
  behaves any_response (Rootfs.cleanup self c) (Done (Ok tt))
    [Ev (PathExists (Rootfs.workspace_mount c)) true;
     Ev (Umount2Detach (Rootfs.workspace_mount c)) r1;
     Ev (PathExists (Rootfs.root_dir c)) true;
     Ev (Umount2Detach (Rootfs.root_dir c)) r2;
     Ev (PathExists (Rootfs.session_dir self id)) true;
     Ev (RemoveDirAll (Rootfs.session_dir self id)) r3] /\
  path_starts_with (Rootfs.workspace_mount c) (Rootfs.session_dir self id) = true.
Proof.
  cbn zeta. split.
  - intros Q HQ. unfold Rootfs.cleanup, is_linux in HQ. rewrite bool_decide_true in HQ by done.
    exact (HQ true I r1 I true I r2 I true I r3 I).
  - assert (Rootfs.session_dir Rootfs.new_overlay_manager id <> "") by by apply path_join_ne.
    eapply path_starts_with_trans; [apply join_starts_with; [done|]|by apply join_starts_with].
    by apply path_join_ne.
Qed.

Lemma cleanup_ignores_failed_unmounts_witness :
  let self := Rootfs.new_overlay_manager in
  let c := Rootfs.layout self "c1" in
  Rootfs.workspace_mount c = "/tmp/kuda_containers/c1/root/workspace" /\
  behaves any_response (@Rootfs.cleanup linux_x86 self c) (Done (Ok tt))
    [Ev (PathExists (Rootfs.workspace_mount c)) true;
     Ev (Umount2Detach (Rootfs.workspace_mount c)) (Err "EPERM: Operation not permitted");
     Ev (PathExists (Rootfs.root_dir c)) true;
     Ev (Umount2Detach (Rootfs.root_dir c)) (Err "EPERM: Operation not permitted");
     Ev (PathExists (Rootfs.session_dir self "c1")) true;
     Ev (RemoveDirAll "/tmp/kuda_containers/c1") (Ok tt)].
Proof.
  split; [vm_compute; reflexivity|].
  exact (proj1 (@cleanup_ignores_failed_unmounts linux_x86 "c1"
    (Err "EPERM: Operation not permitted") (Err "EPERM: Operation not permitted") (Ok tt)
    eq_refl eq_refl)).
Defined.
