(* ===== verification/Vm.v ===== *)
(** * Micro-VM engines ([vm/config.rs], [vm/linux_kvm.rs], [vm/darwin_vz.rs])

    Both engines start a hypervisor process with the guest's command in the
    kernel command line, base64-encoded, and wait for it under a timeout.
    [Module Kvm] and [Module Vz] are the two engines; base64 is a crate of its
    own and so a parameter, the class [Base64]. *)
From S2P Require Export ExecutorRun.

(* @src core/vm/config.rs:37-42 VmNetwork *)
Inductive VmNetwork : Type :=
| NoNetwork
| Nat
| Bridged (interface : string).

(* @src core/vm/config.rs:29-35 VmDisk *)
Record VmDisk : Type := mk_disk {
  drive_id : string;
  disk_path : path;
  is_read_only : bool;
  is_root_device : bool
}.

(* @src core/vm/config.rs:4-23 VmConfig *)
Record VmConfig : Type := mk_vm_config {
  vcpu_count : Z;
  vm_ram_mb : Z;
  kernel_path : option path;
  initrd_path : option path;
  boot_args : string;
  drives : list VmDisk;
  vm_network : VmNetwork;
  timeout_secs : Z
}.

(* @src core/vm/config.rs:44-57 VmConfig::default *)
Definition default_vm_config : VmConfig :=
  mk_vm_config 1 512 None None "console=hvc0 root=/dev/vda rw panic=-1 init=/bin/sh" [] Nat 300.

(** [STANDARD.encode] of the base64 crate. *)
Class Base64 : Type := b64_encode : bytes -> string.

(** The characters of the standard alphabet and its padding. *)
Definition b64_char (c : ascii) : bool :=
  let n := nat_of_ascii c in
  ((65 <=? n) && (n <=? 90) || (97 <=? n) && (n <=? 122) || (48 <=? n) && (n <=? 57) ||
   (n =? 43) || (n =? 47) || (n =? 61))%nat.

(** ** Finding the hypervisor *)

(* @src core/vm/linux_kvm.rs:14-18 find_qemu (candidates) *)
Fixpoint first_existing (l : list path) : prog sys (option path) :=
  match l with
  | [] => Ret None
  | p :: l =>
      there ← call (PathExists p);
      if there : bool then Ret (Some p) else first_existing l
  end.

(** The fixed places first, then every directory of [PATH]. *)
(* @src core/vm/linux_kvm.rs:14-29 find_qemu (search) *)
Definition find_binary (places : list path) (names : list string) : prog sys (option path) :=
  r ← first_existing places;
  match r with
  | Some p => Ret (Some p)
  | None =>
      path_var ← call (EnvVar "PATH");
      match path_var with
      | Some v =>
          first_existing (concat (map (fun dir => map (path_join dir) names) (split_on ":" v)))
      | None => Ret None
      end
  end.

(** ** The parts the engines share *)

(* @src core/vm/linux_kvm.rs:94-96 KvmMicroVmEngine::spawn_micro_vm (initrd) *)
Definition initrd_args (config : VmConfig) : list string :=
  match initrd_path config with Some p => ["-initrd"; p] | None => [] end.

(* @src core/vm/linux_kvm.rs:98-102 KvmMicroVmEngine::spawn_micro_vm (drives) *)
Definition drive_args (config : VmConfig) : list string :=
  concat (map (fun d => ["-drive"; "file=" +:+ display_path (disk_path d) +:+ ",format=raw,if=virtio"
                                   +:+ (if is_read_only d then ",readonly=on" else "")])
            (drives config)).

(* @src core/vm/linux_kvm.rs:104-114 KvmMicroVmEngine::spawn_micro_vm (network) *)
Definition network_args (config : VmConfig) : list string :=
  match vm_network config with
  | NoNetwork => ["-nic"; "none"]
  | Nat => ["-nic"; "user,model=virtio-net-pci"]
  | Bridged _ => ["-nic"; "none"]
  end.

(* @src core/vm/linux_kvm.rs:81-83 KvmMicroVmEngine::spawn_micro_vm (kernel command line) *)
Definition append_arg `{Base64} (console command_str : string) : string :=
  "console=" +:+ console +:+ " panic=-1 init=/bin/sh -c " +:+
  quoted ("echo " +:+ b64_encode (bytes_of_string command_str) +:+ " | base64 -d | sh").

(* @src core/vm/linux_kvm.rs:116-118 KvmMicroVmEngine::spawn_micro_vm (process) *)
Definition vm_command (bin : path) (args : list string) : command :=
  mk_command bin args None false ∅ Inherit Piped Piped true.

(* @src core/vm/darwin_vz.rs:153-153 run_vm_with_timeout (timeout) *)
Definition vm_timeout (config : VmConfig) : Z :=
  if (timeout_secs config =? 0)%Z then 300 else timeout_secs config.

Definition vm_outcome : Type := string * string * Z.

(** [wait_with_output] owns the handle of the child, so the handle is dropped
    when it fails and when the timeout cancels it. *)
(* @src core/vm/darwin_vz.rs:147-171 run_vm_with_timeout *)
Definition run_vm_with_timeout (what : string) (cmd : command) (config : VmConfig)
    : prog sys (Result vm_outcome) :=
  child ←? map_err_p (fun e => SetupFailed ("Failed to execute " +:+ what +:+ " session: " +:+ ioe_text e))
             (spawn cmd (ret? tt));
  reply ← call (WaitOutput (vm_timeout config));
  match reply with
  | OutputOk out =>
      ret? (from_utf8_lossy (co_stdout out), from_utf8_lossy (co_stderr out),
            exit_code_of (co_status out))
  | OutputErr reaped e =>
      _ ← (if reaped : bool then Ret tt else drop_child cmd child);
      Ret (Err (SetupFailed ("Failed to wait for " +:+ what +:+ " session: " +:+ ioe_text e)))
  | OutputTimedOut =>
      _ ← drop_child cmd child;
      Ret (Err (Timeout (vm_timeout config)))
  end.

Definition no_kernel : string :=
  "MicroVM execution requires a valid Linux kernel image (vmlinux/bzImage). Please configure a valid kernel_path in VmConfig.".

(* @src core/vm/linux_kvm.rs:53-66 KvmMicroVmEngine::spawn_micro_vm (kernel) *)
Definition check_kernel (config : VmConfig) : prog sys (Result path) :=
  match kernel_path config with
  | Some p =>
      there ← call (PathExists p);
      if there : bool then ret? p
      else Ret (Err (SetupFailed ("Configured kernel_path '" +:+ display_path p +:+ "' does not exist")))
  | None => Ret (Err (SetupFailed no_kernel))
  end.

Module Kvm.

(* @src core/vm/linux_kvm.rs:8-30 find_qemu *)
Definition find_qemu : prog sys (option path) :=
  find_binary ["/usr/bin/qemu-system-x86_64"; "/usr/bin/qemu-system-aarch64"; "/usr/libexec/qemu-kvm"]
    ["qemu-system-x86_64"; "qemu-system-aarch64"].

(* @src core/vm/linux_kvm.rs:33-43 KvmMicroVmEngine::is_supported *)
Definition is_supported `{Target} : prog sys bool :=
  if is_linux then call (PathExists "/dev/kvm") else Ret false.

(* @src core/vm/linux_kvm.rs:85-114 KvmMicroVmEngine::spawn_micro_vm (arguments) *)
Definition qemu_args (config : VmConfig) (kernel append : string) : list string :=
  ["-enable-kvm"; "-cpu"; "host"; "-smp"; pretty (vcpu_count config);
   "-m"; pretty (vm_ram_mb config) +:+ "M"; "-nographic"; "-kernel"; kernel; "-append"; append]
  ++ initrd_args config ++ drive_args config ++ network_args config.

(* @src core/vm/linux_kvm.rs:45-138 KvmMicroVmEngine::spawn_micro_vm *)
Definition spawn_micro_vm `{Target} `{Base64} (config : VmConfig) (command_str : string)
    : prog sys (Result vm_outcome) :=
  supported ← is_supported;
  if supported : bool then
    kernel ←? check_kernel config;
    bin ← find_qemu;
    match bin with
    | None => Ret (Err (SetupFailed
        "KVM Hypervisor binary (qemu-system) not found. Install 'qemu-system-x86' or 'cloud-hypervisor'."))
    | Some bin =>
        run_vm_with_timeout "KVM MicroVM"
          (vm_command bin (qemu_args config kernel (append_arg "ttyS0" command_str))) config
    end
  else Ret (Err (Unsupported "KVM (/dev/kvm) is not available on this host")).
End Kvm.

Module Vz.

(* @src core/vm/darwin_vz.rs:8-13 QEMU_CANDIDATES *)
Definition QEMU_CANDIDATES : list path :=
  ["/opt/homebrew/bin/qemu-system-aarch64"; "/usr/local/bin/qemu-system-aarch64";
   "/opt/homebrew/bin/qemu-system-x86_64"; "/usr/local/bin/qemu-system-x86_64"].

(* @src core/vm/darwin_vz.rs:15-32 find_qemu *)
Definition find_qemu : prog sys (option path) :=
  find_binary QEMU_CANDIDATES ["qemu-system-aarch64"; "qemu-system-x86_64"].

(* @src core/vm/darwin_vz.rs:35-46 AppleVirtualizationEngine::is_supported *)
Definition is_supported `{Target} : prog sys bool :=
  if is_macos then (r ← find_qemu; Ret (bool_decide (is_Some r))) else Ret false.

Definition is_arm (bin : path) : bool := str_contains (display_path bin) "aarch64".

(* @src core/vm/darwin_vz.rs:140-145 kernel_display *)
Definition kernel_display (config : VmConfig) : path := default "/dev/null" (kernel_path config).

(* @src core/vm/darwin_vz.rs:101-138 build_qemu_command *)
Definition qemu_args (bin : path) (config : VmConfig) (append : string) : list string :=
  ["-machine"; (if is_arm bin then "virt,accel=hvf" else "q35,accel=hvf"); "-cpu"; "host";
   "-smp"; pretty (vcpu_count config); "-m"; pretty (vm_ram_mb config) +:+ "M"; "-nographic";
   "-kernel"; kernel_display config; "-append"; append]
  ++ initrd_args config ++ drive_args config ++ network_args config.

(* @src core/vm/darwin_vz.rs:48-98 AppleVirtualizationEngine::spawn_micro_vm *)
Definition spawn_micro_vm `{Target} `{Base64} (config : VmConfig) (command_str : string)
    : prog sys (Result vm_outcome) :=
  supported ← is_supported;
  if supported : bool then
    _ ←? check_kernel config;
    bin ← find_qemu;
    match bin with
    | None => Ret (Err (SetupFailed "MicroVM Hypervisor binary (qemu-system) not found"))
    | Some bin =>
        let append := append_arg (if is_arm bin then "ttyAMA0" else "ttyS0") command_str in
        run_vm_with_timeout "MicroVM" (vm_command bin (qemu_args bin config append)) config
    end
  else Ret (Err (Unsupported
    "Apple Silicon virtualization requires qemu-system-aarch64/x86_64 (brew install qemu)")).
End Vz.

(** [execute_microvm] picks the engine of the platform. *)
(* @src core/executor.rs:407-414 SandboxExecutor::execute_microvm (engine) *)
Definition spawn_vm `{Target} `{Base64} (config : VmConfig) (command_str : string)
    : prog sys (Result vm_outcome) :=
  if is_macos then Vz.spawn_micro_vm config command_str
  else if is_linux then Kvm.spawn_micro_vm config command_str
  else Ret (Err (Unsupported "Hardware virtualization is not supported on this OS")).

(* @src core/executor.rs:397-434 SandboxExecutor::execute_microvm *)
Definition execute_microvm `{Target} `{Base64} (command_str : string) (config : VmConfig)
    : prog sys (Result SandboxResult) :=
  id ← call NewUuid;
  start ← call NowMillis;
  out ←? spawn_vm config command_str;
  total ← elapsed start;
  ret? (mk_sandbox_result id out.2 out.1.1 out.1.2
          (mk_metrics id 0 total total 0 out.2 "QEMU Hypervisor (HVF / KVM)" None)).

(** ** What a session does *)

(** The calls that start or await a hypervisor. *)
Definition is_session (e : event sys) : bool :=
  match e with
  | @Ev _ _ (Exec _) _ | @Ev _ _ (WaitOutput _) _ => true
  | _ => false
  end.

Lemma first_existing_spec l :
  wp any_response (first_existing l) (fun o t => exists r, o = Done r /\
    Forall (fun e => is_session e = false) t /\
    forall p, r = Some p -> p ∈ l /\ Ev (PathExists p) true ∈ t).
Proof.
  induction l as [|p l IH]; cbn [first_existing].
  - exists None. by split_and!; [|constructor|].
  - wp_simpl. intros [|] _; cbn [prog_bind wp].
    + exists (Some p). split_and!; [done|by repeat constructor|].
      intros q [= <-]. split; by left.
    + eapply wp_mono; [exact IH|]. intros o t (r & -> & Hq & Hr). exists r.
      split_and!; [done|by constructor|]. intros q Hq'. destruct (Hr q Hq'). split; by right.
Qed.

Lemma find_binary_spec places names :
  wp any_response (find_binary places names) (fun o t => exists r, o = Done r /\
    Forall (fun e => is_session e = false) t /\
    forall p, r = Some p -> Ev (PathExists p) true ∈ t).
Proof.
  unfold find_binary. prog_unfold. apply wp_bind.
  eapply wp_mono; [apply first_existing_spec|]. intros o t (r & -> & Hq & Hr).
  destruct r as [p|]; cbn [wp].
  - exists (Some p). rewrite app_nil_r. split_and!; [done|done|]. intros q Hq'. by apply Hr.
  - cbn [prog_bind wp]. intros [v|] _; cbn [prog_bind wp].
    + eapply wp_mono; [apply first_existing_spec|]. intros o t' (r' & -> & Hq' & Hr').
      exists r'. split_and!; [done|by apply Forall_app; split; [|constructor]|].
      intros p Hp. apply elem_of_app. right. right. by apply Hr'.
    + exists None. split_and!; [done|by apply Forall_app; split; [|repeat constructor]|done].
Qed.

Lemma check_kernel_spec config :
  wp any_response (check_kernel config) (fun o t => exists r, o = Done r /\
    Forall (fun e => is_session e = false) t /\
    forall k, r = Ok k -> kernel_path config = Some k /\ Ev (PathExists k) true ∈ t).
Proof.
  unfold check_kernel. destruct (kernel_path config) as [k|]; wp_simpl.
  - intros [|] _; cbn [wp]; eexists; (split_and!; [done|by repeat constructor|]).
    + intros k' [= <-]. split; [done|by left].
    + done.
  - eexists. by split_and!; [|constructor|].
Qed.

(** The wait ended after the hypervisor had been reaped. *)
Definition reaped_by (x : output_reply) : bool :=
  match x with OutputOk _ => true | OutputErr reaped _ => reaped | OutputTimedOut => false end.

(** One session of the hypervisor [c]. *)
Record session (c : command) (config : VmConfig) (r : Result vm_outcome) (t : sys_trace) : Prop := {
  session_exec : forall c' x, Ev (Exec c') x ∈ t -> c' = c;
  session_wait : forall s x, Ev (WaitOutput s) x ∈ t -> s = vm_timeout config;
  session_ok : forall x, r = Ok x -> exists child out,
    Ev (Exec c) (Ok child) ∈ t /\ Ev (WaitOutput (vm_timeout config)) (OutputOk out) ∈ t /\
    x = (from_utf8_lossy (co_stdout out), from_utf8_lossy (co_stderr out),
         exit_code_of (co_status out));
  session_timeout : forall s, Ev (WaitOutput s) OutputTimedOut ∈ t ->
    r = Err (Timeout (vm_timeout config));
  session_end : forall child, Ev (Exec c) (Ok child) ∈ t ->
    (exists s x, Ev (WaitOutput s) x ∈ t) /\
    (forall s x, Ev (WaitOutput s) x ∈ t -> reaped_by x = false ->
       cmd_kill_on_drop c = true -> killed child t)
}.

Lemma quiet_session (t : sys_trace) e :
  Forall (fun e => is_session e = false) t -> e ∈ t -> is_session e = false.
Proof. rewrite Forall_forall. intros H Hin. by apply H, list_elem_of_In. Qed.

(** Calls before a session do not count. *)
Lemma session_after c config r t0 t :
  Forall (fun e => is_session e = false) t0 -> session c config r t ->
  session c config r (t0 ++ t).
Proof.
  intros Hq [H1 H2 H3 H4 H5].
  assert (Hin : forall e, is_session e = true -> e ∈ t0 ++ t -> e ∈ t).
  { intros e He [Ht|Ht]%elem_of_app; [|done]. apply (quiet_session _ _ Hq) in Ht. congruence. }
  split.
  - intros c' x H. eapply H1, Hin; [|exact H]. done.
  - intros s x H. eapply H2, Hin; [|exact H]. done.
  - intros x Hx. destruct (H3 x Hx) as (child & out & ? & ? & ?). exists child, out. set_solver.
  - intros s H. by eapply H4, Hin.
  - intros child H. destruct (H5 child) as [(s & x & Hw) Hk]; [by apply Hin|]. split.
    + exists s, x. set_solver.
    + intros s' x' H' Hr Hkill. rewrite <- (app_nil_r t). apply (killed_app child t0 t []).
      eapply Hk; [|done|done]. by eapply Hin.
Qed.

Lemma no_session c config e t :
  Forall (fun e => is_session e = false) t -> session c config (Err e) t.
Proof.
  intros Hq. split; try done; intros; exfalso;
    match goal with H : Ev _ _ ∈ t |- _ => by apply (quiet_session _ _ Hq) in H end.
Qed.

Lemma drop_child_session c child :
  wp any_response (drop_child c child) (fun o t => o = Done tt /\
    Forall (fun e => is_session e = false) t /\ (cmd_kill_on_drop c = true -> killed child t)).
Proof.
  unfold drop_child. destruct child as [p|]; [destruct (cmd_kill_on_drop c)|]; wp_simpl.
  - intros x _. split_and!; [done|by repeat constructor|]. intros _ ? [= <-]. exists x.
    apply list_elem_of_here.
  - by split_and!; [|constructor|].
  - by split_and!; [|constructor|].
Qed.

(** A session whose wait failed or was cancelled. *)
Lemma session_dropped c config e child x t :
  Forall (fun e => is_session e = false) t ->
  (forall out, x <> OutputOk out) -> (x = OutputTimedOut -> e = Timeout (vm_timeout config)) ->
  (reaped_by x = false -> cmd_kill_on_drop c = true -> killed child t) ->
  session c config (Err e) (Ev Fork (Ok tt) :: Ev (Exec c) (Ok child) ::
                            Ev (WaitOutput (vm_timeout config)) x :: t).
Proof.
  intros Hq Hx He Hk. set (pre := [Ev Fork (Ok tt); Ev (Exec c) (Ok child);
    Ev (WaitOutput (vm_timeout config)) x]).
  assert (Hin : forall ev, is_session ev = true -> ev ∈ pre ++ t -> ev ∈ pre).
  { intros ev Hev [H|H]%elem_of_app; [done|]. apply (quiet_session _ _ Hq) in H. congruence. }
  change (session c config (Err e) (pre ++ t)). unfold pre in Hin. split.
  - intros c' y H. apply Hin in H; [|done]. by ev_simpl.
  - intros s y H. apply Hin in H; [|done]. by ev_simpl.
  - done.
  - intros s H. apply Hin in H; [|done]. ev_simpl. f_equal. by apply He.
  - intros child' H. apply Hin in H; [|done]. ev_simpl.
    split; [exists (vm_timeout config), x; set_solver|]. intros s y H Hr Hkill. apply Hin in H; [|done]. ev_simpl.
    rewrite <- (app_nil_r t). apply (killed_app _ pre t []). subst. by apply Hk.
Qed.

Lemma run_vm_session what c config :
  cmd_cwd c = None ->
  wp any_response (run_vm_with_timeout what c config) (fun o t => exists r, o = Done r /\
    session c config r t).
Proof.
  intros Hcwd. unfold run_vm_with_timeout, spawn. rewrite Hcwd.
  destruct (command_has_nul c); wp_simpl; [eexists; split; [done|by apply no_session]|].
  intros [[]|e] _; cbn [map_err prog_bind wp];
    [|eexists; split; [done|by apply no_session; repeat constructor]].
  intros [child|e] _; cbn [map_err prog_bind wp];
    [|eexists; split; [done|]; split; intros; ev_simpl; try done].
  intros [out|reaped e|] _; cbn [prog_bind wp].
  - eexists. split; [done|]. split; intros; ev_simpl; try done.
    + exists child, out. split_and!; [set_solver|set_solver|done].
    + split; [exists (vm_timeout config), (OutputOk out); set_solver|]. intros s x Hw Hr. by ev_simpl; subst.
  - apply wp_bind. eapply wp_mono with (Q := fun o t => o = Done tt /\
      Forall (fun e => is_session e = false) t /\
      (reaped = false -> cmd_kill_on_drop c = true -> killed child t)).
    { destruct reaped; [by split_and!; [|constructor|]|].
      eapply wp_mono; [apply drop_child_session|]. intros o t (-> & Hq & Hk). by split_and!. }
    intros o t (-> & Hq & Hk). cbn. rewrite app_nil_r. eexists. split; [done|].
    by apply (session_dropped c config _ child (OutputErr reaped e) t).
  - apply wp_bind. eapply wp_mono; [apply drop_child_session|]. intros o t (-> & Hq & Hk).
    cbn. rewrite app_nil_r. eexists. split; [done|].
    by apply (session_dropped c config _ child OutputTimedOut t).
Qed.

(** The command line that a configuration stands for: the machine, as many
    processors and as much memory as configured, the kernel with the guest's
    command in its own command line, the initial ramdisk if there is one, every
    drive, read-only ones marked, and the network, none for a bridged one.
    [machine] is what depends on the system, [console] the guest's console. *)
Definition vm_arguments `{Base64} (machine : list string) (console : string) (config : VmConfig)
    (kernel : path) (command_str : string) : list string :=
  machine ++
  ["-cpu"; "host"; "-smp"; pretty (vcpu_count config); "-m"; pretty (vm_ram_mb config) +:+ "M";
   "-nographic"; "-kernel"; kernel;
   "-append"; "console=" +:+ console +:+ " panic=-1 init=/bin/sh -c " +:+
     quoted ("echo " +:+ b64_encode (bytes_of_string command_str) +:+ " | base64 -d | sh")] ++
  match initrd_path config with Some p => ["-initrd"; p] | None => [] end ++
  flat_map (fun d => ["-drive"; "file=" +:+ display_path (disk_path d) +:+ ",format=raw,if=virtio"
                        +:+ (if is_read_only d then ",readonly=on" else "")]) (drives config) ++
  ["-nic"; match vm_network config with Nat => "user,model=virtio-net-pci" | _ => "none" end].

(** A process that has these arguments, its output in pipes, and that is killed
    with its handle. *)
Definition vm_child (bin : path) (args : list string) (c : command) : Prop :=
  cmd_program c = bin /\ cmd_args c = args /\ cmd_cwd c = None /\ cmd_env_clear c = false /\
  cmd_env c = ∅ /\ cmd_stdin c = Inherit /\ cmd_stdout c = Piped /\ cmd_stderr c = Piped /\
  cmd_kill_on_drop c = true.

(** The process of an engine, and what was seen before it was chosen. *)
Definition vm_process `{Target} `{Base64} (config : VmConfig) (command_str : string) (c : command)
    (t : sys_trace) : Prop :=
  exists bin kernel, kernel_path config = Some kernel /\
    Ev (PathExists kernel) true ∈ t /\ Ev (PathExists bin) true ∈ t /\
    if is_macos then
      let arm := str_contains (display_path bin) "aarch64" in
      vm_child bin (vm_arguments ["-machine"; if arm then "virt,accel=hvf" else "q35,accel=hvf"]
                      (if arm then "ttyAMA0" else "ttyS0") config kernel command_str) c
    else
      is_linux = true /\ Ev (PathExists "/dev/kvm") true ∈ t /\
      vm_child bin (vm_arguments ["-enable-kvm"] "ttyS0" config kernel command_str) c.

Lemma shared_arguments config :
  concat (map (fun d => ["-drive"; "file=" +:+ display_path (disk_path d) +:+ ",format=raw,if=virtio"
            +:+ (if is_read_only d then ",readonly=on" else "")]) (drives config)) =
  flat_map (fun d => ["-drive"; "file=" +:+ display_path (disk_path d) +:+ ",format=raw,if=virtio"
            +:+ (if is_read_only d then ",readonly=on" else "")]) (drives config) /\
  network_args config =
  ["-nic"; match vm_network config with Nat => "user,model=virtio-net-pci" | _ => "none" end].
Proof.
  split; [by rewrite flat_map_concat_map|]. unfold network_args. by destruct (vm_network config).
Qed.

Lemma kvm_child `{Base64} bin config kernel command_str :
  vm_child bin (vm_arguments ["-enable-kvm"] "ttyS0" config kernel command_str)
    (vm_command bin (Kvm.qemu_args config kernel (append_arg "ttyS0" command_str))).
Proof.
  destruct (shared_arguments config) as [Hd Hn]. split_and!; try done.
  unfold vm_command, Kvm.qemu_args, drive_args. cbn [cmd_args]. rewrite Hd, Hn. reflexivity.
Qed.

Lemma vz_child `{Base64} bin config kernel command_str :
  kernel_path config = Some kernel ->
  let arm := str_contains (display_path bin) "aarch64" in
  vm_child bin (vm_arguments ["-machine"; if arm then "virt,accel=hvf" else "q35,accel=hvf"]
                  (if arm then "ttyAMA0" else "ttyS0") config kernel command_str)
    (vm_command bin (Vz.qemu_args bin config
       (append_arg (if Vz.is_arm bin then "ttyAMA0" else "ttyS0") command_str))).
Proof.
  intros Hk. destruct (shared_arguments config) as [Hd Hn]. split_and!; try done.
  unfold vm_command, Vz.qemu_args, drive_args, Vz.kernel_display. cbn [cmd_args].
  rewrite Hd, Hn, Hk. reflexivity.
Qed.

Lemma vm_process_kill `{Target} `{Base64} config command_str c t :
  vm_process config command_str c t -> cmd_kill_on_drop c = true.
Proof.
  intros (bin & kernel & _ & _ & _ & Hc).
  destruct is_macos; [|destruct Hc as (_ & _ & Hc)]; apply Hc.
Qed.

(** An attempt: it gives up before a session, or it has one. *)
Definition attempt `{Target} `{Base64} (config : VmConfig) (command_str : string)
    (r : Result vm_outcome) (t : sys_trace) : Prop :=
  exists t0 t1, t = t0 ++ t1 /\ Forall (fun e => is_session e = false) t0 /\
    ((t1 = [] /\ exists e, r = Err e) \/
     (exists c, vm_process config command_str c t0 /\ session c config r t1)).

Lemma gave_up `{Target} `{Base64} config command_str e t :
  Forall (fun e => is_session e = false) t -> attempt config command_str (Err e) t.
Proof. intros Hq. exists t, []. rewrite app_nil_r. split_and!; [done|done|]. left. eauto. Qed.

Lemma kvm_attempt `{Target} `{Base64} config command_str :
  is_macos = false ->
  wp any_response (Kvm.spawn_micro_vm config command_str) (fun o t => exists r, o = Done r /\
    attempt config command_str r t).
Proof.
  intros Hmac. unfold Kvm.spawn_micro_vm, Kvm.is_supported. prog_unfold.
  destruct is_linux eqn:Hlin; cbn [prog_bind wp];
    [intros [|] _|]; cbn [prog_bind wp];
    try (eexists; split; [done|]; apply gave_up; by repeat constructor).
  apply wp_bind. eapply wp_mono; [apply check_kernel_spec|]. intros o t (r & -> & Hq & Hk).
  destruct r as [k|e];
    [|cbn; eexists; split; [done|]; apply gave_up; rewrite app_nil_r; by constructor].
  destruct (Hk k eq_refl) as [Hc Hk']. apply wp_bind.
  eapply wp_mono; [apply find_binary_spec|]. intros o t' (r & -> & Hq' & Hb).
  destruct r as [bin|];
    [|cbn; eexists; split; [done|]; apply gave_up; rewrite app_nil_r;
      constructor; [done|by apply Forall_app]].
  eapply wp_mono; [by apply run_vm_session|]. intros o t'' (r & -> & Hs).
  exists r. split; [done|].
  exists (Ev (PathExists "/dev/kvm") true :: t ++ t'), t''. split_and!.
  - cbn. by rewrite <- app_assoc.
  - constructor; [done|by apply Forall_app].
  - right. eexists. split; [|exact Hs]. exists bin, k. rewrite Hmac.
    specialize (Hb bin eq_refl). split_and!; [done|set_solver|set_solver|done|by left|apply kvm_child].
Qed.

Lemma vz_attempt `{Target} `{Base64} config command_str :
  is_macos = true ->
  wp any_response (Vz.spawn_micro_vm config command_str) (fun o t => exists r, o = Done r /\
    attempt config command_str r t).
Proof.
  intros Hmac. unfold Vz.spawn_micro_vm, Vz.is_supported. rewrite Hmac. prog_unfold.
  apply wp_bind. apply wp_bind. eapply wp_mono; [apply find_binary_spec|].
  intros o t0 (r0 & -> & Hq0 & _). cbn [wp]. rewrite app_nil_r.
  case_bool_decide; [|eexists; split; [done|]; by apply gave_up; rewrite app_nil_r].
  apply wp_bind. eapply wp_mono; [apply check_kernel_spec|]. intros o t (r & -> & Hq & Hk).
  destruct r as [k|e];
    [|eexists; split; [done|]; apply gave_up; rewrite app_nil_r; by apply Forall_app].
  destruct (Hk k eq_refl) as [Hc Hk']. apply wp_bind.
  eapply wp_mono; [apply find_binary_spec|]. intros o t' (r & -> & Hq' & Hb).
  destruct r as [bin|];
    [|eexists; split; [done|]; apply gave_up; rewrite app_nil_r; by rewrite !Forall_app].
  eapply wp_mono; [by apply run_vm_session|]. intros o t'' (r & -> & Hs).
  exists r. split; [done|]. exists (t0 ++ t ++ t'), t''. split_and!.
  - by rewrite <- !app_assoc.
  - by rewrite !Forall_app.
  - right. eexists. split; [|exact Hs]. exists bin, k. rewrite Hmac.
    specialize (Hb bin eq_refl). split_and!; [done|set_solver|set_solver|by apply vz_child].
Qed.

Lemma spawn_vm_attempt `{Target} `{Base64} config command_str :
  wp any_response (spawn_vm config command_str) (fun o t => exists r, o = Done r /\
    attempt config command_str r t).
Proof.
  unfold spawn_vm. destruct is_macos eqn:Hm; [by apply vz_attempt|].
  destruct is_linux; [by apply kvm_attempt|].
  eexists; split; [done|]. apply gave_up. constructor.
Qed.

Lemma vm_process_mono `{Target} `{Base64} config command_str c (t t' : sys_trace) :
  t ⊆ t' -> vm_process config command_str c t -> vm_process config command_str c t'.
Proof.
  intros Hs (bin & k & Hk & H1 & H2 & H3). exists bin, k.
  split_and!; [done|by apply Hs|by apply Hs|].
  destruct is_macos; [done|]. destruct H3 as (? & H3 & ?). by split_and!; [|apply Hs|].
Qed.

(** What is told of a finished session.  The limit is the configured time, 300
    seconds when that is 0. *)
Definition session_result (config : VmConfig) (r : Result SandboxResult) (t : sys_trace) : Prop :=
  let limit := if (timeout_secs config =? 0)%Z then 300%Z else timeout_secs config in
  (forall res, r = Ok res -> exists c child out, Ev (Exec c) (Ok child) ∈ t /\
     Ev (WaitOutput limit) (OutputOk out) ∈ t /\
     exit_code res = match co_status out with
                     | Exited code => code
                     | Signaled sig => (128 + sig)%Z
                     | OtherStatus => (-1)%Z
                     end /\
     res_stdout res = from_utf8_lossy (co_stdout out) /\
     res_stderr res = from_utf8_lossy (co_stderr out)) /\
  (forall s x, Ev (WaitOutput s) x ∈ t -> s = limit /\
     (x = OutputTimedOut -> r = Err (Timeout s))) /\
  (forall c child, Ev (Exec c) (Ok child) ∈ t ->
     (exists s x, Ev (WaitOutput s) x ∈ t) /\
     (forall s x, Ev (WaitOutput s) x ∈ t -> reaped_by x = false -> killed child t)).

Lemma attempt_exec `{Target} `{Base64} config command_str r pre t post :
  attempt config command_str r t ->
  Forall (fun e => is_session e = false) pre -> Forall (fun e => is_session e = false) post ->
  forall t1 c x t2, pre ++ t ++ post = t1 ++ Ev (Exec c) x :: t2 ->
    vm_process config command_str c t1.
Proof.
  intros (t0 & ts & -> & Hq & Hs) Hpre Hpost t1 c x t2 Heq.
  apply app_split in Heq as [[m ->]|(m & -> & Heq)].
  { apply Forall_app in Hpre as [_ Hpre]. by inversion Hpre. }
  rewrite <- app_assoc in Heq.
  apply app_split in Heq as [[m' ->]|(m' & -> & Heq)].
  { apply Forall_app in Hq as [_ Hq]. by inversion Hq. }
  destruct Hs as [[-> _]|(c0 & Hp & Hs)].
  - cbn in Heq. rewrite Heq in Hpost. apply Forall_app in Hpost as [_ Hpost]. by inversion Hpost.
  - apply app_split in Heq as [[m'' ->]|(m'' & -> & Heq)].
    + assert (c = c0) as -> by (eapply (session_exec _ _ _ _ Hs _ x); set_solver).
      eapply vm_process_mono; [|exact Hp]. set_solver.
    + rewrite Heq in Hpost. apply Forall_app in Hpost as [_ Hpost]. by inversion Hpost.
Qed.

Lemma attempt_wait `{Target} `{Base64} config command_str r pre t post :
  attempt config command_str r t ->
  Forall (fun e => is_session e = false) pre -> Forall (fun e => is_session e = false) post ->
  exists ts, (forall e, is_session e = true -> e ∈ pre ++ t ++ post -> e ∈ ts) /\
    ts ⊆ pre ++ t ++ post /\
    (ts = [] /\ (exists e, r = Err e) \/
     exists c, cmd_kill_on_drop c = true /\ session c config r ts).
Proof.
  intros (t0 & ts & -> & Hq & Hs) Hpre Hpost. exists ts. split; [|split].
  - intros e He. rewrite !elem_of_app.
    intros [Hin|[[Hin|Hin]|Hin]]; [| |done|];
      [apply (quiet_session _ _ Hpre) in Hin|apply (quiet_session _ _ Hq) in Hin
      |apply (quiet_session _ _ Hpost) in Hin]; congruence.
  - set_solver.
  - destruct Hs as [?|(c & Hp & Hs)]; [by left|right]. exists c.
    split; [by eapply vm_process_kill|done].
Qed.

(** C28. A micro-VM is started only from what was checked, and as it was
    configured.  Whenever a process is executed, the configured kernel and the
    hypervisor binary were seen to exist before (and on Linux [/dev/kvm]); the
    process is that hypervisor with exactly the command line the configuration
    stands for, the encoded command of the guest in it, its output in pipes, and
    it is killed with its handle.  It is then awaited for the configured time,
    300 seconds if that is zero.  The result carries the exit code (128 plus the
    signal for a killed one) and the output of that process; when the time runs
    out the call fails with a timeout; and whenever the wait ends, by timeout or
    by an error, with the process not yet reaped, it is sent [SIGKILL] by its
    identifier. *)
Theorem microvm_session `{Target} `{Base64} (command_str : string) (config : VmConfig) :
  wp any_response (execute_microvm command_str config) (fun o t => exists r, o = Done r /\
    (forall t1 c x t2, t = t1 ++ Ev (Exec c) x :: t2 -> vm_process config command_str c t1) /\
    session_result config r t).
Proof.
  unfold execute_microvm, elapsed. wp_simpl. intros id _ start _. cbn [prog_bind wp].
  apply wp_bind. eapply wp_mono; [apply spawn_vm_attempt|]. intros o t (r & -> & Ha).
  set (pre := [Ev NewUuid id; Ev NowMillis start]).
  assert (Hpre : Forall (fun e => is_session e = false) pre) by by repeat constructor.
  assert (Hwait : forall post, Forall (fun e => is_session e = false) post ->
    forall r', (forall x, r = Ok x -> exists res, r' = Ok res /\ exit_code res = x.2 /\
                  res_stdout res = x.1.1 /\ res_stderr res = x.1.2) ->
    (forall e, r = Err e -> r' = Err e) -> session_result config r' (pre ++ t ++ post)).
  { intros post Hpost r' Hok Herr.
    destruct (attempt_wait _ _ _ _ _ _ Ha Hpre Hpost) as (ts & Hin & Hsub & Hs). split.
    - intros res ->. destruct r as [x|e]; [|by specialize (Herr e eq_refl)].
      destruct Hs as [[_ [e He]]|(c & _ & Hs)]; [done|].
      destruct (session_ok _ _ _ _ Hs x eq_refl) as (child & out & H1 & H2 & ->).
      destruct (Hok _ eq_refl) as (res' & Hres & ? & ? & ?). injection Hres as <-.
      exists c, child, out. split_and!; [by apply Hsub|by apply Hsub|done|done|done].
    - destruct Hs as [[-> _]|(c & Hkill & Hs)].
      { split; intros; exfalso; match goal with H : Ev _ _ ∈ pre ++ _ |- _ =>
          apply Hin in H; [by apply elem_of_nil in H|done] end. }
      split.
      + intros s x Hx. apply Hin in Hx; [|done]. pose proof (session_wait _ _ _ _ Hs _ _ Hx) as ->.
        split; [done|]. intros ->. by eapply Herr, session_timeout.
      + intros c' child Hx. apply Hin in Hx; [|done].
        assert (c' = c) as -> by by eapply (session_exec _ _ _ _ Hs).
        destruct (session_end _ _ _ _ Hs child Hx) as [(s & x & Hw) Hk].
        split; [exists s, x; by apply Hsub|]. intros s' x' H' Hr p Hp. apply Hin in H'; [|done].
        destruct (Hk _ _ H' Hr Hkill p Hp) as [k Hkev]. exists k. by apply Hsub. }
  destruct r as [[[so se] code]|e]; cbn [prog_bind wp].
  - intros now _. eexists. split; [done|]. split.
    + apply (attempt_exec _ _ _ pre t [Ev NowMillis now] Ha Hpre). by repeat constructor.
    + apply (Hwait [Ev NowMillis now]); [by repeat constructor| |done].
      intros x [= <-]. eexists. by split_and!.
  - eexists. split; [done|]. split.
    + apply (attempt_exec _ _ _ pre t [] Ha Hpre). by repeat constructor.
    + apply (Hwait []); [by repeat constructor|done|]. by intros e' [= <-].
Qed.

(** ** The guest's command line *)

Lemma split_on_none c s : str_all (fun a => negb (bool_decide (a = c))) s = true -> split_on c s = [s].
Proof.
  induction s as [|a s IH]; [done|]. cbn. intros [Ha Hs]%andb_true_iff.
  apply negb_true_iff, bool_decide_eq_false in Ha. rewrite decide_False by done.
  by rewrite IH.
Qed.

Definition dquote : ascii := ascii_of_nat 34.

(** What base64 documents: the output is of its alphabet. *)
Definition b64_alphabet (B : Base64) : Prop := forall l, str_all b64_char (b64_encode l) = true.

(** C29. Whatever the guest's command is, quotes and spaces included, it cannot
    change how the kernel command line is read: there are exactly two double
    quotes in it, and between them the fixed pipeline around the encoded
    command. *)
Theorem guest_command_quoted (B : Base64) (console command_str : string)
    (Halpha : b64_alphabet B) (Hconsole : console ∈ ["ttyS0"; "ttyAMA0"]) :
  split_on dquote (append_arg console command_str) =
    ["console=" +:+ console +:+ " panic=-1 init=/bin/sh -c ";
     "echo " +:+ b64_encode (bytes_of_string command_str) +:+ " | base64 -d | sh"; ""].
Proof.
  set (pre := "console=" +:+ console +:+ " panic=-1 init=/bin/sh -c ").
  set (mid := "echo " +:+ b64_encode (bytes_of_string command_str) +:+ " | base64 -d | sh").
  assert (append_arg console command_str = pre +:+ String dquote (mid +:+ String dquote "")) as ->.
  { unfold append_arg, quoted, pre, mid. by rewrite <- !append_assoc. }
  rewrite !split_on_app.
  assert (Hpre : str_all (fun a => negb (bool_decide (a = dquote))) pre = true).
  { rewrite !elem_of_cons in Hconsole. unfold pre.
    destruct Hconsole as [->|[->|H]]; [vm_compute; reflexivity|vm_compute; reflexivity|].
    by apply elem_of_nil in H. }
  assert (Hmid : str_all (fun a => negb (bool_decide (a = dquote))) mid = true).
  { unfold mid. rewrite !str_all_app. apply andb_true_iff. split; [done|].
    apply andb_true_iff. split; [|done].
    eapply str_all_mono; [|apply Halpha]. intros c Hc. apply negb_true_iff, bool_decide_eq_false.
    intros ->. vm_compute in Hc. done. }
  by rewrite (split_on_none _ _ Hpre), (split_on_none _ _ Hmid).
Qed.

(** The standard encoding, for evaluation. *)
Definition b64_digits : string :=
  "ABCDEFGHIJKLMNOPQRSTUVWXYZabcdefghijklmnopqrstuvwxyz0123456789+/".
Definition b64_digit (z : Z) : string :=
  match String.get (Z.to_nat z) b64_digits with Some c => String c "" | None => "" end.
Fixpoint b64_standard (l : bytes) : string :=
  match l with
  | [] => ""
  | [a] =>
      let n := (Z_of_byte a * 65536)%Z in
      b64_digit (n / 262144) +:+ b64_digit (n / 4096 mod 64) +:+ "=="
  | [a; b] =>
      let n := (Z_of_byte a * 65536 + Z_of_byte b * 256)%Z in
      b64_digit (n / 262144) +:+ b64_digit (n / 4096 mod 64) +:+ b64_digit (n / 64 mod 64) +:+ "="
  | a :: b :: c :: l =>
      let n := (Z_of_byte a * 65536 + Z_of_byte b * 256 + Z_of_byte c)%Z in
      b64_digit (n / 262144) +:+ b64_digit (n / 4096 mod 64) +:+ b64_digit (n / 64 mod 64)
      +:+ b64_digit (n mod 64) +:+ b64_standard l
  end%Z.

Example b64_ex : b64_standard (bytes_of_string "echo hi") = "ZWNobyBoaQ==".
Proof. vm_compute. reflexivity. Qed.

Lemma get_all f s n c : str_all f s = true -> String.get n s = Some c -> f c = true.
Proof.
  revert n. induction s as [|a s IH]; intros n; [done|]. cbn. intros [Ha Hs]%andb_true_iff.
  destruct n; [by intros [= <-]|by apply IH].
Qed.

Lemma b64_digit_ok z : str_all b64_char (b64_digit z) = true.
Proof.
  unfold b64_digit. destruct (String.get _ b64_digits) as [c|] eqn:Hg; [|done].
  cbn. rewrite andb_true_r. eapply get_all; [|exact Hg]. by vm_compute.
Qed.

Lemma b64_standard_alphabet : b64_alphabet b64_standard.
Proof.
  intros l. remember (length l) as n eqn:Hn. assert (length l <= n)%nat as Hl by lia. clear Hn.
  revert l Hl. induction n as [n IH] using lt_wf_ind. intros l Hl. unfold b64_encode.
  destruct l as [|a [|b [|c l]]]; [done| | |]; cbn [b64_standard];
    rewrite !str_all_app, !b64_digit_ok; try done.
  cbn [andb]. apply (IH (length l)); [cbn in Hl; lia|done].
Qed.

Lemma guest_command_quoted_witness :
  split_on dquote (@append_arg b64_standard "ttyS0" "echo hi") =
    ["console=ttyS0 panic=-1 init=/bin/sh -c "; "echo ZWNobyBoaQ== | base64 -d | sh"; ""].
Proof.
  refine (eq_trans (guest_command_quoted b64_standard "ttyS0" "echo hi"
                      b64_standard_alphabet _) _).
  - by left.
  - vm_compute. reflexivity.
Defined.
