(* ===== verification/Engines.v ===== *)
(** * The container engine ([executor.rs], [execute_container])

    The second engine puts the pieces together: the image is pulled, a fresh
    root is mounted over it, the command runs in the process executor with a
    policy that names this root, and the root is taken down.  (The third
    engine, the micro-VM, is in [Vm].) *)
From S2P Require Export ImagesSpec Overlay.

Section Container.
Context `{Target} `{ImageDeps}.

(* @src core/executor.rs:371-375 SandboxExecutor::execute_container (policy) *)
Definition container_policy (rootfs_base : path) (c : Rootfs.ContainerFs) (policy : SandboxPolicy)
    : SandboxPolicy :=
  let f := fs policy in
  with_fs (mk_fs (rw_paths f ++ [Rootfs.root_dir c]) (ro_paths f ++ [rootfs_base]) (deny_paths f)
             (tmp_dir f) (use_overlay f) (Some (Rootfs.root_dir c))) policy.

Definition host_binaries_warning : string :=
  "Container engine on this OS runs host binaries under the SBPL write-jail only; full rootfs isolation requires Linux (pivot_root) or root privileges.".

(** The working directory of the child. *)
(* @src core/executor.rs:377-388 SandboxExecutor::execute_container (working directory) *)
Definition child_cwd (c : Rootfs.ContainerFs) (working_dir : path) : prog sys path :=
  if is_linux then Ret (Rootfs.workspace_mount c)
  else (_ ← call (Warn host_binaries_warning); Ret working_dir).

(* @src core/executor.rs:358-396 SandboxExecutor::execute_container *)
Definition execute_container (fuel : nat) (command_str : string) (working_dir : path)
    (rootfs_image : RootfsImage) (policy : SandboxPolicy) : prog sys (Result SandboxResult) :=
  img_mgr ← new_image_manager;
  rootfs_base ←? pull_image fuel img_mgr rootfs_image;
  let overlay_mgr := Rootfs.new_overlay_manager in
  container_fs ←? Rootfs.spawn_container_fs overlay_mgr rootfs_base working_dir;
  cwd ← child_cwd container_fs working_dir;
  res ← execute_wait command_str cwd (container_policy rootfs_base container_fs policy);
  let_ Rootfs.cleanup overlay_mgr container_fs;
  Ret res.
End Container.

(** ** No program runs while the image is fetched *)

Lemma quiet_read_full fuel f size acc : quiet is_exec (read_full fuel f size acc).
Proof.
  revert acc. induction fuel as [|fuel IH]; intros acc; cbn [read_full]; unfold io; [quiet_tac|].
  quiet_tac; apply IH.
Qed.

Lemma quiet_entries fuel temp : quiet is_exec (unpack_entries fuel temp).
Proof.
  induction fuel as [|fuel IH]; cbn [unpack_entries]; [quiet_tac|].
  unfold io. quiet_tac; apply IH.
Qed.

Lemma quiet_stream `{ImageDeps} fuel id file acc : quiet is_exec (stream_body fuel id file acc).
Proof.
  revert acc. induction fuel as [|fuel IH]; intros acc; cbn [stream_body]; [quiet_tac|].
  unfold io. quiet_tac; apply IH.
Qed.

Lemma quiet_pull `{Target} `{ImageDeps} fuel self image : quiet is_exec (pull_image fuel self image).
Proof.
  unfold pull_image, is_cached, download_image, fetch_alpine_sha256, write_stream_and_hash,
    check_digest, unpack_download, extract, remove_temp, probe, io.
  quiet_tac; first [apply quiet_stream | apply quiet_read_full | apply quiet_entries].
Qed.

(** What [execute_wait] does about the program it starts: it returns, the
    program is the shell with the command, it runs in the jail of the policy,
    and it is finished before the call returns. *)
Definition ran_once `{Target} (cmd : string) (wd : path) (policy : SandboxPolicy)
    (t1 : sys_trace) (c : command) (x : io_result (option pid)) (t2 : sys_trace) : Prop :=
  shell_command cmd wd c /\ jailed policy t1 /\
  forall child, x = Ok child -> finished child t2.

Lemma execute_wait_once `{Target} cmd wd policy :
  os = Linux ->
  wp any_response (execute_wait cmd wd policy) (fun o t => (exists r, o = Done r) /\
    forall t1 c x t2, t = t1 ++ Ev (Exec c) x :: t2 -> ran_once cmd wd policy t1 c x t2).
Proof.
  intros Hos. unfold execute_wait. prog_unfold. apply wp_bind.
  eapply wp_mono; [apply wp_returns; [apply execute_returns|]; apply wp_and;
    [by apply execute_jails|apply wp_and; [apply execute_calls|apply execution_finishes]]|].
  intros o t [[[r chunks] ->] (Hj & Hcalls & Hf)]. cbn. rewrite app_nil_r.
  split; [by eexists|]. intros t1 c x t2 ->. split_and!.
  - apply Forall_app in Hcalls as [_ Hcalls]. by inversion Hcalls.
  - by eapply Hj.
  - intros child ->. by eapply Hf.
Qed.

Lemma quiet_spawn_fs `{Target} self base wd :
  quiet is_exec (Rootfs.spawn_container_fs self base wd).
Proof.
  unfold Rootfs.spawn_container_fs, Rootfs.mount_container, mount_overlay, mkdir_all. quiet_tac.
Qed.

Lemma quiet_cleanup `{Target} self c : quiet is_exec (Rootfs.cleanup self c).
Proof. unfold Rootfs.cleanup, detach_if_there, remove_if_there. quiet_tac. Qed.

(** ** The image *)

(** The image is there: it was found in the cache, or the directory that an
    archive was completely unpacked to got its name. *)
Definition pulled (self : ImageManager) (base : path) (t : sys_trace) : Prop :=
  (Ev (PathExists base) true ∈ t /\ Ev (PathExists (path_join base "bin")) true ∈ t) \/
  exists id, Ev (Rename (staging self id) base) (Ok tt) ∈ t /\ Ev ArchiveNext None ∈ t.

(** [p] returns an image only if it is [base] and is there. *)
Definition yields (self : ImageManager) (base : path) (p : prog sys (Result path)) : Prop :=
  wp any_response p (fun o t => forall b, o = Done (Ok b) -> b = base /\ pulled self base t).

Lemma yields_bind {A} self base (k : A -> prog sys (Result path)) p :
  (forall a, yields self base (k a)) -> yields self base (prog_bind k p).
Proof.
  intros Hk. apply wp_bind. apply wp_true. intros [a|s] t; [|done].
  eapply wp_mono; [apply Hk|]. intros o t' Ho b Hb. destruct (Ho b Hb) as [-> Hp].
  split; [done|]. destruct Hp as [[H1 H2]|(id & H1 & H2)]; [left|right; exists id]; set_solver.
Qed.

Lemma yields_err self base e : yields self base (Ret (Err e)).
Proof. by intros b [=]. Qed.

Lemma yields_extract {B C} self fuel archive target c (mid : prog sys B) (last : string -> prog sys C) :
  yields self target
    (id ← call NewUuid;
     res ← extract fuel archive (staging self id) target c;
     _ ← mid;
     _ ← last id;
     Ret res).
Proof.
  unfold yields. prog_unfold. cbn [prog_bind wp]. intros id _. apply wp_bind.
  eapply wp_mono; [apply extract_spec|]. intros [[p|e]|s] t Ht; [| |done].
  - destruct Ht as (-> & H1 & H2). apply wp_bind, wp_true. intros [b|s] t1; [|done].
    apply wp_bind, wp_true. intros [d|s] t2; [|done]. intros q [= <-]. split; [done|].
    right. exists id. set_solver.
  - apply wp_bind, wp_true. intros [b|s] t1; [|done]. apply wp_bind, wp_true.
    by intros [d|s] t2.
Qed.

Lemma pull_yields `{Target} `{ImageDeps} fuel self image :
  yields self (get_image_path self image) (pull_image fuel self image).
Proof.
  assert (forall archive target, yields self target (unpack_download fuel self archive target))
    as Hunpack.
  { intros archive target. unfold unpack_download. prog_unfold.
    apply yields_bind. intros [[c|]|e]; [|apply yields_bind; intros ?|]; try apply yields_err.
    exact (yields_extract self fuel archive target c (call (RemoveFile archive))
      (fun id => remove_temp (staging self id))). }
  assert (yields self (get_image_path self image) (download_image fuel self image)) as Hdown.
  { unfold download_image. prog_unfold.
    repeat first [apply yields_err|apply Hunpack|apply yields_bind; intros ?|case_match]. }
  unfold pull_image, is_cached. unfold yields. wp_simpl.
  intros [|] _; cbn [prog_bind wp].
  - intros [|] _; cbn [prog_bind wp].
    + intros b [= <-]. split; [done|]. left. set_solver.
    + eapply wp_mono; [exact Hdown|]. intros o t Ho b Hb. destruct (Ho b Hb) as [-> Hp].
      split; [done|]. destruct Hp as [[H1 H2]|(id & H1 & H2)]; [left|right; exists id]; set_solver.
  - eapply wp_mono; [exact Hdown|]. intros o t Ho b Hb. destruct (Ho b Hb) as [-> Hp].
    split; [done|]. destruct Hp as [[H1 H2]|(id & H1 & H2)]; [left|right; exists id]; set_solver.
Qed.

(** Where the images are kept, as the environment decided it. *)
Definition cache_at (dir : path) (t : sys_trace) : Prop :=
  (exists h, Ev (EnvVar "HOME") (Some h) ∈ t /\ Ev (IsDir h) true ∈ t /\
     dir = path_join (path_join h ".kuda_sandbox") "images") \/
  exists tmp, Ev TempDir tmp ∈ t /\ dir = path_join tmp "kuda_sandbox_images".

Lemma new_image_manager_spec :
  wp any_response new_image_manager (fun o t =>
    Forall (fun e => is_exec e = false) t /\
    exists mgr, o = Done mgr /\ cache_at (cache_dir mgr) t).
Proof.
  unfold new_image_manager. wp_simpl. intros [h|] _; cbn [prog_bind wp].
  - intros [|] _; cbn [prog_bind wp]; [|intros tmp _]; (split; [by repeat constructor|]);
      eexists; (split; [done|]); [left; exists h|right; exists tmp]; set_solver.
  - intros tmp _. split; [by repeat constructor|]. eexists. split; [done|].
    right. exists tmp. set_solver.
Qed.

(** ** The life of a container *)

(** The paths of the container [id]. *)
Definition container_of (id : string) : Rootfs.ContainerFs :=
  let session := path_join "/tmp/kuda_containers" id in
  let root := path_join session "root" in
  Rootfs.mk_container_fs id root (path_join session "upper") (path_join session "work")
    (path_join root "workspace").

(** The jail of a policy inside the container: the limits, the namespaces, the
    root of the container bound to itself, entered and the old root detached,
    and the filter. *)
Definition container_jail (root : path) (policy : SandboxPolicy) (rs : list (option Z))
    : sys_trace :=
  map set_ok (wanted_limits (resources policy)) ++
  [Ev (Unshare (wanted_namespaces policy)) (Ok tt)] ++
  [Ev (Mount (Some root) root None [MS_BIND; MS_REC] None) (Ok tt);
   Ev (PivotRoot root (path_join root ".pivot_old")) (Ok tt);
   Ev (Chdir "/") (Ok tt);
   Ev (Umount2Detach "/.pivot_old") (Ok tt)] ++
  seccomp_events policy rs.

(** What surrounds the [execve] of [c] that the system answered with [x], in a
    container over [base]: the set-up and the jail before, and after it the end
    of the child and then the take-down. *)
Definition container_session `{Target} (command_str : string) (working_dir base : path)
    (policy : SandboxPolicy) (t1 : sys_trace) (c : command) (x : io_result (option pid))
    (t2 : sys_trace) : Prop :=
  exists id rs inside rest down,
    let k := container_of id in
    t1 = container_setup base working_dir k ++ inside /\
    length rs = length (Seccomp.blocked_names policy) /\
    container_jail (Rootfs.root_dir k) policy rs `sublist_of` inside /\
    cmd_program c = "sh" /\ cmd_args c = ["-c"; command_str] /\
    cmd_cwd c = Some (Rootfs.workspace_mount k) /\ cmd_env_clear c = true /\
    t2 = rest ++ down /\ (forall child, x = Ok child -> finished child rest) /\
    taken_down Rootfs.new_overlay_manager k down.

(** The same with the image the container is made from: the one that was asked
    for, in the cache, and there before the set-up began. *)
Definition contained_run `{Target} `{ImageDeps} (command_str : string) (working_dir : path)
    (image : RootfsImage) (policy : SandboxPolicy) (t1 : sys_trace) (c : command)
    (x : io_result (option pid)) (t2 : sys_trace) : Prop :=
  exists dir before t1', t1 = before ++ t1' /\ cache_at dir before /\
    let mgr := mk_image_manager dir in
    pulled mgr (get_image_path mgr image) before /\
    container_session command_str working_dir (get_image_path mgr image) policy t1' c x t2.

(** From the mounted root on. *)
Lemma contained_session `{Target} command_str wd base policy :
  os = Linux ->
  wp any_response
    (container_fs ←? Rootfs.spawn_container_fs Rootfs.new_overlay_manager base wd;
     cwd ← child_cwd container_fs wd;
     res ← execute_wait command_str cwd (container_policy base container_fs policy);
     let_ Rootfs.cleanup Rootfs.new_overlay_manager container_fs;
     Ret res) (fun o t => forall t1 c x t2, t = t1 ++ Ev (Exec c) x :: t2 ->
       container_session command_str wd base policy t1 c x t2 /\ exists r, o = Done r).
Proof.
  intros Hos. unfold child_cwd, is_linux. rewrite bool_decide_true by done. prog_unfold.
  apply wp_bind. eapply wp_mono.
  { apply wp_and; [apply spawn_container_fs_lemma|apply quiet_spawn_fs]. }
  intros o t [(id & [[-> ->]|(e & -> & _)]) Hq];
    [|cbn; intros t1 c x t2 Ht; rewrite app_nil_r in Ht; by apply quiet_no_exec in Ht].
  cbn [prog_bind]. apply wp_bind. eapply wp_mono; [by apply execute_wait_once|].
  intros o te [[res ->] Hrun]. apply wp_bind. eapply wp_mono.
  { apply wp_and; [apply cleanup_lemma|apply quiet_cleanup]. }
  intros o down [[-> Hd] Hqd]. cbn [wp]. rewrite app_nil_r. intros t1 c x t2 Ht. split; [|by eexists].
  apply app_split in Ht as [[m Hm]|(m & -> & Ht)]; [by apply quiet_no_exec in Hm|].
  pose proof Ht as Hte.
  apply app_split in Ht as [[m' Hm]|(m' & -> & Hm)]; [|by apply quiet_no_exec in Hm].
  destruct (Hrun _ _ _ _ Hm) as ((Hsh & Hwd & Hclear & _) & (rs & Hl & Hs) & Hf).
  destruct Hsh as [Hp Ha]; [unfold is_macos; by rewrite Hos|].
  rewrite Hm, <- app_assoc in Hte. apply app_inv_head in Hte. injection Hte as <-.
  by exists id, rs, m, m', down.
Qed.

(** C6. A container command runs inside a complete container, which is taken
    down only after the command ended.  On Linux, before each [execve]: the requested image was found in the
    cache or an archive was completely unpacked to it; then the root of a fresh
    container was set up over this image with the workspace bound into it; and
    then the whole jail of the policy was made, in which the process entered
    exactly this root and detached the host's.  The program is the shell with
    the command, a cleared environment and, as the directory it is spawned in,
    the workspace as it is mounted in the container.  When the [execve] succeeds the child is reaped or, by its
    identifier, sent [SIGKILL], and only then the calls that take this container
    down are made, whatever the result; each of these may fail.  The program
    returns after that. *)
Theorem container_isolated `{Target} `{ImageDeps} (fuel : nat) (command_str : string)
    (working_dir : path) (image : RootfsImage) (policy : SandboxPolicy) (Hos : os = Linux) :
  wp any_response (execute_container fuel command_str working_dir image policy) (fun o t =>
    forall t1 c x t2, t = t1 ++ Ev (Exec c) x :: t2 ->
      contained_run command_str working_dir image policy t1 c x t2 /\ exists r, o = Done r).
Proof.
  unfold execute_container. prog_unfold.
  apply wp_bind. eapply wp_mono; [apply new_image_manager_spec|].
  intros o tm (Hqm & mgr & -> & Hcache). destruct mgr as [dir]. cbn in Hcache.
  apply wp_bind. eapply wp_mono; [apply wp_and; [apply quiet_pull|apply pull_yields]|].
  intros [[base|e]|s] tp [Hqp Hy].
  2, 3: cbn; rewrite ?app_nil_r; intros t1 c x t2 Ht;
    exfalso; revert Ht; apply quiet_no_exec, Forall_app; by split.
  destruct (Hy base eq_refl) as [-> Hpulled].
  eapply wp_mono; [by apply (contained_session command_str working_dir)|].
  intros o ts Hs t1 c x t2 Ht. rewrite app_assoc in Ht.
  assert (Forall (fun e => is_exec e = false) (tm ++ tp)) as Hq by by apply Forall_app.
  apply app_split in Ht as [[m Hm]|(m & -> & Hm)]; [by apply quiet_no_exec in Hm|].
  destruct (Hs _ _ _ _ Hm) as [Hsession Hr]. split; [|done].
  exists dir, (tm ++ tp), m. split; [done|]. split.
  - destruct Hcache as [(h & ? & ? & ?)|(tmp & ? & ?)]; [left; exists h|right; exists tmp]; set_solver.
  - split; [|exact Hsession].
    destruct Hpulled as [[? ?]|(id & ? & ?)]; [left|right; exists id]; set_solver.
Qed.

(** A machine that has everything, the image included. *)
Definition furnished_handler : handler sys unit :=
  fun R e s =>
    (match e in sys R return R with PathExists _ => true | e => sys_default _ e end, s).

Definition plain_images : ImageDeps :=
  {| sha256_hex := fun _ => "00"; status_text := fun z => pretty z |}.

Definition demo_run : prog sys (Result SandboxResult) :=
  @execute_container linux_x86 plain_images 10 "true" "/w" Alpine (agent_default_in None "/w").

Lemma container_isolated_witness :
  exists t1 c x t2, run_trace furnished_handler demo_run tt = t1 ++ Ev (Exec c) x :: t2 /\
    @contained_run linux_x86 plain_images "true" "/w" Alpine (agent_default_in None "/w") t1 c x t2.
Proof.
  assert (exists t1 c r t2, run_trace furnished_handler demo_run tt = t1 ++ Ev (Exec c) r :: t2)
    as (t1 & c & r & t2 & Ht).
  { apply exec_split. vm_compute. reflexivity. }
  exists t1, c, r, t2. split; [exact Ht|].
  refine (proj1 (wp_run any_response furnished_handler demo_run tt _ (fun _ _ _ => I)
    (@container_isolated linux_x86 plain_images 10 "true" "/w" Alpine
       (agent_default_in None "/w") eq_refl) _ _ _ _ Ht)).
Defined.
