(* ===== verification/Cli.v ===== *)
(** * The command line ([kuda-sandbox-daemon/src/main.rs])

    One function per subcommand.  A subcommand ends by [std::process::exit],
    by returning from [main], or with an error that [main] returns; the text it
    prints goes through [Print] and [Eprint].  The option parser is a crate of
    its own: the records here are what it fills in. *)
From S2P Require Export Engines Vm Chaos Arch Client.

(** How the process ends. *)
Inductive main_end : Type :=
| ExitWith (code : Z)
| MainOk
| MainErr (msg : string).

(* @src daemon/main.rs:18-82 Commands::Run *)
Record RunArgs : Type := mk_run {
  ra_command : string;
  ra_workspace : option path;
  ra_engine : string;
  ra_rootfs : option string;
  ra_arch : option string;
  ra_allow_net : bool;
  ra_net_latency : Z;
  ra_net_loss : f32;
  ra_net_jitter : Z;
  ra_net_bw_kbps : option Z;
  ra_net_corrupt : f32;
  ra_net_iface : string;
  ra_kernel : option path;
  ra_initrd : option path;
  ra_ram_mb : Z;
  ra_timeout : Z
}.

(* @src daemon/main.rs:107-140 Commands::Exec *)
Record ExecArgs : Type := mk_exec {
  ea_command : string;
  ea_socket : path;
  ea_workspace : option path;
  ea_allow_net : bool;
  ea_ram_mb : Z;
  ea_timeout : Z;
  ea_stdin_file : option path;
  ea_fetch : option string
}.

Definition println (s : string) : prog sys unit := call (Print (s +:+ nl)).
Definition eprintln (s : string) : prog sys unit := call (Eprint (s +:+ nl)).

(* @src daemon/main.rs:465-469 flush_stdio *)
Definition flush_stdio : prog sys unit := call FlushStdio.

(** ** Numbers *)

(** [b as f64]: exact below 2^53, then to the nearest with 53 bits. *)
Definition as_f64 (b : Z) : Z :=
  if (b <? 2 ^ 53)%Z then b
  else let e := (2 ^ (Z.log2 b - 52))%Z in (div_half_even b e * e)%Z.

(** [{:.1}] of [n / d]. *)
Definition format_tenths (n d : Z) : string :=
  let h := div_half_even (n * 10) d in
  pretty (h / 10)%Z +:+ "." +:+ pretty (h mod 10)%Z.

(* @src daemon/main.rs:471-479 format_bytes *)
Definition format_bytes (b : Z) : string :=
  if (1024 * 1024 <=? b)%Z then format_tenths (as_f64 b) (1024 * 1024) +:+ "MB"
  else if (1024 <=? b)%Z then format_tenths (as_f64 b) 1024 +:+ "KB"
  else pretty b +:+ "B".

(** [{:.1}] of a single-precision number. *)
Definition format_f32_1 (x : f32) : string :=
  match x with
  | S754_nan => "NaN"
  | S754_infinity s => if s then "-inf" else "inf"
  | S754_zero s => if s then "-0.0" else "0.0"
  | S754_finite s m e =>
      (if s then "-" else "") +:+
      (if (0 <=? e)%Z then format_tenths (Z.pos m * 2 ^ e) 1 else format_tenths (Z.pos m) (2 ^ (- e)))
  end.

(** ** [run] *)

Section Run.
Context `{Target} `{ImageDeps} `{Base64}.

(** [Some None] is an architecture that is not known. *)
(* @src daemon/main.rs:191-199 main (--arch) *)
Definition arch_of (a : string) : option Architecture :=
  if decide (a = "x86_64" \/ a = "amd64") then Some X86_64
  else if decide (a = "aarch64" \/ a = "arm64") then Some Aarch64
  else if decide (a = "riscv64") then Some Riscv64
  else None.

(* @src daemon/main.rs:235-241 main (--rootfs) *)
Definition image_of (name : string) : RootfsImage :=
  let s := to_lowercase name in
  if decide (s = "alpine") then Alpine
  else if decide (s = "ubuntu") then Ubuntu
  else if decide (s = "debian") then Debian
  else Custom s.

(* @src daemon/main.rs:184-189 main (policy of run) *)
Definition run_policy (args : RunArgs) (policy : SandboxPolicy) : SandboxPolicy :=
  let policy := with_resources (set_memory (wrap_u64 (ra_ram_mb args * 1024 * 1024))
                                  (resources policy)) policy in
  let policy := with_resources (set_wall_time (ra_timeout args) (resources policy)) policy in
  if ra_allow_net args then with_network AllowAll policy else policy.

(* @src daemon/main.rs:219-225 main (chaos profile) *)
Definition chaos_of (args : RunArgs) : ChaosProfile :=
  mk_chaos (ra_net_latency args) (ra_net_jitter args) (f32_div (ra_net_loss args) f32_hundred)
    (ra_net_bw_kbps args) (f32_div (ra_net_corrupt args) f32_hundred).

(* @src daemon/main.rs:251-260 main (micro-VM configuration) *)
Definition vm_config_of (args : RunArgs) : VmConfig :=
  mk_vm_config 2 (ra_ram_mb args) (ra_kernel args) (ra_initrd args) "" [] NoNetwork
    (Z.max (ra_timeout args) 60).

(* @src daemon/main.rs:457-463 cleanup_chaos *)
Definition cleanup_chaos (profile : ChaosProfile) (iface : string) (applied : bool) : prog sys unit :=
  if is_active profile && applied then
    r ← clear_chaos iface;
    match r with
    | Ok _ => Ret tt
    | Err e => eprintln ("⚠️  Failed to clean up tc netem on '" +:+ iface +:+ "': " +:+ display_error e)
    end
  else Ret tt.

(** Whether chaos was asked for and could be installed. *)
(* @src daemon/main.rs:226-232 main (chaos) *)
Definition start_chaos (args : RunArgs) : prog sys bool :=
  let profile := chaos_of args in
  applied ← (if is_active profile then
               r ← apply_chaos profile (ra_net_iface args);
               Ret (is_ok r)
             else Ret false);
  _ ← (if is_active profile && negb applied then
         eprintln "⚠️  Network chaos requested but could not be applied (tc requires Linux + CAP_NET_ADMIN). Continuing WITHOUT chaos."
       else if applied : bool then
         println ("🌐 Network Chaos Active on '" +:+ ra_net_iface args +:+ "': +" +:+
                  pretty (ra_net_latency args) +:+ "ms latency (±" +:+ pretty (ra_net_jitter args)
                  +:+ "ms) | " +:+ format_f32_1 (ra_net_loss args) +:+ "% loss")
       else Ret tt);
  Ret applied.

(** The engine, or [None] for a micro-VM without a kernel. *)
(* @src daemon/main.rs:243-264 main (engine) *)
Definition run_engine (fuel : nat) (args : RunArgs) (cmd : string) (ws : path)
    (policy : SandboxPolicy) : prog sys (option (Result SandboxResult)) :=
  let engine := to_lowercase (ra_engine args) in
  if decide (engine = "container") then
    r ← execute_container fuel cmd ws (image_of (default "alpine" (ra_rootfs args))) policy;
    Ret (Some r)
  else if decide (engine = "microvm") then
    match ra_kernel args with
    | None =>
        _ ← eprintln "❌ Engine 'microvm' requires --kernel <path-to-vmlinux|bzImage>. Without a kernel the VM cannot boot.";
        Ret None
    | Some _ => r ← execute_microvm cmd (vm_config_of args); Ret (Some r)
    end
  else r ← execute_wait cmd ws policy; Ret (Some r).

Definition metrics_line (what : string) (code : Z) (m : ExecutionMetrics) : string :=
  nl +:+ "📊 " +:+ what +:+ ": Duration: " +:+ pretty (execution_duration_ms m) +:+ "ms (Setup: " +:+
  pretty (setup_duration_ms m) +:+ "ms) | Exit: " +:+ pretty code +:+ " | Peak RSS: " +:+
  format_bytes (peak_memory_bytes m) +:+ " | Platform: " +:+ platform m.

(* @src daemon/main.rs:270-295 main (report of run) *)
Definition report_run (run_res : Result SandboxResult) : prog sys main_end :=
  match run_res with
  | Err e =>
      _ ← eprintln ("❌ Sandbox error: " +:+ display_error e);
      _ ← flush_stdio;
      Ret (ExitWith 1)
  | Ok res =>
      _ ← (if decide (res_stdout res = "") then Ret tt else call (Print (res_stdout res)));
      _ ← (if decide (res_stderr res = "") then Ret tt else call (Eprint (res_stderr res)));
      _ ← println (metrics_line "Metrics" (exit_code res) (metrics res));
      _ ← flush_stdio;
      Ret (ExitWith (exit_code res))
  end.

(** The policy line; [agent_default] denies the network, so its [Debug] form
    follows the option. *)
(* @src daemon/main.rs:211-216 main (banner) *)
Definition run_banner (args : RunArgs) : prog sys unit :=
  _ ← println ("🚀 Executing in kuda-sandbox [Engine: " +:+ ra_engine args +:+ "]...");
  println ("🔒 Policy: RAM=" +:+ pretty (ra_ram_mb args) +:+ "MB" +:+
    (if is_macos then " (advisory on macOS; enforced via cgroups/RLIMIT_AS on Linux)" else "") +:+
    " | Timeout=" +:+ pretty (ra_timeout args) +:+ "s | Net=" +:+
    (if ra_allow_net args then "AllowAll" else "Deny")).

(** From the validated options on: chaos around the engine, then the report. *)
(* @src daemon/main.rs:218-295 main (run with chaos) *)
Definition run_with_chaos (fuel : nat) (args : RunArgs) (cmd : string) (ws : path)
    (policy : SandboxPolicy) : prog sys main_end :=
  applied ← start_chaos args;
  run_res ← run_engine fuel args cmd ws policy;
  match run_res with
  | None =>
      _ ← cleanup_chaos (chaos_of args) (ra_net_iface args) applied;
      Ret (ExitWith 2)
  | Some run_res =>
      _ ← (if applied : bool then cleanup_chaos (chaos_of args) (ra_net_iface args) true else Ret tt);
      report_run run_res
  end.

(** [workspace.unwrap_or_else(|| current_dir().unwrap())] *)
(* @src daemon/main.rs:183-183 main (workspace) *)
Definition workspace_or_cwd (w : option path) : prog sys path :=
  match w with
  | Some w => Ret w
  | None =>
      d ← call CurrentDir;
      match d with Ok d => Ret d | Err _ => Halt Panicked end
  end.

Definition known_engine (name : string) : bool :=
  bool_decide (name = "process") || bool_decide (name = "container") || bool_decide (name = "microvm").

(** Everything after the architecture is known. *)
(* @src daemon/main.rs:201-295 main (run, validated) *)
Definition run_for (fuel : nat) (args : RunArgs) (ws : path) (policy : SandboxPolicy)
    (target : option Architecture) : prog sys main_end :=
  cmd ← wrap_if_needed (ra_command args) target;
  if known_engine (to_lowercase (ra_engine args)) then
    _ ← run_banner args;
    run_with_chaos fuel args cmd ws (run_policy args policy)
  else
    _ ← eprintln ("❌ Unknown --engine '" +:+ ra_engine args +:+ "'. Valid: process, container, microvm");
    Ret (ExitWith 2).

(* @src daemon/main.rs:165-296 main (Commands::Run) *)
Definition run_sandbox (fuel : nat) (args : RunArgs) : prog sys main_end :=
  ws ← workspace_or_cwd (ra_workspace args);
  policy ← agent_default ws;
  match ra_arch args with
  | None => run_for fuel args ws policy None
  | Some a =>
      match arch_of a with
      | Some t => run_for fuel args ws policy (Some t)
      | None =>
          _ ← eprintln ("❌ Unknown --arch '" +:+ a +:+ "'. Valid: x86_64, aarch64, riscv64");
          Ret (ExitWith 2)
      end
  end.
End Run.

(** ** The other subcommands *)

(** The [Debug] form. *)
Definition debug_architecture (a : Architecture) : string :=
  match a with
  | X86_64 => "X86_64" | Aarch64 => "Aarch64" | ArmV7 => "ArmV7" | Riscv64 => "Riscv64"
  | Mips => "Mips" | Wasm => "Wasm" | MachO k => "MachO(" +:+ quoted k +:+ ")"
  | Script => "Script" | Unknown => "Unknown"
  end.

(* @src daemon/main.rs:298-308 main (Commands::Arch) *)
Definition inspect_arch `{Target} (p : path) : prog sys main_end :=
  detected ← detect_binary_architecture p;
  match detected with
  | Err e => Ret (MainErr (display_error e))
  | Ok detected =>
      needs_emu ← requires_emulation p;
      _ ← println "=== Binary Architecture Analysis ===";
      _ ← println ("File: " +:+ display_path p);
      _ ← println ("Detected Architecture: " +:+ debug_architecture detected);
      _ ← println ("Host Architecture: " +:+ debug_architecture host_architecture);
      _ ← println ("Requires CPU Emulation: " +:+
                   (if needs_emu : bool then "YES (QEMU/Rosetta)" else "NO (Native)"));
      Ret MainOk
  end.

Fixpoint print_all (l : list string) : prog sys unit :=
  match l with [] => Ret tt | s :: l => _ ← println s; print_all l end.

(* @src daemon/main.rs:310-326 main (Commands::Info) *)
Definition show_info `{Target} : prog sys main_end :=
  _ ← print_all (["=== Kuda Sandbox Multi-Tier Capabilities ===";
                  "Tier 1 (Process Sandbox): ACTIVE (< 30ms)";
                  "Tier 2 (Rootfs Container): ACTIVE (OverlayFS + OCI images)"] ++
       (if is_macos then
          ["Tier 3 (MicroVM Virtualization): Apple Silicon Hypervisor (Virtualization.framework)";
           "Host OS: macOS (Darwin)"; "Multi-Arch: Rosetta 2 + QEMU User Emulation"]
        else if is_linux then
          ["Tier 3 (MicroVM Virtualization): Linux KVM (/dev/kvm)"; "Host OS: Linux";
           "Multi-Arch: binfmt_misc + QEMU static"]
        else []));
  Ret MainOk.

Section Images.
Context `{Target} `{ImageDeps}.

Fixpoint list_each (mgr : ImageManager) (l : list (string * RootfsImage)) : prog sys unit :=
  match l with
  | [] => Ret tt
  | (name, image) :: l =>
      cached ← is_cached mgr image;
      _ ← println (name +:+ ": " +:+
                   (if cached : bool then "CACHED" else "AVAILABLE (Auto-pull on demand)"));
      list_each mgr l
  end.

(* @src daemon/main.rs:329-335 main (ImageCommands::List) *)
Definition image_list : prog sys main_end :=
  mgr ← new_image_manager;
  _ ← println "=== Cached Rootfs Distributions ===";
  _ ← list_each mgr [("Alpine Linux (3.20)", Alpine); ("Ubuntu Minimal (24.04)", Ubuntu);
                     ("Debian Slim (12)", Debian)];
  Ret MainOk.

(* @src daemon/main.rs:336-353 main (ImageCommands::Pull) *)
Definition image_pull (fuel : nat) (distro : string) : prog sys main_end :=
  mgr ← new_image_manager;
  _ ← println ("⬇️  Pulling official rootfs image for '" +:+ distro +:+ "'...");
  r ← pull_image fuel mgr (image_of distro);
  _ ← (match r with
       | Ok p => println ("✅ Successfully pulled and unpacked rootfs to: " +:+ display_path p)
       | Err e => eprintln ("❌ Failed to pull image: " +:+ display_error e)
       end);
  Ret MainOk.
End Images.

(** Up to the accept loop, which spawns [serve_connection] for each client. *)
(* @src daemon/main.rs:356-367 main (Commands::Daemon) *)
Definition start_daemon (socket : path) : prog sys (result unit string) :=
  _ ← println ("⚡ Starting kuda-sandbox daemon (binary wire protocol) on " +:+ display_path socket);
  there ← call (PathExists socket);
  _ ← (if there : bool then let_ call (RemoveFile socket); Ret tt else Ret tt);
  bound ← call (BindListener socket);
  match bound with
  | Err e => Ret (Err (ioe_text e))
  | Ok _ =>
      let_ call (SetPermissions socket 384);
      _ ← println "✅ Daemon ready. Magic='KUDA' | streamed output | SCM_RIGHTS fd passing | Socket 0600";
      ret? tt
  end.

Section Exec.
Context `{Json}.

(** The callback of [exec]: what it prints, and the exit code it leaves. *)
(* @src daemon/main.rs:411-441 main (events of exec) *)
Fixpoint show_events (code : Z) (l : list ExecEvent) : prog sys Z :=
  match l with
  | [] => Ret code
  | Stdout chunk :: l =>
      _ ← call (Print (string_of_bytes chunk)); _ ← call FlushStdio; show_events code l
  | Stderr chunk :: l =>
      _ ← call (Eprint (string_of_bytes chunk)); _ ← call FlushStdio; show_events code l
  | ExitEvent st :: l =>
      _ ← eprintln (metrics_line "Remote Metrics" (es_exit_code st) (es_metrics st));
      show_events (es_exit_code st) l
  | ErrorEvent msg :: l =>
      _ ← eprintln ("❌ Daemon error: " +:+ msg);
      show_events 1 l
  end.

(** [str::split_once(':')] *)
Fixpoint split_once (c : ascii) (s : string) : option (string * string) :=
  match s with
  | EmptyString => None
  | String a s =>
      if decide (a = c) then Some (EmptyString, s)
      else match split_once c s with
           | Some (l, r) => Some (String a l, r)
           | None => None
           end
  end.

(* @src daemon/main.rs:443-447 main (--fetch) *)
Definition fetch_spec (fuel : nat) (spec : string) : prog sys (result unit string) :=
  let (remote, local) := default (spec, "fetched_file") (split_once ":" spec) in
  r ← fetch_file fuel remote local;
  match r with
  | Err e => Ret (Err (display_error e))
  | Ok written =>
      _ ← eprintln ("📥 Fetched '" +:+ remote +:+ "' -> '" +:+ local +:+ "' (" +:+ pretty written
                    +:+ " bytes, FD handoff)");
      ret? tt
  end.

(* @src daemon/main.rs:401-408 main (request of exec) *)
Definition request_of (args : ExecArgs) (ws : path) : ExecRequest :=
  mk_exec_request (ea_command args) (display_path ws) (ea_allow_net args) (ea_ram_mb args) (ea_timeout args)
    (bool_decide (is_Some (ea_stdin_file args))).

(** The connected session: run, print, fetch. *)
(* @src daemon/main.rs:410-450 main (session of exec) *)
Definition exec_session (rounds fuel : nat) (args : ExecArgs) (ws : path) : prog sys main_end :=
  r ← exec rounds fuel (request_of args ws) (ea_stdin_file args);
  let (res, events) := (r : Result unit * list ExecEvent) in
  code ← show_events (-1) events;
  match res with
  | Err e => Ret (MainErr (display_error e))
  | Ok _ =>
      fetched ← (match ea_fetch args with Some spec => fetch_spec fuel spec | None => ret? tt end);
      match fetched with
      | Err e => Ret (MainErr e)
      | Ok _ => _ ← flush_stdio; Ret (ExitWith code)
      end
  end.

(* @src daemon/main.rs:381-451 main (Commands::Exec) *)
Definition exec_remote (rounds fuel : nat) (args : ExecArgs) : prog sys main_end :=
  ws ← workspace_or_cwd (ea_workspace args);
  canon ← call (Canonicalize ws);
  match canon with
  | Err e => Ret (MainErr ("Workspace '" +:+ display_path ws +:+ "' is invalid: " +:+ ioe_text e))
  | Ok canon =>
      verdict ← classify_workspace canon;
      match verdict with
      | Err reason => Ret (MainErr reason)
      | Ok _ =>
          connected ← connect (ea_socket args);
          match connected with
          | Err e => Ret (MainErr (display_error e))
          | Ok _ => exec_session rounds fuel args canon
          end
      end
  end.
End Exec.

(** ** Chaos around a run *)

Definition is_tool (e : event sys) : bool :=
  match e with Ev (RunCommand _) _ => true | _ => false end.

Definition tc_replace (args : RunArgs) : command :=
  tc_command (["qdisc"; "replace"; "dev"; ra_net_iface args; "root"; "netem"] ++
              netem_args (chaos_of args)).
Definition tc_delete (args : RunArgs) : command :=
  tc_command ["qdisc"; "del"; "dev"; ra_net_iface args; "root"].

(** Whether the queue was installed, from the calls of [start_chaos]. *)
Definition chaos_started `{Target} (args : RunArgs) (applied : bool) (t : sys_trace) : Prop :=
  if applied then
    is_linux = true /\ is_active (chaos_of args) = true /\
    exists out, Ev (RunCommand (tc_replace args)) (Ok out) ∈ t /\ status_success (co_status out) = true
  else
    forall c out, Ev (RunCommand c) (Ok out) ∈ t -> status_success (co_status out) = false.

Lemma start_chaos_spec `{Target} args :
  wp any_response (start_chaos args) (fun o t => exists applied, o = Done applied /\
    chaos_started args applied t).
Proof.
  unfold start_chaos, apply_chaos, eprintln, println. fold (tc_replace args).
  destruct (is_active (chaos_of args)) eqn:Ha; cbn [negb andb]; wp_simpl.
  - destruct is_linux eqn:Hl; cbn [prog_bind wp].
    + intros [out|e] _; cbn [map_err prog_bind wp].
      * destruct (status_success (co_status out)) eqn:Hs; cbn [prog_bind wp negb andb is_ok];
          intros [] _; eexists; (split; [done|]); cbn.
        -- split_and!; [done|done|]. exists out. split; [by left|done].
        -- intros c out' Hin. ev_simpl. congruence.
      * intros [] _. eexists. split; [done|]. intros c out' Hin. ev_simpl.
    + intros [] _. eexists. split; [done|]. intros c out' Hin. ev_simpl.
  - eexists. split; [done|]. intros c out' Hin. ev_simpl.
Qed.

Lemma quiet_start_chaos `{Target} args : quiet is_exec (start_chaos args).
Proof. unfold start_chaos, apply_chaos, eprintln, println. quiet_tac. Qed.

(** What cleaning up does when the queue was installed. *)
Lemma cleanup_chaos_spec `{Target} args :
  is_linux = true -> is_active (chaos_of args) = true ->
  wp any_response (cleanup_chaos (chaos_of args) (ra_net_iface args) true) (fun o t =>
    o = Done tt /\ Forall (fun e => is_exec e = false) t /\
    exists r, Ev (RunCommand (tc_delete args)) r ∈ t).
Proof.
  intros Hl Ha. unfold cleanup_chaos, clear_chaos, eprintln. rewrite Hl, Ha. cbn [andb].
  fold (tc_delete args). wp_simpl. intros [out|e] _; cbn [prog_bind wp].
  - destruct (status_success _); cbn [prog_bind wp].
    + split_and!; [done|by repeat constructor|]. eexists; by left.
    + destruct (_ || _); cbn [prog_bind wp]; [|intros [] _];
        (split_and!; [done|by repeat constructor|]; eexists; by left).
  - intros [] _. split_and!; [done|by repeat constructor|]. eexists; by left.
Qed.

Lemma cleanup_not_applied `{Target} profile iface :
  cleanup_chaos profile iface false = Ret tt.
Proof. unfold cleanup_chaos. by rewrite andb_false_r. Qed.

Definition end_code (run_res : option (Result SandboxResult)) : Z :=
  match run_res with
  | None => 2
  | Some (Err _) => 1
  | Some (Ok res) => exit_code res
  end.

(** No tool and no program runs any more. *)
Definition settled (t : sys_trace) : Prop :=
  Forall (fun e => is_exec e = false /\ is_tool e = false) t.

Lemma report_run_spec r :
  wp any_response (report_run r) (fun o t => o = Done (ExitWith (end_code (Some r))) /\ settled t).
Proof.
  unfold report_run, eprintln, println, flush_stdio, settled. destruct r as [res|e]; wp_simpl.
  - do 2 case_decide; cbn [prog_bind wp]; intros;
      repeat match goal with |- forall _ : unit, any_response _ _ _ -> _ => intros [] _ end;
      cbn [prog_bind wp]; (split; [done|by repeat constructor]).
  - intros [] _ [] _. split; [done|by repeat constructor].
Qed.

(** What follows the engine. *)
Definition wound_up (args : RunArgs) (applied : bool) (t : sys_trace) : Prop :=
  if applied then
    Forall (fun e => is_exec e = false) t /\ exists r, Ev (RunCommand (tc_delete args)) r ∈ t
  else settled t.

Lemma settled_exec t : settled t -> Forall (fun e => is_exec e = false) t.
Proof. apply Forall_impl. tauto. Qed.

Lemma clean_then `{Target} {B} args applied (t0 : sys_trace) (k : unit -> prog sys B) Q :
  chaos_started args applied t0 ->
  (forall t, wound_up args applied t -> wp any_response (k tt) (fun o t' => Q o (t ++ t'))) ->
  wp any_response (prog_bind k (cleanup_chaos (chaos_of args) (ra_net_iface args) applied)) Q.
Proof.
  intros Hc Hk. destruct applied; cbn in Hc.
  - destruct Hc as (Hl & Ha & _). apply wp_bind.
    eapply wp_mono; [by apply cleanup_chaos_spec|]. intros o t (-> & Hq & Hd). by apply Hk.
  - rewrite cleanup_not_applied. cbn. apply (Hk []). constructor.
Qed.

Lemma wound_up_app args applied t t' :
  wound_up args applied t -> settled t' -> wound_up args applied (t ++ t').
Proof.
  destruct applied; cbn.
  - intros [Hq [r Hr]] Hs. split; [apply Forall_app; by split; [|apply settled_exec]|].
    exists r. set_solver.
  - intros Hs Hs'. by apply Forall_app.
Qed.

(** C27. A run with network chaos ends by asking for its removal.  A run is the
    installation of the queue, the engine, and what follows: when the queue was
    installed, which needs Linux, an active profile and a successful [tc], and
    the engine returned, whatever it answered, a micro-VM without a kernel
    included, the [tc] command that deletes the queue is issued after it; this
    command may fail, and then the queue stays.  When nothing was installed no
    tool is called again, and when the engine does not return nothing is
    deleted.  No program is executed while the queue is being installed or
    removed, so [tc] acts before the sandbox has a network namespace of its own.
    A run that ends exits with the program's exit code, 1 for a sandbox error
    and 2 for a missing kernel, also when the deletion failed. *)
Theorem run_wraps_chaos `{Target} `{ImageDeps} `{Base64} (fuel : nat) (args : RunArgs)
    (cmd : string) (ws : path) (policy : SandboxPolicy) :
  wp any_response (run_with_chaos fuel args cmd ws policy) (fun o t =>
    exists applied t1 t2, chaos_started args applied t1 /\
      Forall (fun e => is_exec e = false) t1 /\
      match o with
      | Done e => exists run_res t3, t = t1 ++ t2 ++ t3 /\
          behaves any_response (run_engine fuel args cmd ws policy) (Done run_res) t2 /\
          wound_up args applied t3 /\ e = ExitWith (end_code run_res)
      | Stopped s => t = t1 ++ t2 /\
          behaves any_response (run_engine fuel args cmd ws policy) (Stopped s) t2
      end).
Proof.
  unfold run_with_chaos. prog_unfold. apply wp_bind. eapply wp_mono.
  { apply wp_and; [apply start_chaos_spec|apply quiet_start_chaos]. }
  intros o t1 [(applied & -> & Hc) Hq]. apply wp_bind. eapply wp_mono; [apply wp_behaves|].
  intros [run_res|s] t2 Hb; [|by exists applied, t1, t2].
  destruct run_res as [r|].
  - assert (Hk : wp any_response
      (prog_bind (fun _ => report_run r) (cleanup_chaos (chaos_of args) (ra_net_iface args) applied))
      (fun o' t' => exists e, o' = Done e /\ e = ExitWith (end_code (Some r)) /\ wound_up args applied t')).
    { eapply clean_then; [exact Hc|]. intros t Hw. eapply wp_mono; [apply report_run_spec|].
      intros o' t' [-> Hs]. eexists. split_and!; [done|done|]. by apply wound_up_app. }
    assert (Heq : prog_bind (fun _ => report_run r)
        (if applied then cleanup_chaos (chaos_of args) (ra_net_iface args) true else Ret tt)
      = prog_bind (fun _ => report_run r) (cleanup_chaos (chaos_of args) (ra_net_iface args) applied)).
    { destruct applied; [done|]. by rewrite cleanup_not_applied. }
    rewrite Heq. eapply wp_mono; [exact Hk|]. intros o' t3 (e & -> & -> & Hw).
    exists applied, t1, t2. split_and!; [done|done|]. exists (Some r), t3. by split_and!.
  - eapply clean_then; [exact Hc|]. intros t3 Hw. cbn.
    exists applied, t1, t2. split_and!; [done|done|]. exists None, t3.
    rewrite app_nil_r. by split_and!.
Qed.

(** A URL loses its capitals on the way to the image manager. *)
Example image_of_url :
  image_of "https://example.org/Rootfs.tar.gz" = Custom "https://example.org/rootfs.tar.gz".
Proof. vm_compute. reflexivity. Qed.

Example format_bytes_ex :
  map format_bytes [1023; 1024; 1536; 1048575; 1572864; 18446744073709551615]%Z
  = ["1023B"; "1.0KB"; "1.5KB"; "1024.0KB"; "1.5MB"; "17592186044416.0MB"].
Proof. vm_compute. reflexivity. Qed.
