(* ===== verification/PolicySpec.v ===== *)
(** * The memory limit a remote request can ask for

    The fields of a policy are machine integers; what the conversion from
    megabytes makes of a request, and where it wraps around. *)
From S2P Require Export ServerSpec.

Definition in_u16 (z : Z) : Prop := (0 <= z < 2 ^ 16)%Z.

Record typed_resources (r : ResourcePolicy) : Prop := {
  typed_memory : in_u64 (memory_limit_bytes r);
  typed_cpu : in_u64 (cpu_time_limit_secs r);
  typed_wall : in_u64 (wall_time_limit_secs r);
  typed_pids : in_u32 (max_pids r);
  typed_file_size : in_u64 (max_file_size_bytes r);
  typed_open_files : in_u32 (max_open_files r)
}.

Definition typed_network (n : NetworkPolicy) : Prop :=
  match n with AllowList l => Forall (fun t => in_u16 (nt_port t)) l | _ => True end.

Definition typed_policy (p : SandboxPolicy) : Prop :=
  typed_resources (resources p) /\ typed_network (network p).

Definition typed_request (req : ExecRequest) : Prop :=
  in_u64 (er_ram_mb req) /\ in_u64 (er_timeout_secs req).

Lemma typed_default : typed_resources default_resources.
Proof. constructor; unfold in_u64, in_u32, u64_max; cbn; lia. Qed.

Lemma typed_set_memory m r : in_u64 m -> typed_resources r -> typed_resources (set_memory m r).
Proof. intros Hm []. by constructor. Qed.
Lemma typed_set_wall_time w r : in_u64 w -> typed_resources r -> typed_resources (set_wall_time w r).
Proof. intros Hw []. by constructor. Qed.

Create HintDb typed discriminated.
#[export] Hint Resolve typed_default typed_set_memory typed_set_wall_time wrap_u64_in : typed.

Lemma typed_request_policy req p :
  typed_request req -> typed_policy p -> typed_policy (request_policy req p).
Proof.
  intros [Hm Ht] [Hr Hn]. unfold request_policy.
  split; repeat case_match; cbn; auto with typed.
Qed.

(** ** The memory limit of a remote request *)

Definition mib : Z := (2 ^ 20)%Z.

Lemma wrap_mib m : wrap_u64 (m * 1024 * 1024) = (m * mib mod 2 ^ 64)%Z.
Proof. unfold wrap_u64, mib. f_equal. lia. Qed.

Lemma wrap_mib_zero m : (m * mib mod 2 ^ 64 = 0 <-> m mod 2 ^ 44 = 0)%Z.
Proof.
  unfold mib. replace (2 ^ 64)%Z with (2 ^ 44 * 2 ^ 20)%Z by lia.
  rewrite Z.mul_mod_distr_r by lia. pose proof (Z.mod_pos_bound m (2 ^ 44)). lia.
Qed.

Lemma wrap_mib_exact m : (0 <= m)%Z -> (m * mib mod 2 ^ 64 = m * mib <-> m < 2 ^ 44)%Z.
Proof.
  unfold mib. intros Hm. replace (2 ^ 64)%Z with (2 ^ 44 * 2 ^ 20)%Z by lia.
  rewrite Z.mul_mod_distr_r by lia. split; intros H.
  - pose proof (Z.mod_pos_bound m (2 ^ 44)). lia.
  - rewrite Z.mod_small; lia.
Qed.

Lemma request_memory req p :
  memory_limit_bytes (resources (request_policy req p)) =
    if (0 <? er_ram_mb req)%Z then wrap_u64 (er_ram_mb req * 1024 * 1024)
    else memory_limit_bytes (resources p).
Proof. unfold request_policy. by repeat case_match. Qed.

(** No limit on memory: neither by [setrlimit] nor by the cgroup. *)
Definition memory_unlimited (r : ResourcePolicy) : Prop :=
  Forall (fun x => x.1.1 <> RLIMIT_AS) (wanted_limits r) /\
  forall cg, Cgroups.wanted_files cg r =
    (if (0 <? max_pids r)%Z then [(path_join cg "pids.max", pretty (max_pids r))] else []) ++
    [(path_join cg "cpu.max", "100000 100000")].

Lemma no_memory_limit r : memory_limit_bytes r = 0%Z -> memory_unlimited r.
Proof.
  intros Hm. unfold memory_unlimited, wanted_limits, limit_spec, Cgroups.wanted_files. rewrite Hm.
  split; [|done]. cbn [Z.ltb Z.compare app]. repeat (apply Forall_app; split);
    try case_match; repeat constructor; done.
Qed.

(** C16. The memory a peer can ask for.  A request for [n] megabytes sets the
    limit to [n * 2^20] modulo [2^64]: it is the amount asked for exactly when
    [n] is below [2^44], and a request for no megabytes keeps the limit of the
    policy.  The wrap-around is not harmless: for the positive multiples of
    [2^44], and only for those, the limit becomes 0, which the jail takes for
    no limit at all, in [setrlimit] and in the cgroup. *)
Theorem remote_memory_limit (req : ExecRequest) (p : SandboxPolicy)
    (Hreq : typed_request req) (Hp : typed_policy p) :
  let n := er_ram_mb req in
  let r := resources (request_policy req p) in
  in_u64 (memory_limit_bytes r) /\
  (n = 0%Z -> memory_limit_bytes r = memory_limit_bytes (resources p)) /\
  ((0 < n)%Z -> memory_limit_bytes r = (n * mib mod 2 ^ 64)%Z /\
     (memory_limit_bytes r = (n * mib)%Z <-> (n < 2 ^ 44)%Z) /\
     (memory_limit_bytes r = 0%Z <-> (n mod 2 ^ 44 = 0)%Z) /\
     ((n mod 2 ^ 44 = 0)%Z -> memory_unlimited r)).
Proof.
  cbv zeta. pose proof (typed_request_policy req p Hreq Hp) as [[Hm _ _ _ _ _] _].
  split; [exact Hm|]. pose proof (request_memory req p) as He. split.
  - intros Hn. by rewrite He, Hn.
  - intros Hn. rewrite (proj2 (Z.ltb_lt _ _) Hn), wrap_mib in He. split; [exact He|].
    pose proof (wrap_mib_zero (er_ram_mb req)) as Hz. rewrite <- He in Hz.
    split_and!; [|exact Hz|intros H0; by apply no_memory_limit, Hz].
    rewrite He. apply wrap_mib_exact. lia.
Qed.

(** The request that gets all the memory there is. *)
Definition huge_request : ExecRequest := mk_exec_request "true" "/w" false (2 ^ 44) 10 false.

Lemma remote_memory_limit_witness :
  typed_request huge_request /\
  memory_unlimited (resources (request_policy huge_request (agent_default_in None "/w"))).
Proof.
  assert (typed_request huge_request) as Hr by (split; vm_compute; split; discriminate).
  split; [exact Hr|].
  refine (proj2 (proj2 (proj2 (proj2 (proj2 (remote_memory_limit huge_request
    (agent_default_in None "/w") Hr (conj typed_default I))) _))) _); reflexivity.
Defined.
