(* ===== verification/Daemon.v ===== *)
(** * The two accept loops and [main]

    The daemon ([kuda-sandbox-daemon/src/main.rs]) accepts connections for ever
    and spawns [serve_connection] for each; the control listener
    ([net/controller.rs]) does the same with its connection task.  The tasks are
    a pool of [Tasks], so their calls interleave in any order.  [main]
    dispatches to the subcommands of [Cli]. *)
From S2P Require Export Tasks Cli ServerSpec Control.

(** ** The daemon *)

Section Daemon.
Context `{Target} `{Json} (rounds fuel : nat).

Abbreviation daemon_pool := (@pool sys unit).

(** One round of the loop: a connection gets a task, an error is ignored. *)
(* @src daemon/main.rs:372-379 main (accept loop of Commands::Daemon) *)
Definition accept_connection (accepted : io_result unit) (s : daemon_pool) : daemon_pool :=
  match accepted with
  | Ok _ => spawn_task (serve_connection rounds fuel None) s
  | Err _ => s
  end.

Inductive daemon_step : daemon_pool -> daemon_pool -> Prop :=
| daemon_accepts r s : daemon_step s (accept_connection r s)
| daemon_task s s' : call_step sys_ok s s' -> daemon_step s s'.

Definition daemon_reachable (s : daemon_pool) : Prop := rtc daemon_step empty_pool s.

Lemma daemon_pool_reachable s :
  daemon_reachable s -> reachable sys_ok (serve_connection rounds fuel None) s.
Proof.
  unfold daemon_reachable, reachable. induction 1 as [|s1 s2 s3 Hs _ IH]; [done|].
  etrans; [|exact IH]. destruct Hs as [[[]|e] s|s s' Hc]; [|done|]; by apply rtc_once; constructor.
Qed.

Lemma responsive_sys : responsive sys_ok.
Proof. intros R e. exists (sys_default R e). apply sys_default_ok. Qed.

(** A command runs, and is awaited, for a request that was received before, in
    its jail and for its time. *)
Definition command_rule (h : sys_trace) (e : event sys) : Prop :=
  match e with
  | Ev (Exec _) _ | Ev (WaitChild _) _ => exists payload before after,
      received h = before ++ frame_bytes ExecRequestT payload ++ after /\
      request_rule payload h e
  | _ => True
  end.

Lemma command_rule_quiet e : is_child e = false -> forall h, command_rule h e.
Proof. destruct e as [R e r]. by destruct e. Qed.

Lemma guards_quiet h {B} (p : prog sys B) :
  quiet is_child p -> guards sys_ok command_rule h p.
Proof.
  intros Hq. apply guards_emits. eapply wp_weaken with (ok := any_response); [done|].
  eapply wp_mono; [exact Hq|]. intros ? t Ht.
  eapply Forall_impl; [exact Ht|]. apply command_rule_quiet.
Qed.

Lemma request_rule_mono payload h h' e :
  request_rule payload h' e -> request_rule payload (h ++ h') e.
Proof.
  destruct e as [R [] r]; try done.
  intros (req & home & rs & H1 & H2 & H3 & H4 & H5 & H6 & H7 & H8 & H9).
  exists req, home, rs. split_and!; try done; [set_solver|by apply sublist_inserts_l].
Qed.

Lemma quiet_recv_loop n : forall buf cap need att, quiet is_child (recv_loop n buf cap need att).
Proof.
  induction n as [|n IH]; intros buf cap need att; [apply emits_halt|].
  cbn [recv_loop]. unfold recv_step, finish_frame. prog_unfold. unfold quiet in *.
  repeat (emits_step || cbv zeta; auto; try done).
Qed.

Lemma quiet_contained ws p : quiet is_child (contained_handoff ws p).
Proof.
  unfold contained_handoff, hand_over. pose proof no_child_send as Hs.
  assert (forall f size, quiet is_child (send_frame FileGetRequest size (Some f))) as Hf.
  { intros f size. unfold send_frame, SEND_FUEL. cbn [send_loop]. unfold quiet in *. prog_unfold.
    repeat (emits_step; try done; auto). }
  unfold quiet, send_text in *. prog_unfold. repeat (emits_step; try done; auto).
Qed.

Lemma quiet_file_get payload session : quiet is_child (handle_file_get payload session).
Proof.
  unfold handle_file_get, classify_workspace. pose proof no_child_send as Hs.
  pose proof quiet_contained as Hc. unfold quiet, send_text in *. prog_unfold.
  repeat (emits_step; try done; auto).
Qed.

Lemma guards_commands : os = Linux -> forall h session,
  guards sys_ok command_rule h (serve_connection rounds fuel session).
Proof.
  intros Hos. induction rounds as [|n IH]; intros h session; [apply guards_emits, emits_halt|].
  cbn [serve_connection]. prog_unfold.
  apply guards_bind_post with (fun r t => forall fr, r = Ok fr ->
    received t = frame_bytes (msg_type fr) (payload fr)).
  { apply guards_quiet, quiet_recv_loop. }
  { eapply wp_mono; [apply recv_ok|]. cbn. naive_solver. }
  intros [frame|e] t Hrecv; [|apply guards_ret]. specialize (Hrecv _ eq_refl).
  destruct (msg_type frame); try apply guards_ret.
  - apply guards_bind; [apply guards_quiet; unfold request_workspace, classify_workspace; quiet_tac|].
    intros ws t'. apply guards_bind; [|intros [[]|e] t''; [apply IH|apply guards_ret]].
    eapply wp_weaken with (ok := any_response); [done|].
    eapply wp_mono; [by apply guards_request|]. intros o t2 Hsafe t1 e t3 Heq.
    specialize (Hsafe t1 e t3 Heq). destruct e as [R [] r]; try exact I;
    (exists (payload frame), (received h), (received (t' ++ t1)); split;
      [by rewrite <- Hrecv, <- !app_assoc, !received_app|by apply request_rule_mono]).
  - apply guards_bind; [apply guards_quiet, quiet_file_get|].
    intros [[]|e] t'; [apply IH|apply guards_ret].
Qed.

(** C3. The daemon's clients are confined whatever the schedule.  In every state
    the accept loop can reach, with any number of connections whose calls
    interleave in any order, and also while the connections are in the middle
    of a request: each file opened and each descriptor sent obeys the rule of
    its own connection, judged by the calls of that connection alone, so no
    client profits from the workspace of another; and on Linux each program
    that runs is the shell with a command that was requested in a frame its own
    connection received before, in the directory that request names and the
    guard accepted, in the complete jail of that request and awaited for its
    time. *)
Theorem daemon_connections_confined (s : daemon_pool) (i : nat) (e : event sys) l1 l2
    (Hreach : daemon_reachable s) (Hcall : log s = l1 ++ (i, e) :: l2) :
  handoff_rule (history i l1) e /\ (os = Linux -> command_rule (history i l1) e).
Proof.
  apply daemon_pool_reachable in Hreach. split; [|intros Hos].
  - eapply pool_guarded; [apply responsive_sys| |exact Hreach|exact Hcall].
    by apply guards_connection.
  - eapply pool_guarded; [apply responsive_sys| |exact Hreach|exact Hcall].
    by apply guards_commands.
Qed.

End Daemon.

(** Two clients of one daemon: the first runs a command in its workspace and
    fetches a file, the second is accepted in between.  The peers' bytes are
    the state of the handler. *)
Definition peer_bytes : bytes :=
  frame_bytes ExecRequestT (bytes_of_string "{}") ++
  frame_bytes FileGetRequest (bytes_of_string "/w/out").

Definition peer_handler : handler sys bytes := fun R e w =>
  match e in sys R return R * bytes with
  | RecvMsg n => (RecvOk (take n w) (Some []), drop n w)
  | Canonicalize p => (Ok p, w)
  | Metadata _ => (Ok (mk_metadata true false 0 5), w)
  | OpenFile _ => (Ok 9%Z, w)
  | e => (sys_default _ e, w)
  end.

Lemma peer_handler_ok R (e : sys R) w : sys_ok R e (peer_handler R e w).1.
Proof. destruct e; cbn; try exact I; [rewrite length_take|]; lia. Qed.

Definition two_clients : list move :=
  Spawn :: replicate 20 (Work 0) ++ [Spawn; Work 1] ++ replicate 60 (Work 0).
Definition two_clients_pool : @pool sys unit :=
  run_moves peer_handler (@serve_connection linux_x86 demo_json 4 40 None) two_clients peer_bytes.

Lemma run_moves_daemon `{Target} `{Json} rounds fuel ms :
  daemon_reachable rounds fuel (run_moves peer_handler (serve_connection rounds fuel None) ms peer_bytes).
Proof.
  pose proof (run_moves_reachable sys_ok peer_handler (serve_connection rounds fuel None) ms peer_bytes
    peer_handler_ok) as Hr.
  unfold daemon_reachable, reachable in *. induction Hr as [|s1 s2 s3 Hs _ IH]; [done|].
  etrans; [|exact IH]. apply rtc_once. destruct Hs as [s|s s' Hc]; [|by constructor].
  exact (daemon_accepts rounds fuel (Ok tt) s).
Qed.

Lemma daemon_connections_confined_witness :
  @daemon_reachable linux_x86 demo_json 4 40 two_clients_pool /\
  (exists l1 l2, log two_clients_pool = l1 ++ (0%nat, Ev (OpenFile "/w/out") (Ok 9%Z)) :: l2 /\
     @workspace_file demo_json (history 0 l1) "/w/out") /\
  (exists l1 c r l2, log two_clients_pool = l1 ++ (0%nat, Ev (Exec c) r) :: l2 /\
     @command_rule demo_json (history 0 l1) (Ev (Exec c) r)).
Proof.
  assert (@daemon_reachable linux_x86 demo_json 4 40 two_clients_pool) as Hr
    by exact (@run_moves_daemon linux_x86 demo_json 4 40 two_clients).
  split; [exact Hr|]. split.
  - exists (take 62 (log two_clients_pool)), (drop 63 (log two_clients_pool)).
    assert (log two_clients_pool = take 62 (log two_clients_pool) ++
      (0%nat, Ev (OpenFile "/w/out") (Ok 9%Z)) :: drop 63 (log two_clients_pool)) as Hl.
    { symmetry. apply take_drop_middle. vm_compute. reflexivity. }
    split; [exact Hl|].
    exact (proj1 (@daemon_connections_confined linux_x86 demo_json 4 40 _ _ _ _ _ Hr Hl)).
  - assert (exists c r, log two_clients_pool !! 46%nat = Some (0%nat, Ev (Exec c) r)) as (c & r & Hx).
    { vm_compute. eexists _, _. reflexivity. }
    exists (take 46 (log two_clients_pool)), c, r, (drop 47 (log two_clients_pool)).
    assert (log two_clients_pool = take 46 (log two_clients_pool) ++
      (0%nat, Ev (Exec c) r) :: drop 47 (log two_clients_pool)) as Hl.
    { symmetry. by apply take_drop_middle. }
    split; [exact Hl|].
    exact (proj2 (@daemon_connections_confined linux_x86 demo_json 4 40 _ _ _ _ _ Hr Hl) eq_refl).
Defined.

(** ** The control listener *)

Section Listener.
Context `{ControlJson} (rounds : nat).

(* @src core/net/controller.rs:76-116 start_control_listener (accept loop) *)
Definition accept_control (accepted : io_result unit) (s : @pool control unit) : @pool control unit :=
  match accepted with
  | Ok _ => spawn_task (serve_control rounds) s
  | Err _ => s
  end.

Inductive listener_step : @pool control unit -> @pool control unit -> Prop :=
| listener_accepts r s : listener_step s (accept_control r s)
| listener_task s s' : call_step any_response s s' -> listener_step s s'.

(** Each connection that has ended was answered line by line, whatever the
    others did meanwhile. *)
Lemma control_connections_answered s i :
  rtc listener_step empty_pool s -> running s !! i = Some (Ret tt) ->
  exists lines body tail, history i (log s) = body ++ tail /\ conversation lines body /\ over tail.
Proof.
  intros Hs Hi.
  set (Q := fun (o : outcome unit) (t : trace control) =>
    exists (lines : list string) (body tail : trace control), t = body ++ tail /\
    conversation lines body /\ match o with
                               | Done _ => over tail
                               | Stopped s => s = Running /\ tail = [] /\ length lines = rounds
                               end).
  apply (returned_keeps any_response Q s i tt); [|exact Hi].
  apply keeps_reachable with (serve_control rounds); [apply serve_control_spec|].
  clear Hi. unfold reachable. induction Hs as [|s1 s2 s3 H12 _ IH]; [done|].
  etrans; [|exact IH]. destruct H12 as [[[]|e] s|s s' Hc]; [|done|]; by apply rtc_once; constructor.
Qed.
End Listener.

(** ** [main] *)

(* @src daemon/main.rs:142-153 ImageCommands *)
Inductive ImageCommands : Type :=
| List
| Pull (distro : string).

(* @src daemon/main.rs:16-140 Commands *)
Inductive Commands : Type :=
| RunC (args : RunArgs)
| ArchC (p : path)
| InfoC
| ImageC (sub : ImageCommands)
| DaemonC (socket : path)
| ExecC (args : ExecArgs).

(** [main] ends, or it has started to serve and never returns. *)
Inductive main_result : Type :=
| Ended (e : main_end)
| Serving.

Section Main.
Context `{Target} `{ImageDeps} `{Base64} `{Json}.

(* @src daemon/main.rs:155-165 main *)
Definition main (rounds fuel : nat) (c : Commands) : prog sys main_result :=
  let ended p := e ← p; Ret (Ended e) in
  match c with
  | RunC args => ended (run_sandbox fuel args)
  | ArchC p => ended (inspect_arch p)
  | InfoC => ended show_info
  | ImageC List => ended image_list
  | ImageC (Pull distro) => ended (image_pull fuel distro)
  | DaemonC socket =>
      started ← start_daemon socket;
      match started with
      | Err e => Ret (Ended (MainErr e))
      | Ok _ => Ret Serving
      end
  | ExecC args => ended (exec_remote rounds fuel args)
  end.

(** Only the daemon serves, and only on a socket that was bound at its path
    after whatever was there had been asked to go. *)
Lemma main_serves rounds fuel c :
  wp any_response (main rounds fuel c) (fun o t => o = Done Serving ->
    exists socket, c = DaemonC socket /\ Ev (BindListener socket) (Ok tt) ∈ t /\
      forall p r, Ev (RemoveFile p) r ∈ t -> p = socket).
Proof.
  assert (forall p : prog sys main_end, wp any_response (e ← p; Ret (Ended e))
    (fun o t => o <> Done Serving)) as Hend.
  { intros p. prog_unfold. apply wp_bind, wp_true. by intros [a|s] t; cbn. }
  destruct c as [args|p| |[|distro]|socket|args]; cbn [main];
    try (eapply wp_mono; [apply Hend|]; intros o t Ho Hs; done).
  unfold start_daemon, println. wp_simpl. intros [] _ there _.
  destruct there; wp_simpl; [intros r1 _|]; (intros [[]|e] _; wp_simpl; [intros r2 _ [] _|]);
    intros Heq; try discriminate Heq; exists socket; (split; [done|]; split; [set_solver|]);
    intros p r Hin; ev_simpl; congruence.
Qed.
End Main.
