(* ===== verification/Python.v ===== *)
(** * The Python client ([net/sdk.rs])

    The crate writes a Python module, [kuda_sandbox.py], into a workspace: a
    client for the daemon's wire protocol and one for the control socket.  Its
    text is part of the source, so it is modelled like the Rust code, as
    programs over the calls of the Python runtime it makes.  [Sdk] has the text
    itself and the function that writes it.

    Python strings are modelled by their UTF-8 form.  An exception is a value
    of [exn]; the error branch of a call stands for whatever the runtime raises
    there.  JSON is the business of the [json] module and the class [PyJson]. *)
From S2P Require Export Client Controller.

(** The exceptions of the module, and those that the runtime raises. *)
(* @src core/net/sdk.rs:44-49 SandboxError, ProtocolError *)
Inductive exn : Type :=
| SandboxErr (msg : string)
| ProtocolErr (msg : string)
| ConnectionErr (msg : string)
| Raised (cls : string) (msg : string).

Abbreviation py_result A := (result A exn).

(** An item of ancillary data: [level == SOL_SOCKET and type == SCM_RIGHTS],
    and its bytes. *)
Record ancillary : Type := mk_ancillary { is_rights : bool; cdata : bytes }.

(** [recvmsg] takes the size of the buffer for ancillary data, which is 0
    where the call does not give it. *)
Inductive py : Type -> Type :=
| SockOpen : py (py_result unit)
| SockConnect (p : path) : py (py_result unit)
| SockSendAll (data : bytes) : py (py_result unit)
| SockSendMsg (data : bytes) (f : fd) : py (py_result nat)
| SockRecv (bufsize : nat) : py (py_result bytes)
| SockRecvMsg (bufsize ancbufsize : nat) : py (py_result (bytes * list ancillary))
| SockClose : py unit
| OsOpen (p : path) : py (py_result fd)
| OsClose (f : fd) : py (py_result unit)
| OsFdopen (f : fd) : py (py_result unit)
| SrcRead (n : nat) : py (py_result bytes)
| SrcClose : py unit
| OutOpen (p : path) : py (py_result unit)
| OutWrite (data : bytes) : py (py_result unit)
| OutClose : py (py_result unit)
| GetSize (p : path) : py (py_result Z)
| StdoutWrite (data : bytes) : py (py_result unit)
| StdoutFlush : py (py_result unit)
| StderrWrite (data : bytes) : py (py_result unit)
| StderrFlush : py (py_result unit).

Definition py_trace : Type := trace py.

(** The documented behaviour: a receive takes at most what it is asked for,
    [sendmsg] reports at most what it was given, and without a buffer for
    ancillary data none is received. *)
Definition py_ok : contract py := fun R e =>
  match e in py R return R -> Prop with
  | SockRecv n => fun r =>
      match r with Ok data => (length data <= n)%nat | Err _ => True end
  | SockRecvMsg n anc => fun r =>
      match r with
      | Ok (data, l) => (length data <= n)%nat /\ (anc = 0%nat -> l = [])
      | Err _ => True
      end
  | SockSendMsg data _ => fun r =>
      match r with Ok n => (n <= length data)%nat | Err _ => True end
  | _ => fun _ => True
  end.

(** [try: body finally: close] *)
Definition finally {A} (body : prog py A) (close : prog py unit) : prog py A :=
  r ← body; _ ← close; Ret r.

(* @src core/net/sdk.rs:35-41 T_EXEC_REQUEST, T_STDOUT, T_STDERR, T_EXIT, T_ERROR, T_FILE_GET, T_FILE_EOF *)
Definition T_EXEC_REQUEST : Z := 1.
Definition T_STDOUT : Z := 2.
Definition T_STDERR : Z := 3.
Definition T_EXIT : Z := 4.
Definition T_ERROR : Z := 5.
Definition T_FILE_GET : Z := 6.
Definition T_FILE_EOF : Z := 7.

(** [struct.Struct("<4sBQ")]: no padding in the standard sizes. *)
(* @src core/net/sdk.rs:31-32 MAGIC, HEADER *)
Definition header_pack (msg_type length : Z) : bytes :=
  bytes_of_string "KUDA" ++ [byte_of_Z msg_type] ++ to_le_bytes 8 length.
Definition header_size : nat := 13.
Definition header_unpack (h : bytes) : bytes * Z * Z :=
  (take 4 h, Z_of_byte (nth 4 h Byte.x00), from_le_bytes (drop 5 h)).

(** [repr] of a bytes object, the [%r] of the messages. *)
Definition repr_byte (quote : byte) (b : byte) : string :=
  if decide (b = quote) then "\" +:+ string_of_bytes [b]
  else match b with
  | Byte.x5c => "\\"
  | Byte.x09 => "\t"
  | Byte.x0a => "\n"
  | Byte.x0d => "\r"
  | _ => if byte_in 32 126 b then string_of_bytes [b] else "\x" +:+ hex_byte b
  end.
Definition repr_bytes (l : bytes) : string :=
  let quote := if bool_decide (Byte.x27 ∈ l /\ Byte.x22 ∉ l) then Byte.x22 else Byte.x27 in
  "b" +:+ string_of_bytes [quote] +:+ String.concat "" (map (repr_byte quote) l)
    +:+ string_of_bytes [quote].

Definition bad_magic (magic : bytes) : exn :=
  ProtocolErr ("bad wire magic " +:+ repr_bytes magic).
Definition closed_mid_frame : exn := ConnectionErr "daemon closed mid-frame".

Module SandboxClient.

(* @src core/net/sdk.rs:59-61 SandboxClient._pack_frame *)
Definition _pack_frame (msg_type : Z) (payload : bytes) : bytes :=
  header_pack msg_type (Z.of_nat (length payload)) ++ payload.

(** Each round brings at least one byte, so [n] rounds are enough. *)
Fixpoint recv_exact_loop (rounds n : nat) (buf : bytes) : prog py (py_result bytes) :=
  if (length buf <? n)%nat then
    match rounds with
    | O => Halt Running
    | S rounds =>
        chunk ←? call (SockRecv (n - length buf));
        match chunk with
        | [] => Ret (Err closed_mid_frame)
        | _ => recv_exact_loop rounds n (buf ++ chunk)
        end
    end
  else Ret (Ok buf).

(* @src core/net/sdk.rs:63-71 SandboxClient._recv_exact *)
Definition _recv_exact (n : nat) : prog py (py_result bytes) := recv_exact_loop n n [].

(* @src core/net/sdk.rs:73-82 SandboxClient._send_frame *)
Definition _send_frame (msg_type : Z) (payload : bytes) (f : option fd) : prog py (py_result unit) :=
  let data := _pack_frame msg_type payload in
  match f with
  | None => call (SockSendAll data)
  | Some f =>
      sent ←? call (SockSendMsg data f);
      if (sent <? length data)%nat then call (SockSendAll (drop sent data)) else Ret (Ok tt)
  end.

(* @src core/net/sdk.rs:84-89 SandboxClient._recv_frame *)
Definition _recv_frame : prog py (py_result (Z * bytes)) :=
  header ←? _recv_exact header_size;
  let '(magic, msg_type, len) := header_unpack header in
  if decide (magic = bytes_of_string "KUDA") then
    payload ←? _recv_exact (Z.to_nat len);
    Ret (Ok (msg_type, payload))
  else Ret (Err (bad_magic magic)).

(** The last descriptor of the first receive that brings any; a message of
    fewer than four bytes makes [struct.unpack] raise. *)
(* @src core/net/sdk.rs:102-105 SandboxClient._recv_fd_frame (ancillary data) *)
Fixpoint scan_ancdata (acc : option fd) (l : list ancillary) : py_result (option fd) :=
  match l with
  | [] => Ok acc
  | a :: l =>
      if is_rights a then
        if (length (cdata a) <? 4)%nat then
          Err (Raised "struct.error" "unpack requires a buffer of 4 bytes")
        else scan_ancdata (Some (from_le_bytes (take 4 (cdata a)))) l
      else scan_ancdata acc l
  end.

(* @src core/net/sdk.rs:96-110 SandboxClient._recv_fd_frame (loop) *)
Fixpoint recv_fd_loop (fuel : nat) (buf : bytes) (f : option fd) (need : nat)
    : prog py (py_result (bytes * option fd * nat)) :=
  match fuel with
  | O => Halt Running
  | S fuel =>
      let want := Nat.max 1 (need - length buf) in
      r ←? call (SockRecvMsg want 0);
      let (data, ancdata) := (r : bytes * list ancillary) in
      if (length data =? 0)%nat && bool_decide (length ancdata = 0)%nat
      then Ret (Err closed_mid_frame)
      else
        match (match f with None => scan_ancdata None ancdata | Some _ => Ok f end) with
        | Err e => Ret (Err e)
        | Ok f =>
            let buf := buf ++ data in
            let need :=
              if ((header_size <=? length buf) && (need =? header_size))%nat
              then (header_size + Z.to_nat (header_unpack (take header_size buf)).2)%nat
              else need in
            if (need <=? length buf)%nat then Ret (Ok (buf, f, need))
            else recv_fd_loop fuel buf f need
        end
  end.

(* @src core/net/sdk.rs:91-114 SandboxClient._recv_fd_frame *)
Definition _recv_fd_frame (fuel : nat) : prog py (py_result (Z * bytes * option fd)) :=
  r ←? recv_fd_loop fuel [] None header_size;
  let '(buf, f, need) := (r : bytes * option fd * nat) in
  let '(magic, msg_type, _) := header_unpack (take header_size buf) in
  if decide (magic = bytes_of_string "KUDA") then
    Ret (Ok (msg_type, drop header_size (take need buf), f))
  else Ret (Err (bad_magic magic)).

(** ** Running a command *)

Class PyJson : Type := {
  py_value : Type;
  dumps_request : ExecRequest -> string;
  loads_status : string -> py_result (py_value * py_value)
}.

(** [payload.decode()] *)
Definition decode (payload : bytes) : py_result string :=
  match from_utf8 payload with
  | Some s => Ok s
  | None => Err (Raised "UnicodeDecodeError" "'utf-8' codec can't decode the bytes")
  end.

Definition unexpected_frame (mtype : Z) : exn :=
  ProtocolErr ("unexpected frame type 0x" +:+ hex_byte (byte_of_Z mtype)).

Section Exec.
Context `{PyJson}.

(** [rounds] bounds the number of frames. *)
(* @src core/net/sdk.rs:146-160 SandboxClient.exec (frames) *)
Fixpoint exec_frames (rounds : nat) : prog py (py_result (py_value * py_value)) :=
  match rounds with
  | O => Halt Running
  | S rounds =>
      frame ←? _recv_frame;
      let (mtype, payload) := (frame : Z * bytes) in
      if (mtype =? T_STDOUT)%Z then
        _ ←? call (StdoutWrite payload); _ ←? call StdoutFlush; exec_frames rounds
      else if (mtype =? T_STDERR)%Z then
        _ ←? call (StderrWrite payload); _ ←? call StderrFlush; exec_frames rounds
      else if (mtype =? T_EXIT)%Z then
        Ret (result_bind (decode payload) loads_status)
      else if (mtype =? T_ERROR)%Z then
        Ret (match decode payload with Ok msg => Err (SandboxErr msg) | Err e => Err e end)
      else Ret (Err (unexpected_frame mtype))
  end.

(** [os.close] runs also when the request cannot be sent; an error of its own
    replaces the one of the send. *)
(* @src core/net/sdk.rs:137-144 SandboxClient.exec (request) *)
Definition send_request (req : bytes) (stdin_file : option path) : prog py (py_result unit) :=
  match stdin_file with
  | Some p =>
      f ←? call (OsOpen p);
      sent ← _send_frame T_EXEC_REQUEST req (Some f);
      closed ← call (OsClose f);
      Ret (match closed with Ok _ => sent | Err e => Err e end)
  | None => _send_frame T_EXEC_REQUEST req None
  end.

(** [bool(stdin_file)] is false for an empty path as well as for [None]. *)
(* @src core/net/sdk.rs:128-135 SandboxClient.exec (request dict) *)
Definition request_dict (command : string) (workspace : path) (allow_net : bool)
    (ram_mb timeout_secs : Z) (stdin_file : option path) : ExecRequest :=
  mk_exec_request command workspace allow_net ram_mb timeout_secs
    (match stdin_file with Some p => bool_decide (p <> "") | None => false end).

(* @src core/net/sdk.rs:117-162 SandboxClient.exec *)
Definition exec (rounds : nat) (socket_path : path) (command : string) (workspace : path)
    (allow_net : bool) (ram_mb timeout_secs : Z) (stdin_file : option path)
    : prog py (py_result (py_value * py_value)) :=
  _ ←? call SockOpen;
  _ ←? call (SockConnect socket_path);
  let req := bytes_of_string (dumps_request
    (request_dict command workspace allow_net ram_mb timeout_secs stdin_file)) in
  finally (_ ←? send_request req stdin_file; exec_frames rounds) (call SockClose).
End Exec.

(** ** Fetching a file *)

(* @src core/net/sdk.rs:182-186 SandboxClient.fetch_file (copy) *)
Fixpoint copy_chunks (fuel : nat) : prog py (py_result unit) :=
  match fuel with
  | O => Halt Running
  | S fuel =>
      chunk ←? call (SrcRead (Z.to_nat 1048576));
      match chunk with
      | [] => Ret (Ok tt)
      | _ => _ ←? call (OutWrite chunk); copy_chunks fuel
      end
  end.

(** The two files of the [with] statement; an error of closing the
    destination is raised when the body succeeded, and replaces its error
    otherwise. *)
(* @src core/net/sdk.rs:180-186 SandboxClient.fetch_file (with) *)
Definition copy_out (fuel : nat) (f : fd) (dest : path) (leftover : bytes)
    : prog py (py_result unit) :=
  _ ←? call (OsFdopen f);
  opened ← call (OutOpen dest);
  match opened with
  | Err e => _ ← call SrcClose; Ret (Err e)
  | Ok _ =>
      r ← (_ ←? call (OutWrite leftover); copy_chunks fuel);
      closed ← call OutClose;
      _ ← call SrcClose;
      Ret (match closed with Ok _ => r | Err e => Err e end)
  end.

(* @src core/net/sdk.rs:173-195 SandboxClient.fetch_file (reply) *)
Definition fetch_reply (fuel : nat) (dest : path) (reply : Z * bytes * option fd)
    : prog py (py_result Z) :=
  let '(mtype, payload, f) := reply in
  if (mtype =? T_ERROR)%Z then
    Ret (match decode payload with Ok msg => Err (SandboxErr msg) | Err e => Err e end)
  else
    match f with
    | Some f =>
        if negb (mtype =? T_FILE_GET)%Z || (length payload <? 8)%nat
        then Ret (Err (ProtocolErr "bad FILE_GET reply"))
        else
          let expected := from_le_bytes (take 8 payload) in
          _ ←? copy_out fuel f dest (drop 8 payload);
          frame2 ←? _recv_frame;
          let (mtype2, _) := (frame2 : Z * bytes) in
          if negb (mtype2 =? T_FILE_EOF)%Z
          then Ret (Err (ProtocolErr "missing EOF marker after FILE_GET"))
          else
            written ←? call (GetSize dest);
            if negb (written =? expected)%Z
            then Ret (Err (ProtocolErr ("size mismatch " +:+ pretty written +:+ " != " +:+ pretty expected)))
            else Ret (Ok written)
    | None => Ret (Err (ProtocolErr "bad FILE_GET reply"))
    end.

(* @src core/net/sdk.rs:164-197 SandboxClient.fetch_file *)
Definition fetch_file (fuel : nat) (socket_path : path) (remote_path : string) (dest_path : path)
    : prog py (py_result Z) :=
  _ ←? call SockOpen;
  _ ←? call (SockConnect socket_path);
  finally
    (_ ←? _send_frame T_FILE_GET (bytes_of_string remote_path) None;
     reply ←? _recv_fd_frame fuel;
     fetch_reply fuel dest_path reply)
    (call SockClose).
End SandboxClient.

Module NetworkController.

(** The dicts that are sent, over the type of Python floats. *)
(* @src core/net/sdk.rs:220-251 NetworkController (payloads) *)
Inductive py_command (F : Type) : Type :=
| set_chaos_dict (latency_ms jitter_ms : Z) (packet_loss : F)
| set_partition_dict (blocked : bool)
| set_bandwidth_dict (kbps : Z)
| reset_dict
| get_status_dict.
#[global] Arguments set_chaos_dict {F} latency_ms jitter_ms packet_loss.
#[global] Arguments set_partition_dict {F} blocked.
#[global] Arguments set_bandwidth_dict {F} kbps.
#[global] Arguments reset_dict {F}.
#[global] Arguments get_status_dict {F}.

(** The [json] module, floats, and [str(e)]. *)
Class PyControl : Type := {
  py_float : Type;
  f32_of_float : py_float -> f32;
  py_reply : Type;
  dumps : py_command py_float -> string;
  loads : string -> py_result py_reply;
  exn_text : exn -> string
}.

Section Commands.
Context `{PyControl}.

(** A reply of the server, or a dict the client makes up. *)
Inductive command_reply : Type :=
| Reply (r : py_reply)
| ErrorDict (msg : string)
| UnknownDict.

(** [with socket(...) as s:] closes the socket on every way out, and the
    [except] clause catches everything. *)
(* @src core/net/sdk.rs:206-216 NetworkController._send_command *)
Definition _send_command (socket_path : path) (payload : py_command py_float)
    : prog py command_reply :=
  opened ← call SockOpen;
  match opened with
  | Err e => Ret (ErrorDict (exn_text e))
  | Ok _ =>
      r ← finally
        (_ ←? call (SockConnect socket_path);
         _ ←? call (SockSendAll (bytes_of_string (dumps payload) ++ [Byte.x0a]));
         response ←? call (SockRecv (Z.to_nat 4096));
         match response with
         | [] => Ret (Ok UnknownDict)
         | _ => Ret (result_map Reply (result_bind (SandboxClient.decode response) loads))
         end)
        (call SockClose);
      Ret (match r with Ok reply => reply | Err e => ErrorDict (exn_text e) end)
  end.

(* @src core/net/sdk.rs:218-225 NetworkController.set_latency *)
Definition set_latency (socket_path : path) (ms jitter_ms : Z) (packet_loss : py_float)
    : prog py command_reply :=
  _send_command socket_path (set_chaos_dict ms jitter_ms packet_loss).

(** The defaults of [set_latency] fill in the jitter. *)
(* @src core/net/sdk.rs:227-229 NetworkController.set_packet_loss *)
Definition set_packet_loss (socket_path : path) (loss_rate : py_float) : prog py command_reply :=
  set_latency socket_path 0 0 loss_rate.

(* @src core/net/sdk.rs:231-236 NetworkController.set_partition *)
Definition set_partition (socket_path : path) (blocked : bool) : prog py command_reply :=
  _send_command socket_path (set_partition_dict blocked).

(* @src core/net/sdk.rs:238-243 NetworkController.set_bandwidth_limit *)
Definition set_bandwidth_limit (socket_path : path) (kbps : Z) : prog py command_reply :=
  _send_command socket_path (set_bandwidth_dict kbps).

(* @src core/net/sdk.rs:245-247 NetworkController.reset *)
Definition reset (socket_path : path) : prog py command_reply :=
  _send_command socket_path reset_dict.

(* @src core/net/sdk.rs:249-251 NetworkController.get_status *)
Definition get_status (socket_path : path) : prog py command_reply :=
  _send_command socket_path get_status_dict.

(** The command a dict denotes under the attributes of [NetworkCommand]: the
    tag [action] in snake case, the other keys the fields. *)
(* @src core/net/controller.rs:9-30 NetworkCommand (serde attributes) *)
Definition command_of_dict (c : py_command py_float) : NetworkCommand :=
  match c with
  | set_chaos_dict latency jitter loss => SetChaos latency (Some jitter) (f32_of_float loss)
  | set_partition_dict blocked => SetPartition blocked
  | set_bandwidth_dict kbps => SetBandwidth kbps
  | reset_dict => Reset
  | get_status_dict => GetStatus
  end.
End Commands.
End NetworkController.
