(* ===== verification/PythonSpec.v ===== *)
(** * The Python client speaks the daemon's protocol

    The client's frames are those of [Wire]; what it shows and returns is what
    was on the socket, and a server's answer reaches it unchanged.  Its
    [fetch_file] is shown never to succeed. *)
From S2P Require Export Python.
Import SandboxClient.

(** ** A stream socket for the Python client

    Blocking and without ancillary data: a receive gets at most what it asks
    for and at most what the next of [cuts] lets through. *)
Record py_world : Type := mk_world {
  to_read : bytes;
  cuts : list nat;
  written : bytes;
  shown : list (bool * bytes)
}.

Definition cut_at (n : nat) (w : py_world) : nat :=
  match cuts w with [] => n | c :: _ => Nat.min n (S c) end.
Definition after_read (n : nat) (w : py_world) : py_world :=
  mk_world (drop n (to_read w)) (tail (cuts w)) (written w) (shown w).
Definition show (out : bool) (d : bytes) (w : py_world) : py_world :=
  mk_world (to_read w) (cuts w) (written w) (shown w ++ [(out, d)]).
Definition write (d : bytes) (w : py_world) : py_world :=
  mk_world (to_read w) (cuts w) (written w ++ d) (shown w).

Definition py_handler : handler py py_world := fun R e w =>
  match e in py R return R * py_world with
  | SockOpen => (Ok tt, w)
  | SockConnect _ => (Ok tt, w)
  | SockSendAll d => (Ok tt, write d w)
  | SockSendMsg d _ => (Ok (length d), write d w)
  | SockRecv n => (Ok (take (cut_at n w) (to_read w)), after_read (cut_at n w) w)
  | SockRecvMsg n _ => (Ok (take (cut_at n w) (to_read w), []), after_read (cut_at n w) w)
  | SockClose => (tt, w)
  | OsOpen _ => (Ok 3%Z, w)
  | OsClose _ => (Ok tt, w)
  | OsFdopen _ => (Ok tt, w)
  | SrcRead _ => (Ok [], w)
  | SrcClose => (tt, w)
  | OutOpen _ => (Ok tt, w)
  | OutWrite _ => (Ok tt, w)
  | OutClose => (Ok tt, w)
  | GetSize _ => (Ok 0%Z, w)
  | StdoutWrite d => (Ok tt, show true d w)
  | StdoutFlush => (Ok tt, w)
  | StderrWrite d => (Ok tt, show false d w)
  | StderrFlush => (Ok tt, w)
  end.

(** The other end of a socket of [Kernel]. *)
Definition py_peer_of (k : kernel) (cs : list nat) : py_world :=
  mk_world (map fst (k_tx k)) cs [] [].

(** ** Frames *)

Lemma header_size_le ty n : length (header_pack ty n) = header_size.
Proof. unfold header_pack. rewrite !length_app, length_to_le_bytes. reflexivity. Qed.

Lemma header_unpack_pack ty n :
  (0 <= ty < 256)%Z -> in_u64 n ->
  header_unpack (header_pack ty n) = (bytes_of_string "KUDA", ty, n).
Proof.
  intros Hty Hn. unfold header_unpack, header_pack.
  cbn -[to_le_bytes from_le_bytes byte_of_Z Z_of_byte].
  by rewrite drop_0, u64_le_roundtrip, Z_of_byte_of_Z, Z.mod_small.
Qed.

(** A header of 13 bytes is its own encoding. *)
Lemma header_pack_unpack h magic ty n :
  length h = header_size -> header_unpack h = (magic, ty, n) -> magic = bytes_of_string "KUDA" ->
  h = header_pack ty n /\ (0 <= ty < 256)%Z /\ in_u64 n.
Proof.
  unfold header_unpack, header_size, header_pack. intros Hl [= <- <- <-] Hm.
  do 5 (destruct h as [|? h]; [discriminate Hl|]). cbn -[to_le_bytes from_le_bytes byte_of_Z Z_of_byte] in Hl, Hm |- *.
  rewrite drop_0. assert (length h = 8)%nat as Hl8 by lia. split_and!; [|apply Z_of_byte_range..|].
  - injection Hm as -> -> -> ->. rewrite byte_of_Z_of_byte.
    pose proof (to_from_le_bytes h) as Hr. rewrite Hl8 in Hr. by rewrite Hr.
  - pose proof (from_le_bytes_range h) as Hr. rewrite Hl8 in Hr. unfold in_u64, u64_max.
    change (256 ^ Z.of_nat 8)%Z with (2 ^ 64)%Z in Hr. lia.
Qed.

Lemma msg_type_range t : (0 <= msg_type_u8 t < 256)%Z.
Proof. destruct t; cbn; lia. Qed.

Lemma pack_frame_bytes t p :
  in_u64 (Z.of_nat (length p)) -> _pack_frame (msg_type_u8 t) p = frame_bytes t p.
Proof.
  intros Hp. unfold _pack_frame, frame_bytes, header_pack, encode_header.
  by rewrite wrap_u64_id.
Qed.

(** ** Receiving over the socket *)

Lemma recv_exact_run rounds n : forall buf w,
  (n - length buf <= rounds)%nat -> (n - length buf <= length (to_read w))%nat ->
  exists tr cs, run py_handler (recv_exact_loop rounds n buf) w =
    (Done (Ok (buf ++ take (n - length buf) (to_read w))), tr,
     mk_world (drop (n - length buf) (to_read w)) cs (written w) (shown w)).
Proof.
  induction rounds as [|rounds IH]; intros buf w Hr Hl; cbn [recv_exact_loop];
    destruct (Nat.ltb_spec (length buf) n).
  - lia.
  - replace (n - length buf)%nat with 0%nat by lia. rewrite app_nil_r. destruct w. eauto.
  - prog_unfold. cbn [run prog_bind]. set (m := cut_at (n - length buf) w).
    assert (0 < m <= n - length buf)%nat as Hm.
    { unfold m, cut_at. destruct (cuts w); lia. }
    cbn [py_handler]. fold m.
    assert (length (take m (to_read w)) = m) as Htake by (rewrite length_take; lia).
    destruct (take m (to_read w)) as [|b d] eqn:Ed; [cbn in Htake; lia|]. rewrite <- Ed.
    assert (length (buf ++ take m (to_read w)) = length buf + m)%nat as Hlen
      by (rewrite length_app, length_take; lia).
    destruct (IH (buf ++ take m (to_read w)) (after_read m w)) as (tr & cs & Hrun).
    { lia. } { cbn [after_read to_read]. rewrite length_drop. lia. }
    rewrite Hrun, Hlen. cbn [after_read to_read written shown].
    rewrite <- app_assoc, drop_drop.
    replace (n - (length buf + m))%nat with (n - length buf - m)%nat by lia.
    replace (m + (n - length buf - m))%nat with (n - length buf)%nat by lia.
    eexists _, cs. f_equal. f_equal. do 3 f_equal.
    rewrite <- (take_drop m (take (n - length buf) (to_read w))), take_take, skipn_firstn_comm.
    by rewrite Nat.min_l by lia.
  - replace (n - length buf)%nat with 0%nat by lia. rewrite app_nil_r. destruct w. eauto.
Qed.

Lemma py_recv_frame_run t p rest w :
  in_u64 (Z.of_nat (length p)) -> to_read w = frame_bytes t p ++ rest ->
  exists tr cs, run py_handler _recv_frame w =
    (Done (Ok (msg_type_u8 t, p)), tr, mk_world rest cs (written w) (shown w)).
Proof.
  intros Hp Hw. rewrite <- pack_frame_bytes in Hw by done. unfold _pack_frame in Hw.
  rewrite <- app_assoc in Hw.
  assert (length (header_pack (msg_type_u8 t) (Z.of_nat (length p))) = header_size) as Hh
    by apply header_size_le.
  unfold _recv_frame, _recv_exact. prog_unfold. rewrite run_bind.
  destruct (recv_exact_run header_size header_size [] w) as (tr & cs & ->); cbn [length].
  { lia. } { rewrite Hw, length_app. lia. }
  rewrite Nat.sub_0_r, app_nil_l, Hw, take_app_length', drop_app_length' by done.
  rewrite header_unpack_pack by (done || apply msg_type_range).
  rewrite decide_True by done. rewrite run_bind, Nat2Z.id.
  destruct (recv_exact_run (length p) (length p) []
    (mk_world (p ++ rest) cs (written w) (shown w))) as (tr' & cs' & ->); cbn [length to_read].
  { lia. } { rewrite length_app. lia. }
  rewrite Nat.sub_0_r, app_nil_l, take_app_length', drop_app_length' by done. cbn. eauto.
Qed.

(** ** A session over the socket *)

Definition chunk_shown (c : OutputChunk) : bool * bytes := (is_stdout c, chunk_data c).
Definition result_frame_bytes (t : MsgType) (p : bytes) (chunks : list OutputChunk) : bytes :=
  chunk_frames chunks ++ frame_bytes t p.

Section Session.
Context `{PyJson}.

(** What the client makes of the last frame. *)
Definition last_result (t : MsgType) (p : bytes) : py_result (py_value * py_value) :=
  match t with
  | Exit => result_bind (decode p) loads_status
  | ErrorT => match decode p with Ok msg => Err (SandboxErr msg) | Err e => Err e end
  | t => Err (unexpected_frame (msg_type_u8 t))
  end.

Definition small (p : bytes) : Prop := in_u64 (Z.of_nat (length p)).

Lemma exec_frames_run t p chunks : forall rounds w rest,
  t <> StdoutChunk -> t <> StderrChunk -> small p -> Forall (fun c => small (chunk_data c)) chunks ->
  (length chunks < rounds)%nat -> to_read w = chunk_frames chunks ++ frame_bytes t p ++ rest ->
  exists tr cs, run py_handler (exec_frames rounds) w =
    (Done (last_result t p), tr, mk_world rest cs (written w) (shown w ++ map chunk_shown chunks)).
Proof.
  induction chunks as [|c chunks IH]; intros rounds w rest Ht Ht2 Hp Hc Hr Hw;
    (destruct rounds as [|rounds]; [cbn in Hr; lia|]); cbn [exec_frames]; prog_unfold; rewrite run_bind.
  - destruct (py_recv_frame_run t p rest w Hp Hw) as (tr & cs & ->).
    rewrite app_nil_r. destruct t; try done; cbn; eauto.
  - inversion_clear Hc. cbn [chunk_frames map concat] in Hw. rewrite <- app_assoc in Hw.
    destruct (py_recv_frame_run _ _ _ _ ltac:(done) Hw) as (tr & cs & ->).
    destruct (IH rounds (mk_world (chunk_frames chunks ++ frame_bytes t p ++ rest) cs (written w)
      (shown w ++ [chunk_shown c])) rest) as (tr' & cs' & Hrun); [done..|cbn in Hr; lia|done|].
    unfold chunk_shown in Hrun at 1. cbn [written shown] in Hrun. rewrite <- app_assoc in Hrun.
    exists (tr ++ (if is_stdout c
      then [Ev (StdoutWrite (chunk_data c)) (Ok tt); Ev StdoutFlush (Ok tt)]
      else [Ev (StderrWrite (chunk_data c)) (Ok tt); Ev StderrFlush (Ok tt)]) ++ tr'), cs'.
    destruct (is_stdout c); cbn -[exec_frames chunk_frames frame_bytes app run];
      cbn [run py_handler]; unfold show; cbn [to_read cuts written shown];
      unfold chunk_frames in Hrun; by rewrite Hrun.
Qed.
End Session.

(** C35. The Python client's frames are the daemon's.  A frame it packs is byte
    for byte the one [send_frame] writes, and a header it unpacks has the
    magic, a known type and a length below the cap exactly when the Rust
    decoder accepts it, with the same length; only the check of the cap and of
    the type are missing on the Python side. *)
Theorem python_framing_equivalent (t : MsgType) (p h : bytes)
    (Hp : (Z.of_nat (length p) <= MAX_FRAME_LEN)%Z) (Hh : length h = HEADER_LEN) :
  _pack_frame (msg_type_u8 t) p = frame_bytes t p /\
  forall n, parse_header h = Ok n <->
    exists ty len, header_unpack h = (MAGIC, ty, len) /\ is_Some (from_u8 ty) /\
      (len <= MAX_FRAME_LEN)%Z /\ n = (HEADER_LEN + Z.to_nat len)%nat.
Proof.
  split; [apply pack_frame_bytes; unfold in_u64, u64_max, MAX_FRAME_LEN in *; lia|].
  intros n. unfold parse_header, header_unpack.
  assert (take 8 (drop 5 h) = drop 5 h) as ->.
  { apply take_ge. rewrite length_drop. unfold HEADER_LEN in Hh. lia. }
  destruct (decide (take 4 h <> MAGIC)) as [Hm|Hm].
  { split; [done|]. intros (ty & len & [= H1 _ _] & _). done. }
  apply dec_stable in Hm. rewrite Hm.
  destruct (from_u8 (Z_of_byte (nth 4 h Byte.x00))) as [ty|] eqn:Hty.
  2: { split; [done|]. intros (ty & len & [= <- _] & [x Hx] & _). by rewrite Hty in Hx. }
  destruct (Z.ltb_spec MAX_FRAME_LEN (from_le_bytes (drop 5 h))) as [Hl|Hl]; split.
  - done.
  - intros (ty' & len & [= _ <-] & _ & Hle & _). lia.
  - intros [= <-]. eexists _, _. split; [reflexivity|]. split_and!; [by exists ty|done|done].
  - intros (ty' & len & [= _ <-] & _ & _ & ->). done.
Qed.

Lemma python_framing_equivalent_witness :
  _pack_frame T_FILE_GET (bytes_of_string "/w/out") =
    frame_bytes FileGetRequest (bytes_of_string "/w/out") /\
  (parse_header (encode_header Exit 7) = Ok 20%nat <->
   exists ty len, header_unpack (encode_header Exit 7) = (MAGIC, ty, len) /\ is_Some (from_u8 ty) /\
     (len <= MAX_FRAME_LEN)%Z /\ 20%nat = (HEADER_LEN + Z.to_nat len)%nat).
Proof.
  destruct (python_framing_equivalent FileGetRequest (bytes_of_string "/w/out")
    (encode_header Exit 7)) as [H1 H2]; [vm_compute; discriminate|reflexivity|].
  split; [exact H1|exact (H2 20%nat)].
Defined.

Section Interop.
Context `{Json} `{PyJson}.

Lemma map_fst_flights l : map fst (flights l) = concat (map (fun x => frame_bytes x.1.1 x.1.2) l).
Proof.
  induction l as [|[[t p] f] l IH]; [done|]. rewrite flights_cons, map_app, IH.
  unfold frame_flight. by rewrite map_fst_with_fd.
Qed.

Lemma chunk_frames_outgoing chunks :
  concat (map (fun x => frame_bytes x.1.1 x.1.2) (map chunk_outgoing chunks)) = chunk_frames chunks.
Proof. unfold chunk_frames. by rewrite map_map. Qed.

Lemma small_fits p : (Z.of_nat (length p) <= MAX_FRAME_LEN)%Z -> small p.
Proof. unfold small, in_u64, u64_max, MAX_FRAME_LEN. lia. Qed.

(** C18. The Python client understands the Rust server.  Whatever chunks and
    result an execution produced, when the server's answer goes out over a Unix
    stream socket and [SandboxClient.exec] reads it, cut into pieces in any way,
    the client shows every chunk on its own stream in order and unchanged, then
    returns what the decoder makes of the exit status, or raises the error
    text, and leaves nothing on the socket. *)
Theorem python_session_roundtrip (chunks : list OutputChunk) (res : Result SandboxResult)
    (t : MsgType) (p : bytes) (send_ticks : list tick) (cs : list nat) (rounds : nat)
    (Hx : result_outgoing res (t, p, None))
    (Hfits : fits (map chunk_outgoing chunks ++ [(t, p, None)]))
    (Hrounds : (length chunks < rounds)%nat) :
  let k := run_state kernel_handler (answer (res, chunks)) (fresh_kernel send_ticks) in
  let w := run_state py_handler (exec_frames rounds) (py_peer_of k cs) in
  run_out py_handler (exec_frames rounds) (py_peer_of k cs) = Done (last_result t p) /\
  shown w = map chunk_shown chunks /\ to_read w = [].
Proof.
  cbv zeta. unfold run_out, run_state.
  destruct (answer_run chunks res (t, p, None) (fresh_kernel send_ticks) Hx Hfits) as [tr ->].
  unfold py_peer_of. cbn [k_tx fresh_kernel fst snd app].
  rewrite map_fst_flights, map_app, concat_app, chunk_frames_outgoing.
  apply Forall_app in Hfits as [Hc Hp]. inversion_clear Hp. rewrite List.Forall_map in Hc.
  destruct (exec_frames_run t p chunks rounds
    (mk_world (chunk_frames chunks ++ frame_bytes t p ++ []) cs [] []) []) as (tr' & cs' & Hr);
    [| |by apply small_fits| |done|done|].
  - intros ->. destruct res; cbn in Hx; [destruct Hx as (? & _ & Hx)|]; discriminate Hx.
  - intros ->. destruct res; cbn in Hx; [destruct Hx as (? & _ & Hx)|]; discriminate Hx.
  - eapply List.Forall_impl; [|exact Hc]. intros c. apply small_fits.
  - cbn [map concat fst snd]. cbn in Hr |- *. rewrite Hr. done.
Qed.
End Interop.

Definition demo_pyjson : PyJson := {|
  py_value := string;
  dumps_request := fun _ => "{}";
  loads_status := fun s => Ok (s, "metrics") |}.

Lemma python_session_roundtrip_witness :
  let k := run_state kernel_handler (@answer demo_json (Err (Timeout 5), demo_chunks))
             (fresh_kernel []) in
  run_out py_handler (@exec_frames demo_pyjson 3) (py_peer_of k [0; 4; 20]%nat)
    = Done (Err (SandboxErr "Execution timeout after 5 seconds")) /\
  shown (run_state py_handler (@exec_frames demo_pyjson 3) (py_peer_of k [0; 4; 20]%nat))
    = [(true, bytes_of_string "hello"); (false, bytes_of_string "oops")].
Proof.
  destruct (@python_session_roundtrip demo_json demo_pyjson demo_chunks (Err (Timeout 5))
    ErrorT (bytes_of_string "Execution timeout after 5 seconds") [] [0; 4; 20]%nat 3)
    as (H1 & H2 & _); [reflexivity| |repeat constructor|].
  - repeat constructor; vm_compute; discriminate.
  - split; [|exact H2]. cbv zeta in H1. exact H1.
Defined.

(** ** Against any daemon *)

Definition py_event_received (e : event py) : bytes :=
  match e with
  | @Ev _ R e r =>
      match e in py R return R -> bytes with
      | SockRecv _ => fun r => match r with Ok d => d | Err _ => [] end
      | SockRecvMsg _ _ => fun r => match r with Ok (d, _) => d | Err _ => [] end
      | _ => fun _ => []
      end r
  end.
Definition py_received (t : py_trace) : bytes := concat (map py_event_received t).

Definition py_event_shown (e : event py) : list (bool * bytes) :=
  match e with
  | @Ev _ R e r =>
      match e in py R return R -> list (bool * bytes) with
      | StdoutWrite d => fun r => [(true, d)]
      | StderrWrite d => fun r => [(false, d)]
      | _ => fun _ => []
      end r
  end.
Definition py_shown (t : py_trace) : list (bool * bytes) := concat (map py_event_shown t).

Lemma py_received_app t t' : py_received (t ++ t') = py_received t ++ py_received t'.
Proof. unfold py_received. by rewrite map_app, concat_app. Qed.
Lemma py_shown_app t t' : py_shown (t ++ t') = py_shown t ++ py_shown t'.
Proof. unfold py_shown. by rewrite map_app, concat_app. Qed.

Definition py_event_sent (e : event py) : bytes :=
  match e with
  | @Ev _ R e r =>
      match e in py R return R -> bytes with
      | SockSendAll d => fun r => match r with Ok _ => d | Err _ => [] end
      | SockSendMsg d _ => fun r => match r with Ok n => take n d | Err _ => [] end
      | _ => fun _ => []
      end r
  end.
Definition py_sent (t : py_trace) : bytes := concat (map py_event_sent t).
Lemma py_sent_app t t' : py_sent (t ++ t') = py_sent t ++ py_sent t'.
Proof. unfold py_sent. by rewrite map_app, concat_app. Qed.

(** Sending shows and receives nothing; success means that the frame is out,
    with its descriptor if there is one. *)
Definition sending (ty : Z) (req : bytes) (o : outcome (py_result unit)) (t : py_trace) : Prop :=
  py_shown t = [] /\ py_received t = [] /\
  match o with
  | Done (Ok _) => py_sent t = _pack_frame ty req
  | Done (Err _) => True
  | Stopped _ => False
  end.

Lemma send_frame_py ty req f : wp py_ok (_send_frame ty req f) (sending ty req).
Proof.
  unfold _send_frame, sending. destruct f as [f|]; wp_simpl.
  - intros [n|e] Hn; cbn in Hn; [|done]. cbv zeta. destruct (Nat.ltb_spec n (length (_pack_frame ty req))).
    + wp_simpl. intros [[]|e] _; cbn; [|done]. split_and!; [done|done|].
      unfold py_sent. cbn. by rewrite app_nil_r, take_drop.
    + cbn. split_and!; [done|done|]. unfold py_sent. cbn. by rewrite app_nil_r, take_ge.
  - intros [[]|e] _; cbn; [|done]. split_and!; [done|done|]. unfold py_sent. cbn. by rewrite app_nil_r.
Qed.

Lemma send_request_spec req f : wp py_ok (send_request req f) (sending T_EXEC_REQUEST req).
Proof.
  unfold send_request. destruct f as [p|]; [|apply send_frame_py]. wp_simpl.
  intros [f|e] _; cbn [prog_bind wp]; [|done]. apply wp_bind.
  eapply wp_mono; [apply send_frame_py|]. intros o t (Hs & Hr & Ho).
  destruct o as [sent|s]; [|done]. cbn [prog_bind wp]. intros closed _.
  unfold sending, py_shown, py_received, py_sent in *. cbn.
  rewrite !map_app, !concat_app, Hs, Hr. cbn. split_and!; [done|done|].
  destruct closed as [[]|e]; [|done]. destruct sent as [[]|e]; [|done]. by rewrite app_nil_r.
Qed.

(** A receive of [n] bytes ends, shows nothing, and is exact. *)
Lemma recv_exact_spec rounds n : forall buf,
  (length buf <= n)%nat -> (n - length buf <= rounds)%nat ->
  wp py_ok (recv_exact_loop rounds n buf) (fun o t => py_shown t = [] /\
    match o with
    | Done (Ok b) => b = buf ++ py_received t /\ length b = n
    | Done (Err _) => True
    | Stopped _ => False
    end).
Proof.
  induction rounds as [|rounds IH]; intros buf Hb Hr; cbn [recv_exact_loop];
    destruct (Nat.ltb_spec (length buf) n); try lia.
  1, 3: cbn; rewrite app_nil_r; split_and!; [done..|lia].
  wp_simpl. intros [chunk|e] Hok; cbn in Hok; [|done].
  destruct chunk as [|c chunk]; [done|].
  eapply wp_mono; [apply IH; rewrite length_app; cbn [length] in *; lia|].
  intros o t [Hs Ho]. split; [done|]. destruct o as [[b|e]|s]; [|done..].
  destruct Ho as [-> Hl]. split; [|done]. unfold py_received. cbn. by rewrite <- app_assoc.
Qed.

Lemma recv_frame_spec :
  wp py_ok _recv_frame (fun o t => py_shown t = [] /\
    match o with
    | Done (Ok (ty, p)) => (0 <= ty < 256)%Z /\ py_received t = header_pack ty (Z.of_nat (length p)) ++ p
    | Done (Err _) => True
    | Stopped _ => False
    end).
Proof.
  unfold _recv_frame, _recv_exact. prog_unfold. apply wp_bind.
  eapply wp_mono; [apply recv_exact_spec; cbn [length]; lia|].
  intros o t [Hs Ho]. destruct o as [[h|e]|s]; [|by cbn; rewrite app_nil_r|done]. destruct Ho as [-> Hl].
  rewrite app_nil_l in *. destruct (header_unpack (py_received t)) as [[magic ty] len] eqn:Hh.
  destruct (decide (magic = bytes_of_string "KUDA")) as [Hm|]; [|by cbn; rewrite app_nil_r].
  destruct (header_pack_unpack _ _ _ _ Hl Hh Hm) as (Hp & Hty & Hlen).
  apply wp_bind. eapply wp_mono; [apply recv_exact_spec; cbn [length]; lia|].
  intros o t' [Hs' Ho]. rewrite py_shown_app, Hs, Hs'.
  destruct o as [[p|e]|s]; [|by cbn; rewrite app_nil_r, py_shown_app, Hs|done]. destruct Ho as [-> Hl']. cbn.
  rewrite app_nil_r, py_shown_app, Hs, Hs'. split; [done|]. split; [done|].
  rewrite app_nil_l in *. rewrite py_received_app, Hl', Z2Nat.id by apply Hlen. by rewrite Hp at 1.
Qed.

Definition piece_bytes (x : bool * bytes) : bytes :=
  header_pack (if x.1 then T_STDOUT else T_STDERR) (Z.of_nat (length x.2)) ++ x.2.

Section Sound.
Context `{PyJson}.

(** What a session has shown and taken off the socket when it ends as [o]. *)
Definition session_post (o : outcome (py_result (py_value * py_value))) (t : py_trace) : Prop :=
  concat (map piece_bytes (py_shown t)) `prefix_of` py_received t /\
  match o with
  | Done (Ok v) => exists p text, py_received t =
      concat (map piece_bytes (py_shown t)) ++ header_pack T_EXIT (Z.of_nat (length p)) ++ p /\
      decode p = Ok text /\ loads_status text = Ok v
  | Done (Err _) => True
  | Stopped s => s = Running
  end.

Lemma session_post_piece out p t0 mid o t :
  py_shown t0 = [] -> py_received t0 = piece_bytes (out, p) ->
  py_shown mid = [(out, p)] -> py_received mid = [] ->
  session_post o t -> session_post o (t0 ++ mid ++ t).
Proof.
  unfold session_post. intros H1 H2 H3 H4 [Hp Ho].
  rewrite !py_received_app, !py_shown_app, H1, H2, H3, H4. cbn [app map concat].
  split; [by apply prefix_app|]. destruct o as [[v|e]|s]; [|done..].
  destruct Ho as (q & text & -> & Hd). exists q, text. by rewrite <- app_assoc.
Qed.

(** The session stops while it shows a piece. *)
Lemma session_post_stop out p t0 mid e :
  py_shown t0 = [] -> py_received t0 = piece_bytes (out, p) ->
  py_shown mid = [(out, p)] -> py_received mid = [] ->
  session_post (Done (Err e)) (t0 ++ mid).
Proof.
  intros. rewrite <- (app_nil_r mid). eapply session_post_piece; try done.
Qed.

Lemma exec_frames_spec rounds : wp py_ok (exec_frames rounds) session_post.
Proof.
  induction rounds as [|rounds IH]; [done|]. cbn [exec_frames]. prog_unfold. apply wp_bind.
  eapply wp_mono; [apply recv_frame_spec|]. intros o t [Hs Ho].
  assert (forall o, (forall v, o <> Done (Ok v)) -> (forall s, o <> Stopped s) ->
    session_post o (t ++ [])) as Hend.
  { intros o' H1 H2. unfold session_post. rewrite app_nil_r, Hs.
    split; [apply prefix_nil|]. destruct o' as [[v|e]|s]; [by destruct (H1 v)|done|by destruct (H2 s)]. }
  destruct o as [[[ty p]|e]|s]; [|by apply Hend|done]. destruct Ho as [Hty Hrecv].
  destruct (Z.eqb_spec ty T_STDOUT) as [->|].
  { cbn [prog_bind wp]. intros [[]|e] _; cbn [prog_bind wp];
      [intros [[]|e] _; cbn [prog_bind wp]; [eapply wp_mono; [apply IH|]; intros o t'|]|].
    all: by first [apply (session_post_piece true p t [_; _])|apply (session_post_stop true p t)]. }
  destruct (Z.eqb_spec ty T_STDERR) as [->|].
  { cbn [prog_bind wp]. intros [[]|e] _; cbn [prog_bind wp];
      [intros [[]|e] _; cbn [prog_bind wp]; [eapply wp_mono; [apply IH|]; intros o t'|]|].
    all: by first [apply (session_post_piece false p t [_; _])|apply (session_post_stop false p t)]. }
  destruct (Z.eqb_spec ty T_EXIT) as [->|].
  { cbn. destruct (decode p) as [text|e] eqn:Hd; cbn; [|by apply Hend].
    destruct (loads_status text) as [v|e] eqn:Hl; [|by apply Hend].
    unfold session_post. rewrite app_nil_r, Hs, Hrecv. split; [apply prefix_nil|].
    by exists p, text. }
  destruct (Z.eqb_spec ty T_ERROR) as [->|]; [destruct (decode p)|]; by apply Hend.
Qed.

(** Receiving sends nothing. *)
Lemma recv_exact_silent rounds n : forall buf,
  emits py_ok (fun e => py_event_sent e = []) (recv_exact_loop rounds n buf).
Proof.
  induction rounds as [|rounds IH]; intros buf; cbn [recv_exact_loop]; prog_unfold;
    repeat (emits_step; try done).
Qed.

Lemma exec_frames_silent rounds :
  emits py_ok (fun e => py_event_sent e = []) (exec_frames rounds).
Proof.
  induction rounds as [|rounds IH]; [apply emits_halt|]. cbn [exec_frames].
  unfold _recv_frame, _recv_exact. prog_unfold.
  repeat (emits_step; try apply recv_exact_silent; try done).
Qed.

Lemma silent_sent t : Forall (fun e => py_event_sent e = []) t -> py_sent t = [].
Proof. induction 1 as [|e t He _ IH]; [done|]. unfold py_sent in *. cbn. by rewrite He, IH. Qed.

Lemma session_post_around o t1 t t2 :
  py_shown t1 = [] -> py_received t1 = [] -> py_shown t2 = [] -> py_received t2 = [] ->
  session_post o t -> session_post o (t1 ++ t ++ t2).
Proof.
  unfold session_post. intros H1 H2 H3 H4.
  by rewrite !py_shown_app, !py_received_app, H1, H2, H3, H4, !app_nil_r.
Qed.

Lemma session_post_error t e : py_shown t = [] -> session_post (Done (Err e)) t.
Proof. intros Hs. unfold session_post. rewrite Hs. split; [apply prefix_nil|done]. Qed.

(** How a call of [exec] that sends [req] may end. *)
Definition exec_post (socket_path : path) (req : bytes)
    (o : outcome (py_result (py_value * py_value))) (t : py_trace) : Prop :=
  session_post o t /\
  (forall v, o = Done (Ok v) -> py_sent t = _pack_frame T_EXEC_REQUEST req) /\
  (forall r, o = Done r -> Ev (SockConnect socket_path) (Ok tt) ∈ t ->
     exists t', t = t' ++ [Ev SockClose tt]).

(** C19. What the Python client reports is what the daemon sent.  Against every
    daemon and however the socket cuts the stream, everything [exec] writes to
    its standard streams is the contents of output frames it received, in
    order and unchanged; when it returns, the request went out as one frame,
    and what came back is exactly those output frames and one exit frame, which
    decodes to the returned status; and once the socket is connected it is
    closed on every way out. *)
Theorem python_exec_sound (rounds : nat) (socket_path : path) (command : string) (ws : path)
    (allow_net : bool) (ram_mb timeout_secs : Z) (stdin_file : option path) :
  wp py_ok (exec rounds socket_path command ws allow_net ram_mb timeout_secs stdin_file)
    (exec_post socket_path (bytes_of_string
       (dumps_request (request_dict command ws allow_net ram_mb timeout_secs stdin_file)))).
Proof.
  unfold exec, finally. wp_simpl. set (req := bytes_of_string _).
  intros [[]|e] _; cbn [prog_bind wp];
    [|split_and!; [split; [by apply prefix_nil|done]|done|intros; ev_simpl]].
  intros [[]|e] _; cbn [prog_bind wp];
    [|split_and!; [split; [by apply prefix_nil|done]|done|intros; ev_simpl]].
  apply wp_bind, wp_bind. eapply wp_mono; [apply send_request_spec|]. intros o t (Hs & Hr & Ho).
  set (t0 := Ev SockOpen (Ok tt) :: Ev (SockConnect socket_path) (Ok tt) :: t).
  assert (py_shown t0 = [] /\ py_received t0 = [] /\ py_sent t0 = py_sent t) as (Hs0 & Hr0 & He0) by done.
  destruct o as [[[]|e]|s]; [| |done].
  - eapply wp_mono; [apply wp_and; [apply exec_frames_spec|apply exec_frames_silent]|].
    intros o t' [Hp Hsent%silent_sent]. destruct o as [r|s].
    + cbn [prog_bind wp]. intros [] _. rewrite <- ?app_assoc.
      change (exec_post socket_path req (Done r) (t0 ++ t' ++ [Ev SockClose tt])). split_and!.
      * by apply session_post_around.
      * intros v _. rewrite !py_sent_app, Hsent, He0, Ho. apply app_nil_r.
      * intros. exists (t0 ++ t'). by rewrite app_assoc.
    + change (exec_post socket_path req (Stopped s) (t0 ++ t')). split_and!; [|done..].
      rewrite <- (app_nil_r t'). by apply session_post_around.
  - cbn [prog_bind wp]. intros [] _. rewrite <- ?app_assoc.
    change (exec_post socket_path req (Done (Err e)) (t0 ++ [] ++ [Ev SockClose tt])). split_and!.
    + apply session_post_error. by rewrite !py_shown_app, Hs0.
    + done.
    + intros. by exists t0.
Qed.
End Sound.

(** ** [fetch_file] *)

Definition opens_out (e : event py) : bool :=
  match e with Ev (OutOpen _) _ => true | _ => false end.
Abbreviation untouched t := (Forall (fun e => opens_out e = false) t).

(** [recvmsg] has no room for a descriptor, so none is found. *)
Lemma recv_fd_none fuel : forall buf need,
  wp py_ok (recv_fd_loop fuel buf None need) (fun o t => untouched t /\
    forall b f n, o = Done (Ok (b, f, n)) -> f = None).
Proof.
  induction fuel as [|fuel IH]; intros buf need; [by split|]. cbn [recv_fd_loop]. wp_simpl.
  intros [[data anc]|e] Hok; cbn [prog_bind wp]; [|by repeat constructor].
  destruct Hok as [_ Hanc]. rewrite (Hanc eq_refl).
  destruct (_ && _); [by repeat constructor|]. cbn [scan_ancdata]. cbv zeta.
  destruct (_ <=? _)%nat.
  - split; [by repeat constructor|]. by intros b f n [= _ <- _].
  - eapply wp_mono; [apply IH|]. intros o t [Ht Ho]. split; [by constructor|done].
Qed.

Lemma send_frame_untouched ty req f :
  emits py_ok (fun e => opens_out e = false) (_send_frame ty req f).
Proof. unfold _send_frame. prog_unfold. repeat (emits_step; cbv zeta; try done). Qed.

(** What a call of [fetch_file] never does. *)
Definition no_file (o : outcome (py_result Z)) (t : py_trace) : Prop :=
  (forall n, o <> Done (Ok n)) /\ untouched t.

Lemma recv_fd_frame_none fuel :
  wp py_ok (_recv_fd_frame fuel) (fun o t => untouched t /\
    forall ty p f, o = Done (Ok (ty, p, f)) -> f = None).
Proof.
  unfold _recv_fd_frame. prog_unfold. apply wp_bind. eapply wp_mono; [apply recv_fd_none|].
  intros o t [Ht Hf]. destruct o as [[[[buf f] need]|e]|s]; cbn [wp]; [|by rewrite app_nil_r|done].
  destruct (header_unpack _) as [[magic ty] len]. rewrite (Hf _ _ _ eq_refl).
  destruct (decide _); cbn [wp]; rewrite app_nil_r; (split; [done|]); by intros ? ? ? [= _ _ <-].
Qed.

Lemma fetch_reply_none fuel dest ty p : exists e, fetch_reply fuel dest (ty, p, None) = Ret (Err e).
Proof. unfold fetch_reply. destruct (_ =? _)%Z; [destruct (decode p)|]; eauto. Qed.

Lemma no_file_error t e : untouched t -> no_file (Done (Err e)) t.
Proof. by split. Qed.

Lemma fetch_body_fails fuel remote dest :
  wp py_ok (prog_bind (fun r => match r with
      | Ok _ => prog_bind (fun r => match r with
                                    | Ok reply => fetch_reply fuel dest reply
                                    | Err e => Ret (Err e)
                                    end) (_recv_fd_frame fuel)
      | Err e => Ret (Err e)
      end) (_send_frame T_FILE_GET (bytes_of_string remote) None)) no_file.
Proof.
  apply wp_bind. eapply wp_mono; [apply send_frame_untouched|]. intros o t1 H1.
  destruct o as [[[]|e]|s]; [|by apply no_file_error; rewrite app_nil_r|done].
  apply wp_bind. eapply wp_mono; [apply recv_fd_frame_none|]. intros o t2 [H2 Hf].
  assert (untouched (t1 ++ t2)) as H12 by by apply Forall_app.
  destruct o as [[[[ty p] f]|e]|s]; [|by apply no_file_error; rewrite app_nil_r|done].
  rewrite (Hf _ _ _ eq_refl). destruct (fetch_reply_none fuel dest ty p) as [e ->].
  apply no_file_error. by rewrite app_nil_r.
Qed.

(** C20. [SandboxClient.fetch_file] never succeeds.  It looks for the descriptor
    with a [recvmsg] that gives no size for the ancillary data, so none arrives:
    against every daemon, also one that answers the request as the protocol
    says, the call raises, and the destination is never opened. *)
Theorem python_fetch_never_succeeds (fuel : nat) (socket_path : path) (remote : string)
    (dest : path) :
  wp py_ok (fetch_file fuel socket_path remote dest) no_file.
Proof.
  unfold fetch_file, finally. wp_simpl.
  intros [[]|e] _; cbn [prog_bind wp]; [|by repeat constructor].
  intros [[]|e] _; cbn [prog_bind wp]; [|by repeat constructor].
  apply wp_bind. eapply wp_mono; [apply fetch_body_fails|]. intros o t [Hn Ht].
  assert (untouched (Ev SockOpen (Ok tt) :: Ev (SockConnect socket_path) (Ok tt) :: t)) as Ht'
    by by repeat constructor.
  destruct o as [r|s]; cbn [prog_bind wp]; [|by split].
  intros [] _. split; [exact Hn|]. rewrite !app_comm_cons. apply Forall_app. split; [done|].
  by repeat constructor.
Qed.

(** A daemon that hands over a file: the descriptor is lost on the way. *)
Example fetch_from_willing_daemon :
  run_out py_handler (fetch_file 9 "/run/kuda.sock" "/w/out" "out")
    (mk_world (frame_bytes FileGetRequest (to_le_bytes 8 5) ++ frame_bytes FileEof []) [] [] [])
  = Done (Err (ProtocolErr "bad FILE_GET reply")).
Proof. vm_compute. reflexivity. Qed.

(** ** The control client *)

(** Setting the loss alone is setting a profile without latency and jitter. *)
Lemma set_packet_loss_resets `{NetworkController.PyControl} loss s :
  (handle_network_command
     (NetworkController.command_of_dict (NetworkController.set_chaos_dict 0 0 loss)) s).1
  = mk_net (mk_chaos 0 0 (NetworkController.f32_of_float loss)
      (bandwidth_kbps (chaos s)) (corrupt_ratio (chaos s))) (partition_active s).
Proof. done. Qed.
