(* ===== verification/Sdk.v ===== *)
(** * The Python module that is written ([net/sdk.rs])

    [write_python_sdk] fills the socket path into a template and writes
    [kuda_sandbox.py].  The template is here as it is in the source, line by
    line, with [~] for the double quote, which it does not contain otherwise;
    [Python] models what the text means.  The socket path ends up in a Python
    string literal, and the theorem says when that literal is the path. *)
From S2P Require Export PythonSpec.

Definition lines_text (l : list string) : string := String.concat "" (map (fun s => s +:+ nl) l).

(** [str::replace] with a character as the pattern. *)
Fixpoint replace_char (c : ascii) (by_ : string) (s : string) : string :=
  match s with
  | EmptyString => EmptyString
  | String a s => if decide (a = c) then by_ +:+ replace_char c by_ s else String a (replace_char c by_ s)
  end.

Definition quote : ascii := "034".
Definition backslash : ascii := "092".
Definition unquote_template (s : string) : string := replace_char "~" (String quote "") s.

(** [format!] with the one argument [socket]: doubled braces stand for one. *)
Fixpoint format_socket (arg : string) (s : string) : string :=
  match s with
  | String "{" (String "{" s) => String "{" (format_socket arg s)
  | String "}" (String "}" s) => String "}" (format_socket arg s)
  | String "{" (String "s" (String "o" (String "c" (String "k" (String "e" (String "t"
      (String "}" s))))))) => arg +:+ format_socket arg s
  | String c s => String c (format_socket arg s)
  | EmptyString => EmptyString
  end.

(** The constants and the exceptions. *)
(* @src core/net/sdk.rs:15-50 write_python_sdk (text: constants and errors) *)
Definition sdk_prelude : list string :=
  [
   "# Kuda Sandbox SDK";
   "# Generated automatically by Kuda Sandbox Engine";
   "#";
   "# - SandboxClient     : binary wire protocol (~KUDA~ frames, streamed raw output,";
   "#                       zero-copy stdin/artifact transfer via SCM_RIGHTS fd passing).";
   "#                       Structured payloads (ExecRequest/ExitStatus) are UTF-8 JSON.";
   "# - NetworkController : NDJSON control socket for live network chaos mutation.";
   "";
   "import os";
   "import sys";
   "import json";
   "import struct";
   "import array";
   "import socket";
   "";
   "DEFAULT_SOCKET_PATH = ~{socket}~";
   "MAGIC = b~KUDA~";
   "HEADER = struct.Struct(~<4sBQ~)";
   "";
   "# Message types (must match crates/kuda-sandbox-core/src/net/wire.rs)";
   "T_EXEC_REQUEST = 0x01";
   "T_STDOUT = 0x02";
   "T_STDERR = 0x03";
   "T_EXIT = 0x04";
   "T_ERROR = 0x05";
   "T_FILE_GET = 0x06";
   "T_FILE_EOF = 0x07";
   "";
   "";
   "class SandboxError(RuntimeError):";
   "    pass";
   "";
   "";
   "class ProtocolError(RuntimeError):";
   "    pass";
   ""
  ].

(** [SandboxClient] up to its frames. *)
(* @src core/net/sdk.rs:51-115 write_python_sdk (text: SandboxClient, framing) *)
Definition sdk_framing : list string :=
  [
   "";
   "class SandboxClient:";
   "    ~~~High-throughput client for the kuda-sandbox daemon (binary wire protocol).~~~";
   "";
   "    def __init__(self, socket_path=DEFAULT_SOCKET_PATH):";
   "        self.socket_path = socket_path";
   "";
   "    # ---- low-level framing -------------------------------------------------";
   "    @staticmethod";
   "    def _pack_frame(msg_type, payload=b~~):";
   "        return HEADER.pack(MAGIC, msg_type, len(payload)) + payload";
   "";
   "    @staticmethod";
   "    def _recv_exact(sock, n):";
   "        buf = b~~";
   "        while len(buf) < n:";
   "            chunk = sock.recv(n - len(buf))";
   "            if not chunk:";
   "                raise ConnectionError(~daemon closed mid-frame~)";
   "            buf += chunk";
   "        return buf";
   "";
   "    def _send_frame(self, sock, msg_type, payload=b~~, fd=None):";
   "        data = self._pack_frame(msg_type, payload)";
   "        if fd is None:";
   "            sock.sendall(data)";
   "        else:";
   "            # Ancillary data rides on ONE sendmsg; remainder (if any) as plain bytes";
   "            fds = array.array(~i~, [fd])";
   "            sent = sock.sendmsg([data], [(socket.SOL_SOCKET, socket.SCM_RIGHTS, fds.tobytes())])";
   "            if sent < len(data):";
   "                sock.sendall(data[sent:])";
   "";
   "    def _recv_frame(self, sock):";
   "        header = self._recv_exact(sock, HEADER.size)";
   "        magic, msg_type, length = HEADER.unpack(header)";
   "        if magic != MAGIC:";
   "            raise ProtocolError(~bad wire magic %r~ % magic)";
   "        return msg_type, self._recv_exact(sock, length)";
   "";
   "    def _recv_fd_frame(self, sock):";
   "        ~~~Reads one full frame that may carry an SCM_RIGHTS descriptor.";
   "        The ancillary data arrives attached to the first recvmsg chunk.~~~";
   "        buf = b~~";
   "        fd = None";
   "        need = HEADER.size";
   "        while True:";
   "            want = max(1, need - len(buf))";
   "            data, ancdata, _, _ = sock.recvmsg(want)";
   "            if not data and not ancdata:";
   "                raise ConnectionError(~daemon closed mid-frame~)";
   "            if fd is None:";
   "                for level, ctype, cdata in ancdata:";
   "                    if level == socket.SOL_SOCKET and ctype == socket.SCM_RIGHTS:";
   "                        fd = struct.unpack(~i~, cdata[:array.array(~i~).itemsize])[0]";
   "            buf += data";
   "            if len(buf) >= HEADER.size and need == HEADER.size:";
   "                need = HEADER.size + HEADER.unpack(buf[:HEADER.size])[2]";
   "            if len(buf) >= need:";
   "                break";
   "        magic, msg_type, length = HEADER.unpack(buf[:HEADER.size])";
   "        if magic != MAGIC:";
   "            raise ProtocolError(~bad wire magic %r~ % magic)";
   "        return msg_type, buf[HEADER.size:need], fd";
   ""
  ].

(** [exec] and [fetch_file]. *)
(* @src core/net/sdk.rs:116-198 write_python_sdk (text: SandboxClient, exec and fetch_file) *)
Definition sdk_client : list string :=
  [
   "    # ---- high-level API ----------------------------------------------------";
   "    def exec(self, command, workspace=~.~, allow_net=False, ram_mb=512,";
   "             timeout_secs=60, stdin_file=None):";
   "        ~~~Run `command` in the sandbox. Streams stdout/stderr live to this";
   "        process. Returns (exit_code, metrics_dict).";
   "";
   "        stdin_file: local file handed to the remote child as stdin via an";
   "        SCM_RIGHTS descriptor pass — no byte copying through the socket.";
   "        ~~~";
   "        sock = socket.socket(socket.AF_UNIX, socket.SOCK_STREAM)";
   "        sock.connect(self.socket_path)";
   "        try:";
   "            req = json.dumps({{";
   "                ~command~: command,";
   "                ~workspace~: workspace,";
   "                ~allow_net~: allow_net,";
   "                ~ram_mb~: ram_mb,";
   "                ~timeout_secs~: timeout_secs,";
   "                ~stdin_from_fd~: bool(stdin_file),";
   "            }}).encode()";
   "";
   "            if stdin_file is not None:";
   "                fd = os.open(stdin_file, os.O_RDONLY)";
   "                try:";
   "                    self._send_frame(sock, T_EXEC_REQUEST, req, fd=fd)";
   "                finally:";
   "                    os.close(fd)";
   "            else:";
   "                self._send_frame(sock, T_EXEC_REQUEST, req)";
   "";
   "            while True:";
   "                mtype, payload = self._recv_frame(sock)";
   "                if mtype == T_STDOUT:";
   "                    sys.stdout.buffer.write(payload)";
   "                    sys.stdout.buffer.flush()";
   "                elif mtype == T_STDERR:";
   "                    sys.stderr.buffer.write(payload)";
   "                    sys.stderr.buffer.flush()";
   "                elif mtype == T_EXIT:";
   "                    st = json.loads(payload.decode())";
   "                    return st[~exit_code~], st[~metrics~]";
   "                elif mtype == T_ERROR:";
   "                    raise SandboxError(payload.decode())";
   "                else:";
   "                    raise ProtocolError(~unexpected frame type 0x%02x~ % mtype)";
   "        finally:";
   "            sock.close()";
   "";
   "    def fetch_file(self, remote_path, dest_path):";
   "        ~~~Zero-copy artifact retrieval: daemon passes an open FD over the";
   "        socket; we read straight from it into dest_path.~~~";
   "        sock = socket.socket(socket.AF_UNIX, socket.SOCK_STREAM)";
   "        sock.connect(self.socket_path)";
   "        try:";
   "            self._send_frame(sock, T_FILE_GET, remote_path.encode())";
   "";
   "            mtype, payload, fd = self._recv_fd_frame(sock)";
   "            if mtype == T_ERROR:";
   "                raise SandboxError(payload.decode())";
   "            if mtype != T_FILE_GET or fd is None or len(payload) < 8:";
   "                raise ProtocolError(~bad FILE_GET reply~)";
   "";
   "            expected = struct.unpack(~<Q~, payload[:8])[0]";
   "            leftover = payload[8:]";
   "            with os.fdopen(fd, ~rb~) as src, open(dest_path, ~wb~) as out:";
   "                out.write(leftover)";
   "                while True:";
   "                    chunk = src.read(1 << 20)";
   "                    if not chunk:";
   "                        break";
   "                    out.write(chunk)";
   "";
   "            mtype2, _ = self._recv_frame(sock)";
   "            if mtype2 != T_FILE_EOF:";
   "                raise ProtocolError(~missing EOF marker after FILE_GET~)";
   "";
   "            written = os.path.getsize(dest_path)";
   "            if written != expected:";
   "                raise ProtocolError(~size mismatch %d != %d~ % (written, expected))";
   "            return written";
   "        finally:";
   "            sock.close()";
   ""
  ].

(** [NetworkController]. *)
(* @src core/net/sdk.rs:199-251 write_python_sdk (text: NetworkController) *)
Definition sdk_control : list string :=
  [
   "";
   "class NetworkController:";
   "    ~~~Programmable Network Controller for Chaos Engineering & Distributed Simulation~~~";
   "";
   "    def __init__(self, socket_path=DEFAULT_SOCKET_PATH):";
   "        self.socket_path = socket_path";
   "";
   "    def _send_command(self, payload):";
   "        try:";
   "            with socket.socket(socket.AF_UNIX, socket.SOCK_STREAM) as s:";
   "                s.connect(self.socket_path)";
   "                s.sendall(json.dumps(payload).encode('utf-8') + b~\n~)";
   "                response = s.recv(4096)";
   "                if response:";
   "                    return json.loads(response.decode('utf-8'))";
   "        except Exception as e:";
   "            return {{~error~: str(e)}}";
   "        return {{~status~: ~unknown~}}";
   "";
   "    def set_latency(self, ms: int, jitter_ms: int = 0, packet_loss: float = 0.0):";
   "        ~~~Inject network delay in milliseconds and packet loss ratio (0.0 - 1.0)~~~";
   "        return self._send_command({{";
   "            ~action~: ~set_chaos~,";
   "            ~latency_ms~: ms,";
   "            ~jitter_ms~: jitter_ms,";
   "            ~packet_loss~: packet_loss";
   "        }})";
   "";
   "    def set_packet_loss(self, loss_rate: float):";
   "        ~~~Inject packet drop probability (e.g. 0.05 for 5% drop)~~~";
   "        return self.set_latency(ms=0, packet_loss=loss_rate)";
   "";
   "    def set_partition(self, blocked: bool = True):";
   "        ~~~Simulate total network partition / split-brain disconnect~~~";
   "        return self._send_command({{";
   "            ~action~: ~set_partition~,";
   "            ~blocked~: blocked";
   "        }})";
   "";
   "    def set_bandwidth_limit(self, kbps: int):";
   "        ~~~Throttle network throughput (e.g. 256 for 256 Kbps)~~~";
   "        return self._send_command({{";
   "            ~action~: ~set_bandwidth~,";
   "            ~kbps~: kbps";
   "        }})";
   "";
   "    def reset(self):";
   "        ~~~Restore pristine, uninhibited network conditions~~~";
   "        return self._send_command({{~action~: ~reset~}})";
   "";
   "    def get_status(self):";
   "        ~~~Retrieve current active chaos profile and network status~~~";
   "        return self._send_command({{~action~: ~get_status~}})"
  ].

Definition sdk_template : string :=
  unquote_template (lines_text (sdk_prelude ++ sdk_framing ++ sdk_client ++ sdk_control)).

(* @src core/net/sdk.rs:14-14 write_python_sdk (escaped_path) *)
Definition escape_path (p : string) : string :=
  replace_char quote (String backslash (String quote ""))
    (replace_char backslash (String backslash (String backslash "")) p).

(* @src core/net/sdk.rs:12-16 write_python_sdk *)
Definition write_python_sdk (workspace socket_path : path) : prog sys (Result unit) :=
  let sdk_file := path_join workspace "kuda_sandbox.py" in
  let content := format_socket (escape_path (display_path socket_path)) sdk_template in
  _ ←? map_err_p Io (call (WriteFile sdk_file content));
  ret? tt.

(** ** The socket path in Python *)

(** A Python string literal from its opening double quote on: the string and
    the rest of the line.  The escapes are those of a backslash and a quote;
    [None] stands for every other escape, for the end of the line and for the
    characters that end a line or the file. *)
Definition ends_literal (c : ascii) : bool :=
  bool_decide (c = "010"%char) || bool_decide (c = "013"%char) || bool_decide (c = "000"%char).

Fixpoint python_literal (s : string) : option (string * string) :=
  match s with
  | EmptyString => None
  | String c s =>
      if decide (c = quote) then Some (EmptyString, s)
      else if ends_literal c then None
      else if decide (c = backslash) then
        match s with
        | String d s =>
            if decide (d = quote \/ d = backslash)
            then prod_map (String d) id <$> python_literal s
            else None
        | EmptyString => None
        end
      else prod_map (String c) id <$> python_literal s
  end.

Fixpoint one_line (s : string) : bool :=
  match s with
  | EmptyString => true
  | String c s => negb (ends_literal c) && one_line s
  end.

Lemma escape_cons c p :
  escape_path (String c p) =
    (if decide (c = quote) then String backslash (String quote "")
     else if decide (c = backslash) then String backslash (String backslash "")
     else String c "") +:+ escape_path p.
Proof.
  unfold escape_path. cbn [replace_char].
  destruct (decide (c = backslash)) as [->|Hb].
  - cbn. destruct (decide (backslash = quote)) as [H|_]; [discriminate H|]. done.
  - cbn [replace_char]. by destruct (decide (c = quote)).
Qed.

Lemma python_literal_escape p rest :
  python_literal (escape_path p +:+ String quote rest) = if one_line p then Some (p, rest) else None.
Proof.
  induction p as [|c p IH]; [done|]. rewrite escape_cons.
  destruct (decide (c = quote)) as [->|Hq].
  { cbn. rewrite IH. by destruct (one_line p). }
  destruct (decide (c = backslash)) as [->|Hb].
  { cbn. rewrite IH. by destruct (one_line p). }
  cbn [String.append python_literal one_line].
  destruct (decide (c = quote)); [done|]. destruct (ends_literal c); [done|].
  destruct (decide (c = backslash)); [done|]. rewrite IH. by destruct (one_line p).
Qed.

(** The module around the path. *)
Definition sdk_split : option (string * string) :=
  (fun i => (String.substring 0 i (format_socket "@" sdk_template),
             String.substring (S i) (String.length (format_socket "@" sdk_template))
               (format_socket "@" sdk_template)))
    <$> String.index 0 "@" (format_socket "@" sdk_template).
Definition sdk_before : string := Eval vm_compute in default "" (fst <$> sdk_split).
Definition sdk_after : string := Eval vm_compute in default "" (snd <$> sdk_split).

Lemma format_socket_sdk arg : format_socket arg sdk_template = sdk_before +:+ arg +:+ sdk_after.
Proof. vm_compute. reflexivity. Qed.

(** The line that the path is on. *)
Definition path_line : string := nl +:+ "DEFAULT_SOCKET_PATH = " +:+ dq.
Definition sdk_head : string :=
  Eval vm_compute in
    String.substring 0 (String.length sdk_before - String.length path_line) sdk_before.
Definition sdk_rest : string :=
  Eval vm_compute in String.substring 1 (String.length sdk_after) sdk_after.

(** C36. Which socket the generated module talks to.  One file is written,
    [kuda_sandbox.py] in the workspace, and its text is fixed but for one line,
    which assigns [DEFAULT_SOCKET_PATH] a string literal.  Python reads that
    literal back as the displayed path, backslashes and quotes included, and
    goes on with the fixed text, exactly when this text has no line break and no
    NUL; otherwise it rejects the module.  The displayed path is the path the
    module was generated for exactly when that is valid UTF-8: for any other one
    the module names a different socket. *)
Theorem sdk_socket_path_roundtrip (workspace socket_path : path) :
  wp any_response (write_python_sdk workspace socket_path) (fun o t => exists r literal,
    t = [Ev (WriteFile (path_join workspace "kuda_sandbox.py")
               (sdk_head +:+ path_line +:+ literal)) r] /\
    o = Done (map_err Io r) /\
    python_literal literal =
      (if one_line (display_path socket_path) then Some (display_path socket_path, sdk_rest)
       else None) /\
    (display_path socket_path = socket_path <-> utf8_valid (bytes_of_string socket_path) = true)).
Proof.
  unfold write_python_sdk. prog_unfold. cbv zeta. rewrite format_socket_sdk.
  assert (sdk_before = sdk_head +:+ path_line) as -> by (vm_compute; reflexivity).
  assert (sdk_after = String quote sdk_rest) as -> by (vm_compute; reflexivity).
  rewrite <- append_assoc. cbn [prog_bind wp map_err].
  intros [[]|e] _; cbn [prog_bind wp map_err]; eexists _, _; (split; [reflexivity|]);
    (split; [reflexivity|split; [apply python_literal_escape|apply display_path_id]]).
Qed.
